(** * Soft-EEPROM storage engine: a shallow embedding and its properties

    The development embeds [src/softeeprom/softeeprom.c] (page layout,
    append-only entries, page swap, start-up recovery) and
    [src/softeeprom/softeeprom_wrapper.c] (byte-addressed wrapper) and
    states the properties of the natural-language specification over the
    embedding.

    Conventions of the embedding:
    - C integers are [Z]; every wrap-around of the source is written out
      ([u8], [u16], [u32]).
    - Pointers are byte addresses in [Z].  Dereferencing a pointer that is
      not a 4-byte aligned address of the 32-bit address space has no
      defined behaviour: the embedding yields no result ([None]).  The same
      holds for an array subscript outside its array.
    - The engine's globals are the fields of [State]; functions of the
      source become computations in the monad [M]. *)

From Stdlib Require Import ZArith Lia List Bool.
From stdpp Require Import base numbers list.
Import ListNotations.
Local Open Scope Z_scope.

(* ===================================================================== *)
(** * Machine integers *)

Definition u8 (x : Z) : Z := x mod 2 ^ 8.
Definition u16 (x : Z) : Z := x mod 2 ^ 16.
Definition u32 (x : Z) : Z := x mod 2 ^ 32.

(* ===================================================================== *)
(** * Constants of softeeprom.c and softeeprom.h *)

Definition ERASED_WORD : Z := 0xFFFFFFFF.
Definition MAX_SOFTEEPROM_IDS : Z := 127.
Definition NUM_IDS : Z := MAX_SOFTEEPROM_IDS.
Definition NUM_VECTOR_BITS : Z := NUM_IDS + 8 - (NUM_IDS mod 8).
Definition NUM_VECTOR_BYTES : Z := NUM_VECTOR_BITS / 8.
Definition EEPROM_BOUNDARY : Z := 0x1000.

Definition ERR_NOT_INIT : Z := 0x0001.
Definition ERR_ILLEGAL_ID : Z := 0x0002.
Definition ERR_PG_ERASE : Z := 0x0003.
Definition ERR_PG_WRITE : Z := 0x0004.
Definition ERR_ACTIVE_PG_CNT : Z := 0x0005.
Definition ERR_RANGE : Z := 0x0006.
Definition ERR_AVAIL_ENTRY : Z := 0x0007.
Definition ERR_TWO_ACTIVE_NO_FULL : Z := 0x0008.
Definition ERR_SWAP : Z := 0x8000.

(** The size of the ulDataBuffer array of PageSwap. *)
Definition DATA_BUFFER_WORDS : Z := 32.

(* ===================================================================== *)
(** * The flash medium *)

(** The flash array: the 32-bit word stored at each byte address. *)
Definition mem : Type := Z -> Z.

Definition valid_ptr (a : Z) : bool :=
  (0 <=? a) && (a + 4 <=? 2 ^ 32) && (a mod 4 =? 0).

Definition store (m : mem) (a v : Z) : mem :=
  fun x => if x =? a then v else m x.

(** Modelled from the spec: the erase unit of the Block Device Adapter
    (FLASH_ERASE_SIZE of the platform driver's flash.h, which is not among
    the sources; softeeprom.c documents 1K byte erasable blocks). *)
Definition FLASH_ERASE_SIZE : Z := 0x400.

(** Modelled from the spec: the Block Device Adapter's erase (FlashErase of
    the platform driver, not among the sources), "erases one
    erase-unit-sized block at addr; must leave all bits in the erased
    pattern". *)
Definition erase_block (m : mem) (a : Z) : mem :=
  let base := a - a mod FLASH_ERASE_SIZE in
  fun x => if (base <=? x) && (x <? base + FLASH_ERASE_SIZE)
           then ERASED_WORD else m x.

(** Modelled from the spec: the Block Device Adapter's program (FlashProgram
    of the platform driver, not among the sources), "programs one or more
    words at addr; each physical location may be programmed only once since
    its last erase": programming can only clear bits, so an erased word
    takes the programmed value and any other word keeps only the bits
    common to its content and the programmed value. *)
Fixpoint program_words (m : mem) (a : Z) (ws : list Z) : mem :=
  match ws with
  | [] => m
  | w :: ws' => program_words (store m a (Z.land (m a) w)) (a + 4) ws'
  end.

(* ===================================================================== *)
(** * Engine state and the monad of the embedding *)

Record State : Type := mkState {
  flash : mem;                    (* the medium *)
  hist : list mem;                (* ghost: the medium after each erase or
                                     program step, most recent first *)
  ulFlashSize : Z;                (* what SysCtlFlashSizeGet() returns *)
  g_pucEEPROMStart : Z;
  g_pucEEPROMEnd : Z;
  g_ulEEPROMPgSize : Z;
  g_bEEPROMInitialized : bool;
  g_pucActivePage : Z;
  g_pucNextAvailEntry : Z
}.

Definition set_flash (m : mem) (s : State) : State :=
  mkState m (m :: hist s) (ulFlashSize s) (g_pucEEPROMStart s)
          (g_pucEEPROMEnd s) (g_ulEEPROMPgSize s) (g_bEEPROMInitialized s)
          (g_pucActivePage s) (g_pucNextAvailEntry s).

Definition set_region (st en sz : Z) (s : State) : State :=
  mkState (flash s) (hist s) (ulFlashSize s) st en sz
          (g_bEEPROMInitialized s) (g_pucActivePage s)
          (g_pucNextAvailEntry s).

Definition set_initialized (b : bool) (s : State) : State :=
  mkState (flash s) (hist s) (ulFlashSize s) (g_pucEEPROMStart s)
          (g_pucEEPROMEnd s) (g_ulEEPROMPgSize s) b
          (g_pucActivePage s) (g_pucNextAvailEntry s).

Definition set_active (p : Z) (s : State) : State :=
  mkState (flash s) (hist s) (ulFlashSize s) (g_pucEEPROMStart s)
          (g_pucEEPROMEnd s) (g_ulEEPROMPgSize s) (g_bEEPROMInitialized s)
          p (g_pucNextAvailEntry s).

Definition set_next (p : Z) (s : State) : State :=
  mkState (flash s) (hist s) (ulFlashSize s) (g_pucEEPROMStart s)
          (g_pucEEPROMEnd s) (g_ulEEPROMPgSize s) (g_bEEPROMInitialized s)
          (g_pucActivePage s) p.

(** The state with a new medium, reached through the media [l] (most recent
    first); everything else is as in [s]. *)
Definition with_medium (m : mem) (l : list mem) (s : State) : State :=
  mkState m (l ++ hist s) (ulFlashSize s) (g_pucEEPROMStart s)
          (g_pucEEPROMEnd s) (g_ulEEPROMPgSize s) (g_bEEPROMInitialized s)
          (g_pucActivePage s) (g_pucNextAvailEntry s).

(** A computation either has no defined result ([None]: undefined behaviour
    of the C program, or a loop that does not terminate) or returns a value
    and the next state. *)
Definition M (A : Type) : Type := State -> option (A * State).

Definition ret {A} (a : A) : M A := fun s => Some (a, s).

Definition bind {A B} (c : M A) (k : A -> M B) : M B :=
  fun s => match c s with
           | Some (a, s') => k a s'
           | None => None
           end.

Definition undefined {A} : M A := fun _ => None.

Definition gets {A} (f : State -> A) : M A := fun s => Some (f s, s).

Definition modify (f : State -> State) : M unit := fun s => Some (tt, f s).

Declare Scope eeprom_scope.
Delimit Scope eeprom_scope with eeprom.
Notation "x <- c ;; k" := (bind c (fun x => k))
  (at level 100, c at next level, right associativity) : eeprom_scope.
Notation "c ;;; k" := (bind c (fun _ => k))
  (at level 100, right associativity) : eeprom_scope.
Local Open Scope eeprom_scope.

(** [*(unsigned long * )a] *)
Definition load (a : Z) : M Z :=
  fun s => if valid_ptr a then Some (flash s a, s) else None.

(** [arr[i]] as an rvalue, for an array modelled by a list. *)
Definition array_get (arr : list Z) (i : Z) : M Z :=
  if (0 <=? i) && (i <? Z.of_nat (length arr))
  then match arr !! Z.to_nat i with
       | Some v => ret v
       | None => undefined
       end
  else undefined.

(** [arr[i] = v] *)
Definition array_set (arr : list Z) (i v : Z) : M (list Z) :=
  if (0 <=? i) && (i <? Z.of_nat (length arr))
  then ret (<[Z.to_nat i := v]> arr)
  else undefined.

(** The driver calls; both report success (0) in this model of the medium. *)
Definition FlashErase (ulAddress : Z) : M Z :=
  fun s => Some (0, set_flash (erase_block (flash s) ulAddress) s).

Definition FlashProgram (pulData : list Z) (ulAddress ulCount : Z) : M Z :=
  fun s => Some (0, set_flash
                      (program_words (flash s) ulAddress
                                     (take (Z.to_nat (ulCount / 4)) pulData))
                      s).

(* ===================================================================== *)
(** * PageErase and PageDataWrite *)

(** The loop of PageErase over the flash blocks of the page; [true] when a
    block erase failed. *)
Fixpoint PageErase_blocks (n : nat) (pucAddr : Z) : M bool :=
  match n with
  | O => ret false
  | S n' =>
      rc <- FlashErase pucAddr ;;
      if negb (rc =? 0) then ret true
      else PageErase_blocks n' (pucAddr + FLASH_ERASE_SIZE)
  end.

Definition PageErase (pucPageAddr : Z) : M Z :=
  ulSize <- gets g_ulEEPROMPgSize ;;
  failed <- PageErase_blocks
              (Z.to_nat ((ulSize + FLASH_ERASE_SIZE - 1) / FLASH_ERASE_SIZE))
              pucPageAddr ;;
  if failed then ret (-1)
  else
    w0 <- load pucPageAddr ;;
    if negb (w0 =? ERASED_WORD) then ret (-1)
    else
      w1 <- load (pucPageAddr + 4) ;;
      if negb (w1 =? ERASED_WORD) then ret (-1) else ret 0.

(** The verification loop of PageDataWrite,
    [for(ulByteCount = 0; ulByteCount < ulByteCount; ulByteCount += 4)]:
    the loop variable is the byte-count parameter itself, compared with
    itself.  [fuel] bounds the unfolding. *)
Fixpoint PageDataWrite_verify (fuel : nat) (ulByteCount : Z)
         (pulData : list Z) (pucPgAddr : Z) : M Z :=
  match fuel with
  | O => undefined
  | S fuel' =>
      if ulByteCount <? ulByteCount then
        w <- load pucPgAddr ;;
        match pulData with
        | [] => undefined
        | d :: pulData' =>
            if negb (w =? d) then ret (-1)
            else PageDataWrite_verify fuel' (u32 (ulByteCount + 4))
                                      pulData' (pucPgAddr + 4)
        end
      else ret 0
  end.

Definition PageDataWrite (pulData : list Z) (pucPgAddr ulByteCount : Z)
  : M Z :=
  rc <- FlashProgram pulData pucPgAddr ulByteCount ;;
  if negb (rc =? 0) then ret (-1)
  else PageDataWrite_verify (S (Z.to_nat (ulByteCount / 4))) 0
                            pulData pucPgAddr.

(* ===================================================================== *)
(** * Page status *)

Definition PageIsActive (pucPageAddr : Z) : M bool :=
  w0 <- load pucPageAddr ;;
  if negb (w0 =? ERASED_WORD) then
    w1 <- load (pucPageAddr + 4) ;;
    ret (w1 =? ERASED_WORD)
  else ret false.

Definition PageIsUsed (pucPageAddr : Z) : M bool :=
  w0 <- load pucPageAddr ;;
  if negb (w0 =? ERASED_WORD) then
    w1 <- load (pucPageAddr + 4) ;;
    ret (negb (w1 =? ERASED_WORD))
  else ret false.

(** The addresses visited by
    [for(p = g_pucEEPROMStart; p < g_pucEEPROMEnd; p += g_ulEEPROMPgSize)].
    With a page size of 0 and a non-empty region the loop never ends. *)
Definition page_addrs (st en sz : Z) : option (list Z) :=
  if en <=? st then Some []
  else if sz <=? 0 then None
  else Some ((fun i => st + i * sz) <$> seqZ 0 ((en - st + sz - 1) / sz)).

Definition eeprom_pages : M (list Z) :=
  fun s => match page_addrs (g_pucEEPROMStart s) (g_pucEEPROMEnd s)
                            (g_ulEEPROMPgSize s) with
           | Some ps => Some (ps, s)
           | None => None
           end.

Fixpoint count_pages (test : Z -> M bool) (ps : list Z) (ucCnt : Z) : M Z :=
  match ps with
  | [] => ret ucCnt
  | p :: ps' =>
      b <- test p ;;
      count_pages test ps' (if b then u8 (ucCnt + 1) else ucCnt)
  end.

Definition GetActivePageCount : M Z :=
  ps <- eeprom_pages ;; count_pages PageIsActive ps 0.

Definition GetUsedPageCount : M Z :=
  ps <- eeprom_pages ;; count_pages PageIsUsed ps 0.

Fixpoint GetNextAvailEntry_loop (n : nat) (pucPageAddr : Z) : M Z :=
  match n with
  | O => ret pucPageAddr
  | S n' =>
      w <- load pucPageAddr ;;
      if w =? ERASED_WORD then ret pucPageAddr
      else GetNextAvailEntry_loop n' (pucPageAddr + 4)
  end.

Definition GetNextAvailEntry : M Z :=
  ulSize <- gets g_ulEEPROMPgSize ;;
  pucActive <- gets g_pucActivePage ;;
  let usSize := u16 (u32 (ulSize / 4 - 2)) in
  GetNextAvailEntry_loop (Z.to_nat usSize) (pucActive + 8).

Fixpoint GetMostRecentlyUsedPage_loop (ps : list Z)
         (ulActiveStatusCnt pucMRUPage : Z) : M Z :=
  match ps with
  | [] => ret pucMRUPage
  | p :: ps' =>
      used <- PageIsUsed p ;;
      if used then
        w <- load p ;;
        if w >? ulActiveStatusCnt
        then GetMostRecentlyUsedPage_loop ps' w p
        else GetMostRecentlyUsedPage_loop ps' ulActiveStatusCnt pucMRUPage
      else GetMostRecentlyUsedPage_loop ps' ulActiveStatusCnt pucMRUPage
  end.

Definition GetMostRecentlyUsedPage : M Z :=
  ps <- eeprom_pages ;; GetMostRecentlyUsedPage_loop ps 0 0xFFFFFFFF.

(** [(p + g_ulEEPROMPgSize) < g_pucEEPROMEnd ? (p + g_ulEEPROMPgSize)
     : g_pucEEPROMStart] *)
Definition next_page (p : Z) : M Z :=
  ulSize <- gets g_ulEEPROMPgSize ;;
  pucEnd <- gets g_pucEEPROMEnd ;;
  pucStart <- gets g_pucEEPROMStart ;;
  ret (if p + ulSize <? pucEnd then p + ulSize else pucStart).

(* ===================================================================== *)
(** * PageSwap *)

(** The local variables of PageSwap that its copy loop updates. *)
Record SwapVars : Type := mkSwapVars {
  ucIDSwapped : list Z;
  ulDataBuffer : list Z;
  ulNumWordsInBuffer : Z;
  ulByteCount : Z;
  pucNewEntry : Z;
  pucUsedEntry : Z
}.

(** One iteration of the copy loop.  [inl rc]: the function returns [rc]
    from inside the loop; [inr v]: the loop goes on with the variables [v]. *)
Definition PageSwap_entry (v : SwapVars) : M (Z + SwapVars) :=
  ulEntry <- load (pucUsedEntry v) ;;
  let pucUsedEntry' := pucUsedEntry v - 4 in
  let usEntryID := u16 (Z.shiftr ulEntry 16) in
  b <- array_get (ucIDSwapped v) (usEntryID / 8) ;;
  if (Z.land b (Z.shiftl 1 (usEntryID mod 8)) =? 0)
     && negb (usEntryID =? 0xFF)
  then
    buf <- array_set (ulDataBuffer v) (ulNumWordsInBuffer v) ulEntry ;;
    let n := u32 (ulNumWordsInBuffer v + 1) in
    b' <- array_get (ucIDSwapped v) (usEntryID / 8) ;;
    vec <- array_set (ucIDSwapped v) (usEntryID / 8)
                     (u8 (Z.lor b' (Z.shiftl 1 (usEntryID mod 8)))) ;;
    let cnt := u32 (ulByteCount v - 4) in
    if cnt =? 0 then
      rc <- PageDataWrite buf (pucNewEntry v) (u32 (n * 4)) ;;
      if negb (rc =? 0) then ret (inl (Z.lor ERR_SWAP ERR_PG_WRITE))
      else ret (inr (mkSwapVars vec buf 0 (32 * 4)
                                (pucNewEntry v + n * 4) pucUsedEntry'))
    else ret (inr (mkSwapVars vec buf n cnt (pucNewEntry v) pucUsedEntry'))
  else
    ret (inr (mkSwapVars (ucIDSwapped v) (ulDataBuffer v)
                         (ulNumWordsInBuffer v) (ulByteCount v)
                         (pucNewEntry v) pucUsedEntry')).

(** [for(usCnt = 0; usCnt < usSize; usCnt++)] *)
Fixpoint PageSwap_loop (n : nat) (v : SwapVars) : M (Z + SwapVars) :=
  match n with
  | O => ret (inr v)
  | S n' =>
      r <- PageSwap_entry v ;;
      match r with
      | inl rc => ret (inl rc)
      | inr v' => PageSwap_loop n' v'
      end
  end.

(** ulDataBuffer is a static array; only the words below
    ulNumWordsInBuffer are ever read, so its content on entry is immaterial
    and taken to be zero. *)
Definition PageSwap (pucFullPageAddr : Z) : M Z :=
  let vec0 := replicate (Z.to_nat NUM_VECTOR_BYTES) 0 in
  let buf0 := replicate (Z.to_nat DATA_BUFFER_WORDS) 0 in
  pucNewPageAddr <- next_page pucFullPageAddr ;;
  rc <- PageErase pucNewPageAddr ;;
  if negb (rc =? 0) then ret (Z.lor ERR_SWAP ERR_PG_ERASE)
  else
    ulSize <- gets g_ulEEPROMPgSize ;;
    let usSize := u16 (u32 (ulSize / 4 - 2)) in
    let v0 := mkSwapVars vec0 buf0 0
                (u32 (32 - Z.land (pucNewPageAddr + 8) 0x7F))
                (pucNewPageAddr + 8) (pucFullPageAddr + ulSize - 4) in
    r <- PageSwap_loop (Z.to_nat usSize) v0 ;;
    match r with
    | inl rc => ret rc
    | inr v =>
        r2 <- (if negb (ulNumWordsInBuffer v =? 0) then
                 rc <- PageDataWrite (ulDataBuffer v) (pucNewEntry v)
                                     (u32 (ulNumWordsInBuffer v * 4)) ;;
                 if negb (rc =? 0) then ret (inl (Z.lor ERR_SWAP ERR_PG_WRITE))
                 else ret (inr (pucNewEntry v + ulNumWordsInBuffer v * 4))
               else ret (inr (pucNewEntry v))) ;;
        match r2 with
        | inl rc => ret rc
        | inr pucNewEntry' =>
            w <- load pucFullPageAddr ;;
            buf1 <- array_set (ulDataBuffer v) 0 (u32 (w + 1)) ;;
            rc <- PageDataWrite buf1 pucNewPageAddr 4 ;;
            if negb (rc =? 0) then ret (Z.lor ERR_SWAP ERR_PG_WRITE)
            else
              buf2 <- array_set buf1 0 (u32 (Z.lnot ERASED_WORD)) ;;
              rc <- PageDataWrite buf2 (pucFullPageAddr + 4) 4 ;;
              if negb (rc =? 0) then ret (Z.lor ERR_SWAP ERR_PG_WRITE)
              else
                modify (set_active pucNewPageAddr) ;;;
                modify (set_next pucNewEntry') ;;;
                if negb (pucNewEntry' <? pucNewPageAddr + ulSize)
                then ret (Z.lor ERR_SWAP ERR_AVAIL_ENTRY)
                else ret 0
        end
    end.

(* ===================================================================== *)
(** * SoftEEPROMInit *)

(** Each recovery branch yields the error code it returns, or 0 when it
    falls through to the common end of SoftEEPROMInit (all error codes are
    non-zero). *)

Definition init_activate (pucPage ulActiveStatusCnt : Z)
           (erase_first : bool) : M Z :=
  rc <- (if erase_first then PageErase pucPage else ret 0) ;;
  if negb (rc =? 0) then ret ERR_PG_ERASE
  else
    rc <- PageDataWrite [ulActiveStatusCnt] pucPage 4 ;;
    if negb (rc =? 0) then ret ERR_PG_WRITE
    else
      modify (set_active pucPage) ;;;
      modify (set_next (pucPage + 8)) ;;;
      ret 0.

Definition init_fresh : M Z :=
  pucStart <- gets g_pucEEPROMStart ;;
  init_activate pucStart 0 true.

Definition init_after_clear : M Z :=
  pucPageAddr <- GetMostRecentlyUsedPage ;;
  w <- load pucPageAddr ;;
  let ulActiveStatusCnt := u32 (w + 1) in
  pucPageAddr' <- next_page pucPageAddr ;;
  init_activate pucPageAddr' ulActiveStatusCnt true.

(** The page loops of the one- and two-active branches; without a break the
    loop variable ends at [pucAfter]. *)
Fixpoint find_active_page (ps : list Z) (pucAfter : Z) : M Z :=
  match ps with
  | [] => ret pucAfter
  | p :: ps' =>
      b <- PageIsActive p ;;
      if b then ret p else find_active_page ps' pucAfter
  end.

Fixpoint find_full_active_page (ps : list Z) (pucAfter : Z)
  : M (bool * Z) :=
  match ps with
  | [] => ret (false, pucAfter)
  | p :: ps' =>
      b <- PageIsActive p ;;
      if b then
        ulSize <- gets g_ulEEPROMPgSize ;;
        w <- load (p + ulSize - 4) ;;
        if negb (w =? 0xFFFFFFFF) then ret (true, p)
        else find_full_active_page ps' pucAfter
      else find_full_active_page ps' pucAfter
  end.

Definition loop_end (ps : list Z) : M Z :=
  pucStart <- gets g_pucEEPROMStart ;;
  ulSize <- gets g_ulEEPROMPgSize ;;
  ret (pucStart + Z.of_nat (length ps) * ulSize).

Definition init_one_active : M Z :=
  ps <- eeprom_pages ;;
  pucAfter <- loop_end ps ;;
  pucActivePg <- find_active_page ps pucAfter ;;
  pucStart <- gets g_pucEEPROMStart ;;
  pucEnd <- gets g_pucEEPROMEnd ;;
  ulSize <- gets g_ulEEPROMPgSize ;;
  let pucPageAddr := if pucActivePg =? pucStart then pucEnd - ulSize
                     else pucActivePg - ulSize in
  used <- PageIsUsed pucPageAddr ;;
  if used then
    wu <- load pucPageAddr ;;
    wa <- load pucActivePg ;;
    if wu =? u32 (wa - 1) then
      modify (set_active pucActivePg) ;;;
      pucNext <- GetNextAvailEntry ;;
      modify (set_next pucNext) ;;;
      ret 0
    else
      rc <- PageErase pucActivePg ;;
      if negb (rc =? 0) then ret ERR_PG_ERASE
      else
        wu' <- load pucPageAddr ;;
        init_activate pucActivePg (u32 (wu' + 1)) false
  else
    modify (set_active pucActivePg) ;;;
    pucNext <- GetNextAvailEntry ;;
    modify (set_next pucNext) ;;;
    ret 0.

Definition init_two_active : M Z :=
  ps <- eeprom_pages ;;
  pucAfter <- loop_end ps ;;
  r <- find_full_active_page ps pucAfter ;;
  let '(bFullPgFound, pucActivePg) := r in
  if bFullPgFound then
    ulSize <- gets g_ulEEPROMPgSize ;;
    modify (set_active pucActivePg) ;;;
    modify (set_next (pucActivePg + ulSize)) ;;;
    ret 0
  else ret ERR_TWO_ACTIVE_NO_FULL.

(** The recovery decision of SoftEEPROMInit, by the number of pages marked
    active. *)
Definition init_recover : M Z :=
  ucActivePgCnt <- GetActivePageCount ;;
  if ucActivePgCnt =? 0 then
    ucUsed <- GetUsedPageCount ;;
    if ucUsed =? 0 then init_fresh else init_after_clear
  else if ucActivePgCnt =? 1 then init_one_active
  else if ucActivePgCnt =? 2 then init_two_active
  else ret ERR_ACTIVE_PG_CNT.

(** The ASSERTs on the arguments are checks of debug builds only; they are
    the hypotheses [valid_config] of the theorems below. FlashUsecSet only
    sets the flash controller's timing. *)
Definition SoftEEPROMInit (ulStart ulEnd ulSize : Z) : M Z :=
  ulFlash <- gets ulFlashSize ;;
  if ulEnd >? ulFlash then ret ERR_RANGE
  else
    modify (set_region (Z.land ulStart (Z.lnot (EEPROM_BOUNDARY - 1)))
                       (Z.land ulEnd (Z.lnot (EEPROM_BOUNDARY - 1)))
                       ulSize) ;;;
    rc <- init_recover ;;
    if negb (rc =? 0) then ret rc
    else
      modify (set_initialized true) ;;;
      ret 0.

(* ===================================================================== *)
(** * SoftEEPROMWrite, SoftEEPROMRead, SoftEEPROMClear *)

Definition SoftEEPROMWrite (usID usData : Z) : M Z :=
  inited <- gets g_bEEPROMInitialized ;;
  if negb inited then ret ERR_NOT_INIT
  else if usID >=? NUM_IDS then ret ERR_ILLEGAL_ID
  else
    pucNext <- gets g_pucNextAvailEntry ;;
    pucActive <- gets g_pucActivePage ;;
    ulSize <- gets g_ulEEPROMPgSize ;;
    lReturnCode <- (if pucNext >=? pucActive + ulSize
                    then PageSwap pucActive else ret 0) ;;
    if negb (lReturnCode =? 0) then ret lReturnCode
    else
      let ulEntry := Z.lor (Z.shiftl usID 16) usData in
      pucNext' <- gets g_pucNextAvailEntry ;;
      rc <- PageDataWrite [ulEntry] pucNext' 4 ;;
      if negb (rc =? 0) then ret ERR_PG_WRITE
      else
        modify (set_next (pucNext' + 4)) ;;;
        ret 0.

(** The loop of SoftEEPROMRead,
    [for(pucEntry = g_pucNextAvailEntry - 4;
         pucEntry >= g_pucActivePage + 8; pucEntry -= 4)],
    with its number of iterations; the result is the pair stored through
    pusData and pbFound. *)
Fixpoint SoftEEPROMRead_loop (n : nat) (usID pucEntry : Z) : M (Z * bool) :=
  match n with
  | O => ret (0xFFFF, false)
  | S n' =>
      w <- load pucEntry ;;
      if Z.shiftr w 16 =? usID then ret (u16 (Z.land w 0xFFFF), true)
      else SoftEEPROMRead_loop n' usID (pucEntry - 4)
  end.

(** The result is the return code and, when the function got as far as
    storing through its out-parameters, the values of [*pusData] and
    [*pbFound]. *)
Definition SoftEEPROMRead (usID : Z) : M (Z * option (Z * bool)) :=
  inited <- gets g_bEEPROMInitialized ;;
  if negb inited then ret (ERR_NOT_INIT, None)
  else if usID >? NUM_IDS - 1 then ret (ERR_ILLEGAL_ID, None)
  else
    pucNext <- gets g_pucNextAvailEntry ;;
    pucActive <- gets g_pucActivePage ;;
    out <- SoftEEPROMRead_loop
             (Z.to_nat ((pucNext - 4 - (pucActive + 8)) / 4 + 1))
             usID (pucNext - 4) ;;
    ret (0, Some out).

Definition SoftEEPROMClear : M Z :=
  inited <- gets g_bEEPROMInitialized ;;
  if negb inited then ret ERR_NOT_INIT
  else
    pucActive <- gets g_pucActivePage ;;
    rc <- PageDataWrite [u32 (Z.lnot ERASED_WORD)] (pucActive + 4) 4 ;;
    if negb (rc =? 0) then ret ERR_PG_WRITE
    else
      pucNewPageAddr <- next_page pucActive ;;
      rc <- PageErase pucNewPageAddr ;;
      if negb (rc =? 0) then ret ERR_PG_ERASE
      else
        w <- load pucActive ;;
        rc <- PageDataWrite [u32 (w + 1)] pucNewPageAddr 4 ;;
        if negb (rc =? 0) then ret ERR_PG_WRITE
        else
          modify (set_active pucNewPageAddr) ;;;
          modify (set_next (pucNewPageAddr + 8)) ;;;
          ret 0.

(* ===================================================================== *)
(** * The addressing wrapper (softeeprom_wrapper.c) *)

(** How a wrapper call ends: it returns [lReturn], or it calls
    OutputErrorAndQuit, which reports the error and then loops for ever. *)
Inductive WrapperOutcome : Type :=
| WReturn (lReturn : Z)
| WQuit (ulError : Z).

Section Wrapper.

(** The range-error code is defined in softeeprom_wrapper.h, which is not
    among the sources; it is a parameter of the wrapper's embedding. *)
Variable ERR_PAGE_RANGE : Z.

(** [*(pucData++)] on the caller's buffer. *)
Definition next_byte (pucData : list Z) : M (Z * list Z) :=
  match pucData with
  | [] => undefined
  | b :: rest => ret (b, rest)
  end.

(** The loop [while(usSize>0)] of SoftEEPROM_WrapperWrite; the result is
    lReturn when the loop is left.  Every iteration decreases usSize, which
    bounds the unfolding. *)
Fixpoint WrapperWrite_loop (fuel : nat) (usAddress usSize : Z)
         (pucData : list Z) (lReturn : Z) : M Z :=
  match fuel with
  | O => if usSize >? 0 then undefined else ret lReturn
  | S fuel' =>
      if usSize >? 0 then
        if (usAddress mod 2 =? 1) || (usSize =? 1) then
          r <- SoftEEPROMRead (usAddress / 2) ;;
          let usData := match snd r with
                        | Some (d, _) => d
                        | None => 0xFFFF
                        end in
          bp <- next_byte pucData ;;
          let '(b, pucData') := bp in
          let usData' :=
            if usAddress mod 2 =? 1
            then u16 (Z.lor (Z.land usData 0x00FF) (Z.shiftl (u16 b) 8))
            else u16 (Z.lor (Z.land usData 0xFF00) (u16 b)) in
          lReturn' <- SoftEEPROMWrite (usAddress / 2) usData' ;;
          if negb (lReturn' =? 0) then ret lReturn'
          else WrapperWrite_loop fuel' (u16 (usAddress + 1))
                                 (u16 (usSize - 1)) pucData' lReturn'
        else
          b0p <- next_byte pucData ;;
          let '(b0, rest0) := b0p in
          b1p <- next_byte rest0 ;;
          let '(b1, pucData') := b1p in
          let usData := u16 (Z.lor (u16 b0) (Z.shiftl (u16 b1) 8)) in
          lReturn' <- SoftEEPROMWrite (usAddress / 2) usData ;;
          if negb (lReturn' =? 0) then ret lReturn'
          else WrapperWrite_loop fuel' (u16 (usAddress + 2))
                                 (u16 (usSize - 2)) pucData' lReturn'
      else ret lReturn
  end.

Definition SoftEEPROM_WrapperWrite (usAddress usSize : Z)
           (pucData : list Z) : M WrapperOutcome :=
  if (usAddress + usSize) / 2 >? MAX_SOFTEEPROM_IDS
  then ret (WReturn ERR_PAGE_RANGE)
  else
    lReturn <- WrapperWrite_loop (Z.to_nat usSize) usAddress usSize
                                 pucData 0 ;;
    if negb (lReturn =? 0) then ret (WQuit lReturn)
    else ret (WReturn lReturn).

(** The loop of SoftEEPROM_WrapperRead; [out] collects the bytes stored
    through pucData, in order. *)
Fixpoint WrapperRead_loop (fuel : nat) (usAddress usSize usData : Z)
         (out : list Z) (lReturn : Z) : M (Z * list Z) :=
  match fuel with
  | O => if usSize >? 0 then undefined else ret (lReturn, out)
  | S fuel' =>
      if usSize >? 0 then
        r <- SoftEEPROMRead (usAddress / 2) ;;
        let lReturn' := fst r in
        let usData' := match snd r with
                       | Some (d, _) => d
                       | None => usData
                       end in
        if usAddress mod 2 =? 1 then
          WrapperRead_loop fuel' (u16 (usAddress + 1)) (u16 (usSize - 1))
                           usData' (out ++ [u8 (Z.shiftr usData' 8)])
                           lReturn'
        else if usSize >? 1 then
          WrapperRead_loop fuel' (u16 (usAddress + 2)) (u16 (usSize - 2))
                           usData'
                           (out ++ [u8 (Z.land usData' 0x00FF);
                                    u8 (Z.shiftr usData' 8)])
                           lReturn'
        else
          WrapperRead_loop fuel' usAddress (u16 (usSize - 1)) usData'
                           (out ++ [u8 (Z.land usData' 0x00FF)]) lReturn'
      else ret (lReturn, out)
  end.

Definition SoftEEPROM_WrapperRead (usAddress usSize : Z)
  : M (WrapperOutcome * list Z) :=
  if (usAddress + usSize) / 2 >? MAX_SOFTEEPROM_IDS
  then ret (WReturn ERR_PAGE_RANGE, [])
  else
    r <- WrapperRead_loop (Z.to_nat usSize) usAddress usSize 0 [] 0 ;;
    let '(lReturn, out) := r in
    if negb (lReturn =? 0) then ret (WQuit lReturn, out)
    else ret (WReturn lReturn, out).

End Wrapper.

(* ===================================================================== *)
(** * A concrete device, for the examples *)

(** The region of the application (enet_lwip.c): four pages of 1 KB from
    0x3D000, on a part with 256 KB of flash. *)
Definition EEPROM_START_ADDR : Z := 0x3D000.
Definition EEPROM_PAGE_SIZE : Z := 0x400.
Definition EEPROM_END_ADDR : Z := EEPROM_START_ADDR + 4 * EEPROM_PAGE_SIZE.

Definition blank : mem := fun _ => ERASED_WORD.

Definition power_on (m : mem) : State :=
  mkState m [] 0x40000 0 0 0 false 0 0.

(** Running a computation for its state, from a given state. *)
Definition exec {A} (c : M A) (s : State) : option State :=
  match c s with Some (_, s') => Some s' | None => None end.

Definition boot (m : mem) : option (Z * State) :=
  SoftEEPROMInit EEPROM_START_ADDR EEPROM_END_ADDR EEPROM_PAGE_SIZE
                 (power_on m).


(* ===================================================================== *)
(** * Specification-level notions *)

(** The conditions SoftEEPROMInit ASSERTs on its arguments, the ranges of
    their C types, the documented requirement that the page size divides
    the region, and the bound that lets the page's entry count fit the
    unsigned short counters of the source. *)
Record valid_config (st en sz : Z) : Prop := mk_valid_config {
  vc_start_lo : 0 <= st;
  vc_order : st < en;
  vc_end_hi : en < 2 ^ 32;
  vc_start_al : st mod EEPROM_BOUNDARY = 0;
  vc_end_al : en mod EEPROM_BOUNDARY = 0;
  vc_size_al : sz mod FLASH_ERASE_SIZE = 0;
  vc_size_ids : sz / 4 >= MAX_SOFTEEPROM_IDS * 2;
  vc_pages : (en - st) / sz >= 2;
  vc_div : (en - st) mod sz = 0;
  vc_size_hi : sz / 4 - 2 < 2 ^ 16
}.

Definition valid_configb (st en sz : Z) : bool :=
  (0 <=? st) && (st <? en) && (en <? 2 ^ 32)
  && (st mod EEPROM_BOUNDARY =? 0) && (en mod EEPROM_BOUNDARY =? 0)
  && (sz mod FLASH_ERASE_SIZE =? 0) && (sz / 4 >=? MAX_SOFTEEPROM_IDS * 2)
  && ((en - st) / sz >=? 2) && ((en - st) mod sz =? 0)
  && (sz / 4 - 2 <? 2 ^ 16).

(** The number of entry slots of a page and the address of slot [i]. *)
Definition slots_per_page (sz : Z) : Z := sz / 4 - 2.
Definition slot_addr (p i : Z) : Z := p + 8 + 4 * i.

(** Entry codec: the key and the value of a slot word. *)
Definition entry_key (w : Z) : Z := Z.shiftr w 16.
Definition entry_value (w : Z) : Z := u16 (Z.land w 0xFFFF).
Definition encode (usID usData : Z) : Z := Z.lor (Z.shiftl usID 16) usData.

Arguments entry_key : simpl never.
Arguments entry_value : simpl never.
Arguments encode : simpl never.

(** A slot word written by SoftEEPROMWrite: a 32-bit word with a valid key. *)
Definition entry_ok (w : Z) : Prop := 0 <= w /\ entry_key w < NUM_IDS.
Definition entry_okb (w : Z) : bool := (0 <=? w) && (entry_key w <? NUM_IDS).

(** Page classification, as a function of the medium. *)
Definition is_active (m : mem) (p : Z) : bool :=
  negb (m p =? ERASED_WORD) && (m (p + 4) =? ERASED_WORD).
Definition is_used (m : mem) (p : Z) : bool :=
  negb (m p =? ERASED_WORD) && negb (m (p + 4) =? ERASED_WORD).
Definition is_full (sz : Z) (m : mem) (p : Z) : bool :=
  negb (m (p + sz - 4) =? ERASED_WORD).

(** The pages of a region. *)
Definition region_pages (st en sz : Z) : list Z :=
  (fun i => st + i * sz) <$> seqZ 0 ((en - st) / sz).

Definition pages_of (s : State) : list Z :=
  region_pages (g_pucEEPROMStart s) (g_pucEEPROMEnd s) (g_ulEEPROMPgSize s).

Definition active_count (m : mem) (ps : list Z) : nat :=
  length (List.filter (is_active m) ps).
Definition used_count (m : mem) (ps : list Z) : nat :=
  length (List.filter (is_used m) ps).

(** The first [j] slots of page [p], newest (highest address) first. *)
Fixpoint newest_first (m : mem) (p : Z) (j : nat) : list Z :=
  match j with
  | O => []
  | S j' => m (slot_addr p (Z.of_nat j')) :: newest_first m p j'
  end.

(** The number of slots of the active page below g_pucNextAvailEntry. *)
Definition used_slots (s : State) : nat :=
  Z.to_nat ((g_pucNextAvailEntry s - (g_pucActivePage s + 8)) / 4).

(** Last-write-wins lookup in a list of slot words given newest first: the
    raw word of the most recent slot with key [k]. *)
Fixpoint latest_word (k : Z) (newest : list Z) : option Z :=
  match newest with
  | [] => None
  | w :: l => if entry_key w =? k then Some w else latest_word k l
  end.

(** What the store holds for key [k]: the value of the last-written slot
    of the active page with that key. *)
Definition view (s : State) (k : Z) : option Z :=
  entry_value <$>
    latest_word k (newest_first (flash s) (g_pucActivePage s) (used_slots s)).

(** Compaction as the specification describes it: going through the slot
    words newest first, a word is appended to the copy unless a word with
    its key is already there. *)
Definition has_key (c : list Z) (k : Z) : bool :=
  existsb (fun w => entry_key w =? k) c.

Definition compact_step (c : list Z) (w : Z) : list Z :=
  if has_key c (entry_key w) then c else c ++ [w].

Definition compact (c : list Z) (newest : list Z) : list Z :=
  fold_left compact_step newest c.

(** The out-parameters of SoftEEPROMRead for a lookup result. *)
Definition read_out (o : option Z) : Z * bool :=
  match o with
  | Some v => (v, true)
  | None => (0xFFFF, false)
  end.

(** The engine's invariant between operations: a valid configuration, an
    initialized engine, an active page of the region, the next-available
    pointer on a slot boundary of it, valid entries below that pointer and
    erased slots from it on. *)
Record wf (s : State) : Prop := mk_wf {
  wf_config : valid_config (g_pucEEPROMStart s) (g_pucEEPROMEnd s)
                           (g_ulEEPROMPgSize s);
  wf_inited : g_bEEPROMInitialized s = true;
  wf_active_lo : g_pucEEPROMStart s <= g_pucActivePage s;
  wf_active_hi : g_pucActivePage s + g_ulEEPROMPgSize s <= g_pucEEPROMEnd s;
  wf_active_al :
    (g_pucActivePage s - g_pucEEPROMStart s) mod g_ulEEPROMPgSize s = 0;
  wf_next_lo : g_pucActivePage s + 8 <= g_pucNextAvailEntry s;
  wf_next_hi :
    g_pucNextAvailEntry s <= g_pucActivePage s + g_ulEEPROMPgSize s;
  wf_next_al : (g_pucNextAvailEntry s - g_pucActivePage s) mod 4 = 0;
  wf_entries : forall i, 0 <= i ->
    slot_addr (g_pucActivePage s) i < g_pucNextAvailEntry s ->
    entry_ok (flash s (slot_addr (g_pucActivePage s) i));
  wf_free : forall i, g_pucNextAvailEntry s <= slot_addr (g_pucActivePage s) i ->
    i < slots_per_page (g_ulEEPROMPgSize s) ->
    flash s (slot_addr (g_pucActivePage s) i) = ERASED_WORD
}.

(** A run of writes, each of which must succeed. *)
Fixpoint write_all (ws : list (Z * Z)) (s : State) : option State :=
  match ws with
  | [] => Some s
  | (k, v) :: ws' =>
      match SoftEEPROMWrite k v s with
      | Some (0, s') => write_all ws' s'
      | _ => None
      end
  end.

(** The value last written to key [k] in a run of writes, if any. *)
Fixpoint last_written (k : Z) (ws : list (Z * Z)) : option Z :=
  match ws with
  | [] => None
  | (k', v) :: ws' =>
      match last_written k ws' with
      | Some v' => Some v'
      | None => if k' =? k then Some v else None
      end
  end.

(** The engine after its first start on a blank medium. *)
Definition booted : State :=
  match boot blank with
  | Some (_, s) => s
  | None => power_on blank
  end.

(** The media an operation went through, most recent first: the history
    entries it added. *)
Definition steps_of (s s' : State) : list mem :=
  take (length (hist s') - length (hist s)) (hist s').

(** A medium with two Active pages of which the first has a programmed last
    slot and is otherwise erased. *)
Definition torn : mem :=
  store (store (store blank EEPROM_START_ADDR 0)
               (EEPROM_START_ADDR + EEPROM_PAGE_SIZE - 4) (encode 1 1))
        (EEPROM_START_ADDR + EEPROM_PAGE_SIZE) 1.

(** A computation that never looks at g_bEEPROMInitialized and never
    changes it. *)
Definition lift_flag {A} (b : bool) (r : option (A * State))
  : option (A * State) :=
  match r with
  | Some (a, s') => Some (a, set_initialized b s')
  | None => None
  end.

Definition flag_blind {A} (c : M A) : Prop :=
  forall b s, c (set_initialized b s) = lift_flag b (c s).

(** [agree_outside lo hi m m0]: the medium [m] differs from [m0] at most
    inside the byte range [lo, hi). *)
Definition agree_outside (lo hi : Z) (m m0 : mem) : Prop :=
  forall x, ~ (lo <= x < hi) -> m x = m0 x.

(** A page of the region: on a page boundary, inside the region. *)
Definition is_page (st en sz p : Z) : Prop :=
  st <= p /\ p + sz <= en /\ (p - st) mod sz = 0.

(** The count kept in an unsigned char by the page-counting loops. *)
Fixpoint count_u8 (f : Z -> bool) (ps : list Z) (c : Z) : Z :=
  match ps with
  | [] => c
  | p :: ps' => count_u8 f ps' (if f p then u8 (c + 1) else c)
  end.

(** The keys of the words of a list are pairwise distinct. *)
Definition distinct_keys (c : list Z) : Prop :=
  List.NoDup (List.map entry_key c).

(** The bit vector ucIDSwapped marks exactly the keys of the words copied
    so far. *)
Definition vec_marks (vec : list Z) (c : list Z) : Prop :=
  Z.of_nat (length vec) = NUM_VECTOR_BYTES /\
  forall k b, 0 <= k < 8 * NUM_VECTOR_BYTES ->
              vec !! Z.to_nat (k / 8) = Some b ->
              Z.testbit b (k mod 8) = has_key c k.

(** The invariant of the copy loop of PageSwap, started in state [s1] on
    the full page [a] with the erased page [p'] as target: the words [c]
    have been copied, [f] of them are programmed into the first slots of
    the new page and the others wait in ulDataBuffer. *)
Record SwapInv (s1 : State) (p' : Z) (c : list Z) (v : SwapVars)
       (s : State) : Prop := mk_SwapInv {
  si_state : exists l,
    s = with_medium (flash s) l s1 /\
    Forall (fun m => agree_outside (p' + 8) (p' + g_ulEEPROMPgSize s1)
                                   m (flash s1)) l;
  si_frame : agree_outside (p' + 8) (p' + g_ulEEPROMPgSize s1)
                           (flash s) (flash s1);
  si_ok : Forall entry_ok c;
  si_distinct : distinct_keys c;
  si_vec : vec_marks (ucIDSwapped v) c;
  si_buflen : Z.of_nat (length (ulDataBuffer v)) = DATA_BUFFER_WORDS;
  si_layout : exists f : nat,
    pucNewEntry v = slot_addr p' (Z.of_nat f) /\
    (f <= length c)%nat /\
    ulNumWordsInBuffer v = Z.of_nat (length c - f) /\
    (forall x, (x < length c - f)%nat ->
               ulDataBuffer v !! x = c !! (f + x)%nat) /\
    (forall x, (x < f)%nat ->
               c !! x = Some (flash s (slot_addr p' (Z.of_nat x)))) /\
    (forall x, Z.of_nat f <= x < slots_per_page (g_ulEEPROMPgSize s1) ->
               flash s (slot_addr p' x) = ERASED_WORD);
  si_count : exists B, (B = 24 \/ B = 128) /\
                       ulByteCount v = B - 4 * ulNumWordsInBuffer v /\
                       0 < ulByteCount v
}.

(** What a medium may look like while PageSwap moves the content of the
    full page [a] of the medium [m0] to the page [p']: outside the new page
    and the second status word of the full page nothing changes; the new
    page is first erased, then marked active with the next counter value,
    and only then is the full page marked used. *)
Definition swap_step_ok (m0 : mem) (a p' sz : Z) (m : mem) : Prop :=
  (forall x, ~ (p' <= x < p' + sz) -> x <> a + 4 -> m x = m0 x) /\
  m (p' + 4) = ERASED_WORD /\ m a = m0 a /\
  ((m p' = ERASED_WORD /\ m (a + 4) = m0 (a + 4)) \/
   (m p' = u32 (m0 a + 1) /\ (m (a + 4) = m0 (a + 4) \/ m (a + 4) = 0))).

(** The state after SoftEEPROMWrite has appended the entry for [(k, v)] at
    g_pucNextAvailEntry. *)
Definition appended (k v : Z) (s : State) : State :=
  set_next (g_pucNextAvailEntry s + 4)
           (set_flash (store (flash s) (g_pucNextAvailEntry s) (encode k v)) s).

(** The page after [p] in round-robin order, and the copy PageSwap makes
    of the active page. *)
Definition following_page (s : State) (p : Z) : Z :=
  if p + g_ulEEPROMPgSize s <? g_pucEEPROMEnd s
  then p + g_ulEEPROMPgSize s else g_pucEEPROMStart s.

Definition page_copy (s : State) : list Z :=
  compact [] (newest_first (flash s) (g_pucActivePage s)
                           (Z.to_nat (slots_per_page (g_ulEEPROMPgSize s)))).

(** The state after a successful PageSwap of the active page that left the
    medium [m'] after going through the media [l]. *)
Definition swapped (m' : mem) (l : list mem) (s : State) : State :=
  set_next (slot_addr (following_page s (g_pucActivePage s))
                      (Z.of_nat (length (page_copy s))))
           (set_active (following_page s (g_pucActivePage s))
                       (with_medium m' l s)).

(** The arguments of SoftEEPROMWrite are unsigned shorts. *)
Definition ushort_args (kv : Z * Z) : Prop :=
  0 <= fst kv < 2 ^ 16 /\ 0 <= snd kv < 2 ^ 16.

Definition valid_key (kv : Z * Z) : Prop := 0 <= fst kv < NUM_IDS.

(** The engine is about to compact: initialized on a valid configuration,
    with the active page a page of the region and g_pucNextAvailEntry just
    past its end.  Nothing is said about what the slots hold. *)
Definition at_page_end (s : State) : Prop :=
  valid_config (g_pucEEPROMStart s) (g_pucEEPROMEnd s) (g_ulEEPROMPgSize s) /\
  g_bEEPROMInitialized s = true /\
  is_page (g_pucEEPROMStart s) (g_pucEEPROMEnd s) (g_ulEEPROMPgSize s)
          (g_pucActivePage s) /\
  g_pucNextAvailEntry s = g_pucActivePage s + g_ulEEPROMPgSize s.

(** Slot [i] of page [p] is the last-written slot of its key among the
    [n] slots of the page. *)
Definition last_for_key (m : mem) (p n i : Z) : Prop :=
  0 <= i < n /\
  forall i', i < i' < n ->
             entry_key (m (slot_addr p i')) <> entry_key (m (slot_addr p i)).

(** PageSwap of the active page succeeds and puts into the first [cnt]
    slots of the following page exactly the raw words of the last-written
    slots of the keys of the full page, one slot per key, leaving the other
    slots of the new page erased. *)
Definition copies_latest (s : State) : Prop :=
  exists s' cnt,
    PageSwap (g_pucActivePage s) s = Some (0, s') /\
    let old := g_pucActivePage s in
    let new := g_pucActivePage s' in
    let n := slots_per_page (g_ulEEPROMPgSize s) in
    new = following_page s old /\
    g_pucNextAvailEntry s' = slot_addr new cnt /\
    0 <= cnt <= n /\
    (forall i, last_for_key (flash s) old n i ->
       exists j, 0 <= j < cnt /\
                 flash s' (slot_addr new j) = flash s (slot_addr old i) /\
                 forall j', 0 <= j' < cnt ->
                            entry_key (flash s' (slot_addr new j'))
                            = entry_key (flash s (slot_addr old i)) ->
                            j' = j) /\
    (forall j, 0 <= j < cnt ->
       exists i, last_for_key (flash s) old n i /\
                 flash s' (slot_addr new j) = flash s (slot_addr old i)) /\
    (forall j, cnt <= j < n -> flash s' (slot_addr new j) = ERASED_WORD).

(** A medium whose first page is active and holds, in every slot, an entry
    with the key 200, which SoftEEPROMWrite never writes. *)
Definition foreign : mem :=
  fun x => if x =? EEPROM_START_ADDR then 0
           else if (EEPROM_START_ADDR + 8 <=? x)
                   && (x <? EEPROM_START_ADDR + EEPROM_PAGE_SIZE)
                then encode 200 7
                else ERASED_WORD.

(** Exactly the engine's active page is classified active. *)
Definition one_active (s : State) : Prop :=
  forall p, In p (pages_of s) ->
            is_active (flash s) p = (p =? g_pucActivePage s).

(** The counter of the active page is a 32-bit value that can still be
    incremented without reaching the erased pattern. *)
Definition generation_ok (s : State) : Prop :=
  0 <= flash s (g_pucActivePage s) < ERASED_WORD - 1.

(** What a medium may look like while SoftEEPROMClear retires the active
    page [a] of the medium [m0] and activates the page [p']: the active
    page is marked used first; the new page is as before, or erased, or
    erased and marked active with the next counter value. *)
Definition clear_step_ok (m0 : mem) (a p' sz : Z) (m : mem) : Prop :=
  (forall x, ~ (p' <= x < p' + sz) -> x <> a + 4 -> m x = m0 x) /\
  m (a + 4) = 0 /\
  ((m p' = m0 p' /\ m (p' + 4) = m0 (p' + 4)) \/
   (m (p' + 4) = ERASED_WORD /\
    (m p' = ERASED_WORD \/ m p' = u32 (m0 a + 1)))).

(** The state after a successful SoftEEPROMClear that left the medium [m']
    after going through the media [l]. *)
Definition cleared (m' : mem) (l : list mem) (s : State) : State :=
  set_next (following_page s (g_pucActivePage s) + 8)
           (set_active (following_page s (g_pucActivePage s))
                       (with_medium m' l s)).

(** Every medium the operation from [s] to [s'] went through has between
    [lo] and [hi] pages classified active. *)
Definition actives_between (lo hi : nat) (s s' : State) : Prop :=
  Forall (fun m => (lo <= active_count m (pages_of s') <= hi)%nat)
         (steps_of s s').

(** C2 as the specification states it, for SoftEEPROMClear: starting with
    exactly one active page, every medium the operation goes through has
    one or two active pages. *)
Definition always_an_active_page : Prop :=
  forall s s',
    wf s -> one_active s -> generation_ok s ->
    SoftEEPROMClear s = Some (0, s') ->
    actives_between 1 2 s s'.

(** C8 as the specification states it: a second SoftEEPROMInit after a
    successful one returns an error and changes nothing. *)
Definition init_only_once : Prop :=
  forall ulStart ulEnd ulSize s s1,
    SoftEEPROMInit ulStart ulEnd ulSize s = Some (0, s1) ->
    exists rc, rc <> 0 /\
               SoftEEPROMInit ulStart ulEnd ulSize s1 = Some (rc, s1).

(** A run of writes that fills a page of the example device: 254 entries
    over three keys. *)
Definition fill_run : list (Z * Z) :=
  List.map (fun i => (Z.of_nat i mod 3, Z.of_nat i)) (List.seq 0 254).

Definition filled : State :=
  match write_all fill_run booted with
  | Some s => s
  | None => booted
  end.

Definition ushort_argsb (kv : Z * Z) : bool :=
  (0 <=? fst kv) && (fst kv <? 2 ^ 16) && (0 <=? snd kv) && (snd kv <? 2 ^ 16).

(** The medium right after the first step of the first SoftEEPROMClear on
    a freshly initialized device: page 0 is marked used, with counter 0. *)
Definition crashed_in_clear : mem :=
  store (store blank EEPROM_START_ADDR 0) (EEPROM_START_ADDR + 4) 0.

(** The engine started on the medium [foreign], and on the medium [torn]. *)
Definition foreign_booted : State :=
  match boot foreign with
  | Some (_, s) => s
  | None => power_on foreign
  end.

Definition torn_booted : State :=
  match boot torn with
  | Some (_, s) => s
  | None => power_on torn
  end.

(** The state after the first SoftEEPROMClear on the freshly initialized
    example device. *)
Definition cleared_booted : State :=
  match SoftEEPROMClear booted with
  | Some (_, s) => s
  | None => booted
  end.

(* ===================================================================== *)
(** * Notions for the trace of active pages *)

(** The engine's active page is marked active, and no page other than it
    and the page after it is; the page after it may be marked active, as
    it is when a reset interrupted a page swap. *)
Definition no_stray_active (s : State) : Prop :=
  is_active (flash s) (g_pucActivePage s) = true /\
  forall p, In p (pages_of s) -> p <> g_pucActivePage s ->
            p <> following_page s (g_pucActivePage s) ->
            is_active (flash s) p = false.

(** The number of pages marked active in each medium an operation from [s]
    to [s'] went through, most recent first. *)
Definition active_trace (s s' : State) : list nat :=
  (fun m => active_count m (pages_of s')) <$> steps_of s s'.

(** The page before [p] in round-robin order, as SoftEEPROMInit computes
    it: [(p == g_pucEEPROMStart) ? (g_pucEEPROMEnd - g_ulEEPROMPgSize)
                                 : (p - g_ulEEPROMPgSize)]. *)
Definition page_before (st en sz p : Z) : Z :=
  if p =? st then en - sz else p - sz.

(** The page after [p] in round-robin order, as the engine computes it:
    [(p + ulSize < pucEnd) ? p + ulSize : pucStart]. *)
Definition page_after (st en sz p : Z) : Z :=
  if p + sz <? en then p + sz else st.

(** The slots of page [p] hold entries with a valid key below slot [j] and
    are erased from slot [j] on. *)
Definition page_filled_to (m : mem) (p sz j : Z) : Prop :=
  0 <= j <= slots_per_page sz /\
  (forall i, 0 <= i < j -> entry_ok (m (slot_addr p i))) /\
  (forall i, j <= i < slots_per_page sz -> m (slot_addr p i) = ERASED_WORD).

(** Media of the example device: three pages marked active; a used first
    page with counter 1 and no active page; an active second page with
    counter 9 after a used first page with counter 5. *)
Definition three_active : mem :=
  store (store (store blank EEPROM_START_ADDR 0)
               (EEPROM_START_ADDR + EEPROM_PAGE_SIZE) 0)
        (EEPROM_START_ADDR + 2 * EEPROM_PAGE_SIZE) 0.

Definition retired_once : mem :=
  store (store blank EEPROM_START_ADDR 1) (EEPROM_START_ADDR + 4) 0.

Definition mismatched : mem :=
  store (store (store blank EEPROM_START_ADDR 5) (EEPROM_START_ADDR + 4) 0)
        (EEPROM_START_ADDR + EEPROM_PAGE_SIZE) 9.

(** The medium of the example device at a reset during the page swap of a
    write to the full first page, after the second page was marked active
    and before the first page was marked used: the third-last medium that
    write goes through. *)
Definition swap_crash : mem :=
  match SoftEEPROMWrite 0 9 filled with
  | Some (_, s') => nth 2 (steps_of filled s') blank
  | None => blank
  end.

(** The medium of the example device with the first page active and one
    entry in it. *)
Definition one_entry : mem :=
  store (store blank EEPROM_START_ADDR 0) (EEPROM_START_ADDR + 8) (encode 5 1).

(* ===================================================================== *)
(** * Notions for restart and for the byte-addressed wrapper *)

(** The page before [p] in round-robin order, as SoftEEPROMInit computes
    it: [(p == g_pucEEPROMStart) ? (g_pucEEPROMEnd - g_ulEEPROMPgSize)
                                 : (p - g_ulEEPROMPgSize)]. *)
Definition prev_page (s : State) (p : Z) : Z :=
  if p =? g_pucEEPROMStart s then g_pucEEPROMEnd s - g_ulEEPROMPgSize s
  else p - g_ulEEPROMPgSize s.

(** What the one-active branch of SoftEEPROMInit checks before it keeps
    the active page: the page before it is not used, or its counter is one
    less than the counter of the active page. *)
Definition prev_ok (s : State) : Prop :=
  is_used (flash s) (prev_page s (g_pucActivePage s)) = true ->
  flash s (prev_page s (g_pucActivePage s))
  = u32 (flash s (g_pucActivePage s) - 1).

(** The state SoftEEPROMInit reaches from [s0] when it recovers the engine
    state [s] from the medium. *)
Definition restarted (s s0 : State) : State :=
  set_initialized true
    (set_next (g_pucNextAvailEntry s)
       (set_active (g_pucActivePage s)
          (set_region (g_pucEEPROMStart s) (g_pucEEPROMEnd s)
                      (g_ulEEPROMPgSize s) s0))).

(** An engine state that a restart recovers from its medium. *)
Definition restartable (s : State) : Prop :=
  wf s /\ one_active s /\ prev_ok s.

Definition same_region (s s' : State) : Prop :=
  g_pucEEPROMStart s' = g_pucEEPROMStart s /\
  g_pucEEPROMEnd s' = g_pucEEPROMEnd s /\
  g_ulEEPROMPgSize s' = g_ulEEPROMPgSize s.

(** The engine can be restarted from its medium, still has the region of
    [s0], and the counter of its active page leaves room for [n] more page
    changes. *)
Definition durable (s0 : State) (n : Z) (s : State) : Prop :=
  restartable s /\ same_region s0 s /\
  0 <= flash s (g_pucActivePage s) /\
  flash s (g_pucActivePage s) + n < ERASED_WORD - 1.

(** The 16-bit word SoftEEPROMRead stores through pusData for key [k]
    (0xFFFF when the key is not found), and the byte the wrapper takes
    from it for the byte address [x]: the high byte at odd addresses, the
    low byte at even ones. *)
Definition word_at (s : State) (k : Z) : Z := fst (read_out (view s k)).

Definition byte_at (s : State) (x : Z) : Z :=
  if x mod 2 =? 1 then u8 (Z.shiftr (word_at s (x / 2)) 8)
  else u8 (Z.land (word_at s (x / 2)) 0x00FF).

Definition bytes_from (s : State) (a n : Z) : list Z :=
  byte_at s <$> seqZ a n.

(** The values of an unsigned char. *)
Definition is_byte (b : Z) : Prop := 0 <= b < 256.

(* ===================================================================== *)
(** * Properties *)

(** Linear arithmetic with division and remainder by constants. *)
Ltac zlia := Z.div_mod_to_equations; lia.

(** Case analysis on the integer comparisons of the goal and hypotheses. *)
Ltac zb_split t :=
  lazymatch t with
  | (?x <=? ?y) => destruct (Z.leb_spec x y)
  | (?x <? ?y) => destruct (Z.ltb_spec x y)
  | (?x =? ?y) => destruct (Z.eqb_spec x y)
  | (?x >=? ?y) => destruct (Z.geb_spec x y)
  | (?x >? ?y) => destruct (Z.gtb_spec x y)
  end.
Ltac zb_goal :=
  match goal with
  | |- context [?t] =>
      lazymatch type of t with bool => zb_split t end
  end.
Ltac zb_hyp :=
  match goal with
  | H : context [?t] |- _ =>
      lazymatch type of t with bool => zb_split t end
  end.
Ltac zb1 := first [zb_goal | zb_hyp].
Ltac zb := repeat zb1; simpl in *; try first [reflexivity | discriminate | lia].

(** ** Machine integers and bit operations *)

Lemma u32_small x : 0 <= x < 2 ^ 32 -> u32 x = x.
Proof. intros H. unfold u32. apply Z.mod_small. exact H. Qed.

Lemma u16_small x : 0 <= x < 2 ^ 16 -> u16 x = x.
Proof. intros H. unfold u16. apply Z.mod_small. exact H. Qed.

Lemma u8_small x : 0 <= x < 2 ^ 8 -> u8 x = x.
Proof. intros H. unfold u8. apply Z.mod_small. exact H. Qed.

Lemma land_erased w : 0 <= w < 2 ^ 32 -> Z.land ERASED_WORD w = w.
Proof.
  intros H. rewrite Z.land_comm.
  change ERASED_WORD with (Z.ones 32).
  rewrite Z.land_ones by lia. apply Z.mod_small. exact H.
Qed.

Lemma entry_key_encode k v :
  0 <= k -> 0 <= v < 2 ^ 16 -> entry_key (encode k v) = k.
Proof.
  intros Hk Hv. unfold entry_key, encode.
  rewrite Z.shiftr_lor, Z.shiftr_shiftl_l by lia.
  replace (16 - 16) with 0 by lia. rewrite Z.shiftl_0_r.
  rewrite (Z.shiftr_div_pow2 v) by lia.
  rewrite Z.div_small by lia. apply Z.lor_0_r.
Qed.

Lemma entry_value_encode k v :
  0 <= k -> 0 <= v < 2 ^ 16 -> entry_value (encode k v) = v.
Proof.
  intros Hk Hv. unfold entry_value, encode.
  change 0xFFFF with (Z.ones 16).
  rewrite Z.land_ones by lia.
  unfold u16. rewrite Z.mod_mod by lia.
  rewrite <- Z.land_ones by lia.
  rewrite Z.land_lor_distr_l.
  rewrite !Z.land_ones by lia.
  rewrite Z.shiftl_mul_pow2 by lia.
  rewrite Z.mod_mul by lia.
  rewrite Z.lor_0_l. apply Z.mod_small. exact Hv.
Qed.

Lemma encode_nonneg k v : 0 <= k -> 0 <= v -> 0 <= encode k v.
Proof.
  intros Hk Hv. unfold encode. apply Z.lor_nonneg. split; [|exact Hv].
  apply Z.shiftl_nonneg. exact Hk.
Qed.

Lemma entry_ok_bound w : entry_ok w -> 0 <= w < 2 ^ 32.
Proof.
  intros [H0 Hk]. split; [exact H0|].
  unfold entry_key in Hk. rewrite Z.shiftr_div_pow2 in Hk by lia.
  unfold NUM_IDS, MAX_SOFTEEPROM_IDS in Hk.
  change (2 ^ 16) with 65536 in Hk. change (2 ^ 32) with 4294967296. zlia.
Qed.

Lemma entry_ok_encode k v :
  0 <= k < NUM_IDS -> 0 <= v < 2 ^ 16 -> entry_ok (encode k v).
Proof.
  intros Hk Hv. split.
  - apply encode_nonneg; lia.
  - rewrite entry_key_encode by lia. lia.
Qed.

Lemma entry_ok_not_erased w : entry_ok w -> w <> ERASED_WORD.
Proof.
  intros [_ Hk] ->. revert Hk. vm_compute. discriminate.
Qed.

Lemma entry_okb_spec w : entry_okb w = true <-> entry_ok w.
Proof. unfold entry_okb, entry_ok. rewrite andb_true_iff. lia. Qed.

(** ** The medium *)

Lemma store_eq m a v : store m a v a = v.
Proof. unfold store. rewrite Z.eqb_refl. reflexivity. Qed.

Lemma store_ne m a v x : x <> a -> store m a v x = m x.
Proof.
  intros H. unfold store. destruct (Z.eqb_spec x a); [contradiction|reflexivity].
Qed.

Lemma program_words_out m a ws x :
  (forall i, 0 <= i < Z.of_nat (length ws) -> x <> a + 4 * i) ->
  program_words m a ws x = m x.
Proof.
  revert m a. induction ws as [|w ws IH]; intros m a H; simpl; [reflexivity|].
  rewrite IH.
  - apply store_ne. specialize (H 0). simpl in H. lia.
  - intros i Hi. specialize (H (i + 1)). simpl in H. lia.
Qed.

Lemma program_words_in m a ws i w :
  ws !! i = Some w ->
  program_words m a ws (a + 4 * Z.of_nat i) = Z.land (m (a + 4 * Z.of_nat i)) w.
Proof.
  revert m a i. induction ws as [|w0 ws IH]; intros m a i H; [discriminate|].
  destruct i as [|i]; simpl in H.
  - injection H as ->. simpl program_words. rewrite program_words_out.
    + replace (a + 4 * Z.of_nat 0) with a by lia. apply store_eq.
    + intros j Hj. lia.
  - simpl program_words.
    replace (a + 4 * Z.of_nat (S i)) with (a + 4 + 4 * Z.of_nat i) by lia.
    rewrite (IH _ _ _ H). rewrite store_ne by lia. reflexivity.
Qed.

Lemma program_words_single m a w x :
  program_words m a [w] x = if x =? a then Z.land (m a) w else m x.
Proof. reflexivity. Qed.

Lemma erase_block_aligned m a x :
  a mod FLASH_ERASE_SIZE = 0 ->
  erase_block m a x =
  if (a <=? x) && (x <? a + FLASH_ERASE_SIZE) then ERASED_WORD else m x.
Proof.
  intros H. unfold erase_block. rewrite H, Z.sub_0_r. reflexivity.
Qed.

(** ** Stepping through computations *)

Lemma set_flash_with_medium m s : set_flash m s = with_medium m [m] s.
Proof. reflexivity. Qed.

Lemma with_medium_twice m1 l1 m2 l2 s :
  with_medium m2 l2 (with_medium m1 l1 s) = with_medium m2 (l2 ++ l1) s.
Proof. unfold with_medium. simpl. rewrite app_assoc. reflexivity. Qed.

Lemma bind_eq {A B} (c : M A) (k : A -> M B) s a s' :
  c s = Some (a, s') -> bind c k s = k a s'.
Proof. intros H. unfold bind. rewrite H. reflexivity. Qed.

Lemma bind_none {A B} (c : M A) (k : A -> M B) s :
  c s = None -> bind c k s = None.
Proof. intros H. unfold bind. rewrite H. reflexivity. Qed.

Lemma load_eq a s : valid_ptr a = true -> load a s = Some (flash s a, s).
Proof. intros H. unfold load. rewrite H. reflexivity. Qed.

Lemma valid_ptr_intro a :
  0 <= a -> a + 4 <= 2 ^ 32 -> a mod 4 = 0 -> valid_ptr a = true.
Proof.
  intros H1 H2 H3. unfold valid_ptr.
  rewrite !andb_true_iff, !Z.leb_le, Z.eqb_eq. auto.
Qed.

(** PageDataWrite never looks at what the medium holds after programming:
    the condition of its verification loop is false from the start. *)
Lemma PageDataWrite_eq pulData a n s :
  PageDataWrite pulData a n s =
  Some (0, set_flash (program_words (flash s) a
                                    (take (Z.to_nat (n / 4)) pulData)) s).
Proof.
  unfold PageDataWrite, bind, FlashProgram. simpl. reflexivity.
Qed.

Lemma PageDataWrite_word w a s :
  PageDataWrite [w] a 4 s =
  Some (0, set_flash (store (flash s) a (Z.land (flash s a) w)) s).
Proof. rewrite PageDataWrite_eq. reflexivity. Qed.

(** ** The operations before a successful init, and with an illegal key *)

Lemma SoftEEPROMWrite_not_init k v s :
  g_bEEPROMInitialized s = false ->
  SoftEEPROMWrite k v s = Some (ERR_NOT_INIT, s).
Proof. intros H. unfold SoftEEPROMWrite, bind, gets. rewrite H. reflexivity. Qed.

Lemma SoftEEPROMRead_not_init k s :
  g_bEEPROMInitialized s = false ->
  SoftEEPROMRead k s = Some ((ERR_NOT_INIT, None), s).
Proof. intros H. unfold SoftEEPROMRead, bind, gets. rewrite H. reflexivity. Qed.

Lemma SoftEEPROMClear_not_init s :
  g_bEEPROMInitialized s = false ->
  SoftEEPROMClear s = Some (ERR_NOT_INIT, s).
Proof. intros H. unfold SoftEEPROMClear, bind, gets. rewrite H. reflexivity. Qed.

Lemma SoftEEPROMWrite_illegal k v s :
  g_bEEPROMInitialized s = true -> NUM_IDS <= k ->
  SoftEEPROMWrite k v s = Some (ERR_ILLEGAL_ID, s).
Proof.
  intros H Hk. unfold SoftEEPROMWrite, bind, gets. rewrite H. simpl.
  destruct (Z.geb_spec k NUM_IDS); [reflexivity|lia].
Qed.

Lemma SoftEEPROMRead_illegal k s :
  g_bEEPROMInitialized s = true -> NUM_IDS <= k ->
  SoftEEPROMRead k s = Some ((ERR_ILLEGAL_ID, None), s).
Proof.
  intros H Hk. unfold SoftEEPROMRead, bind, gets. rewrite H. simpl.
  destruct (Z.gtb_spec k (NUM_IDS - 1)); [reflexivity|lia].
Qed.

(** ** SoftEEPROMInit does not consult g_bEEPROMInitialized *)

Lemma fb_ret {A} (a : A) : flag_blind (ret a).
Proof. intros b s. reflexivity. Qed.

Lemma fb_undefined {A} : flag_blind (@undefined A).
Proof. intros b s. reflexivity. Qed.

Lemma fb_bind {A B} (c : M A) (k : A -> M B) :
  flag_blind c -> (forall a, flag_blind (k a)) -> flag_blind (bind c k).
Proof.
  intros Hc Hk b s. unfold bind. rewrite Hc.
  destruct (c s) as [[a s']|]; simpl; [apply Hk|reflexivity].
Qed.

Lemma fb_gets {A} (f : State -> A) :
  (forall b s, f (set_initialized b s) = f s) -> flag_blind (gets f).
Proof. intros H b s. unfold gets. rewrite H. reflexivity. Qed.

Lemma fb_modify (f : State -> State) :
  (forall b s, f (set_initialized b s) = set_initialized b (f s)) ->
  flag_blind (modify f).
Proof. intros H b s. unfold modify. rewrite H. reflexivity. Qed.

Lemma fb_load a : flag_blind (load a).
Proof. intros b s. unfold load. simpl. destruct (valid_ptr a); reflexivity. Qed.

Lemma fb_FlashErase a : flag_blind (FlashErase a).
Proof. intros b s. reflexivity. Qed.

Lemma fb_FlashProgram d a n : flag_blind (FlashProgram d a n).
Proof. intros b s. reflexivity. Qed.

Lemma fb_array_get arr i : flag_blind (array_get arr i).
Proof.
  unfold array_get. destruct (_ && _); [|apply fb_undefined].
  destruct (arr !! Z.to_nat i); [apply fb_ret|apply fb_undefined].
Qed.

Lemma fb_array_set arr i v : flag_blind (array_set arr i v).
Proof.
  unfold array_set. destruct (_ && _); [apply fb_ret|apply fb_undefined].
Qed.

Lemma fb_eeprom_pages : flag_blind eeprom_pages.
Proof.
  intros b s. unfold eeprom_pages. simpl.
  destruct (page_addrs _ _ _); reflexivity.
Qed.

Create HintDb fbdb.

Ltac fb_step :=
  first
    [ apply fb_ret | apply fb_undefined | apply fb_load | apply fb_FlashErase
    | apply fb_FlashProgram | apply fb_array_get | apply fb_array_set
    | apply fb_eeprom_pages
    | apply fb_gets; reflexivity | apply fb_modify; reflexivity
    | assumption
    | solve [auto 1 with fbdb nocore]
    | apply fb_bind; [|intros ?]
    | match goal with
      | |- flag_blind (if ?c then _ else _) => destruct c
      | |- flag_blind (match ?x with _ => _ end) => destruct x
      | |- flag_blind (let '(_, _) := ?x in _) => destruct x
      end ].

Ltac fb := repeat fb_step.

Lemma fb_PageErase_blocks n a : flag_blind (PageErase_blocks n a).
Proof. revert a. induction n; intros a; simpl; fb; auto. Qed.
#[local] Hint Resolve fb_PageErase_blocks : fbdb.

Lemma fb_PageDataWrite_verify fuel c d a :
  flag_blind (PageDataWrite_verify fuel c d a).
Proof. revert c d a. induction fuel; intros c d a; simpl; fb; auto. Qed.
#[local] Hint Resolve fb_PageDataWrite_verify : fbdb.

Lemma fb_PageIsActive p : flag_blind (PageIsActive p).
Proof. unfold PageIsActive. fb. Qed.

Lemma fb_PageIsUsed p : flag_blind (PageIsUsed p).
Proof. unfold PageIsUsed. fb. Qed.

Lemma fb_count_pages test ps c :
  (forall p, flag_blind (test p)) -> flag_blind (count_pages test ps c).
Proof.
  intros Ht. revert c. induction ps; intros c; simpl; fb; auto.
Qed.

Lemma fb_count_active ps c : flag_blind (count_pages PageIsActive ps c).
Proof. apply fb_count_pages, fb_PageIsActive. Qed.

Lemma fb_count_used ps c : flag_blind (count_pages PageIsUsed ps c).
Proof. apply fb_count_pages, fb_PageIsUsed. Qed.
#[local] Hint Resolve fb_count_active fb_count_used : fbdb.

Lemma fb_GetNextAvailEntry_loop n a : flag_blind (GetNextAvailEntry_loop n a).
Proof. revert a. induction n; intros a; simpl; fb; auto. Qed.
#[local] Hint Resolve fb_GetNextAvailEntry_loop : fbdb.

Lemma fb_GetMostRecentlyUsedPage_loop ps c p :
  flag_blind (GetMostRecentlyUsedPage_loop ps c p).
Proof.
  revert c p. induction ps; intros c p; simpl; fb; auto.
Qed.
#[local] Hint Resolve fb_GetMostRecentlyUsedPage_loop : fbdb.

Lemma fb_find_active_page ps e : flag_blind (find_active_page ps e).
Proof. induction ps; simpl; fb. Qed.

Lemma fb_find_full_active_page ps e : flag_blind (find_full_active_page ps e).
Proof. induction ps; simpl; fb. Qed.
#[local] Hint Resolve fb_find_active_page fb_find_full_active_page : fbdb.

Lemma fb_init_recover : flag_blind init_recover.
Proof. unfold init_recover. fb. Qed.

Lemma SoftEEPROMInit_unfold st en sz s :
  SoftEEPROMInit st en sz s =
  if en >? ulFlashSize s then Some (ERR_RANGE, s)
  else
    match init_recover
            (set_region (Z.land st (Z.lnot (EEPROM_BOUNDARY - 1)))
                        (Z.land en (Z.lnot (EEPROM_BOUNDARY - 1))) sz s) with
    | Some (rc, s') =>
        if rc =? 0 then Some (0, set_initialized true s') else Some (rc, s')
    | None => None
    end.
Proof.
  unfold SoftEEPROMInit, bind, gets, modify, ret.
  destruct (en >? ulFlashSize s); [reflexivity|].
  destruct (init_recover _) as [[rc s']|]; [|reflexivity].
  destruct (rc =? 0); reflexivity.
Qed.

Lemma SoftEEPROMInit_flag_blind st en sz b s :
  SoftEEPROMInit st en sz (set_initialized b s) =
  match SoftEEPROMInit st en sz s with
  | Some (rc, s') => Some (rc, if rc =? 0 then s' else set_initialized b s')
  | None => None
  end.
Proof.
  rewrite !SoftEEPROMInit_unfold. simpl ulFlashSize.
  destruct (en >? ulFlashSize s); [reflexivity|].
  change (set_region ?a ?b0 ?c (set_initialized b s))
    with (set_initialized b (set_region a b0 c s)).
  rewrite fb_init_recover.
  destruct (init_recover _) as [[rc s']|]; [|reflexivity].
  simpl. destruct (rc =? 0) eqn:E; simpl; rewrite ?E; reflexivity.
Qed.

(** ** Geometry of a valid configuration *)

Section Geometry.
Variables st en sz : Z.
Hypothesis Hcfg : valid_config st en sz.

Lemma vc_size_lo : 1024 <= sz.
Proof.
  destruct Hcfg. unfold FLASH_ERASE_SIZE, MAX_SOFTEEPROM_IDS in *. zlia.
Qed.

Lemma vc_size_mod4 : sz mod 4 = 0.
Proof. destruct Hcfg. unfold FLASH_ERASE_SIZE in *. zlia. Qed.

Lemma vc_slots : 2 * NUM_IDS <= slots_per_page sz < 2 ^ 16.
Proof.
  pose proof vc_size_lo. destruct Hcfg.
  unfold slots_per_page, NUM_IDS, MAX_SOFTEEPROM_IDS, FLASH_ERASE_SIZE in *.
  zlia.
Qed.

Lemma vc_usSize : u16 (u32 (sz / 4 - 2)) = slots_per_page sz.
Proof.
  pose proof vc_slots as H. unfold slots_per_page, NUM_IDS, MAX_SOFTEEPROM_IDS in *.
  rewrite u32_small, u16_small; [reflexivity| |]; change (2 ^ 32) with 4294967296;
    change (2 ^ 16) with 65536 in *; lia.
Qed.

Lemma page_divides p : is_page st en sz p -> (FLASH_ERASE_SIZE | p).
Proof.
  intros (H1 & H2 & H3). pose proof vc_size_lo. destruct Hcfg.
  replace p with (st + (p - st)) by lia. apply Z.divide_add_r.
  - apply Z.divide_trans with EEPROM_BOUNDARY.
    + exists 4. reflexivity.
    + apply Z.mod_divide; [discriminate|assumption].
  - apply Z.divide_trans with sz.
    + apply Z.mod_divide; [discriminate|assumption].
    + apply Z.mod_divide; [lia|assumption].
Qed.

Lemma page_mod_erase p : is_page st en sz p -> p mod FLASH_ERASE_SIZE = 0.
Proof.
  intros H. apply Z.mod_divide; [discriminate|]. apply page_divides, H.
Qed.

Lemma page_mod4 p : is_page st en sz p -> p mod 4 = 0.
Proof.
  intros H. apply page_mod_erase in H. unfold FLASH_ERASE_SIZE in H. zlia.
Qed.

Lemma page_mod128 p : is_page st en sz p -> p mod 128 = 0.
Proof.
  intros H. apply page_mod_erase in H. unfold FLASH_ERASE_SIZE in H. zlia.
Qed.

Lemma page_bounds p : is_page st en sz p -> 0 <= p /\ p + sz < 2 ^ 32.
Proof. intros (H1 & H2 & H3). destruct Hcfg. lia. Qed.

Lemma page_word_valid p off :
  is_page st en sz p -> 0 <= off -> off + 4 <= sz -> off mod 4 = 0 ->
  valid_ptr (p + off) = true.
Proof.
  intros Hp H1 H2 H3. pose proof (page_bounds p Hp). pose proof (page_mod4 p Hp).
  apply valid_ptr_intro; [lia|lia|zlia].
Qed.

Lemma slot_valid p i :
  is_page st en sz p -> 0 <= i < slots_per_page sz ->
  valid_ptr (slot_addr p i) = true.
Proof.
  intros Hp Hi. unfold slot_addr. pose proof vc_size_mod4.
  replace (p + 8 + 4 * i) with (p + (8 + 4 * i)) by lia.
  unfold slots_per_page in Hi.
  apply page_word_valid; [assumption|lia|zlia|zlia].
Qed.

Lemma start_is_page : is_page st en sz st.
Proof.
  pose proof vc_size_lo. destruct Hcfg. unfold is_page.
  rewrite Z.sub_diag, Z.mod_0_l by lia.
  split; [lia|]. split; [|reflexivity].
  apply Z.div_exact in vc_div0; [|lia]. nia.
Qed.

(** Page [k] of the region. *)
Lemma is_page_index p :
  is_page st en sz p <->
  exists k, 0 <= k < (en - st) / sz /\ p = st + k * sz.
Proof.
  pose proof vc_size_lo. destruct Hcfg. split.
  - intros (H1 & H2 & H3). exists ((p - st) / sz).
    apply Z.div_exact in H3; [|lia].
    apply Z.div_exact in vc_div0; [|lia].
    split; [|lia]. split; [apply Z.div_pos; lia|].
    apply Z.div_lt_upper_bound; [lia|]. nia.
  - intros (k & Hk & ->). unfold is_page.
    apply Z.div_exact in vc_div0; [|lia].
    replace (st + k * sz - st) with (k * sz) by lia.
    rewrite Z.mod_mul by lia. split; [nia|]. split; [nia|reflexivity].
Qed.

Lemma next_page_is_page p :
  is_page st en sz p ->
  let p' := if p + sz <? en then p + sz else st in
  is_page st en sz p' /\ p' <> p.
Proof.
  intros Hp. pose proof vc_size_lo.
  destruct (Z.ltb_spec (p + sz) en) as [Hlt|Hge]; simpl.
  - split; [|lia]. apply is_page_index in Hp as (k & Hk & ->).
    apply is_page_index. exists (k + 1). split; [|lia].
    destruct Hcfg. apply Z.div_exact in vc_div0; [|lia].
    split; [lia|]. nia.
  - split; [apply start_is_page|]. destruct Hp as (H1 & H2 & H3).
    destruct Hcfg. apply Z.div_exact in vc_div0; [|lia]. nia.
Qed.

Lemma pages_disjoint p q :
  is_page st en sz p -> is_page st en sz q -> p <> q ->
  p + sz <= q \/ q + sz <= p.
Proof.
  intros Hp Hq Hne. pose proof vc_size_lo.
  apply is_page_index in Hp as (k & Hk & ->).
  apply is_page_index in Hq as (j & Hj & ->).
  assert (k <> j) by (intros ->; lia). nia.
Qed.

Lemma elem_of_region_pages p :
  p ∈ region_pages st en sz <-> is_page st en sz p.
Proof.
  rewrite is_page_index. unfold region_pages. rewrite list_elem_of_fmap.
  split.
  - intros (k & -> & Hk). apply elem_of_seqZ in Hk. exists k. split; [lia|reflexivity].
  - intros (k & Hk & ->). exists k. split; [reflexivity|]. apply elem_of_seqZ. lia.
Qed.

Lemma NoDup_region_pages : NoDup (region_pages st en sz).
Proof.
  pose proof vc_size_lo. unfold region_pages.
  apply NoDup_fmap_2; [|apply NoDup_seqZ].
  intros x y Hxy. nia.
Qed.

Lemma page_addrs_region : page_addrs st en sz = Some (region_pages st en sz).
Proof.
  pose proof vc_size_lo. destruct Hcfg. unfold page_addrs, region_pages.
  destruct (Z.leb_spec en st); [lia|].
  destruct (Z.leb_spec sz 0); [lia|].
  do 3 f_equal. apply Z.div_exact in vc_div0; [|lia].
  rewrite vc_div0 at 1.
  replace (sz * ((en - st) / sz) + sz - 1) with ((sz - 1) + ((en - st) / sz) * sz) by lia.
  rewrite Z.div_add by lia. rewrite Z.div_small by lia. lia.
Qed.

End Geometry.

(** ** PageErase *)

Lemma with_medium_nil s : with_medium (flash s) [] s = s.
Proof. destruct s. reflexivity. Qed.

Lemma PageErase_blocks_spec n a s :
  a mod FLASH_ERASE_SIZE = 0 ->
  exists m' l,
    PageErase_blocks n a s = Some (false, with_medium m' l s) /\
    (forall x, m' x = if (a <=? x) && (x <? a + FLASH_ERASE_SIZE * Z.of_nat n)
                      then ERASED_WORD else flash s x) /\
    Forall (fun m => (forall x, a <= x < a + FLASH_ERASE_SIZE -> m x = ERASED_WORD)
                     /\ agree_outside a (a + FLASH_ERASE_SIZE * Z.of_nat n) m (flash s)) l /\
    (n <> O -> l <> []).
Proof.
  revert a s. induction n as [|n IH]; intros a s Ha.
  - exists (flash s), []. rewrite with_medium_nil. split; [reflexivity|].
    split; [|split; [constructor|congruence]].
    intros x. simpl. zb.
  - simpl PageErase_blocks. unfold bind, FlashErase. simpl.
    set (m1 := erase_block (flash s) a).
    destruct (IH (a + FLASH_ERASE_SIZE) (set_flash m1 s)) as (m' & l & Hrun & Hm' & Hl & _).
    { unfold FLASH_ERASE_SIZE in *. zlia. }
    assert (Hm1 : forall x, m1 x = if (a <=? x) && (x <? a + FLASH_ERASE_SIZE)
                                   then ERASED_WORD else flash s x).
    { intros x. apply erase_block_aligned, Ha. }
    exists m', (l ++ [m1]). rewrite Hrun, set_flash_with_medium, with_medium_twice.
    split; [reflexivity|]. split; [|split].
    + intros x. rewrite Hm'. simpl flash. rewrite Hm1.
      unfold FLASH_ERASE_SIZE.
      repeat zb_goal; simpl; try reflexivity; lia.
    + apply Forall_app. split.
      * eapply Forall_impl; [exact Hl|]. simpl. intros m [H1 H2]. split.
        -- intros x Hx. rewrite H2 by (unfold FLASH_ERASE_SIZE in *; lia).
           rewrite Hm1. unfold FLASH_ERASE_SIZE in *.
           destruct (Z.leb_spec a x), (Z.ltb_spec x (a + 1024)); simpl; try reflexivity; lia.
        -- intros x Hx. rewrite H2 by (unfold FLASH_ERASE_SIZE in *; lia).
           rewrite Hm1. unfold FLASH_ERASE_SIZE in *.
           destruct (Z.leb_spec a x), (Z.ltb_spec x (a + 1024)); simpl; try reflexivity; lia.
      * constructor; [|constructor]. split.
        -- intros x Hx. rewrite Hm1. unfold FLASH_ERASE_SIZE in *.
           destruct (Z.leb_spec a x), (Z.ltb_spec x (a + 1024)); simpl; try reflexivity; lia.
        -- intros x Hx. rewrite Hm1. unfold FLASH_ERASE_SIZE in *.
           destruct (Z.leb_spec a x), (Z.ltb_spec x (a + 1024)); simpl; try reflexivity; lia.
    + intros _ H. apply app_eq_nil in H as [_ H]. discriminate.
Qed.

Lemma PageErase_spec s p :
  valid_config (g_pucEEPROMStart s) (g_pucEEPROMEnd s) (g_ulEEPROMPgSize s) ->
  is_page (g_pucEEPROMStart s) (g_pucEEPROMEnd s) (g_ulEEPROMPgSize s) p ->
  exists m' l,
    PageErase p s = Some (0, with_medium m' l s) /\
    (forall x, m' x = if (p <=? x) && (x <? p + g_ulEEPROMPgSize s)
                      then ERASED_WORD else flash s x) /\
    Forall (fun m => m p = ERASED_WORD /\ m (p + 4) = ERASED_WORD /\
                     agree_outside p (p + g_ulEEPROMPgSize s) m (flash s)) l /\
    l <> [].
Proof.
  intros Hcfg Hp.
  pose proof (vc_size_lo _ _ _ Hcfg) as Hsz.
  pose proof (page_mod_erase _ _ _ Hcfg p Hp) as Hal.
  assert (Hdiv : g_ulEEPROMPgSize s mod FLASH_ERASE_SIZE = 0) by (destruct Hcfg; assumption).
  set (n := Z.to_nat ((g_ulEEPROMPgSize s + FLASH_ERASE_SIZE - 1) / FLASH_ERASE_SIZE)).
  assert (Hn : FLASH_ERASE_SIZE * Z.of_nat n = g_ulEEPROMPgSize s).
  { unfold n, FLASH_ERASE_SIZE in *. rewrite Z2Nat.id by zlia. zlia. }
  destruct (PageErase_blocks_spec n p s Hal) as (m' & l & Hrun & Hm' & Hl & Hne).
  rewrite Hn in Hm', Hl.
  exists m', l. split; [|split; [exact Hm'|split]].
  - unfold PageErase. unfold bind at 1. unfold gets. fold n.
    unfold bind at 1. rewrite Hrun.
    assert (Hv0 : valid_ptr p = true).
    { replace p with (p + 0) by lia. eapply page_word_valid; eauto; lia. }
    assert (Hv4 : valid_ptr (p + 4) = true).
    { eapply page_word_valid; eauto; lia. }
    unfold bind at 1. rewrite (load_eq _ _ Hv0). simpl flash.
    rewrite Hm'.
    destruct (Z.leb_spec p p); [|lia].
    destruct (Z.ltb_spec p (p + g_ulEEPROMPgSize s)); [|lia]. simpl.
    unfold bind. rewrite (load_eq _ _ Hv4). simpl flash. rewrite Hm'.
    destruct (Z.leb_spec p (p + 4)); [|lia].
    destruct (Z.ltb_spec (p + 4) (p + g_ulEEPROMPgSize s)); [|lia]. reflexivity.
  - eapply Forall_impl; [exact Hl|]. simpl. intros m [H1 H2].
    unfold FLASH_ERASE_SIZE in *.
    split; [apply H1; lia|]. split; [apply H1; lia|exact H2].
  - apply Hne. unfold n, FLASH_ERASE_SIZE in *. zlia.
Qed.

(** ** Page status and page counts *)

Lemma land_boundary x :
  x mod EEPROM_BOUNDARY = 0 -> Z.land x (Z.lnot (EEPROM_BOUNDARY - 1)) = x.
Proof.
  intros H. rewrite <- Z.ldiff_land.
  change (EEPROM_BOUNDARY - 1) with (Z.ones 12).
  rewrite Z.ldiff_ones_r by lia.
  rewrite Z.shiftr_div_pow2, Z.shiftl_mul_pow2 by lia.
  change (2 ^ 12) with EEPROM_BOUNDARY. unfold EEPROM_BOUNDARY in *. zlia.
Qed.

Lemma PageIsActive_eq p s :
  valid_ptr p = true -> valid_ptr (p + 4) = true ->
  PageIsActive p s = Some (is_active (flash s) p, s).
Proof.
  intros H0 H4. unfold PageIsActive, is_active, bind.
  rewrite (load_eq _ _ H0). destruct (flash s p =? ERASED_WORD); simpl; [reflexivity|].
  rewrite (load_eq _ _ H4). reflexivity.
Qed.

Lemma PageIsUsed_eq p s :
  valid_ptr p = true -> valid_ptr (p + 4) = true ->
  PageIsUsed p s = Some (is_used (flash s) p, s).
Proof.
  intros H0 H4. unfold PageIsUsed, is_used, bind.
  rewrite (load_eq _ _ H0). destruct (flash s p =? ERASED_WORD); simpl; [reflexivity|].
  rewrite (load_eq _ _ H4). reflexivity.
Qed.

Lemma count_pages_eq (test : Z -> M bool) (f : mem -> Z -> bool) ps c s :
  (forall p, p ∈ ps -> test p s = Some (f (flash s) p, s)) ->
  count_pages test ps c s = Some (count_u8 (f (flash s)) ps c, s).
Proof.
  revert c. induction ps as [|p ps IH]; intros c H; simpl; [reflexivity|].
  unfold bind. rewrite H by (left). apply IH.
  intros q Hq. apply H. right. exact Hq.
Qed.

Lemma count_u8_length f ps c :
  0 <= c < 2 ^ 8 ->
  count_u8 f ps c = u8 (c + Z.of_nat (length (List.filter f ps))).
Proof.
  revert c. induction ps as [|p ps IH]; intros c Hc; simpl.
  - rewrite Z.add_0_r, u8_small; [reflexivity|exact Hc].
  - destruct (f p); simpl length.
    + rewrite IH by (unfold u8; apply Z.mod_pos_bound; lia).
      unfold u8. rewrite Zplus_mod_idemp_l. f_equal. lia.
    + apply IH, Hc.
Qed.

Section PageScan.
Variable s : State.
Hypothesis Hcfg :
  valid_config (g_pucEEPROMStart s) (g_pucEEPROMEnd s) (g_ulEEPROMPgSize s).

Lemma page_status_valid p :
  p ∈ pages_of s -> valid_ptr p = true /\ valid_ptr (p + 4) = true.
Proof.
  intros Hp. apply (elem_of_region_pages _ _ _ Hcfg) in Hp.
  pose proof (vc_size_lo _ _ _ Hcfg).
  split.
  - replace p with (p + 0) by lia. eapply page_word_valid; eauto; lia.
  - eapply page_word_valid; eauto; lia.
Qed.

Lemma eeprom_pages_eq : eeprom_pages s = Some (pages_of s, s).
Proof.
  unfold eeprom_pages, pages_of. rewrite (page_addrs_region _ _ _ Hcfg).
  reflexivity.
Qed.

Lemma GetActivePageCount_eq :
  GetActivePageCount s =
  Some (u8 (Z.of_nat (active_count (flash s) (pages_of s))), s).
Proof.
  unfold GetActivePageCount, bind. rewrite eeprom_pages_eq.
  rewrite (count_pages_eq _ is_active).
  - rewrite count_u8_length by lia. reflexivity.
  - intros p Hp. apply page_status_valid in Hp as [H0 H4].
    apply PageIsActive_eq; assumption.
Qed.

Lemma GetUsedPageCount_eq :
  GetUsedPageCount s =
  Some (u8 (Z.of_nat (used_count (flash s) (pages_of s))), s).
Proof.
  unfold GetUsedPageCount, bind. rewrite eeprom_pages_eq.
  rewrite (count_pages_eq _ is_used).
  - rewrite count_u8_length by lia. reflexivity.
  - intros p Hp. apply page_status_valid in Hp as [H0 H4].
    apply PageIsUsed_eq; assumption.
Qed.

Lemma find_full_active_page_eq ps e :
  (forall p, p ∈ ps -> p ∈ pages_of s) ->
  find_full_active_page ps e s =
  Some (match List.find (fun p => is_active (flash s) p
                                  && is_full (g_ulEEPROMPgSize s) (flash s) p) ps with
        | Some p => (true, p)
        | None => (false, e)
        end, s).
Proof.
  induction ps as [|p ps IH]; intros Hps; simpl; [reflexivity|].
  assert (Hp : p ∈ pages_of s) by (apply Hps; left).
  destruct (page_status_valid p Hp) as [H0 H4].
  unfold bind. rewrite (PageIsActive_eq _ _ H0 H4).
  destruct (is_active (flash s) p); simpl.
  - unfold gets.
    assert (Hv : valid_ptr (p + g_ulEEPROMPgSize s - 4) = true).
    { apply (elem_of_region_pages _ _ _ Hcfg) in Hp.
      pose proof (vc_size_lo _ _ _ Hcfg). pose proof (vc_size_mod4 _ _ _ Hcfg).
      replace (p + g_ulEEPROMPgSize s - 4) with (p + (g_ulEEPROMPgSize s - 4)) by lia.
      eapply page_word_valid; eauto; zlia. }
    rewrite (load_eq _ _ Hv). unfold is_full.
    change 0xFFFFFFFF with ERASED_WORD.
    destruct (flash s (p + g_ulEEPROMPgSize s - 4) =? ERASED_WORD); simpl; [|reflexivity].
    apply IH. intros q Hq. apply Hps. right. exact Hq.
  - apply IH. intros q Hq. apply Hps. right. exact Hq.
Qed.

End PageScan.

(** ** Recovery with two active pages *)

Lemma init_two_active_eq s :
  valid_config (g_pucEEPROMStart s) (g_pucEEPROMEnd s) (g_ulEEPROMPgSize s) ->
  init_two_active s =
  match List.find (fun p => is_active (flash s) p
                            && is_full (g_ulEEPROMPgSize s) (flash s) p)
                  (pages_of s) with
  | Some p => Some (0, set_next (p + g_ulEEPROMPgSize s) (set_active p s))
  | None => Some (ERR_TWO_ACTIVE_NO_FULL, s)
  end.
Proof.
  intros Hcfg. unfold init_two_active, bind.
  rewrite (eeprom_pages_eq s Hcfg). unfold loop_end, bind, gets, ret.
  rewrite (find_full_active_page_eq s Hcfg) by auto.
  destruct (List.find _ _); reflexivity.
Qed.

(** C6. With exactly two pages marked active, SoftEEPROMInit leaves the
    medium alone and either adopts an active page whose last slot is not
    erased, with g_pucNextAvailEntry just past the end of that page, and
    reports success, or reports ERR_TWO_ACTIVE_NO_FULL without adopting a
    page; the latter exactly when no active page is full. *)
Theorem two_active_recovery s ulStart ulEnd ulSize :
  valid_config ulStart ulEnd ulSize ->
  ulEnd <= ulFlashSize s ->
  active_count (flash s) (region_pages ulStart ulEnd ulSize) = 2%nat ->
  exists rc s',
    SoftEEPROMInit ulStart ulEnd ulSize s = Some (rc, s') /\
    flash s' = flash s /\ hist s' = hist s /\
    (rc = ERR_TWO_ACTIVE_NO_FULL <->
     forall p, In p (region_pages ulStart ulEnd ulSize) ->
               is_active (flash s) p = true ->
               is_full ulSize (flash s) p = false) /\
    (rc = ERR_TWO_ACTIVE_NO_FULL ->
     g_pucActivePage s' = g_pucActivePage s /\
     g_pucNextAvailEntry s' = g_pucNextAvailEntry s /\
     g_bEEPROMInitialized s' = g_bEEPROMInitialized s) /\
    (rc <> ERR_TWO_ACTIVE_NO_FULL ->
     rc = 0 /\ g_bEEPROMInitialized s' = true /\
     In (g_pucActivePage s') (region_pages ulStart ulEnd ulSize) /\
     is_active (flash s) (g_pucActivePage s') = true /\
     is_full ulSize (flash s) (g_pucActivePage s') = true /\
     g_pucNextAvailEntry s' = g_pucActivePage s' + ulSize).
Proof.
  intros Hcfg Hfl Hcnt.
  rewrite SoftEEPROMInit_unfold.
  destruct (Z.gtb_spec ulEnd (ulFlashSize s)); [lia|].
  rewrite !land_boundary by (destruct Hcfg; assumption).
  set (s1 := set_region ulStart ulEnd ulSize s).
  assert (Hcfg1 : valid_config (g_pucEEPROMStart s1) (g_pucEEPROMEnd s1)
                               (g_ulEEPROMPgSize s1)) by exact Hcfg.
  unfold init_recover, bind. rewrite (GetActivePageCount_eq s1 Hcfg1).
  change (pages_of s1) with (region_pages ulStart ulEnd ulSize).
  change (flash s1) with (flash s). rewrite Hcnt.
  change (u8 (Z.of_nat 2) =? 0) with false.
  change (u8 (Z.of_nat 2) =? 1) with false.
  change (u8 (Z.of_nat 2) =? 2) with true. cbv iota.
  rewrite (init_two_active_eq s1 Hcfg1).
  change (pages_of s1) with (region_pages ulStart ulEnd ulSize).
  change (flash s1) with (flash s).
  change (g_ulEEPROMPgSize s1) with ulSize.
  destruct (List.find _ _) as [p|] eqn:Hfind.
  - apply find_some in Hfind as [Hin Hp].
    apply andb_true_iff in Hp as [Hact Hfull].
    eexists _, _. split; [reflexivity|]. simpl.
    split; [reflexivity|]. split; [reflexivity|]. split; [|split].
    + split; [discriminate|]. intros Hall. rewrite (Hall p Hin Hact) in Hfull.
      discriminate.
    + discriminate.
    + intros _. auto 10.
  - eexists _, _. split; [reflexivity|]. simpl.
    split; [reflexivity|]. split; [reflexivity|]. split; [|split].
    + split; [|reflexivity]. intros _ p Hin Hact.
      pose proof (find_none _ _ Hfind p Hin) as Hn. simpl in Hn.
      rewrite Hact in Hn. exact Hn.
    + auto.
    + intros Hn. contradiction Hn. reflexivity.
Qed.

(** ** Last-write-wins lookup and compaction of a slot list *)

Lemma latest_word_app k l1 l2 :
  latest_word k (l1 ++ l2) =
  match latest_word k l1 with
  | Some w => Some w
  | None => latest_word k l2
  end.
Proof.
  induction l1 as [|w l1 IH]; simpl; [reflexivity|].
  destruct (entry_key w =? k); [reflexivity|exact IH].
Qed.

Lemma latest_word_key k l w : latest_word k l = Some w -> entry_key w = k.
Proof.
  induction l as [|w0 l IH]; simpl; [discriminate|].
  destruct (Z.eqb_spec (entry_key w0) k); [|exact IH].
  intros [= <-]. assumption.
Qed.

Lemma latest_word_In k l w : latest_word k l = Some w -> In w l.
Proof.
  induction l as [|w0 l IH]; simpl; [discriminate|].
  destruct (entry_key w0 =? k); [|auto].
  intros [= <-]. auto.
Qed.

Lemma has_key_latest c k : has_key c k = true <-> latest_word k c <> None.
Proof.
  induction c as [|w c IH]; simpl.
  - split; [discriminate|congruence].
  - destruct (entry_key w =? k); simpl; [|exact IH].
    split; [discriminate|reflexivity].
Qed.

Lemma has_key_false c k : has_key c k = false <-> latest_word k c = None.
Proof.
  pose proof (has_key_latest c k) as H.
  destruct (has_key c k), (latest_word k c); split; intros; try congruence.
  - exfalso. destruct H as [H _]. apply H; reflexivity.
  - exfalso. destruct H as [_ H]. discriminate H. discriminate.
Qed.

Lemma has_key_app c1 c2 k : has_key (c1 ++ c2) k = has_key c1 k || has_key c2 k.
Proof. unfold has_key. apply existsb_app. Qed.

Lemma compact_cons c w l : compact c (w :: l) = compact (compact_step c w) l.
Proof. reflexivity. Qed.

Lemma compact_latest k c l :
  latest_word k (compact c l) =
  match latest_word k c with
  | Some w => Some w
  | None => latest_word k l
  end.
Proof.
  revert c. induction l as [|w l IH]; intros c.
  - simpl. destruct (latest_word k c); reflexivity.
  - rewrite compact_cons, IH. unfold compact_step.
    destruct (has_key c (entry_key w)) eqn:Hk.
    + simpl. destruct (Z.eqb_spec (entry_key w) k) as [E|E]; [|reflexivity].
      rewrite E in Hk. apply has_key_latest in Hk.
      destruct (latest_word k c); [reflexivity|congruence].
    + rewrite latest_word_app. simpl.
      destruct (latest_word k c); [reflexivity|].
      destruct (entry_key w =? k); reflexivity.
Qed.

Lemma compact_In c l w : In w (compact c l) -> In w c \/ In w l.
Proof.
  revert c. induction l as [|w0 l IH]; intros c H; [left; exact H|].
  rewrite compact_cons in H. apply IH in H as [H|H]; [|right; right; exact H].
  unfold compact_step in H. destruct (has_key c (entry_key w0)); [left; exact H|].
  apply in_app_or in H as [H|[H|[]]]; [left; exact H|right; left; exact H].
Qed.

Lemma has_key_In c k : has_key c k = true <-> In k (List.map entry_key c).
Proof.
  unfold has_key. rewrite existsb_exists, in_map_iff. split.
  - intros (w & Hw & E). exists w. split; [lia|exact Hw].
  - intros (w & E & Hw). exists w. split; [exact Hw|lia].
Qed.

Lemma distinct_keys_step c w : distinct_keys c -> distinct_keys (compact_step c w).
Proof.
  intros H. unfold compact_step. destruct (has_key c (entry_key w)) eqn:Hk; [exact H|].
  unfold distinct_keys. rewrite List.map_app. simpl.
  apply List.NoDup_app; [exact H|constructor; [intros []|constructor]|].
  intros k Hin [<-|[]]. apply has_key_In in Hin. congruence.
Qed.

Lemma distinct_keys_compact c l : distinct_keys c -> distinct_keys (compact c l).
Proof.
  revert c. induction l as [|w l IH]; intros c H; [exact H|].
  rewrite compact_cons. apply IH, distinct_keys_step, H.
Qed.

Lemma latest_word_rev k c :
  distinct_keys c -> latest_word k (rev c) = latest_word k c.
Proof.
  induction c as [|w c IH]; intros Hd; [reflexivity|].
  simpl rev. rewrite latest_word_app. simpl.
  inversion Hd as [|? ? Hnin Hd']; subst.
  rewrite (IH Hd').
  destruct (Z.eqb_spec (entry_key w) k) as [E|E].
  - destruct (latest_word k c) as [w'|] eqn:Hl; [|reflexivity].
    exfalso. apply Hnin. rewrite E. apply has_key_In, has_key_latest. congruence.
  - destruct (latest_word k c); reflexivity.
Qed.

(** At most NUM_IDS valid entries have pairwise distinct keys. *)
Lemma distinct_keys_length c :
  distinct_keys c -> Forall entry_ok c -> Z.of_nat (length c) <= NUM_IDS.
Proof.
  intros Hd Hok.
  assert (Hincl : incl (List.map (fun w => Z.to_nat (entry_key w)) c)
                       (List.seq 0 (Z.to_nat NUM_IDS))).
  { intros n Hn. apply in_map_iff in Hn as (w & <- & Hw).
    rewrite Forall_forall in Hok. apply list_elem_of_In in Hw.
    destruct (Hok w Hw) as [H0 Hk]. apply in_seq.
    assert (0 <= entry_key w).
    { unfold entry_key. apply Z.shiftr_nonneg. exact H0. }
    lia. }
  apply List.NoDup_incl_length in Hincl.
  - rewrite List.length_map, List.length_seq in Hincl.
    unfold NUM_IDS, MAX_SOFTEEPROM_IDS in *. lia.
  - clear Hincl. induction c as [|w c IH]; simpl; [constructor|].
    inversion Hd as [|? ? Hnin Hd']; subst.
    apply Forall_cons in Hok as [Hw Hok].
    constructor; [|apply IH; assumption].
    intros Hin. apply Hnin. apply in_map_iff in Hin as (w' & E & Hw').
    apply in_map_iff. exists w'. split; [|exact Hw'].
    rewrite Forall_forall in Hok. apply list_elem_of_In in Hw'.
    destruct (Hok w' Hw') as [H0' _]. destruct Hw as [H0 _].
    assert (0 <= entry_key w') by (unfold entry_key; apply Z.shiftr_nonneg; exact H0').
    assert (0 <= entry_key w) by (unfold entry_key; apply Z.shiftr_nonneg; exact H0).
    lia.
Qed.

Lemma compact_step_ok c w :
  Forall entry_ok c -> entry_ok w -> Forall entry_ok (compact_step c w).
Proof.
  intros Hc Hw. unfold compact_step. destruct (has_key _ _); [exact Hc|].
  apply Forall_app. split; [exact Hc|]. constructor; [exact Hw|constructor].
Qed.

(** ** The bit vector of PageSwap *)

Lemma land_bit_zero b j :
  0 <= j -> (Z.land b (Z.shiftl 1 j) =? 0) = negb (Z.testbit b j).
Proof.
  intros Hj. rewrite Z.shiftl_1_l.
  destruct (Z.testbit b j) eqn:Hb; simpl.
  - apply Z.eqb_neq. intros H.
    assert (Ht : Z.testbit (Z.land b (2 ^ j)) j = true).
    { rewrite Z.land_spec, Hb, Z.pow2_bits_true by lia. reflexivity. }
    rewrite H in Ht. rewrite Z.bits_0 in Ht. discriminate.
  - apply Z.eqb_eq. apply Z.bits_inj'. intros n Hn.
    rewrite Z.land_spec, Z.bits_0, Z.pow2_bits_eqb by lia.
    destruct (Z.eqb_spec j n) as [->|]; [rewrite Hb; reflexivity|].
    apply andb_false_r.
Qed.

Lemma testbit_set_bit b j n :
  0 <= n < 8 -> 0 <= j < 8 ->
  Z.testbit (u8 (Z.lor b (Z.shiftl 1 j))) n = Z.testbit b n || (n =? j).
Proof.
  intros Hn Hj. unfold u8. rewrite Z.mod_pow2_bits_low by lia.
  rewrite Z.lor_spec, Z.shiftl_1_l, Z.pow2_bits_eqb by lia.
  rewrite (Z.eqb_sym j n). reflexivity.
Qed.

Lemma array_get_eq arr i v s :
  0 <= i -> arr !! Z.to_nat i = Some v -> array_get arr i s = Some (v, s).
Proof.
  intros Hi Hv. unfold array_get.
  apply lookup_lt_Some in Hv as Hlt.
  destruct (Z.leb_spec 0 i); [|lia].
  destruct (Z.ltb_spec i (Z.of_nat (length arr))); [|lia].
  simpl. rewrite Hv. reflexivity.
Qed.

Lemma array_set_eq arr i v s :
  0 <= i < Z.of_nat (length arr) ->
  array_set arr i v s = Some (<[Z.to_nat i := v]> arr, s).
Proof.
  intros Hi. unfold array_set.
  destruct (Z.leb_spec 0 i); [|lia].
  destruct (Z.ltb_spec i (Z.of_nat (length arr))); [|lia].
  reflexivity.
Qed.

Lemma array_get_out arr i s :
  Z.of_nat (length arr) <= i -> array_get arr i s = None.
Proof.
  intros Hi. unfold array_get.
  destruct (Z.ltb_spec i (Z.of_nat (length arr))); [lia|].
  rewrite andb_false_r. reflexivity.
Qed.

Lemma vec_marks_init :
  vec_marks (replicate (Z.to_nat NUM_VECTOR_BYTES) 0) [].
Proof.
  split; [rewrite length_replicate; reflexivity|].
  intros k b Hk Hb. apply lookup_replicate in Hb as [-> _].
  rewrite Z.bits_0. reflexivity.
Qed.

Lemma vec_marks_lookup vec c k :
  vec_marks vec c -> 0 <= k < 8 * NUM_VECTOR_BYTES ->
  exists b, vec !! Z.to_nat (k / 8) = Some b /\
            Z.testbit b (k mod 8) = has_key c k.
Proof.
  intros [Hlen Hm] Hk.
  destruct (vec !! Z.to_nat (k / 8)) as [b|] eqn:Hb.
  - exists b. split; [reflexivity|]. apply Hm; assumption.
  - apply lookup_ge_None in Hb. unfold NUM_VECTOR_BYTES, NUM_VECTOR_BITS,
      NUM_IDS, MAX_SOFTEEPROM_IDS in *. simpl in *. zlia.
Qed.

Lemma vec_marks_set vec c w b :
  vec_marks vec c -> 0 <= entry_key w < 8 * NUM_VECTOR_BYTES ->
  vec !! Z.to_nat (entry_key w / 8) = Some b ->
  vec_marks (<[Z.to_nat (entry_key w / 8) :=
                 u8 (Z.lor b (Z.shiftl 1 (entry_key w mod 8)))]> vec)
            (c ++ [w]).
Proof.
  intros [Hlen Hm] Hk Hb. split; [rewrite length_insert; exact Hlen|].
  intros k b' Hk' Hb'. rewrite has_key_app. simpl. rewrite orb_false_r.
  destruct (decide (Z.to_nat (entry_key w / 8) = Z.to_nat (k / 8))) as [E|E].
  - rewrite E in Hb'. rewrite list_lookup_insert_eq in Hb'.
    2:{ rewrite <- E. apply lookup_lt_Some in Hb. exact Hb. }
    injection Hb' as <-.
    rewrite testbit_set_bit by zlia.
    rewrite (Hm k b Hk') by (rewrite <- E; exact Hb).
    f_equal. rewrite (Z.eqb_sym (entry_key w) k).
    destruct (Z.eqb_spec (k mod 8) (entry_key w mod 8)), (Z.eqb_spec k (entry_key w));
      try reflexivity; exfalso; zlia.
  - rewrite list_lookup_insert_ne in Hb' by exact E.
    rewrite (Hm k b' Hk' Hb').
    destruct (Z.eqb_spec (entry_key w) k) as [<-|]; [contradiction E; reflexivity|].
    rewrite orb_false_r. reflexivity.
Qed.

(** ** The copy loop of PageSwap *)

Lemma program_slots m p (f : nat) ws :
  (forall x w, ws !! x = Some w -> 0 <= w < 2 ^ 32) ->
  (forall x, (x < length ws)%nat ->
             m (slot_addr p (Z.of_nat (f + x))) = ERASED_WORD) ->
  (forall x w, ws !! x = Some w ->
     program_words m (slot_addr p (Z.of_nat f)) ws
                   (slot_addr p (Z.of_nat (f + x))) = w) /\
  (forall y, (forall x, (x < length ws)%nat ->
                        y <> slot_addr p (Z.of_nat (f + x))) ->
     program_words m (slot_addr p (Z.of_nat f)) ws y = m y).
Proof.
  intros Hr He. split.
  - intros x w Hx.
    replace (slot_addr p (Z.of_nat (f + x)))
      with (slot_addr p (Z.of_nat f) + 4 * Z.of_nat x) by (unfold slot_addr; lia).
    rewrite (program_words_in _ _ _ _ _ Hx).
    replace (slot_addr p (Z.of_nat f) + 4 * Z.of_nat x)
      with (slot_addr p (Z.of_nat (f + x))) by (unfold slot_addr; lia).
    rewrite He by (apply lookup_lt_Some in Hx; exact Hx).
    apply land_erased. eapply Hr, Hx.
  - intros y Hy. apply program_words_out. intros i Hi E.
    apply (Hy (Z.to_nat i)); [lia|]. rewrite E. unfold slot_addr. lia.
Qed.

Section SwapLoop.
Variables (s1 : State) (a p' : Z).
Let st := g_pucEEPROMStart s1.
Let en := g_pucEEPROMEnd s1.
Let sz := g_ulEEPROMPgSize s1.
Hypothesis Hcfg : valid_config st en sz.
Hypothesis Ha : is_page st en sz a.
Hypothesis Hp' : is_page st en sz p'.
Hypothesis Hne : p' <> a.
Hypothesis Hold : forall i, 0 <= i < slots_per_page sz ->
                            entry_ok (flash s1 (slot_addr a i)).

Lemma old_slot_outside i :
  0 <= i < slots_per_page sz ->
  ~ (p' + 8 <= slot_addr a i < p' + sz).
Proof.
  intros Hi. pose proof (pages_disjoint _ _ _ Hcfg _ _ Ha Hp' (not_eq_sym Hne)).
  unfold slot_addr, slots_per_page in *. zlia.
Qed.

Lemma SwapInv_full c v s :
  SwapInv s1 p' c v s ->
  Z.of_nat (length c) <= NUM_IDS /\ NUM_IDS < slots_per_page sz.
Proof.
  intros I. split.
  - apply distinct_keys_length; [apply (si_distinct _ _ _ _ _ I)|apply (si_ok _ _ _ _ _ I)].
  - pose proof (vc_slots _ _ _ Hcfg). unfold NUM_IDS, MAX_SOFTEEPROM_IDS in *. fold sz. lia.
Qed.

Lemma PageSwap_entry_spec c v s i :
  SwapInv s1 p' c v s ->
  pucUsedEntry v = slot_addr a i ->
  0 <= i < slots_per_page sz ->
  exists v' s',
    PageSwap_entry v s = Some (inr v', s') /\
    SwapInv s1 p' (compact_step c (flash s1 (slot_addr a i))) v' s' /\
    pucUsedEntry v' = slot_addr a (i - 1).
Proof.
  intros I Hused Hi.
  pose proof Hcfg as Hcfg0. pose proof Ha as Ha0. pose proof Hp' as Hp0.
  destruct (SwapInv_full _ _ _ I) as [Hlen HN].
  unfold st, en, sz in *.
  set (w := flash s1 (slot_addr a i)).
  assert (Hw : entry_ok w) by (apply Hold, Hi).
  pose proof (entry_ok_bound _ Hw) as Hwb.
  assert (Hk0 : 0 <= entry_key w).
  { unfold entry_key. apply Z.shiftr_nonneg. lia. }
  assert (Hk : 0 <= entry_key w < NUM_IDS) by (split; [exact Hk0|apply Hw]).
  assert (Hkv : 0 <= entry_key w < 8 * NUM_VECTOR_BYTES).
  { unfold NUM_IDS, MAX_SOFTEEPROM_IDS in Hk.
    change (8 * NUM_VECTOR_BYTES) with 128. lia. }
  unfold PageSwap_entry.
  assert (Hv : valid_ptr (slot_addr a i) = true) by (eapply slot_valid; eauto).
  unfold bind at 1. rewrite Hused, (load_eq _ _ Hv).
  rewrite (si_frame _ _ _ _ _ I) by (apply old_slot_outside, Hi). fold w.
  assert (Hid : u16 (Z.shiftr w 16) = entry_key w).
  { unfold entry_key in *. apply u16_small.
    unfold NUM_IDS, MAX_SOFTEEPROM_IDS in Hk. change (2 ^ 16) with 65536. lia. }
  rewrite Hid.
  destruct (vec_marks_lookup _ _ _ (si_vec _ _ _ _ _ I) Hkv) as (b & Hb & Hbit).
  assert (Hk8 : 0 <= entry_key w / 8) by (apply Z.div_pos; lia).
  assert (Hkm : 0 <= entry_key w mod 8 < 8) by (apply Z.mod_pos_bound; lia).
  unfold bind at 1. rewrite (array_get_eq _ _ _ _ Hk8 Hb).
  rewrite land_bit_zero by lia. rewrite Hbit.
  assert (Hff : (entry_key w =? 0xFF) = false).
  { apply Z.eqb_neq. unfold NUM_IDS, MAX_SOFTEEPROM_IDS in Hk. lia. }
  rewrite Hff. change (negb false) with true. rewrite andb_true_r.
  unfold compact_step.
  destruct (has_key c (entry_key w)) eqn:Hhas; cbn [negb].
  - (* the key was copied before *)
    eexists _, _. split; [reflexivity|]. split; [|simpl; unfold slot_addr; lia].
    destruct I. constructor; simpl; assumption.
  - (* a new key *)
    destruct (si_layout _ _ _ _ _ I) as (f & Hnew & Hf & Hn & Hbuf & Hfl & Hfree).
    destruct (si_count _ _ _ _ _ I) as (B & HB & Hbc & Hpos).
    pose proof (si_buflen _ _ _ _ _ I) as Hbl. unfold DATA_BUFFER_WORDS in Hbl.
    set (n := (length c - f)%nat) in *.
    assert (Hn32 : (n < 32)%nat) by lia.
    assert (Hc' : Forall entry_ok (c ++ [w])).
    { apply Forall_app. split; [apply (si_ok _ _ _ _ _ I)|]. repeat constructor; apply Hw. }
    assert (Hd' : distinct_keys (c ++ [w])).
    { pose proof (distinct_keys_step c w (si_distinct _ _ _ _ _ I)) as H.
      unfold compact_step in H. rewrite Hhas in H. exact H. }
    pose proof (distinct_keys_length _ Hd' Hc') as Hlen'.
    rewrite length_app in Hlen'. simpl length in Hlen'.
    unfold bind at 1. rewrite array_set_eq by lia.
    unfold bind at 1. rewrite (array_get_eq _ _ _ _ Hk8 Hb).
    unfold bind at 1. rewrite array_set_eq.
    2:{ destruct (si_vec _ _ _ _ _ I) as [Hvl _]. rewrite Hvl.
        change NUM_VECTOR_BYTES with 16. change (8 * NUM_VECTOR_BYTES) with 128 in Hkv.
        clear - Hkv Hk8. zlia. }
    set (buf' := <[Z.to_nat (ulNumWordsInBuffer v) := w]> (ulDataBuffer v)).
    set (vec' := <[Z.to_nat (entry_key w / 8) := _]> (ucIDSwapped v)).
    assert (Hvec' : vec_marks vec' (c ++ [w])) by (apply vec_marks_set; auto; apply I).
    assert (Hbuf' : forall x, (x < length (c ++ [w]) - f)%nat ->
                              buf' !! x = (c ++ [w]) !! (f + x)%nat).
    { intros x Hx. rewrite length_app in Hx. simpl in Hx. unfold buf'. rewrite Hn.
      rewrite Nat2Z.id. destruct (decide (x = n)) as [->|Hxn].
      - rewrite list_lookup_insert_eq by lia.
        rewrite lookup_app_r by lia. replace (f + n - length c)%nat with O by lia.
        reflexivity.
      - rewrite list_lookup_insert_ne by lia. rewrite Hbuf by lia.
        rewrite lookup_app_l by lia. reflexivity. }
    assert (Hu32n : u32 (ulNumWordsInBuffer v + 1) = Z.of_nat n + 1).
    { rewrite Hn. apply u32_small. change (2 ^ 32) with 4294967296. lia. }
    assert (Hcnt : u32 (ulByteCount v - 4) = ulByteCount v - 4).
    { apply u32_small. change (2 ^ 32) with 4294967296. lia. }
    rewrite Hu32n, Hcnt.
    destruct (Z.eqb_spec (ulByteCount v - 4) 0) as [Hz|Hnz].
    + (* the buffer is flushed *)
      unfold bind at 1. rewrite PageDataWrite_eq. cbn [negb Z.eqb].
      eexists _, _. split; [reflexivity|]. split; [|simpl; unfold slot_addr; lia].
      assert (Htake : Z.to_nat (u32 ((Z.of_nat n + 1) * 4) / 4) = S n).
      { rewrite u32_small by (change (2 ^ 32) with 4294967296; lia). zlia. }
      rewrite Htake, Hnew.
      set (ws := take (S n) buf').
      assert (Hws : forall x, (x < S n)%nat -> ws !! x = (c ++ [w]) !! (f + x)%nat).
      { intros x Hx. unfold ws. rewrite lookup_take_lt by lia. apply Hbuf'.
        rewrite length_app. simpl. lia. }
      assert (Hwslen : length ws = S n).
      { unfold ws. rewrite length_take. unfold buf'. rewrite length_insert. lia. }
      destruct (program_slots (flash s) p' f ws) as [Hin Hout].
      { intros x w0 Hx. apply lookup_lt_Some in Hx as Hlt. rewrite Hwslen in Hlt.
        rewrite (Hws x Hlt) in Hx. rewrite Forall_forall in Hc'.
        apply entry_ok_bound, Hc', list_elem_of_lookup. eauto. }
      { intros x Hx. apply Hfree. rewrite Hwslen in Hx. lia. }
      set (m' := program_words _ _ ws) in *.
      assert (Hframe' : agree_outside (p' + 8) (p' + g_ulEEPROMPgSize s1) m' (flash s1)).
      { intros y Hy. rewrite Hout; [apply (si_frame _ _ _ _ _ I), Hy|].
        intros x Hx E. apply Hy. rewrite E. rewrite Hwslen in Hx.
        unfold slot_addr, slots_per_page in *. zlia. }
      constructor; simpl.
      * destruct (si_state _ _ _ _ _ I) as (l & Hs & Hl).
        exists (m' :: l). split.
        -- rewrite Hs at 1. rewrite set_flash_with_medium, with_medium_twice. reflexivity.
        -- constructor; assumption.
      * exact Hframe'.
      * exact Hc'.
      * exact Hd'.
      * exact Hvec'.
      * unfold buf'. rewrite length_insert. exact Hbl.
      * exists (length (c ++ [w])). rewrite length_app. simpl length.
        split; [unfold slot_addr; lia|]. split; [lia|]. split; [lia|].
        split; [intros x Hx; lia|]. split.
        -- intros x Hx. destruct (decide (x < f)%nat) as [Hlt|Hge].
           ++ rewrite lookup_app_l by lia. rewrite (Hfl x Hlt). f_equal.
              symmetry. apply Hout. intros y Hy. unfold slot_addr. lia.
           ++ replace x with (f + (x - f))%nat at 1 2 by lia.
              assert (Hx' : (x - f < S n)%nat) by lia.
              rewrite <- (Hws _ Hx').
              destruct (ws !! (x - f)%nat) as [w0|] eqn:E.
              ** rewrite (Hin _ _ E). reflexivity.
              ** apply lookup_ge_None in E. lia.
        -- intros x Hx. rewrite Hout; [apply Hfree; lia|].
           intros y Hy. unfold slot_addr. rewrite Hwslen in Hy. lia.
      * exists 128. split; [right; reflexivity|]. lia.
    + (* the word waits in the buffer *)
      eexists _, _. split; [reflexivity|]. split; [|simpl; unfold slot_addr; lia].
      destruct I. constructor; simpl; try assumption.
      * unfold buf'. rewrite length_insert. exact Hbl.
      * exists f. rewrite length_app. simpl length.
        split; [exact Hnew|]. split; [lia|]. split; [lia|].
        split; [intros x Hx; apply Hbuf'; rewrite length_app; simpl; lia|].
        split; [|exact Hfree].
        intros x Hx. rewrite lookup_app_l by lia. apply Hfl, Hx.
      * exists B. split; [exact HB|]. lia.
Qed.

Lemma PageSwap_loop_spec j c v s :
  SwapInv s1 p' c v s ->
  pucUsedEntry v = slot_addr a (Z.of_nat j - 1) ->
  Z.of_nat j <= slots_per_page sz ->
  exists v' s',
    PageSwap_loop j v s = Some (inr v', s') /\
    SwapInv s1 p' (compact c (newest_first (flash s1) a j)) v' s'.
Proof.
  revert c v s. induction j as [|j IH]; intros c v s I Hused Hj.
  - exists v, s. split; [reflexivity|exact I].
  - simpl PageSwap_loop. unfold bind.
    destruct (PageSwap_entry_spec c v s (Z.of_nat j) I) as (v1 & s2 & Hrun & I1 & Hused1).
    { rewrite Hused. f_equal. lia. }
    { lia. }
    rewrite Hrun.
    destruct (IH _ v1 s2 I1) as (v' & s' & Hrun' & I').
    { rewrite Hused1. reflexivity. }
    { lia. }
    exists v', s'. split; [exact Hrun'|]. exact I'.
Qed.

End SwapLoop.

(** ** PageSwap *)

Lemma land_7F_slot0 p : p mod 128 = 0 -> Z.land (p + 8) 0x7F = 8.
Proof.
  intros H. change 0x7F with (Z.ones 7). rewrite Z.land_ones by lia.
  change (2 ^ 7) with 128. zlia.
Qed.

Lemma newest_first_ext m m' p j :
  (forall i, 0 <= i < Z.of_nat j -> m' (slot_addr p i) = m (slot_addr p i)) ->
  newest_first m' p j = newest_first m p j.
Proof.
  induction j as [|j IH]; intros H; simpl; [reflexivity|].
  rewrite H by lia. f_equal. apply IH. intros i Hi. apply H. lia.
Qed.

Lemma newest_first_In m p j w :
  In w (newest_first m p j) ->
  exists i, 0 <= i < Z.of_nat j /\ w = m (slot_addr p i).
Proof.
  induction j as [|j IH]; simpl; [intros []|].
  intros [<-|H].
  - exists (Z.of_nat j). split; [lia|reflexivity].
  - destruct (IH H) as (i & Hi & ->). exists i. split; [lia|reflexivity].
Qed.

Lemma Forall_newest_first (P : Z -> Prop) m p j :
  (forall i, 0 <= i < Z.of_nat j -> P (m (slot_addr p i))) ->
  Forall P (newest_first m p j).
Proof.
  intros H. apply Forall_forall. intros w Hw. apply list_elem_of_In in Hw.
  apply newest_first_In in Hw as (i & Hi & ->). apply H, Hi.
Qed.

Lemma compact_ok c l :
  Forall entry_ok c -> Forall entry_ok l -> Forall entry_ok (compact c l).
Proof.
  revert c. induction l as [|w l IH]; intros c Hc Hl; [exact Hc|].
  apply Forall_cons in Hl as [Hw Hl]. rewrite compact_cons.
  apply IH; [apply compact_step_ok; assumption|exact Hl].
Qed.

Lemma next_page_eq p s :
  next_page p s =
  Some (if p + g_ulEEPROMPgSize s <? g_pucEEPROMEnd s
        then p + g_ulEEPROMPgSize s else g_pucEEPROMStart s, s).
Proof. reflexivity. Qed.

Section Swap.
Variables (s : State) (a : Z).
Let st := g_pucEEPROMStart s.
Let en := g_pucEEPROMEnd s.
Let sz := g_ulEEPROMPgSize s.
Let p' := if a + sz <? en then a + sz else st.
Let N := slots_per_page sz.
Let c := compact [] (newest_first (flash s) a (Z.to_nat N)).
Hypothesis Hcfg : valid_config st en sz.
Hypothesis Ha : is_page st en sz a.
Hypothesis Hold : forall i, 0 <= i < N -> entry_ok (flash s (slot_addr a i)).

(** The media PageSwap goes through, most recent first: the full page is
    marked used in the last step, the new page is marked active in the
    step before, and in all the steps before that the new page is erased
    and the status of the full page is untouched. *)
Lemma PageSwap_trace :
  exists m' l,
    PageSwap a s =
    Some (0, set_next (slot_addr p' (Z.of_nat (length c)))
                      (set_active p' (with_medium m' l s))) /\
    Z.of_nat (length c) <= NUM_IDS /\
    (forall x, (x < length c)%nat ->
               c !! x = Some (m' (slot_addr p' (Z.of_nat x)))) /\
    (forall x, Z.of_nat (length c) <= x < N ->
               m' (slot_addr p' x) = ERASED_WORD) /\
    swap_step_ok (flash s) a p' sz m' /\
    m' p' = u32 (flash s a + 1) /\ m' (a + 4) = 0 /\
    Forall (swap_step_ok (flash s) a p' sz) l /\
    exists m4 l0,
      l = m' :: m4 :: l0 /\
      m4 p' = u32 (flash s a + 1) /\ m4 (a + 4) = flash s (a + 4) /\
      l0 <> [] /\
      Forall (fun m => m p' = ERASED_WORD /\ m (a + 4) = flash s (a + 4)) l0.
Proof.
  pose proof (vc_size_lo _ _ _ Hcfg) as Hszlo.
  pose proof (vc_size_mod4 _ _ _ Hcfg) as Hsz4.
  pose proof (vc_slots _ _ _ Hcfg) as HN.
  pose proof (vc_usSize _ _ _ Hcfg) as HusSize.
  destruct (next_page_is_page _ _ _ Hcfg a Ha) as [Hp' Hne]. fold p' in Hp', Hne.
  pose proof (pages_disjoint _ _ _ Hcfg _ _ Ha Hp' (not_eq_sym Hne)) as Hdisj.
  destruct (PageErase_spec s p' Hcfg Hp') as (m1 & l1 & Herase & Hm1 & Hl1 & Hl1ne).
  set (s1 := with_medium m1 l1 s) in *.
  assert (Hm1new : forall x, p' <= x < p' + sz -> m1 x = ERASED_WORD).
  { intros x Hx. rewrite Hm1. fold sz. zb. }
  assert (Hm1old : forall x, ~ (p' <= x < p' + sz) -> m1 x = flash s x).
  { intros x Hx. rewrite Hm1. fold sz. zb. }
  assert (Hold1 : forall i, 0 <= i < slots_per_page (g_ulEEPROMPgSize s1) ->
                            entry_ok (flash s1 (slot_addr a i))).
  { intros i Hi. simpl in *. rewrite Hm1old; [apply Hold, Hi|].
    unfold slot_addr, slots_per_page in *. fold sz in Hi. zlia. }
  assert (Hc1 : compact [] (newest_first (flash s1) a (Z.to_nat N)) = c).
  { unfold c. f_equal. apply newest_first_ext. intros i Hi. simpl.
    apply Hm1old. unfold slot_addr, N, slots_per_page in *. zlia. }
  (* the loop *)
  assert (I0 : SwapInv s1 p' []
                 (mkSwapVars (replicate (Z.to_nat NUM_VECTOR_BYTES) 0)
                             (replicate (Z.to_nat DATA_BUFFER_WORDS) 0) 0
                             (u32 (32 - Z.land (p' + 8) 0x7F)) (p' + 8)
                             (a + sz - 4)) s1).
  { constructor; simpl.
    - exists []. split; [symmetry; exact (with_medium_nil s1)|constructor].
    - intros x _. reflexivity.
    - constructor.
    - constructor.
    - apply vec_marks_init.
    - reflexivity.
    - exists O. split; [unfold slot_addr; lia|]. split; [lia|]. split; [reflexivity|].
      split; [intros x Hx; lia|]. split; [intros x Hx; lia|].
      intros x Hx. apply Hm1new. unfold slot_addr, slots_per_page in *. fold sz in Hx. zlia.
    - exists 24. split; [left; reflexivity|].
      rewrite land_7F_slot0 by (eapply page_mod128; eauto). split; reflexivity. }
  destruct (PageSwap_loop_spec s1 a p' Hcfg Ha Hp' Hne Hold1 (Z.to_nat N) [] _ s1 I0)
    as (v & s2 & Hloop & I).
  { simpl. unfold slot_addr, N, slots_per_page in *. zlia. }
  { simpl. fold sz N. unfold NUM_IDS, MAX_SOFTEEPROM_IDS in HN. fold N in HN. lia. }
  rewrite Hc1 in I.
  destruct (SwapInv_full s1 p' Hcfg c v s2 I) as [Hlen _].
  destruct (si_state _ _ _ _ _ I) as (l2 & Hs2 & Hl2).
  destruct (si_layout _ _ _ _ _ I) as (f & Hnew & Hf & Hn & Hbuf & Hfl & Hfree).
  pose proof (si_frame _ _ _ _ _ I) as Hframe. simpl in Hframe, Hfree, Hl2. fold sz N in Hframe, Hfree, Hl2.
  pose proof (si_buflen _ _ _ _ _ I) as Hbl. unfold DATA_BUFFER_WORDS in Hbl.
  (* the last flush *)
  set (n := (length c - f)%nat) in *.
  set (ws := take n (ulDataBuffer v)).
  assert (Hws : forall x, (x < n)%nat -> ws !! x = c !! (f + x)%nat).
  { intros x Hx. unfold ws. rewrite lookup_take_lt by lia. apply Hbuf, Hx. }
  assert (Hn32 : (n <= 32)%nat).
  { destruct (si_count _ _ _ _ _ I) as (B & HB & Hbc & Hpos). lia. }
  assert (Hwslen : length ws = n) by (unfold ws; rewrite length_take; lia).
  destruct (program_slots (flash s2) p' f ws) as [Hin Hout].
  { intros x w0 Hx. apply lookup_lt_Some in Hx as Hlt. rewrite Hwslen in Hlt.
    rewrite (Hws x Hlt) in Hx. pose proof (si_ok _ _ _ _ _ I) as Hok.
    rewrite Forall_forall in Hok.
    apply entry_ok_bound, Hok, list_elem_of_lookup. eauto. }
  { intros x Hx. apply Hfree. rewrite Hwslen in Hx. unfold NUM_IDS, MAX_SOFTEEPROM_IDS, N in *. lia. }
  set (m3 := program_words (flash s2) (slot_addr p' (Z.of_nat f)) ws) in *.
  assert (Hframe3 : agree_outside (p' + 8) (p' + sz) m3 m1).
  { intros y Hy. rewrite Hout; [apply Hframe, Hy|].
    intros x Hx E. apply Hy. rewrite E. rewrite Hwslen in Hx.
    unfold slot_addr, N, slots_per_page, NUM_IDS, MAX_SOFTEEPROM_IDS in *. zlia. }
  assert (Hm3c : forall x, (x < length c)%nat ->
                           c !! x = Some (m3 (slot_addr p' (Z.of_nat x)))).
  { intros x Hx. destruct (decide (x < f)%nat) as [Hlt|Hge].
    - rewrite (Hfl x Hlt). f_equal. symmetry. apply Hout.
      intros y Hy. unfold slot_addr. lia.
    - replace x with (f + (x - f))%nat at 1 2 by lia.
      assert (Hx' : (x - f < n)%nat) by lia.
      rewrite <- (Hws _ Hx').
      destruct (ws !! (x - f)%nat) as [w0|] eqn:E.
      + rewrite (Hin _ _ E). reflexivity.
      + apply lookup_ge_None in E. lia. }
  assert (Hm3free : forall x, Z.of_nat (length c) <= x < N ->
                              m3 (slot_addr p' x) = ERASED_WORD).
  { intros x Hx. rewrite Hout; [apply Hfree; lia|].
    intros y Hy. unfold slot_addr. rewrite Hwslen in Hy. lia. }
  (* the state after the last flush *)
  assert (Hflush : exists l3,
    (if negb (ulNumWordsInBuffer v =? 0)
     then rc <- PageDataWrite (ulDataBuffer v) (pucNewEntry v)
                              (u32 (ulNumWordsInBuffer v * 4)) ;;
          if negb (rc =? 0) then ret (inl (Z.lor ERR_SWAP ERR_PG_WRITE))
          else ret (inr (pucNewEntry v + ulNumWordsInBuffer v * 4))
     else ret (inr (pucNewEntry v))) s2 =
    Some (inr (slot_addr p' (Z.of_nat (length c))), with_medium m3 l3 s1) /\
    Forall (fun m => agree_outside (p' + 8) (p' + sz) m m1) l3 /\
    with_medium m3 l3 s1 = with_medium m3 (l3 ++ l1) s).
  { rewrite Hn. destruct (Z.eqb_spec (Z.of_nat n) 0) as [Hz|Hnz]; cbn [negb].
    - exists l2. assert (Hws0 : ws = []) by (apply nil_length_inv; lia).
      assert (Hm3 : m3 = flash s2) by (unfold m3; rewrite Hws0; reflexivity).
      rewrite Hm3. rewrite <- Hs2. split; [|split; [exact Hl2|]].
      + unfold ret. do 3 f_equal. rewrite Hnew. f_equal. lia.
      + rewrite Hs2. unfold s1. rewrite with_medium_twice. reflexivity.
    - exists (m3 :: l2). unfold bind. rewrite PageDataWrite_eq. cbn [negb Z.eqb].
      assert (Htake : Z.to_nat (u32 (Z.of_nat n * 4) / 4) = n).
      { rewrite u32_small by (change (2 ^ 32) with 4294967296; lia). zlia. }
      rewrite Htake, Hnew. fold ws. fold m3. split; [|split].
      + unfold ret. f_equal. f_equal; [f_equal; unfold slot_addr; lia|].
        rewrite Hs2 at 1. rewrite set_flash_with_medium, with_medium_twice. reflexivity.
      + constructor; assumption.
      + unfold s1. rewrite with_medium_twice. reflexivity. }
  destruct Hflush as (l3 & Hflush & Hl3 & Hs3).
  (* the status words *)
  assert (Hva : valid_ptr a = true).
  { replace a with (a + 0) by lia. eapply page_word_valid; eauto; lia. }
  set (g := flash s a).
  assert (Hm3a : m3 a = g).
  { rewrite Hframe3 by lia. apply Hm1old. lia. }
  assert (Hm3p : m3 p' = ERASED_WORD).
  { rewrite Hframe3 by lia. apply Hm1new. lia. }
  set (m4 := store m3 p' (Z.land (m3 p') (u32 (g + 1)))).
  set (m5 := store m4 (a + 4) (Z.land (m4 (a + 4)) (u32 (Z.lnot ERASED_WORD)))).
  assert (Hu32 : 0 <= u32 (g + 1) < 2 ^ 32) by (apply Z.mod_pos_bound; lia).
  assert (Hm4p : m4 p' = u32 (g + 1)).
  { unfold m4. rewrite store_eq, Hm3p. apply land_erased, Hu32. }
  assert (Hm4o : forall x, x <> p' -> m4 x = m3 x).
  { intros x Hx. unfold m4. apply store_ne, Hx. }
  assert (Hm5a : m5 (a + 4) = 0).
  { unfold m5. rewrite store_eq. change (u32 (Z.lnot ERASED_WORD)) with 0.
    apply Z.land_0_r. }
  assert (Hm5o : forall x, x <> a + 4 -> m5 x = m4 x).
  { intros x Hx. unfold m5. apply store_ne, Hx. }
  assert (Hstep1 : forall m, agree_outside (p' + 8) (p' + sz) m m1 ->
                             swap_step_ok (flash s) a p' sz m).
  { intros m Hm. split; [|split; [|split]].
    - intros x Hx _. rewrite Hm by lia. apply Hm1old, Hx.
    - rewrite Hm by lia. apply Hm1new. lia.
    - rewrite Hm by lia. apply Hm1old. lia.
    - left. split; [rewrite Hm by lia; apply Hm1new; lia|].
      rewrite Hm by lia. apply Hm1old. lia. }
  assert (Hstep4 : swap_step_ok (flash s) a p' sz m4).
  { destruct (Hstep1 m3 Hframe3) as (H1 & H2 & H3 & _). split; [|split; [|split]].
    - intros x Hx Hx'. rewrite Hm4o by lia. apply H1; assumption.
    - rewrite Hm4o by lia. exact H2.
    - rewrite Hm4o by lia. exact H3.
    - right. split; [exact Hm4p|]. left. rewrite Hm4o by lia.
      rewrite Hframe3 by lia. apply Hm1old. lia. }
  assert (Hstep5 : swap_step_ok (flash s) a p' sz m5).
  { destruct Hstep4 as (H1 & H2 & H3 & _). split; [|split; [|split]].
    - intros x Hx Hx'. rewrite Hm5o by lia. apply H1; assumption.
    - rewrite Hm5o by lia. exact H2.
    - rewrite Hm5o by lia. exact H3.
    - right. split; [rewrite Hm5o by lia; exact Hm4p|]. right. exact Hm5a. }
  exists m5, (m5 :: m4 :: l3 ++ l1).
  split; [|split; [exact Hlen|split; [|split; [|split; [exact Hstep5|split; [|split; [exact Hm5a|split]]]]]]].
  - unfold PageSwap. unfold bind at 1. rewrite next_page_eq. fold sz en st p'.
    unfold bind at 1. rewrite Herase. cbn [negb Z.eqb].
    unfold bind at 1. unfold gets at 1.
    change (g_ulEEPROMPgSize s1) with sz. rewrite HusSize. fold N.
    unfold bind at 1. rewrite Hloop.
    unfold bind at 1. rewrite Hflush.
    unfold bind at 1. rewrite (load_eq _ _ Hva). cbn [flash with_medium].
    rewrite Hm3a.
    unfold bind at 1. rewrite array_set_eq by lia.
    unfold bind at 1. rewrite PageDataWrite_eq. cbn [negb Z.eqb].
    unfold bind at 1. rewrite array_set_eq by (rewrite length_insert; lia).
    unfold bind at 1. rewrite PageDataWrite_eq. cbn [negb Z.eqb].
    unfold bind, modify, ret.
    destruct (Z.ltb_spec (slot_addr p' (Z.of_nat (length c))) (p' + sz)) as [_|Hbad].
    2:{ exfalso. unfold slot_addr, N, slots_per_page, NUM_IDS, MAX_SOFTEEPROM_IDS in *. zlia. }
    cbn [negb]. f_equal. f_equal.
    change (Z.to_nat (4 / 4)) with 1%nat.
    assert (Hbuf1 : forall (b : list Z) x, (0 < length b)%nat ->
                                           take 1 (<[Z.to_nat 0 := x]> b) = [x]).
    { intros b x Hb. destruct b; [simpl in Hb; lia|reflexivity]. }
    rewrite !Hbuf1 by (rewrite ?length_insert; lia).
    cbn [program_words flash set_flash].
    fold m4. fold m5. rewrite Hs3.
    rewrite !set_flash_with_medium, !with_medium_twice. reflexivity.
  - intros x Hx. rewrite (Hm3c x Hx). f_equal.
    rewrite Hm5o, Hm4o; [reflexivity| |]; unfold slot_addr, N, slots_per_page in *; zlia.
  - intros x Hx. rewrite Hm5o, Hm4o; [apply Hm3free, Hx| |];
      unfold slot_addr, N, slots_per_page in *; zlia.
  - rewrite Hm5o by lia. exact Hm4p.
  - constructor; [exact Hstep5|]. constructor; [exact Hstep4|].
    apply Forall_app. split.
    + eapply Forall_impl; [exact Hl3|]. exact Hstep1.
    + eapply Forall_impl; [exact Hl1|]. simpl. intros m (H1 & H2 & H3).
      fold sz in H3. split; [|split; [|split]].
      * intros x Hx _. apply H3, Hx.
      * exact H2.
      * apply H3. lia.
      * left. split; [exact H1|]. apply H3. lia.
  - exists m4, (l3 ++ l1). split; [reflexivity|]. split; [exact Hm4p|].
    split; [rewrite Hm4o by lia; rewrite Hframe3 by lia; apply Hm1old; lia|].
    split; [destruct l3; [exact Hl1ne|discriminate]|].
    apply Forall_app. split.
    + eapply Forall_impl; [exact Hl3|]. simpl. intros m Hm.
      split; [rewrite Hm by lia; apply Hm1new; lia|].
      rewrite Hm by lia. apply Hm1old. lia.
    + eapply Forall_impl; [exact Hl1|]. simpl. intros m (H1 & H2 & H3).
      fold sz in H3. split; [exact H1|]. apply H3. lia.
Qed.

Lemma PageSwap_spec :
  exists m' l,
    PageSwap a s =
    Some (0, set_next (slot_addr p' (Z.of_nat (length c)))
                      (set_active p' (with_medium m' l s))) /\
    Z.of_nat (length c) <= NUM_IDS /\
    (forall x, (x < length c)%nat ->
               c !! x = Some (m' (slot_addr p' (Z.of_nat x)))) /\
    (forall x, Z.of_nat (length c) <= x < N ->
               m' (slot_addr p' x) = ERASED_WORD) /\
    swap_step_ok (flash s) a p' sz m' /\
    m' p' = u32 (flash s a + 1) /\ m' (a + 4) = 0 /\
    Forall (swap_step_ok (flash s) a p' sz) l /\
    l <> [].
Proof.
  destruct PageSwap_trace
    as (m' & l & Hrun & Hlen & Hc & Hfree & Hok & Hp & Ha4 & Hl
        & m4 & l0 & Hshape & _).
  exists m', l. split; [exact Hrun|]. split; [exact Hlen|]. split; [exact Hc|].
  split; [exact Hfree|]. split; [exact Hok|]. split; [exact Hp|].
  split; [exact Ha4|]. split; [exact Hl|]. rewrite Hshape. discriminate.
Qed.

End Swap.

(** ** SoftEEPROMRead *)

Section Engine.
Variable s : State.
Hypothesis Hwf : wf s.
Let st := g_pucEEPROMStart s.
Let en := g_pucEEPROMEnd s.
Let sz := g_ulEEPROMPgSize s.
Let a := g_pucActivePage s.
Let nx := g_pucNextAvailEntry s.
Let N := slots_per_page sz.

Lemma wf_is_page : is_page st en sz a.
Proof. destruct Hwf. unfold is_page. auto. Qed.

Lemma wf_next_slot : nx = slot_addr a (Z.of_nat (used_slots s)).
Proof.
  destruct Hwf. unfold used_slots, slot_addr. unfold N, nx, a, sz, en, st in *.
  rewrite Z2Nat.id by zlia. zlia.
Qed.

Lemma wf_used_le : 0 <= Z.of_nat (used_slots s) <= N.
Proof.
  pose proof wf_next_slot as H. destruct Hwf.
  pose proof (vc_size_mod4 _ _ _ wf_config0).
  unfold slot_addr, N, slots_per_page in *. unfold N, nx, a, sz, en, st in *. zlia.
Qed.

Lemma SoftEEPROMRead_loop_eq j k :
  Z.of_nat j <= N ->
  SoftEEPROMRead_loop j k (slot_addr a (Z.of_nat j - 1)) s =
  Some (read_out (entry_value <$> latest_word k (newest_first (flash s) a j)), s).
Proof.
  induction j as [|j IH]; intros Hj; [reflexivity|].
  simpl SoftEEPROMRead_loop. unfold bind.
  replace (Z.of_nat (S j) - 1) with (Z.of_nat j) by lia.
  assert (Hv : valid_ptr (slot_addr a (Z.of_nat j)) = true).
  { apply (slot_valid st en sz (wf_config s Hwf) a _ wf_is_page).
    unfold N, nx, a, sz, en, st in *. lia. }
  rewrite (load_eq _ _ Hv). simpl newest_first. simpl latest_word.
  unfold entry_key at 1.
  destruct (Z.shiftr (flash s (slot_addr a (Z.of_nat j))) 16 =? k); [reflexivity|].
  replace (slot_addr a (Z.of_nat j) - 4) with (slot_addr a (Z.of_nat j - 1))
    by (unfold slot_addr; lia).
  apply IH. lia.
Qed.

Lemma SoftEEPROMRead_eq k :
  0 <= k < NUM_IDS ->
  SoftEEPROMRead k s = Some ((0, Some (read_out (view s k))), s).
Proof.
  intros Hk. unfold SoftEEPROMRead, bind, gets.
  rewrite (wf_inited s Hwf). cbn [negb].
  destruct (Z.gtb_spec k (NUM_IDS - 1)); [lia|].
  pose proof wf_next_slot as Hnx. pose proof wf_used_le as Hle.
  fold a nx. rewrite Hnx.
  replace (Z.to_nat ((slot_addr a (Z.of_nat (used_slots s)) - 4 - (a + 8)) / 4 + 1))
    with (used_slots s) by (unfold slot_addr; zlia).
  replace (slot_addr a (Z.of_nat (used_slots s)) - 4)
    with (slot_addr a (Z.of_nat (used_slots s) - 1)) by (unfold slot_addr; lia).
  rewrite SoftEEPROMRead_loop_eq by lia. reflexivity.
Qed.

(** ** SoftEEPROMWrite into a page with room *)

Hypothesis Hroom : nx < a + sz.

Lemma wf_used_lt : Z.of_nat (used_slots s) < N.
Proof.
  pose proof wf_next_slot as H. destruct Hwf.
  pose proof (vc_size_mod4 _ _ _ wf_config0).
  unfold slot_addr, N, slots_per_page in *. unfold N, nx, a, sz, en, st in *. zlia.
Qed.

Lemma SoftEEPROMWrite_append k v :
  0 <= k < NUM_IDS -> 0 <= v < 2 ^ 16 ->
  SoftEEPROMWrite k v s = Some (0, appended k v s).
Proof.
  intros Hk Hv. unfold SoftEEPROMWrite, bind, gets.
  rewrite (wf_inited s Hwf). cbn [negb].
  destruct (Z.geb_spec k NUM_IDS); [lia|].
  unfold N, nx, a, sz, en, st in *. destruct (Z.geb_spec (g_pucNextAvailEntry s) (g_pucActivePage s + g_ulEEPROMPgSize s)); [lia|].
  unfold ret at 1. cbn [negb Z.eqb].
  rewrite PageDataWrite_word. cbn [negb Z.eqb]. unfold modify, ret.
  assert (He : flash s (g_pucNextAvailEntry s) = ERASED_WORD).
  { pose proof wf_next_slot as Hn. pose proof wf_used_lt as Hlt.
    unfold N, nx, a, sz, en, st in *. rewrite Hn.
    apply (wf_free s Hwf); [rewrite <- Hn; lia|lia]. }
  rewrite He, land_erased; [reflexivity|].
  apply (entry_ok_bound (encode k v)), entry_ok_encode; assumption.
Qed.

Lemma used_slots_appended k v : used_slots (appended k v s) = S (used_slots s).
Proof.
  pose proof wf_next_slot as Hn. unfold used_slots at 1. cbn.
  unfold N, nx, a, sz, en, st in *. rewrite Hn. unfold slot_addr. zlia.
Qed.

Lemma newest_first_appended k v :
  newest_first (flash (appended k v s)) a (S (used_slots s)) =
  encode k v :: newest_first (flash s) a (used_slots s).
Proof.
  pose proof wf_next_slot as Hn. cbn [newest_first]. f_equal.
  - cbn. unfold N, nx, a, sz, en, st in *. rewrite Hn. apply store_eq.
  - apply newest_first_ext. intros i Hi. cbn. unfold N, nx, a, sz, en, st in *. rewrite Hn.
    apply store_ne. unfold slot_addr. lia.
Qed.

Lemma wf_appended k v :
  0 <= k < NUM_IDS -> 0 <= v < 2 ^ 16 -> wf (appended k v s).
Proof.
  intros Hk Hv. pose proof wf_next_slot as Hn. pose proof wf_used_lt as Hlt.
  pose proof (vc_size_mod4 _ _ _ (wf_config s Hwf)) as Hsz4.
  destruct Hwf. unfold N, nx, a, sz, en, st in *.
  constructor; cbn; try assumption; try lia.
  - unfold slot_addr, N, slots_per_page in *. zlia.
  - zlia.
  - intros i Hi0 Hi.
    destruct (Z.eq_dec (slot_addr (g_pucActivePage s) i) (g_pucNextAvailEntry s)) as [E|E].
    + rewrite E, store_eq. apply entry_ok_encode; assumption.
    + rewrite store_ne by exact E. apply wf_entries0; [exact Hi0|].
      unfold slot_addr in *. lia.
  - intros i Hi HiN. rewrite store_ne by (unfold slot_addr in *; lia).
    apply wf_free0; [unfold slot_addr in *; lia|exact HiN].
Qed.

Lemma view_appended k v k' :
  0 <= k -> 0 <= v < 2 ^ 16 ->
  view (appended k v s) k' = if k' =? k then Some v else view s k'.
Proof.
  intros Hk Hv. unfold view. rewrite used_slots_appended.
  change (g_pucActivePage (appended k v s)) with a.
  rewrite newest_first_appended. cbn [latest_word].
  rewrite entry_key_encode by assumption. rewrite (Z.eqb_sym k k').
  destruct (k' =? k); [|reflexivity].
  cbn. rewrite entry_value_encode by assumption. reflexivity.
Qed.

End Engine.

(** ** SoftEEPROMWrite into a full page *)

Lemma newest_first_rev m p c :
  (forall x, (x < length c)%nat -> c !! x = Some (m (slot_addr p (Z.of_nat x)))) ->
  newest_first m p (length c) = rev c.
Proof.
  induction c as [|w c IH] using rev_ind; intros H; [reflexivity|].
  rewrite length_app, Nat.add_1_r, rev_unit. cbn [newest_first]. f_equal.
  - specialize (H (length c)). rewrite length_app in H. simpl in H.
    rewrite lookup_app_r in H by lia. rewrite Nat.sub_diag in H. simpl in H.
    specialize (H ltac:(lia)). congruence.
  - apply IH. intros x Hx. rewrite <- H by (rewrite length_app; simpl; lia).
    rewrite lookup_app_l by lia. reflexivity.
Qed.

Section EngineFull.
Variable s : State.
Hypothesis Hwf : wf s.
Hypothesis Hfull :
  g_pucActivePage s + g_ulEEPROMPgSize s <= g_pucNextAvailEntry s.

Lemma full_used_slots :
  used_slots s = Z.to_nat (slots_per_page (g_ulEEPROMPgSize s)).
Proof.
  pose proof (wf_next_slot s Hwf) as Hn. pose proof (wf_used_le s Hwf) as Hle.
  pose proof (wf_next_hi s Hwf).
  pose proof (vc_size_mod4 _ _ _ (wf_config s Hwf)).
  unfold slot_addr, slots_per_page in *. zlia.
Qed.

Lemma full_entries i :
  0 <= i < slots_per_page (g_ulEEPROMPgSize s) ->
  entry_ok (flash s (slot_addr (g_pucActivePage s) i)).
Proof.
  intros Hi. apply (wf_entries s Hwf); [lia|].
  pose proof (vc_size_mod4 _ _ _ (wf_config s Hwf)).
  unfold slot_addr, slots_per_page in *. zlia.
Qed.

Lemma page_copy_ok : Forall entry_ok (page_copy s).
Proof.
  apply compact_ok; [constructor|]. apply Forall_newest_first.
  intros i Hi. apply full_entries.
  pose proof (vc_slots _ _ _ (wf_config s Hwf)). lia.
Qed.

Lemma page_copy_distinct : distinct_keys (page_copy s).
Proof. apply distinct_keys_compact. constructor. Qed.

Lemma page_copy_latest k :
  latest_word k (page_copy s) =
  latest_word k (newest_first (flash s) (g_pucActivePage s) (used_slots s)).
Proof. unfold page_copy. rewrite compact_latest, full_used_slots. reflexivity. Qed.

Lemma PageSwap_full :
  exists m' l,
    PageSwap (g_pucActivePage s) s = Some (0, swapped m' l s) /\
    wf (swapped m' l s) /\
    g_pucNextAvailEntry (swapped m' l s)
      < g_pucActivePage (swapped m' l s) + g_ulEEPROMPgSize (swapped m' l s) /\
    (forall k, view (swapped m' l s) k = view s k) /\
    (forall x, (x < length (page_copy s))%nat ->
       page_copy s !! x =
       Some (m' (slot_addr (following_page s (g_pucActivePage s)) (Z.of_nat x)))) /\
    (forall x, Z.of_nat (length (page_copy s)) <= x
               < slots_per_page (g_ulEEPROMPgSize s) ->
       m' (slot_addr (following_page s (g_pucActivePage s)) x) = ERASED_WORD) /\
    swap_step_ok (flash s) (g_pucActivePage s)
                 (following_page s (g_pucActivePage s)) (g_ulEEPROMPgSize s) m' /\
    m' (following_page s (g_pucActivePage s)) = u32 (flash s (g_pucActivePage s) + 1) /\
    m' (g_pucActivePage s + 4) = 0 /\
    Forall (swap_step_ok (flash s) (g_pucActivePage s)
                         (following_page s (g_pucActivePage s))
                         (g_ulEEPROMPgSize s)) l /\
    l <> [].
Proof.
  pose proof (wf_config s Hwf) as Hcfg.
  pose proof (wf_is_page s Hwf) as Ha.
  destruct (PageSwap_spec s (g_pucActivePage s) Hcfg Ha full_entries)
    as (m' & l & Hrun & Hlen & Hc & Hfree & Hok & Hp & Ha4 & Hl & Hlne).
  fold (following_page s (g_pucActivePage s)) in *.
  fold (page_copy s) in *.
  set (p' := following_page s (g_pucActivePage s)) in *.
  set (c := page_copy s) in *.
  destruct (next_page_is_page _ _ _ Hcfg _ Ha) as [Hp' Hne].
  fold (following_page s (g_pucActivePage s)) in Hp', Hne. fold p' in Hp', Hne.
  pose proof (vc_slots _ _ _ Hcfg) as HN.
  pose proof (vc_size_mod4 _ _ _ Hcfg) as Hsz4.
  exists m', l. split; [exact Hrun|].
  assert (Hused : used_slots (swapped m' l s) = length c).
  { unfold used_slots, swapped. cbn. fold p' c. unfold slot_addr. zlia. }
  split; [|split; [|split; [|auto 10]]].
  - destruct Hp' as (Hp1 & Hp2 & Hp3).
    constructor; unfold swapped; cbn; fold p' c; try assumption; try apply Hwf.
    + unfold slot_addr. lia.
    + unfold slot_addr, slots_per_page, NUM_IDS, MAX_SOFTEEPROM_IDS in *. zlia.
    + unfold slot_addr. zlia.
    + intros i Hi0 Hi.
      assert (Hlt : (Z.to_nat i < length c)%nat) by (unfold slot_addr in Hi; lia).
      pose proof (Hc _ Hlt) as Hci. rewrite Z2Nat.id in Hci by lia.
      pose proof page_copy_ok as Hall. fold c in Hall.
      rewrite Forall_forall in Hall. apply Hall.
      apply list_elem_of_lookup. eauto.
    + intros i Hi HiN. apply Hfree. unfold slot_addr in Hi. lia.
  - unfold swapped. cbn. fold p' c.
    unfold slot_addr, slots_per_page, NUM_IDS, MAX_SOFTEEPROM_IDS in *. zlia.
  - intros k. unfold view at 1. rewrite Hused.
    change (g_pucActivePage (swapped m' l s)) with p'.
    change (flash (swapped m' l s)) with m'.
    rewrite (newest_first_rev m' p' c Hc).
    rewrite latest_word_rev by apply page_copy_distinct.
    unfold c. rewrite page_copy_latest. reflexivity.
Qed.

Lemma PageSwap_full_trace :
  exists m' m4 l0,
    PageSwap (g_pucActivePage s) s = Some (0, swapped m' (m' :: m4 :: l0) s) /\
    m4 (following_page s (g_pucActivePage s))
      = u32 (flash s (g_pucActivePage s) + 1) /\
    m4 (g_pucActivePage s + 4) = flash s (g_pucActivePage s + 4) /\
    l0 <> [] /\
    Forall (fun m => m (following_page s (g_pucActivePage s)) = ERASED_WORD /\
                     m (g_pucActivePage s + 4) = flash s (g_pucActivePage s + 4))
           l0.
Proof.
  pose proof (wf_config s Hwf) as Hcfg.
  pose proof (wf_is_page s Hwf) as Ha.
  destruct (PageSwap_trace s (g_pucActivePage s) Hcfg Ha full_entries)
    as (m' & l & Hrun & _ & _ & _ & _ & _ & _ & _
        & m4 & l0 & Hshape & Hm4 & Hm4a & Hne & Hl0).
  fold (following_page s (g_pucActivePage s)) in *.
  fold (page_copy s) in *. subst l.
  exists m', m4, l0. split; [exact Hrun|]. auto.
Qed.

Lemma SoftEEPROMWrite_full k v :
  0 <= k < NUM_IDS -> 0 <= v < 2 ^ 16 ->
  forall m' l,
    PageSwap (g_pucActivePage s) s = Some (0, swapped m' l s) ->
    wf (swapped m' l s) ->
    g_pucNextAvailEntry (swapped m' l s)
      < g_pucActivePage (swapped m' l s) + g_ulEEPROMPgSize (swapped m' l s) ->
    SoftEEPROMWrite k v s = Some (0, appended k v (swapped m' l s)).
Proof.
  intros Hk Hv m' l Hrun Hwf2 Hroom.
  rewrite <- (SoftEEPROMWrite_append _ Hwf2 Hroom k v Hk Hv).
  unfold SoftEEPROMWrite, bind, gets.
  rewrite (wf_inited s Hwf), (wf_inited _ Hwf2). cbn [negb].
  destruct (Z.geb_spec k NUM_IDS); [lia|].
  destruct (Z.geb_spec (g_pucNextAvailEntry s)
                       (g_pucActivePage s + g_ulEEPROMPgSize s)); [|lia].
  rewrite Hrun.
  destruct (Z.geb_spec (g_pucNextAvailEntry (swapped m' l s))
                       (g_pucActivePage (swapped m' l s)
                        + g_ulEEPROMPgSize (swapped m' l s))); [lia|].
  reflexivity.
Qed.

End EngineFull.

(** ** SoftEEPROMWrite: every write with a valid key succeeds *)

Lemma SoftEEPROMWrite_spec s k v :
  wf s -> 0 <= k < NUM_IDS -> 0 <= v < 2 ^ 16 ->
  exists s',
    SoftEEPROMWrite k v s = Some (0, s') /\ wf s' /\
    forall k', view s' k' = if k' =? k then Some v else view s k'.
Proof.
  intros Hwf Hk Hv.
  destruct (Z.lt_ge_cases (g_pucNextAvailEntry s)
                          (g_pucActivePage s + g_ulEEPROMPgSize s)) as [Hroom|Hfull].
  - exists (appended k v s). split; [apply SoftEEPROMWrite_append; assumption|].
    split; [apply wf_appended; assumption|].
    intros k'. apply view_appended; [assumption|lia|assumption].
  - destruct (PageSwap_full s Hwf Hfull) as (m' & l & Hrun & Hwf2 & Hroom & Hview & _).
    exists (appended k v (swapped m' l s)).
    split; [apply SoftEEPROMWrite_full; assumption|].
    split; [apply wf_appended; assumption|].
    intros k'. rewrite view_appended by (assumption || lia).
    rewrite Hview. reflexivity.
Qed.

(** ** Runs of writes *)

Lemma write_all_cons k v ws s :
  write_all ((k, v) :: ws) s =
  match SoftEEPROMWrite k v s with
  | Some (0, s') => write_all ws s'
  | _ => None
  end.
Proof. reflexivity. Qed.

Lemma write_all_view ws : forall s s',
  wf s -> Forall ushort_args ws -> write_all ws s = Some s' ->
  wf s' /\
  forall k, view s' k = match last_written k ws with
                        | Some v => Some v
                        | None => view s k
                        end.
Proof.
  induction ws as [|[k0 v0] ws IH]; intros s s' Hwf Hty Hrun.
  - injection Hrun as <-. split; [exact Hwf|reflexivity].
  - apply Forall_cons in Hty as [[Hk0 Hv0] Hty]. simpl in Hk0, Hv0.
    rewrite write_all_cons in Hrun.
    destruct (Z.lt_ge_cases k0 NUM_IDS) as [Hlt|Hge].
    + destruct (SoftEEPROMWrite_spec s k0 v0 Hwf ltac:(lia) Hv0) as (s1 & Hw & Hwf1 & Hview1).
      rewrite Hw in Hrun.
      destruct (IH s1 s' Hwf1 Hty Hrun) as [Hwf' Hview'].
      split; [exact Hwf'|]. intros k. rewrite Hview'. cbn [last_written].
      destruct (last_written k ws); [reflexivity|].
      rewrite Hview1. rewrite (Z.eqb_sym k0 k). destruct (k =? k0); reflexivity.
    + rewrite (SoftEEPROMWrite_illegal k0 v0 s (wf_inited s Hwf) Hge) in Hrun.
      discriminate.
Qed.

Lemma write_all_succeeds ws : forall s,
  wf s -> Forall ushort_args ws -> Forall valid_key ws ->
  exists s', write_all ws s = Some s'.
Proof.
  induction ws as [|[k0 v0] ws IH]; intros s Hwf Hty Hkeys.
  - exists s. reflexivity.
  - apply Forall_cons in Hty as [[_ Hv0] Hty].
    apply Forall_cons in Hkeys as [Hk0 Hkeys]. unfold valid_key in Hk0.
    simpl in Hk0, Hv0.
    destruct (SoftEEPROMWrite_spec s k0 v0 Hwf Hk0 Hv0) as (s1 & Hw & Hwf1 & _).
    rewrite write_all_cons, Hw. apply IH; assumption.
Qed.

(** C1. From any state of the engine between operations: a run of writes
    with valid keys succeeds; after a run of successful writes, reading a
    valid key reports, as found, the value of the most recent write to that
    key in the run; a key the run did not write reads as it did before the
    run, and that is not found when the active page held no entry then. *)
Theorem write_read_roundtrip s ws :
  wf s -> Forall ushort_args ws ->
  (Forall valid_key ws -> exists s', write_all ws s = Some s') /\
  (forall s' k,
      write_all ws s = Some s' -> 0 <= k < NUM_IDS ->
      (SoftEEPROMRead k s' =
         Some ((0, Some (match last_written k ws with
                         | Some v => (v, true)
                         | None => read_out (view s k)
                         end)), s')) /\
      (SoftEEPROMRead k s = Some ((0, Some (read_out (view s k))), s)) /\
      (g_pucNextAvailEntry s = g_pucActivePage s + 8 -> view s k = None)).
Proof.
  intros Hwf Hty. split; [apply write_all_succeeds; assumption|].
  intros s' k Hrun Hk.
  destruct (write_all_view ws s s' Hwf Hty Hrun) as [Hwf' Hview].
  split; [|split].
  - rewrite (SoftEEPROMRead_eq s' Hwf' k Hk), Hview.
    destruct (last_written k ws); reflexivity.
  - apply SoftEEPROMRead_eq; assumption.
  - intros Hempty. unfold view, used_slots. rewrite Hempty.
    replace (g_pucActivePage s + 8 - (g_pucActivePage s + 8)) with 0 by lia.
    reflexivity.
Qed.

(** ** What PageSwap copies *)

Lemma latest_word_newest_first m p n k w :
  latest_word k (newest_first m p n) = Some w <->
  exists i, 0 <= i < Z.of_nat n /\ w = m (slot_addr p i) /\ entry_key w = k /\
            forall i', i < i' < Z.of_nat n -> entry_key (m (slot_addr p i')) <> k.
Proof.
  induction n as [|n IH].
  - simpl. split; [discriminate|]. intros (i & Hi & _). lia.
  - cbn [newest_first latest_word].
    destruct (Z.eqb_spec (entry_key (m (slot_addr p (Z.of_nat n)))) k) as [E|E].
    + split.
      * intros [= <-]. exists (Z.of_nat n). split; [lia|]. split; [reflexivity|].
        split; [exact E|]. intros i' Hi'. lia.
      * intros (i & Hi & -> & Hk & Hlast).
        destruct (Z.eq_dec i (Z.of_nat n)) as [->|Hne]; [reflexivity|].
        exfalso. apply (Hlast (Z.of_nat n)); [lia|exact E].
    + rewrite IH. split.
      * intros (i & Hi & -> & Hk & Hlast). exists i. split; [lia|].
        split; [reflexivity|]. split; [exact Hk|].
        intros i' Hi'. destruct (Z.eq_dec i' (Z.of_nat n)) as [->|Hne]; [exact E|].
        apply Hlast. lia.
      * intros (i & Hi & -> & Hk & Hlast).
        destruct (Z.eq_dec i (Z.of_nat n)) as [->|Hne]; [contradiction|].
        exists i. split; [lia|]. split; [reflexivity|]. split; [exact Hk|].
        intros i' Hi'. apply Hlast. lia.
Qed.

Lemma distinct_keys_latest c w :
  distinct_keys c -> In w c -> latest_word (entry_key w) c = Some w.
Proof.
  induction c as [|w0 c IH]; intros Hd Hin; [destruct Hin|].
  inversion Hd as [|? ? Hnin Hd']; subst. cbn [latest_word].
  destruct Hin as [->|Hin]; [rewrite Z.eqb_refl; reflexivity|].
  destruct (Z.eqb_spec (entry_key w0) (entry_key w)) as [E|E]; [|apply IH; assumption].
  exfalso. apply Hnin. rewrite E. apply in_map, Hin.
Qed.

Lemma distinct_keys_lookup c x y w w' :
  distinct_keys c -> c !! x = Some w -> c !! y = Some w' ->
  entry_key w = entry_key w' -> x = y.
Proof.
  revert x y. induction c as [|w0 c IH]; intros x y Hd Hx Hy E; [discriminate|].
  inversion Hd as [|? ? Hnin Hd']; subst.
  destruct x as [|x], y as [|y]; simpl in Hx, Hy.
  - reflexivity.
  - exfalso. injection Hx as ->. apply Hnin. rewrite E.
    apply in_map, list_elem_of_In, list_elem_of_lookup. eauto.
  - exfalso. injection Hy as ->. apply Hnin. rewrite <- E.
    apply in_map, list_elem_of_In, list_elem_of_lookup. eauto.
  - f_equal. eapply IH; eauto.
Qed.

Lemma PageSwap_copies_latest s :
  wf s ->
  g_pucActivePage s + g_ulEEPROMPgSize s <= g_pucNextAvailEntry s ->
  copies_latest s.
Proof.
  intros Hwf Hfull.
  destruct (PageSwap_full s Hwf Hfull)
    as (m' & l & Hrun & Hwf2 & Hroom & _ & Hc & Hfree & _).
  pose proof (page_copy_distinct s) as Hd.
  pose proof (vc_slots _ _ _ (wf_config s Hwf)) as HN.
  pose proof (distinct_keys_length _ Hd (page_copy_ok s Hwf Hfull)) as Hlen.
  assert (HL : forall k, latest_word k (page_copy s) =
                         latest_word k (newest_first (flash s) (g_pucActivePage s)
                           (Z.to_nat (slots_per_page (g_ulEEPROMPgSize s))))).
  { intros k. unfold page_copy. rewrite compact_latest. reflexivity. }
  exists (swapped m' l s), (Z.of_nat (length (page_copy s))).
  split; [exact Hrun|]. cbn zeta.
  change (flash (swapped m' l s)) with m'.
  change (g_pucActivePage (swapped m' l s))
    with (following_page s (g_pucActivePage s)).
  change (g_pucNextAvailEntry (swapped m' l s))
    with (slot_addr (following_page s (g_pucActivePage s))
                    (Z.of_nat (length (page_copy s)))).
  set (old := g_pucActivePage s) in *.
  set (new := following_page s old) in *.
  set (c := page_copy s) in *.
  set (n := slots_per_page (g_ulEEPROMPgSize s)) in *.
  split; [reflexivity|]. split; [reflexivity|].
  split; [unfold NUM_IDS, MAX_SOFTEEPROM_IDS in *; lia|].
  split; [|split].
  - intros i [Hi Hlast].
    assert (Hlw : latest_word (entry_key (flash s (slot_addr old i))) c
                  = Some (flash s (slot_addr old i))).
    { rewrite HL. apply latest_word_newest_first. exists i.
      rewrite Z2Nat.id by lia. auto. }
    apply latest_word_In, list_elem_of_In in Hlw as Hin.
    apply list_elem_of_lookup in Hin as (x & Hx).
    apply lookup_lt_Some in Hx as Hxlt.
    exists (Z.of_nat x). split; [lia|]. split.
    + pose proof (Hc x Hxlt) as Hcx. congruence.
    + intros j' Hj' Hkey.
      assert (Hj'lt : (Z.to_nat j' < length c)%nat) by lia.
      pose proof (Hc _ Hj'lt) as Hcj. rewrite Z2Nat.id in Hcj by lia.
      assert (Z.to_nat j' = x); [|lia].
      eapply distinct_keys_lookup; eauto.
  - intros j Hj.
    assert (Hjlt : (Z.to_nat j < length c)%nat) by lia.
    pose proof (Hc _ Hjlt) as Hcj. rewrite Z2Nat.id in Hcj by lia.
    assert (Hin : In (m' (slot_addr new j)) c).
    { apply list_elem_of_In, list_elem_of_lookup. eauto. }
    pose proof (distinct_keys_latest c _ Hd Hin) as Hlw.
    rewrite HL in Hlw. apply latest_word_newest_first in Hlw
      as (i & Hi & Hw & _ & Hlast).
    rewrite Z2Nat.id in Hi, Hlast by lia.
    exists i. split; [|exact Hw]. split; [exact Hi|].
    intros i' Hi'. rewrite <- Hw. apply Hlast, Hi'.
  - intros j Hj. apply Hfree. lia.
Qed.

(** ** Counting active pages *)

Lemma filter_length_ext (f g : Z -> bool) ps :
  (forall p, In p ps -> f p = g p) ->
  length (List.filter f ps) = length (List.filter g ps).
Proof.
  induction ps as [|p ps IH]; intros H; simpl; [reflexivity|].
  rewrite <- (H p) by (left; reflexivity).
  destruct (f p); simpl; rewrite IH; auto; intros q Hq; apply H; right; exact Hq.
Qed.

Lemma filter_length_none (f : Z -> bool) ps :
  (forall p, In p ps -> f p = false) -> length (List.filter f ps) = 0%nat.
Proof.
  induction ps as [|p ps IH]; intros H; simpl; [reflexivity|].
  rewrite (H p) by (left; reflexivity). apply IH. intros q Hq. apply H. right. exact Hq.
Qed.

Lemma filter_length_one ps a :
  List.NoDup ps -> In a ps ->
  length (List.filter (fun p => p =? a) ps) = 1%nat.
Proof.
  induction ps as [|p ps IH]; intros Hnd Hin; [destruct Hin|].
  inversion Hnd as [|? ? Hnin Hnd']; subst. simpl.
  destruct (Z.eqb_spec p a) as [->|Hne].
  - simpl. f_equal. apply filter_length_none. intros q Hq.
    apply Z.eqb_neq. intros ->. contradiction.
  - apply IH; [exact Hnd'|]. destruct Hin as [E|Hin]; [contradiction|exact Hin].
Qed.

Lemma filter_length_two ps a b (ca cb : bool) :
  List.NoDup ps -> In a ps -> In b ps -> a <> b ->
  length (List.filter (fun p => ((p =? a) && ca) || ((p =? b) && cb)) ps)
  = (Nat.b2n ca + Nat.b2n cb)%nat.
Proof.
  intros Hnd Ha Hb Hne.
  destruct ca, cb; simpl Nat.b2n.
  - transitivity (length (List.filter (fun p => (p =? a)%Z) ps)
                  + length (List.filter (fun p => (p =? b)%Z) ps))%nat.
    + clear Hnd Ha Hb. induction ps as [|p ps IH]; simpl; [reflexivity|].
      rewrite !andb_true_r.
      destruct (Z.eqb_spec p a) as [Hpa|Hpa], (Z.eqb_spec p b) as [Hpb|Hpb];
        simpl; try lia; try congruence.
    + rewrite !filter_length_one by assumption. reflexivity.
  - rewrite (filter_length_ext _ (fun p => p =? a)).
    + apply filter_length_one; assumption.
    + intros p _. rewrite andb_true_r, andb_false_r, orb_false_r. reflexivity.
  - rewrite (filter_length_ext _ (fun p => p =? b)).
    + apply filter_length_one; assumption.
    + intros p _. rewrite andb_true_r, andb_false_r. reflexivity.
  - apply filter_length_none. intros p _. rewrite !andb_false_r. reflexivity.
Qed.

Lemma region_pages_NoDup st en sz :
  valid_config st en sz -> List.NoDup (region_pages st en sz).
Proof. intros H. apply NoDup_ListNoDup, NoDup_region_pages, H. Qed.

Lemma In_region_pages st en sz p :
  valid_config st en sz -> In p (region_pages st en sz) <-> is_page st en sz p.
Proof.
  intros H. rewrite <- list_elem_of_In. apply elem_of_region_pages, H.
Qed.

Lemma one_active_count s :
  wf s -> one_active s -> active_count (flash s) (pages_of s) = 1%nat.
Proof.
  intros Hwf H1. unfold active_count.
  rewrite (filter_length_ext _ (fun p => p =? g_pucActivePage s)) by exact H1.
  apply filter_length_one.
  - apply region_pages_NoDup, Hwf.
  - apply In_region_pages; [apply Hwf|apply wf_is_page, Hwf].
Qed.

(** ** SoftEEPROMClear *)

Lemma is_active_same m m0 p :
  m p = m0 p -> m (p + 4) = m0 (p + 4) -> is_active m p = is_active m0 p.
Proof. intros H0 H4. unfold is_active. rewrite H0, H4. reflexivity. Qed.

(** The media SoftEEPROMClear goes through, most recent first: the new
    page is marked active in the last step; before that it is erased, and
    the first step marks the old page used. *)
Lemma SoftEEPROMClear_trace s :
  wf s ->
  exists m' l,
    SoftEEPROMClear s = Some (0, cleared m' l s) /\
    wf (cleared m' l s) /\
    (forall k, view (cleared m' l s) k = None) /\
    Forall (clear_step_ok (flash s) (g_pucActivePage s)
                          (following_page s (g_pucActivePage s))
                          (g_ulEEPROMPgSize s)) l /\
    In m' l /\
    m' (following_page s (g_pucActivePage s))
      = u32 (flash s (g_pucActivePage s) + 1) /\
    m' (following_page s (g_pucActivePage s) + 4) = ERASED_WORD /\
    In (store (flash s) (g_pucActivePage s + 4) 0) l /\
    exists l2,
      l = m' :: l2 ++ [store (flash s) (g_pucActivePage s + 4) 0] /\
      l2 <> [] /\
      Forall (fun m => m (following_page s (g_pucActivePage s)) = ERASED_WORD)
             l2.
Proof.
  intros Hwf.
  pose proof (wf_config s Hwf) as Hcfg.
  pose proof (wf_is_page s Hwf) as Ha.
  pose proof (vc_size_lo _ _ _ Hcfg) as Hszlo.
  pose proof (vc_size_mod4 _ _ _ Hcfg) as Hsz4.
  destruct (next_page_is_page _ _ _ Hcfg _ Ha) as [Hp' Hne].
  fold (following_page s (g_pucActivePage s)) in Hp', Hne.
  set (a := g_pucActivePage s) in *.
  set (p' := following_page s a) in *.
  set (sz := g_ulEEPROMPgSize s) in *.
  pose proof (pages_disjoint _ _ _ Hcfg _ _ Ha Hp' (not_eq_sym Hne)) as Hdisj.
  set (m1 := store (flash s) (a + 4) 0).
  set (s1 := set_flash m1 s).
  destruct (PageErase_spec s1 p' Hcfg Hp') as (m2 & l2 & Herase & Hm2 & Hl2 & Hl2ne).
  change (g_ulEEPROMPgSize s1) with sz in Hm2, Hl2.
  change (flash s1) with m1 in Hm2, Hl2.
  set (g := flash s a).
  assert (Hm2a : m2 a = g).
  { rewrite Hm2. destruct (Z.leb_spec p' a), (Z.ltb_spec a (p' + sz)); simpl;
      try lia; unfold m1; apply store_ne; lia. }
  assert (Hu32 : 0 <= u32 (g + 1) < 2 ^ 32) by (apply Z.mod_pos_bound; lia).
  set (m3 := store m2 p' (u32 (g + 1))).
  assert (Hm2p : m2 p' = ERASED_WORD).
  { rewrite Hm2. destruct (Z.leb_spec p' p'), (Z.ltb_spec p' (p' + sz)); simpl; lia || reflexivity. }
  assert (Hva : valid_ptr a = true).
  { replace a with (a + 0) by lia. eapply page_word_valid; eauto; lia. }
  exists m3, (m3 :: l2 ++ [m1]).
  assert (Hrun : SoftEEPROMClear s = Some (0, cleared m3 (m3 :: l2 ++ [m1]) s)).
  { unfold SoftEEPROMClear. unfold bind at 1. unfold gets at 1.
    rewrite (wf_inited s Hwf). cbn [negb].
    unfold bind at 1. unfold gets at 1.
    unfold bind at 1. rewrite PageDataWrite_word. cbn [negb Z.eqb].
    change (u32 (Z.lnot ERASED_WORD)) with 0. rewrite Z.land_0_r.
    fold a m1 s1.
    unfold bind at 1. rewrite next_page_eq.
    change (if a + g_ulEEPROMPgSize s1 <? g_pucEEPROMEnd s1
            then a + g_ulEEPROMPgSize s1 else g_pucEEPROMStart s1) with p'.
    unfold bind at 1. rewrite Herase. cbn [negb Z.eqb].
    unfold bind at 1. rewrite (load_eq _ _ Hva).
    change (flash (with_medium m2 l2 s1) a) with (m2 a). rewrite Hm2a.
    unfold bind at 1. rewrite PageDataWrite_word. cbn [negb Z.eqb].
    change (flash (with_medium m2 l2 s1) p') with (m2 p').
    rewrite Hm2p, land_erased by exact Hu32.
    change (flash (with_medium m2 l2 s1)) with m2. fold m3.
    unfold bind, modify, ret. f_equal. f_equal.
    unfold cleared, s1. rewrite !set_flash_with_medium, !with_medium_twice.
    reflexivity. }
  split; [exact Hrun|].
  assert (Hm3new : forall x, p' + 8 <= x < p' + sz -> m3 x = ERASED_WORD).
  { intros x Hx. unfold m3. rewrite store_ne by lia. rewrite Hm2.
    destruct (Z.leb_spec p' x), (Z.ltb_spec x (p' + sz)); simpl; lia || reflexivity. }
  assert (Hstep1 : clear_step_ok (flash s) a p' sz m1).
  { split; [|split].
    - intros x _ Hx. unfold m1. apply store_ne, Hx.
    - unfold m1. apply store_eq.
    - left. unfold m1. rewrite !store_ne by lia. auto. }
  assert (Hstep2 : forall m, m p' = ERASED_WORD /\ m (p' + 4) = ERASED_WORD /\
                             agree_outside p' (p' + sz) m m1 ->
                             clear_step_ok (flash s) a p' sz m).
  { intros m (H0 & H4 & Hout). split; [|split].
    - intros x Hx Hx'. rewrite Hout by exact Hx. unfold m1. apply store_ne, Hx'.
    - rewrite Hout by lia. unfold m1. apply store_eq.
    - right. auto. }
  assert (Hm3p4 : m3 (p' + 4) = ERASED_WORD).
  { unfold m3. rewrite store_ne by lia. rewrite Hm2.
    destruct (Z.leb_spec p' (p' + 4)), (Z.ltb_spec (p' + 4) (p' + sz)); simpl; lia || reflexivity. }
  assert (Hstep3 : clear_step_ok (flash s) a p' sz m3).
  { split; [|split].
    - intros x Hx Hx'. unfold m3. rewrite store_ne by lia. rewrite Hm2.
      destruct (Z.leb_spec p' x), (Z.ltb_spec x (p' + sz)); simpl; try lia;
        unfold m1; apply store_ne, Hx'.
    - unfold m3. rewrite store_ne by lia. rewrite Hm2.
      destruct (Z.leb_spec p' (a + 4)), (Z.ltb_spec (a + 4) (p' + sz)); simpl; try lia;
        unfold m1; apply store_eq.
    - right. split; [exact Hm3p4|]. right. unfold m3. apply store_eq. }
  split; [|split; [|split; [|split; [left; reflexivity|split; [apply store_eq|split; [exact Hm3p4|]]]]]].
  - destruct Hp' as (Hp1 & Hp2 & Hp3). destruct Hwf.
    constructor; unfold cleared; cbn; fold a sz p'; try assumption; try lia.
    + zlia.
    + intros i Hi0 Hi. unfold slot_addr in Hi. lia.
    + intros i Hi HiN. apply Hm3new. unfold slot_addr, slots_per_page in *. zlia.
  - intros k. unfold view, used_slots, cleared. cbn. fold a p'.
    replace (p' + 8 - (p' + 8)) with 0 by lia. reflexivity.
  - constructor; [exact Hstep3|]. apply Forall_app. split.
    + eapply Forall_impl; [exact Hl2|]. exact Hstep2.
    + constructor; [exact Hstep1|constructor].
  - split; [right; apply in_or_app; right; left; reflexivity|].
    exists l2. split; [reflexivity|]. split; [exact Hl2ne|].
    eapply Forall_impl; [exact Hl2|]. simpl. intros m (H0 & _). exact H0.
Qed.

Lemma SoftEEPROMClear_spec s :
  wf s ->
  exists m' l,
    SoftEEPROMClear s = Some (0, cleared m' l s) /\
    wf (cleared m' l s) /\
    (forall k, view (cleared m' l s) k = None) /\
    Forall (clear_step_ok (flash s) (g_pucActivePage s)
                          (following_page s (g_pucActivePage s))
                          (g_ulEEPROMPgSize s)) l /\
    In m' l /\
    m' (following_page s (g_pucActivePage s))
      = u32 (flash s (g_pucActivePage s) + 1) /\
    m' (following_page s (g_pucActivePage s) + 4) = ERASED_WORD /\
    In (store (flash s) (g_pucActivePage s + 4) 0) l.
Proof.
  intros Hwf.
  destruct (SoftEEPROMClear_trace s Hwf)
    as (m' & l & Hrun & Hwf' & Hview & Hl & Hin & Hp & Hp4 & Hfirst & _).
  exists m', l. auto 10.
Qed.

(** ** The number of active pages during a page swap and during a clear *)

Section Actives.
Variable s : State.
Hypothesis Hwf : wf s.
Hypothesis H1 : one_active s.
Hypothesis Hgen : generation_ok s.

Lemma actives_geometry :
  let a := g_pucActivePage s in
  let p' := following_page s a in
  let sz := g_ulEEPROMPgSize s in
  In a (pages_of s) /\ In p' (pages_of s) /\ p' <> a /\
  List.NoDup (pages_of s) /\ 1024 <= sz /\
  (forall p, In p (pages_of s) -> p <> a -> p <> p' ->
             ~ (p' <= p < p' + sz) /\ ~ (p' <= p + 4 < p' + sz) /\
             p <> a + 4 /\ p + 4 <> a + 4) /\
  (a + sz <= p' \/ p' + sz <= a) /\
  flash s a <> ERASED_WORD /\ flash s (a + 4) = ERASED_WORD /\
  u32 (flash s a + 1) <> ERASED_WORD.
Proof.
  cbn zeta.
  pose proof (wf_config s Hwf) as Hcfg.
  pose proof (wf_is_page s Hwf) as Ha.
  pose proof (vc_size_lo _ _ _ Hcfg) as Hszlo.
  destruct (next_page_is_page _ _ _ Hcfg _ Ha) as [Hp' Hne].
  fold (following_page s (g_pucActivePage s)) in Hp', Hne.
  pose proof (pages_disjoint _ _ _ Hcfg _ _ Ha Hp' (not_eq_sym Hne)) as Hdisj.
  assert (Hina : In (g_pucActivePage s) (pages_of s)) by (apply In_region_pages; assumption).
  split; [exact Hina|].
  split; [apply In_region_pages; assumption|].
  split; [exact Hne|].
  split; [apply region_pages_NoDup, Hcfg|].
  split; [exact Hszlo|].
  split; [|split; [exact Hdisj|]].
  - intros p Hp Hpa Hpp. apply In_region_pages in Hp; [|exact Hcfg].
    pose proof (pages_disjoint _ _ _ Hcfg _ _ Hp Hp' Hpp).
    pose proof (pages_disjoint _ _ _ Hcfg _ _ Hp Ha Hpa).
    repeat split; lia.
  - pose proof (H1 _ Hina) as Hact. rewrite Z.eqb_refl in Hact.
    unfold is_active in Hact. apply andb_true_iff in Hact as [Hact0 Hact4].
    apply negb_true_iff, Z.eqb_neq in Hact0. apply Z.eqb_eq in Hact4.
    split; [exact Hact0|]. split; [exact Hact4|].
    unfold generation_ok, ERASED_WORD in *.
    rewrite u32_small by (change (2 ^ 32) with 4294967296; lia). lia.
Qed.

Lemma swap_step_actives m :
  swap_step_ok (flash s) (g_pucActivePage s)
               (following_page s (g_pucActivePage s)) (g_ulEEPROMPgSize s) m ->
  (active_count m (pages_of s) = 1%nat \/ active_count m (pages_of s) = 2%nat) /\
  (m (g_pucActivePage s + 4) = 0 ->
   forall p, In p (pages_of s) ->
             is_active m p = (p =? following_page s (g_pucActivePage s))).
Proof.
  destruct actives_geometry as (Hina & Hinp & Hne & Hnd & Hsz & Hother & Hdisj & Hg & Hb & Hnew).
  set (a := g_pucActivePage s) in *.
  set (p' := following_page s a) in *.
  set (sz := g_ulEEPROMPgSize s) in *.
  intros (Hframe & Hp4 & Hma & Hcase).
  assert (Hrest : forall p, In p (pages_of s) -> p <> a -> p <> p' ->
                            is_active m p = false).
  { intros p Hp Hpa Hpp. destruct (Hother p Hp Hpa Hpp) as (Ho1 & Ho2 & Ho3 & Ho4).
    rewrite (is_active_same m (flash s)) by (apply Hframe; assumption).
    rewrite (H1 p Hp). apply Z.eqb_neq, Hpa. }
  assert (Hshape : forall ca cb,
             is_active m a = ca -> is_active m p' = cb ->
             forall p, In p (pages_of s) ->
                       is_active m p = ((p =? a) && ca) || ((p =? p') && cb)).
  { intros ca cb Ha Hp p Hin.
    destruct (Z.eqb_spec p a) as [->|Hpa]; [|destruct (Z.eqb_spec p p') as [->|Hpp]].
    - rewrite Ha. destruct (Z.eqb_spec a p'); [congruence|]. destruct ca; reflexivity.
    - rewrite Hp. destruct cb; reflexivity.
    - simpl. apply Hrest; assumption. }
  assert (Hcount : forall ca cb,
             is_active m a = ca -> is_active m p' = cb ->
             active_count m (pages_of s) = (Nat.b2n ca + Nat.b2n cb)%nat).
  { intros ca cb Ha Hp. unfold active_count.
    rewrite (filter_length_ext _ _ _ (Hshape ca cb Ha Hp)).
    apply filter_length_two; auto. }
  destruct Hcase as [[Hp0 Ha4]|[Hp0 [Ha4|Ha4]]].
  - assert (Ha : is_active m a = true).
    { unfold is_active. rewrite Hma, Ha4, Hb, Z.eqb_refl.
      apply andb_true_iff. split; [apply negb_true_iff, Z.eqb_neq, Hg|reflexivity]. }
    assert (Hp : is_active m p' = false).
    { unfold is_active. rewrite Hp0, Z.eqb_refl. reflexivity. }
    split; [left; apply (Hcount _ _ Ha Hp)|].
    intros Hz. rewrite Ha4, Hb in Hz. discriminate.
  - assert (Ha : is_active m a = true).
    { unfold is_active. rewrite Hma, Ha4, Hb, Z.eqb_refl.
      apply andb_true_iff. split; [apply negb_true_iff, Z.eqb_neq, Hg|reflexivity]. }
    assert (Hp : is_active m p' = true).
    { unfold is_active. rewrite Hp0, Hp4, Z.eqb_refl.
      apply andb_true_iff. split; [apply negb_true_iff, Z.eqb_neq, Hnew|reflexivity]. }
    split; [right; apply (Hcount _ _ Ha Hp)|].
    intros Hz. rewrite Ha4, Hb in Hz. discriminate.
  - assert (Ha : is_active m a = false).
    { unfold is_active. rewrite Ha4. apply andb_false_r. }
    assert (Hp : is_active m p' = true).
    { unfold is_active. rewrite Hp0, Hp4, Z.eqb_refl.
      apply andb_true_iff. split; [apply negb_true_iff, Z.eqb_neq, Hnew|reflexivity]. }
    split; [left; apply (Hcount _ _ Ha Hp)|].
    intros _ p Hin. rewrite (Hshape _ _ Ha Hp p Hin).
    rewrite andb_false_r, andb_true_r. reflexivity.
Qed.

Lemma clear_step_actives m :
  clear_step_ok (flash s) (g_pucActivePage s)
                (following_page s (g_pucActivePage s)) (g_ulEEPROMPgSize s) m ->
  (active_count m (pages_of s) = 0%nat \/ active_count m (pages_of s) = 1%nat) /\
  (m (following_page s (g_pucActivePage s))
     = u32 (flash s (g_pucActivePage s) + 1) ->
   m (following_page s (g_pucActivePage s) + 4) = ERASED_WORD ->
   forall p, In p (pages_of s) ->
             is_active m p = (p =? following_page s (g_pucActivePage s))) /\
  (m (following_page s (g_pucActivePage s))
     = flash s (following_page s (g_pucActivePage s)) ->
   m (following_page s (g_pucActivePage s) + 4)
     = flash s (following_page s (g_pucActivePage s) + 4) ->
   active_count m (pages_of s) = 0%nat).
Proof.
  destruct actives_geometry as (Hina & Hinp & Hne & Hnd & Hsz & Hother & Hdisj & Hg & Hb & Hnew).
  set (a := g_pucActivePage s) in *.
  set (p' := following_page s a) in *.
  set (sz := g_ulEEPROMPgSize s) in *.
  intros (Hframe & Ha4 & Hcase).
  assert (Hrest : forall p, In p (pages_of s) -> p <> a -> p <> p' ->
                            is_active m p = false).
  { intros p Hp Hpa Hpp. destruct (Hother p Hp Hpa Hpp) as (Ho1 & Ho2 & Ho3 & Ho4).
    rewrite (is_active_same m (flash s)) by (apply Hframe; assumption).
    rewrite (H1 p Hp). apply Z.eqb_neq, Hpa. }
  assert (Ha : is_active m a = false).
  { unfold is_active. rewrite Ha4. apply andb_false_r. }
  assert (Hshape : forall cb,
             is_active m p' = cb ->
             forall p, In p (pages_of s) ->
                       is_active m p = ((p =? a) && false) || ((p =? p') && cb)).
  { intros cb Hp p Hin.
    destruct (Z.eqb_spec p a) as [->|Hpa]; [|destruct (Z.eqb_spec p p') as [->|Hpp]].
    - rewrite Ha. destruct (Z.eqb_spec a p'); [congruence|]. reflexivity.
    - rewrite Hp. destruct cb; reflexivity.
    - simpl. apply Hrest; assumption. }
  assert (Hcount : forall cb,
             is_active m p' = cb ->
             active_count m (pages_of s) = Nat.b2n cb).
  { intros cb Hp. unfold active_count.
    rewrite (filter_length_ext _ _ _ (Hshape cb Hp)).
    rewrite filter_length_two by auto. reflexivity. }
  assert (Hold : is_active (flash s) p' = false).
  { rewrite (H1 p' Hinp). apply Z.eqb_neq, Hne. }
  split; [|split].
  - pose proof (Hcount _ eq_refl) as Hc.
    destruct (is_active m p'); [right|left]; exact Hc.
  - intros Hp0 Hp4 p Hin.
    assert (Hp : is_active m p' = true).
    { unfold is_active. rewrite Hp0, Hp4, Z.eqb_refl.
      apply andb_true_iff. split; [apply negb_true_iff, Z.eqb_neq, Hnew|reflexivity]. }
    rewrite (Hshape _ Hp p Hin). rewrite andb_false_r, andb_true_r. reflexivity.
  - intros Hp0 Hp4. apply (Hcount false).
    rewrite (is_active_same m (flash s)) by assumption. exact Hold.
Qed.

End Actives.

(** ** The active page through init, write and clear *)

Lemma steps_of_app s s' l : hist s' = l ++ hist s -> steps_of s s' = l.
Proof.
  intros H. unfold steps_of. rewrite H, length_app.
  replace (length l + length (hist s) - length (hist s))%nat with (length l) by lia.
  apply take_app_length.
Qed.

Lemma filter_length_zero (f : Z -> bool) ps :
  length (List.filter f ps) = 0%nat -> forall p, In p ps -> f p = false.
Proof.
  induction ps as [|q ps IH]; intros H p Hp; [destruct Hp|].
  simpl in H. destruct (f q) eqn:E; [discriminate|].
  destruct Hp as [->|Hp]; [exact E|apply IH; assumption].
Qed.

Lemma init_fresh_spec s ulStart ulEnd ulSize :
  valid_config ulStart ulEnd ulSize ->
  ulEnd <= ulFlashSize s ->
  active_count (flash s) (region_pages ulStart ulEnd ulSize) = 0%nat ->
  used_count (flash s) (region_pages ulStart ulEnd ulSize) = 0%nat ->
  exists s',
    SoftEEPROMInit ulStart ulEnd ulSize s = Some (0, s') /\
    wf s' /\ one_active s' /\
    g_pucActivePage s' = ulStart /\
    g_pucNextAvailEntry s' = ulStart + 8 /\
    flash s' (g_pucActivePage s') = 0 /\
    actives_between 0 1 s s'.
Proof.
  intros Hcfg Hfl Hact Hused.
  rewrite SoftEEPROMInit_unfold.
  destruct (Z.gtb_spec ulEnd (ulFlashSize s)); [lia|].
  rewrite !land_boundary by (destruct Hcfg; assumption).
  set (s1 := set_region ulStart ulEnd ulSize s).
  assert (Hcfg1 : valid_config (g_pucEEPROMStart s1) (g_pucEEPROMEnd s1)
                               (g_ulEEPROMPgSize s1)) by exact Hcfg.
  pose proof (start_is_page _ _ _ Hcfg) as Hst.
  pose proof (vc_size_lo _ _ _ Hcfg) as Hszlo.
  destruct (PageErase_spec s1 ulStart Hcfg1 Hst) as (m2 & l2 & Herase & Hm2 & Hl2 & _).
  change (g_ulEEPROMPgSize s1) with ulSize in Hm2, Hl2.
  change (flash s1) with (flash s) in Hm2, Hl2.
  set (m3 := store m2 ulStart 0).
  set (s' := set_initialized true
               (set_next (ulStart + 8)
                  (set_active ulStart (set_flash m3 (with_medium m2 l2 s1))))).
  assert (Hrun : init_recover s1 =
                 Some (0, set_next (ulStart + 8)
                            (set_active ulStart
                               (set_flash m3 (with_medium m2 l2 s1))))).
  { unfold init_recover. unfold bind at 1.
    rewrite (GetActivePageCount_eq s1 Hcfg1).
    change (pages_of s1) with (region_pages ulStart ulEnd ulSize).
    change (flash s1) with (flash s). rewrite Hact.
    change (u8 (Z.of_nat 0) =? 0) with true. cbv iota.
    unfold bind at 1. rewrite (GetUsedPageCount_eq s1 Hcfg1).
    change (pages_of s1) with (region_pages ulStart ulEnd ulSize).
    change (flash s1) with (flash s). rewrite Hused.
    change (u8 (Z.of_nat 0) =? 0) with true. cbv iota.
    unfold init_fresh. unfold bind at 1. unfold gets at 1.
    change (g_pucEEPROMStart s1) with ulStart.
    unfold init_activate. unfold bind at 1. rewrite Herase. cbn [negb Z.eqb].
    unfold bind at 1. rewrite PageDataWrite_word. cbn [negb Z.eqb].
    change (flash (with_medium m2 l2 s1)) with m2.
    rewrite Z.land_0_r. fold m3. reflexivity. }
  rewrite Hrun. cbn [Z.eqb]. fold s'.
  exists s'. split; [reflexivity|].
  assert (Hinactive : forall p, In p (region_pages ulStart ulEnd ulSize) ->
                                is_active (flash s) p = false).
  { apply filter_length_zero, Hact. }
  assert (Hm2out : forall x, ~ (ulStart <= x < ulStart + ulSize) -> m2 x = flash s x).
  { intros x Hx. rewrite Hm2. zb. }
  assert (Hm2in : forall x, ulStart <= x < ulStart + ulSize -> m2 x = ERASED_WORD).
  { intros x Hx. rewrite Hm2. zb. }
  assert (Hother : forall (m : mem) p,
             agree_outside ulStart (ulStart + ulSize) m (flash s) ->
             In p (region_pages ulStart ulEnd ulSize) -> p <> ulStart ->
             is_active m p = false).
  { intros m p Hm Hp Hne. rewrite <- (Hinactive p Hp).
    apply In_region_pages in Hp; [|exact Hcfg].
    pose proof (pages_disjoint _ _ _ Hcfg _ _ Hp Hst Hne).
    apply is_active_same; apply Hm; lia. }
  assert (Hm3out : agree_outside ulStart (ulStart + ulSize) m3 (flash s)).
  { intros x Hx. unfold m3. rewrite store_ne by lia. apply Hm2out, Hx. }
  assert (H1 : forall p, In p (region_pages ulStart ulEnd ulSize) ->
                         is_active m3 p = (p =? ulStart)).
  { intros p Hp. destruct (Z.eqb_spec p ulStart) as [->|Hne].
    - unfold is_active, m3. rewrite store_eq, store_ne by lia.
      rewrite Hm2in by lia. reflexivity.
    - apply Hother; assumption. }
  split; [|split; [exact H1|split; [reflexivity|split; [reflexivity|split; [apply store_eq|]]]]].
  - destruct Hst as (Hs1 & Hs2 & Hs3).
    constructor; unfold s'; cbn; try assumption; try lia; try reflexivity.
    + rewrite Z.add_simpl_l. reflexivity.
    + intros i Hi0 Hi. unfold slot_addr in Hi. lia.
    + intros i Hi HiN. unfold m3. rewrite store_ne by (unfold slot_addr in *; lia).
      apply Hm2in. pose proof (vc_size_mod4 _ _ _ Hcfg).
      unfold slot_addr, slots_per_page in *. zlia.
  - unfold actives_between.
    rewrite (steps_of_app s s' (m3 :: l2)) by (unfold s'; cbn; reflexivity).
    change (pages_of s') with (region_pages ulStart ulEnd ulSize).
    constructor.
    + unfold active_count. rewrite (filter_length_ext _ _ _ H1).
      rewrite filter_length_one; [lia|apply region_pages_NoDup, Hcfg|].
      apply In_region_pages; assumption.
    + eapply Forall_impl; [exact Hl2|]. simpl. intros m (H0 & H4 & Hout).
      unfold active_count. rewrite filter_length_none; [lia|].
      intros p Hp. destruct (Z.eq_dec p ulStart) as [->|Hne].
      * unfold is_active. rewrite H0. reflexivity.
      * apply Hother; assumption.
Qed.

Lemma write_actives s k v :
  wf s -> one_active s -> generation_ok s ->
  0 <= k < NUM_IDS -> 0 <= v < 2 ^ 16 ->
  exists s',
    SoftEEPROMWrite k v s = Some (0, s') /\
    wf s' /\ one_active s' /\
    actives_between 1 2 s s' /\
    (g_pucNextAvailEntry s < g_pucActivePage s + g_ulEEPROMPgSize s ->
     actives_between 1 1 s s').
Proof.
  intros Hwf H1 Hgen Hk Hv.
  pose proof (wf_config s Hwf) as Hcfg.
  destruct (actives_geometry s Hwf H1 Hgen)
    as (Hina & Hinp & Hne & Hnd & Hsz & Hother & Hdisj & Hg & Hb & Hnew).
  destruct (Z.lt_ge_cases (g_pucNextAvailEntry s)
                          (g_pucActivePage s + g_ulEEPROMPgSize s)) as [Hroom|Hfull].
  - (* the entry is appended to the active page *)
    exists (appended k v s).
    split; [apply SoftEEPROMWrite_append; assumption|].
    split; [apply wf_appended; assumption|].
    set (m' := store (flash s) (g_pucNextAvailEntry s) (encode k v)).
    assert (Hsame : forall p, In p (pages_of s) -> is_active m' p = is_active (flash s) p).
    { intros p Hp. pose proof (wf_next_lo s Hwf).
      assert (Hp' : is_page (g_pucEEPROMStart s) (g_pucEEPROMEnd s)
                            (g_ulEEPROMPgSize s) p) by (apply In_region_pages; assumption).
      apply is_active_same; unfold m'; apply store_ne.
      - destruct (Z.eq_dec p (g_pucActivePage s)) as [->|Hpa]; [lia|].
        pose proof (pages_disjoint _ _ _ Hcfg _ _ Hp' (wf_is_page s Hwf) Hpa). lia.
      - destruct (Z.eq_dec p (g_pucActivePage s)) as [->|Hpa]; [lia|].
        pose proof (pages_disjoint _ _ _ Hcfg _ _ Hp' (wf_is_page s Hwf) Hpa). lia. }
    assert (Hone : one_active (appended k v s)).
    { intros p Hp. change (flash (appended k v s)) with m'.
      change (pages_of (appended k v s)) with (pages_of s) in Hp.
      change (g_pucActivePage (appended k v s)) with (g_pucActivePage s).
      rewrite Hsame by exact Hp. apply H1, Hp. }
    assert (Hsteps : actives_between 1 1 s (appended k v s)).
    { unfold actives_between.
      rewrite (steps_of_app s _ [m']) by reflexivity.
      constructor; [|constructor].
      change (pages_of (appended k v s)) with (pages_of s).
      unfold active_count. rewrite (filter_length_ext _ _ _ Hsame).
      pose proof (one_active_count s Hwf H1) as Hc. unfold active_count in Hc.
      rewrite Hc. lia. }
    split; [exact Hone|]. split; [|intros _; exact Hsteps].
    eapply Forall_impl; [exact Hsteps|]. simpl. intros m Hm. lia.
  - (* the active page is full: page swap, then append *)
    destruct (PageSwap_full s Hwf Hfull)
      as (m' & l & Hrun & Hwf2 & Hroom & _ & _ & _ & Hok & Hp & Ha4 & Hl & _).
    exists (appended k v (swapped m' l s)).
    split; [apply SoftEEPROMWrite_full; assumption|].
    split; [apply wf_appended; assumption|].
    set (a := g_pucActivePage s) in *.
    set (p' := following_page s a) in *.
    set (sz := g_ulEEPROMPgSize s) in *.
    set (nx := g_pucNextAvailEntry (swapped m' l s)) in *.
    set (m'' := store m' nx (encode k v)).
    assert (Hnx : p' + 8 <= nx < p' + sz).
    { pose proof (wf_next_lo _ Hwf2) as Hlo. split; [exact Hlo|exact Hroom]. }
    assert (Hok'' : swap_step_ok (flash s) a p' sz m'').
    { destruct Hok as (Hframe & Hp4 & Hma & _). split; [|split; [|split]].
      - intros x Hx Hx'. unfold m''. rewrite store_ne by lia. apply Hframe; assumption.
      - unfold m''. rewrite store_ne by lia. exact Hp4.
      - unfold m''. rewrite store_ne by lia. exact Hma.
      - right. unfold m''. rewrite !store_ne by lia. auto. }
    assert (Ha4'' : m'' (a + 4) = 0).
    { unfold m''. rewrite store_ne by lia. exact Ha4. }
    split; [|split].
    + intros p Hin. change (flash (appended k v (swapped m' l s))) with m''.
      change (g_pucActivePage (appended k v (swapped m' l s))) with p'.
      change (pages_of (appended k v (swapped m' l s))) with (pages_of s) in Hin.
      apply (swap_step_actives s Hwf H1 Hgen m'' Hok''); assumption.
    + unfold actives_between.
      rewrite (steps_of_app s _ (m'' :: l)) by reflexivity.
      change (pages_of (appended k v (swapped m' l s))) with (pages_of s).
      constructor.
      * destruct (swap_step_actives s Hwf H1 Hgen m'' Hok'') as [[Hc|Hc] _]; lia.
      * eapply Forall_impl; [exact Hl|]. simpl. intros m Hm.
        destruct (swap_step_actives s Hwf H1 Hgen m Hm) as [[Hc|Hc] _]; lia.
    + intros Hroom'. lia.
Qed.

Lemma clear_actives s :
  wf s -> one_active s -> generation_ok s ->
  exists s',
    SoftEEPROMClear s = Some (0, s') /\
    wf s' /\ one_active s' /\
    (forall k, view s' k = None) /\
    actives_between 0 1 s s' /\
    Exists (fun m => active_count m (pages_of s') = 0%nat) (steps_of s s').
Proof.
  intros Hwf H1 Hgen.
  destruct (SoftEEPROMClear_spec s Hwf)
    as (m' & l & Hrun & Hwf' & Hview & Hl & Hin & Hp & Hp4 & Hfirst).
  exists (cleared m' l s).
  split; [exact Hrun|]. split; [exact Hwf'|].
  rewrite Forall_forall in Hl.
  assert (Hsteps : steps_of s (cleared m' l s) = l) by (apply steps_of_app; reflexivity).
  split; [|split; [exact Hview|split]].
  - intros p Hp0. change (flash (cleared m' l s)) with m'.
    change (g_pucActivePage (cleared m' l s))
      with (following_page s (g_pucActivePage s)).
    change (pages_of (cleared m' l s)) with (pages_of s) in Hp0.
    apply (clear_step_actives s Hwf H1 Hgen m'); [|assumption..].
    apply Hl, list_elem_of_In, Hin.
  - unfold actives_between. rewrite Hsteps.
    change (pages_of (cleared m' l s)) with (pages_of s).
    apply Forall_forall. intros m Hm.
    destruct (clear_step_actives s Hwf H1 Hgen m (Hl m Hm)) as [[Hc|Hc] _]; lia.
  - rewrite Hsteps. change (pages_of (cleared m' l s)) with (pages_of s).
    apply Exists_exists. exists (store (flash s) (g_pucActivePage s + 4) 0).
    split; [apply list_elem_of_In, Hfirst|].
    apply (clear_step_actives s Hwf H1 Hgen).
    + apply Hl, list_elem_of_In, Hfirst.
    + destruct (actives_geometry s Hwf H1 Hgen)
        as (_ & _ & Hne & _ & Hsz & _ & Hdisj & _).
      apply store_ne. lia.
    + destruct (actives_geometry s Hwf H1 Hgen)
        as (_ & _ & Hne & _ & Hsz & _ & Hdisj & _).
      apply store_ne. lia.
Qed.

(** ** Counting the active pages of a medium *)

Lemma fmap_const_replicate {A B} (f : A -> B) (c : B) (l : list A) :
  Forall (fun x => f x = c) l -> f <$> l = replicate (length l) c.
Proof.
  induction 1 as [|x l Hx _ IH]; [reflexivity|].
  cbn [fmap list_fmap length replicate]. rewrite Hx. f_equal. exact IH.
Qed.

Lemma active_count_one ps a m :
  List.NoDup ps -> In a ps ->
  (forall p, In p ps -> p <> a -> is_active m p = false) ->
  active_count m ps = Nat.b2n (is_active m a) /\
  (is_active m a = true -> forall p, In p ps -> is_active m p = (p =? a)).
Proof.
  intros Hnd Ha Hrest.
  assert (Hshape : forall p, In p ps ->
            is_active m p = ((p =? a) && is_active m a) || ((p =? a) && false)).
  { intros p Hp. rewrite andb_false_r, orb_false_r.
    destruct (Z.eqb_spec p a) as [->|Hne]; [reflexivity|].
    apply Hrest; assumption. }
  split.
  - unfold active_count. rewrite (filter_length_ext _ _ _ Hshape).
    rewrite (filter_length_ext _ (fun p => (p =? a) && is_active m a)).
    + destruct (is_active m a).
      * rewrite (filter_length_ext _ (fun p => p =? a))
          by (intros; apply andb_true_r).
        apply filter_length_one; assumption.
      * apply filter_length_none. intros. apply andb_false_r.
    + intros p _. rewrite andb_false_r. apply orb_false_r.
  - intros Hact p Hp. rewrite (Hshape p Hp), Hact, andb_true_r, andb_false_r.
    apply orb_false_r.
Qed.

Lemma active_count_two ps a b m :
  List.NoDup ps -> In a ps -> In b ps -> a <> b ->
  (forall p, In p ps -> p <> a -> p <> b -> is_active m p = false) ->
  active_count m ps = (Nat.b2n (is_active m a) + Nat.b2n (is_active m b))%nat.
Proof.
  intros Hnd Ha Hb Hne Hrest. unfold active_count.
  rewrite (filter_length_ext _
             (fun p => ((p =? a) && is_active m a) || ((p =? b) && is_active m b))).
  - apply filter_length_two; assumption.
  - intros p Hp.
    destruct (Z.eqb_spec p a) as [->|Hpa]; [|destruct (Z.eqb_spec p b) as [->|Hpb]].
    + destruct (Z.eqb_spec a b); [contradiction|].
      rewrite andb_true_l, andb_false_l. symmetry. apply orb_false_r.
    + rewrite andb_false_l, andb_true_l. reflexivity.
    + rewrite !andb_false_l. apply Hrest; assumption.
Qed.

(** ** The active pages while a page is erased and activated *)

Lemma PageErase_actives s p :
  valid_config (g_pucEEPROMStart s) (g_pucEEPROMEnd s) (g_ulEEPROMPgSize s) ->
  is_page (g_pucEEPROMStart s) (g_pucEEPROMEnd s) (g_ulEEPROMPgSize s) p ->
  (forall q, In q (pages_of s) -> q <> p -> is_active (flash s) q = false) ->
  exists m2 l2,
    PageErase p s = Some (0, with_medium m2 l2 s) /\
    l2 <> [] /\
    Forall (fun m => active_count m (pages_of s) = 0%nat) l2 /\
    (forall x, p <= x < p + g_ulEEPROMPgSize s -> m2 x = ERASED_WORD) /\
    (forall x, ~ (p <= x < p + g_ulEEPROMPgSize s) -> m2 x = flash s x) /\
    forall c, 0 <= c < ERASED_WORD ->
      (forall q, In q (pages_of s) -> is_active (store m2 p c) q = (q =? p)) /\
      active_count (store m2 p c) (pages_of s) = 1%nat.
Proof.
  intros Hcfg Hp Hrest.
  pose proof (vc_size_lo _ _ _ Hcfg) as Hszlo.
  destruct (PageErase_spec s p Hcfg Hp) as (m2 & l2 & Hrun & Hm2 & Hl2 & Hne).
  assert (Hnd : List.NoDup (pages_of s)) by (apply region_pages_NoDup, Hcfg).
  assert (Hin : In p (pages_of s)) by (apply In_region_pages; assumption).
  assert (Hm2in : forall x, p <= x < p + g_ulEEPROMPgSize s -> m2 x = ERASED_WORD).
  { intros x Hx. rewrite Hm2. zb. }
  assert (Hm2out : forall x, ~ (p <= x < p + g_ulEEPROMPgSize s) -> m2 x = flash s x).
  { intros x Hx. rewrite Hm2. zb. }
  assert (Hother : forall (m : mem) q,
             agree_outside p (p + g_ulEEPROMPgSize s) m (flash s) ->
             In q (pages_of s) -> q <> p -> is_active m q = false).
  { intros m q Hm Hq Hqp. rewrite <- (Hrest q Hq Hqp).
    apply In_region_pages in Hq; [|exact Hcfg].
    pose proof (pages_disjoint _ _ _ Hcfg _ _ Hq Hp Hqp).
    apply is_active_same; apply Hm; lia. }
  exists m2, l2. split; [exact Hrun|]. split; [exact Hne|].
  split; [|split; [exact Hm2in|split; [exact Hm2out|]]].
  - eapply Forall_impl; [exact Hl2|]. simpl. intros m (H0 & H4 & Hout).
    destruct (active_count_one (pages_of s) p m Hnd Hin) as [Hc _].
    { intros q Hq Hqp. apply (Hother m q Hout Hq Hqp). }
    rewrite Hc. unfold is_active. rewrite H0. reflexivity.
  - intros c Hc.
    assert (Hact : is_active (store m2 p c) p = true).
    { unfold is_active. rewrite store_eq, store_ne by lia.
      rewrite Hm2in by lia. unfold ERASED_WORD in *.
      destruct (Z.eqb_spec c 4294967295); [lia|reflexivity]. }
    destruct (active_count_one (pages_of s) p (store m2 p c) Hnd Hin) as [Hcnt Hall].
    { intros q Hq Hqp. apply Hother; [|exact Hq|exact Hqp].
      intros x Hx. rewrite store_ne by lia. apply Hm2out, Hx. }
    split; [exact (Hall Hact)|]. rewrite Hcnt, Hact. reflexivity.
Qed.

Lemma active_trace_app s s' l :
  hist s' = l ++ hist s ->
  active_trace s s' = (fun m => active_count m (pages_of s')) <$> l.
Proof. intros H. unfold active_trace. rewrite (steps_of_app s s' l H). reflexivity. Qed.

(** The common end of the recovery branches that erase a page and activate
    it: the state they leave, and the counts on the way. *)
Lemma erase_activate_end s1 p c m2 l2 :
  valid_config (g_pucEEPROMStart s1) (g_pucEEPROMEnd s1) (g_ulEEPROMPgSize s1) ->
  is_page (g_pucEEPROMStart s1) (g_pucEEPROMEnd s1) (g_ulEEPROMPgSize s1) p ->
  (forall x, p <= x < p + g_ulEEPROMPgSize s1 -> m2 x = ERASED_WORD) ->
  (forall q, In q (pages_of s1) -> is_active (store m2 p c) q = (q =? p)) ->
  let s' := set_initialized true
              (set_next (p + 8)
                 (set_active p (set_flash (store m2 p c) (with_medium m2 l2 s1)))) in
  wf s' /\ one_active s'.
Proof.
  intros Hcfg Hp Hm2in Hall s'.
  pose proof (vc_size_lo _ _ _ Hcfg) as Hszlo.
  pose proof (vc_size_mod4 _ _ _ Hcfg) as Hsz4.
  split; [|exact Hall].
  destruct Hp as (Hs1 & Hs2 & Hs3).
  constructor; unfold s'; cbn; try assumption; try lia; try reflexivity.
  - rewrite Z.add_simpl_l. reflexivity.
  - intros i Hi0 Hi. unfold slot_addr in Hi. lia.
  - intros i Hi HiN. rewrite store_ne by (unfold slot_addr in *; lia).
    apply Hm2in. unfold slot_addr, slots_per_page in *. zlia.
Qed.

(** ** The scans of GetNextAvailEntry, GetMostRecentlyUsedPage and init *)

Lemma GetNextAvailEntry_loop_scan n : forall p s,
  (forall i, 0 <= i < Z.of_nat n -> valid_ptr (p + 4 * i) = true) ->
  exists j, 0 <= j <= Z.of_nat n /\
    GetNextAvailEntry_loop n p s = Some (p + 4 * j, s) /\
    (forall i, 0 <= i < j -> flash s (p + 4 * i) <> ERASED_WORD) /\
    (j < Z.of_nat n -> flash s (p + 4 * j) = ERASED_WORD).
Proof.
  induction n as [|n IH]; intros p s Hv.
  - exists 0. split; [lia|]. rewrite Z.add_0_r.
    split; [reflexivity|]. split; intros; lia.
  - cbn [GetNextAvailEntry_loop]. unfold bind.
    assert (Hv0 : valid_ptr p = true).
    { replace p with (p + 4 * 0) by lia. apply Hv. lia. }
    rewrite (load_eq _ _ Hv0).
    destruct (Z.eqb_spec (flash s p) ERASED_WORD) as [E|E].
    + exists 0. split; [lia|]. rewrite Z.add_0_r.
      split; [reflexivity|]. split; [intros; lia|]. intros _. exact E.
    + destruct (IH (p + 4) s) as (j & Hj & Hrun & Hlow & Hat).
      { intros i Hi. replace (p + 4 + 4 * i) with (p + 4 * (i + 1)) by lia.
        apply Hv. lia. }
      exists (j + 1). split; [lia|].
      replace (p + 4 * (j + 1)) with (p + 4 + 4 * j) by lia.
      split; [exact Hrun|]. split.
      * intros i Hi. destruct (Z.eq_dec i 0) as [->|Hn].
        -- rewrite Z.add_0_r. exact E.
        -- replace (p + 4 * i) with (p + 4 + 4 * (i - 1)) by lia.
           apply Hlow. lia.
      * intros Hlt. apply Hat. lia.
Qed.

Lemma GetNextAvailEntry_scan s :
  valid_config (g_pucEEPROMStart s) (g_pucEEPROMEnd s) (g_ulEEPROMPgSize s) ->
  is_page (g_pucEEPROMStart s) (g_pucEEPROMEnd s) (g_ulEEPROMPgSize s)
          (g_pucActivePage s) ->
  exists j,
    0 <= j <= slots_per_page (g_ulEEPROMPgSize s) /\
    GetNextAvailEntry s = Some (slot_addr (g_pucActivePage s) j, s) /\
    (forall i, 0 <= i < j ->
               flash s (slot_addr (g_pucActivePage s) i) <> ERASED_WORD) /\
    (j < slots_per_page (g_ulEEPROMPgSize s) ->
     flash s (slot_addr (g_pucActivePage s) j) = ERASED_WORD).
Proof.
  intros Hcfg Ha.
  pose proof (vc_slots _ _ _ Hcfg) as HN.
  unfold NUM_IDS, MAX_SOFTEEPROM_IDS in HN.
  pose proof (vc_usSize _ _ _ Hcfg) as Hus.
  unfold GetNextAvailEntry, bind, gets. rewrite Hus.
  destruct (GetNextAvailEntry_loop_scan
              (Z.to_nat (slots_per_page (g_ulEEPROMPgSize s)))
              (g_pucActivePage s + 8) s) as (j & Hj & Hrun & Hlow & Hat).
  { intros i Hi. rewrite Z2Nat.id in Hi by lia.
    apply (slot_valid _ _ _ Hcfg _ _ Ha). exact Hi. }
  rewrite Z2Nat.id in Hj, Hat by lia.
  exists j. split; [exact Hj|]. split; [exact Hrun|]. split; assumption.
Qed.

Lemma GetMostRecentlyUsedPage_loop_max ps : forall c r s,
  (forall p, In p ps -> valid_ptr p = true /\ valid_ptr (p + 4) = true) ->
  exists r',
    GetMostRecentlyUsedPage_loop ps c r s = Some (r', s) /\
    ((r' = r /\
      forall p, In p ps -> is_used (flash s) p = true -> flash s p <= c) \/
     (In r' ps /\ is_used (flash s) r' = true /\ c < flash s r' /\
      forall p, In p ps -> is_used (flash s) p = true ->
                flash s p <= flash s r')).
Proof.
  induction ps as [|q ps IH]; intros c r s Hv.
  - exists r. split; [reflexivity|]. left. split; [reflexivity|]. intros p [].
  - destruct (Hv q (or_introl eq_refl)) as [H0 H4].
    assert (Hv' : forall p, In p ps ->
                            valid_ptr p = true /\ valid_ptr (p + 4) = true).
    { intros p Hp. apply Hv. right. exact Hp. }
    cbn [GetMostRecentlyUsedPage_loop]. unfold bind at 1.
    rewrite (PageIsUsed_eq _ _ H0 H4).
    destruct (is_used (flash s) q) eqn:Hq.
    + unfold bind at 1. rewrite (load_eq _ _ H0).
      destruct (Z.gtb_spec (flash s q) c) as [Hgt|Hle].
      * destruct (IH (flash s q) q s Hv') as (r' & Hrun & [[-> Hall]|(Hin & Hu & Hlt & Hall)]).
        -- exists q. split; [exact Hrun|]. right.
           split; [left; reflexivity|]. split; [exact Hq|]. split; [lia|].
           intros p [<-|Hp] Hpu; [lia|]. apply Hall; assumption.
        -- exists r'. split; [exact Hrun|]. right.
           split; [right; exact Hin|]. split; [exact Hu|]. split; [lia|].
           intros p [<-|Hp] Hpu; [lia|]. apply Hall; assumption.
      * destruct (IH c r s Hv') as (r' & Hrun & [[-> Hall]|(Hin & Hu & Hlt & Hall)]).
        -- exists r. split; [exact Hrun|]. left. split; [reflexivity|].
           intros p [<-|Hp] Hpu; [lia|]. apply Hall; assumption.
        -- exists r'. split; [exact Hrun|]. right.
           split; [right; exact Hin|]. split; [exact Hu|]. split; [lia|].
           intros p [<-|Hp] Hpu; [lia|]. apply Hall; assumption.
    + destruct (IH c r s Hv') as (r' & Hrun & [[-> Hall]|(Hin & Hu & Hlt & Hall)]).
      * exists r. split; [exact Hrun|]. left. split; [reflexivity|].
        intros p [<-|Hp] Hpu; [congruence|]. apply Hall; assumption.
      * exists r'. split; [exact Hrun|]. right.
        split; [right; exact Hin|]. split; [exact Hu|]. split; [lia|].
        intros p [<-|Hp] Hpu; [congruence|]. apply Hall; assumption.
Qed.

Lemma GetMostRecentlyUsedPage_spec s :
  valid_config (g_pucEEPROMStart s) (g_pucEEPROMEnd s) (g_ulEEPROMPgSize s) ->
  exists r,
    GetMostRecentlyUsedPage s = Some (r, s) /\
    ((r = 0xFFFFFFFF /\
      forall p, In p (pages_of s) -> is_used (flash s) p = true ->
                flash s p <= 0) \/
     (In r (pages_of s) /\ is_used (flash s) r = true /\ 0 < flash s r /\
      forall p, In p (pages_of s) -> is_used (flash s) p = true ->
                flash s p <= flash s r)).
Proof.
  intros Hcfg. unfold GetMostRecentlyUsedPage, bind.
  rewrite (eeprom_pages_eq s Hcfg).
  apply GetMostRecentlyUsedPage_loop_max.
  intros p Hp. apply (page_status_valid s Hcfg). apply list_elem_of_In. exact Hp.
Qed.

Lemma find_active_page_eq s ps e :
  valid_config (g_pucEEPROMStart s) (g_pucEEPROMEnd s) (g_ulEEPROMPgSize s) ->
  (forall p, In p ps -> In p (pages_of s)) ->
  find_active_page ps e s =
  Some (match List.find (is_active (flash s)) ps with
        | Some p => p
        | None => e
        end, s).
Proof.
  intros Hcfg. induction ps as [|p ps IH]; intros Hps; [reflexivity|].
  cbn [find_active_page List.find]. unfold bind.
  destruct (page_status_valid s Hcfg p) as [H0 H4].
  { apply list_elem_of_In, Hps. left. reflexivity. }
  rewrite (PageIsActive_eq _ _ H0 H4).
  destruct (is_active (flash s) p); [reflexivity|].
  apply IH. intros q Hq. apply Hps. right. exact Hq.
Qed.

Lemma find_the_one (f : Z -> bool) ps a :
  (forall p, In p ps -> f p = (p =? a)) -> In a ps ->
  List.find f ps = Some a.
Proof.
  induction ps as [|p ps IH]; intros Hf Ha; [destruct Ha|].
  cbn [List.find]. rewrite (Hf p (or_introl eq_refl)).
  destruct (Z.eqb_spec p a) as [->|Hne]; [reflexivity|].
  apply IH.
  - intros q Hq. apply Hf. right. exact Hq.
  - destruct Ha as [E|Ha]; [contradiction|exact Ha].
Qed.

(** ** Erasing a page and activating it, as the recovery branches do *)

Lemma init_activate_eq p c (b : bool) s t :
  (if b then PageErase p else ret 0) s = Some (0, t) ->
  flash t p = ERASED_WORD -> 0 <= c < 2 ^ 32 ->
  init_activate p c b s
  = Some (0, set_next (p + 8) (set_active p (set_flash (store (flash t) p c) t))).
Proof.
  intros Hrun Hp Hc. unfold init_activate. unfold bind at 1. rewrite Hrun.
  cbn [negb Z.eqb]. unfold bind at 1. rewrite PageDataWrite_word.
  cbn [negb Z.eqb]. rewrite Hp, land_erased by exact Hc. reflexivity.
Qed.

Lemma erase_activate_spec s0 st en sz p c :
  valid_config st en sz -> is_page st en sz p -> 0 <= c < ERASED_WORD ->
  (forall q, In q (region_pages st en sz) -> q <> p ->
             is_active (flash s0) q = false) ->
  exists t s1 n,
    PageErase p (set_region st en sz s0) = Some (0, t) /\
    (forall x, ~ (p <= x < p + sz) -> flash t x = flash s0 x) /\
    (forall (b : bool) u,
        (if b then PageErase p else ret 0) u = Some (0, t) ->
        init_activate p c b u = Some (0, s1)) /\
    wf (set_initialized true s1) /\ one_active (set_initialized true s1) /\
    g_pucActivePage s1 = p /\ g_pucNextAvailEntry s1 = p + 8 /\
    flash s1 p = c /\
    (forall x, ~ (p <= x < p + sz) -> flash s1 x = flash s0 x) /\
    (0 < n)%nat /\
    active_trace s0 (set_initialized true s1) = 1%nat :: replicate n 0%nat.
Proof.
  intros Hcfg Hp Hc Hrest.
  set (r := set_region st en sz s0).
  assert (Hcfg1 : valid_config (g_pucEEPROMStart r) (g_pucEEPROMEnd r)
                               (g_ulEEPROMPgSize r)) by exact Hcfg.
  pose proof (vc_size_lo _ _ _ Hcfg) as Hszlo.
  destruct (PageErase_actives r p Hcfg1 Hp Hrest)
    as (m2 & l2 & Herase & Hne & Hl2 & Hm2in & Hm2out & Hfin).
  change (g_ulEEPROMPgSize r) with sz in Hm2in, Hm2out.
  change (flash r) with (flash s0) in Hm2out.
  change (pages_of r) with (region_pages st en sz) in Hl2, Hfin.
  destruct (Hfin c Hc) as [Hall Hcnt].
  set (s1 := set_next (p + 8)
               (set_active p (set_flash (store m2 p c) (with_medium m2 l2 r)))).
  exists (with_medium m2 l2 r), s1, (length l2).
  split; [exact Herase|]. split; [exact Hm2out|]. split; [|split; [|split]].
  - intros b u Hu.
    apply (init_activate_eq p c b u (with_medium m2 l2 r)); [exact Hu| |].
    + apply Hm2in. lia.
    + unfold ERASED_WORD in Hc. change (2 ^ 32) with 4294967296. lia.
  - apply (erase_activate_end r p c m2 l2 Hcfg1 Hp Hm2in Hall).
  - apply (erase_activate_end r p c m2 l2 Hcfg1 Hp Hm2in Hall).
  - split; [reflexivity|]. split; [reflexivity|]. split; [apply store_eq|].
    split; [|split].
    + intros x Hx. change (flash s1 x) with (store m2 p c x).
      rewrite store_ne by lia. apply Hm2out, Hx.
    + destruct l2; [contradiction|]. simpl. lia.
    + rewrite (active_trace_app s0 (set_initialized true s1)
                                (store m2 p c :: l2)) by reflexivity.
      change (pages_of (set_initialized true s1)) with (region_pages st en sz).
      cbn [fmap list_fmap]. rewrite Hcnt. f_equal.
      apply fmap_const_replicate, Hl2.
Qed.

Lemma init_recover_done st en sz s0 s1 :
  valid_config st en sz -> en <= ulFlashSize s0 ->
  init_recover (set_region st en sz s0) = Some (0, s1) ->
  SoftEEPROMInit st en sz s0 = Some (0, set_initialized true s1).
Proof.
  intros Hcfg Hfl Hrun. rewrite SoftEEPROMInit_unfold.
  destruct (Z.gtb_spec en (ulFlashSize s0)); [lia|].
  rewrite !land_boundary by (destruct Hcfg; assumption).
  rewrite Hrun. reflexivity.
Qed.

Lemma init_recover_count st en sz s0 :
  valid_config st en sz ->
  init_recover (set_region st en sz s0) =
  let r := set_region st en sz s0 in
  let n := u8 (Z.of_nat (active_count (flash s0) (region_pages st en sz))) in
  if n =? 0 then
    if u8 (Z.of_nat (used_count (flash s0) (region_pages st en sz))) =? 0
    then init_fresh r else init_after_clear r
  else if n =? 1 then init_one_active r
  else if n =? 2 then init_two_active r
  else Some (ERR_ACTIVE_PG_CNT, r).
Proof.
  intros Hcfg. cbv zeta.
  set (r := set_region st en sz s0).
  assert (Hcfg1 : valid_config (g_pucEEPROMStart r) (g_pucEEPROMEnd r)
                               (g_ulEEPROMPgSize r)) by exact Hcfg.
  unfold init_recover. unfold bind at 1. rewrite (GetActivePageCount_eq r Hcfg1).
  change (pages_of r) with (region_pages st en sz).
  change (flash r) with (flash s0).
  destruct (_ =? 0).
  - unfold bind at 1. rewrite (GetUsedPageCount_eq r Hcfg1).
    change (pages_of r) with (region_pages st en sz).
    change (flash r) with (flash s0).
    destruct (_ =? 0); reflexivity.
  - destruct (_ =? 1); [reflexivity|]. destruct (_ =? 2); reflexivity.
Qed.

(** No page is marked active, none is marked used (as GetUsedPageCount
    counts, modulo 256): the first page is erased and activated with
    counter 0. *)
Lemma init_fresh_trace s ulStart ulEnd ulSize :
  valid_config ulStart ulEnd ulSize ->
  ulEnd <= ulFlashSize s ->
  active_count (flash s) (region_pages ulStart ulEnd ulSize) = 0%nat ->
  Z.of_nat (used_count (flash s) (region_pages ulStart ulEnd ulSize)) mod 256 = 0 ->
  exists s' n,
    SoftEEPROMInit ulStart ulEnd ulSize s = Some (0, s') /\
    wf s' /\ one_active s' /\
    g_pucActivePage s' = ulStart /\ flash s' ulStart = 0 /\
    (0 < n)%nat /\ active_trace s s' = 1%nat :: replicate n 0%nat.
Proof.
  intros Hcfg Hfl Hact Hused.
  pose proof (start_is_page _ _ _ Hcfg) as Hst.
  destruct (erase_activate_spec s ulStart ulEnd ulSize ulStart 0 Hcfg Hst)
    as (t & s1 & n & Herase & _ & Hrun & Hwf & H1 & Ha & _ & Hc & _ & Hn & Htr).
  { unfold ERASED_WORD. lia. }
  { intros q Hq _. apply (filter_length_zero _ _ Hact q Hq). }
  exists (set_initialized true s1), n.
  split; [|split; [exact Hwf|split; [exact H1|split; [exact Ha|split; [exact Hc|split; assumption]]]]].
  apply init_recover_done; [assumption..|].
  rewrite (init_recover_count _ _ _ _ Hcfg). cbv zeta. rewrite Hact.
  change (u8 (Z.of_nat 0) =? 0) with true. cbv iota.
  unfold u8. change (2 ^ 8) with 256. rewrite Hused.
  change (0 =? 0) with true. cbv iota.
  unfold init_fresh. unfold bind at 1, gets at 1.
  apply (Hrun true). exact Herase.
Qed.

(** No page is marked active, but pages are marked used, as after a reset
    during SoftEEPROMClear: the page after the used page with the largest
    counter is erased and activated with the next counter value. *)
Lemma init_after_clear_trace s ulStart ulEnd ulSize :
  valid_config ulStart ulEnd ulSize ->
  ulEnd <= ulFlashSize s ->
  active_count (flash s) (region_pages ulStart ulEnd ulSize) = 0%nat ->
  Z.of_nat (used_count (flash s) (region_pages ulStart ulEnd ulSize)) mod 256 <> 0 ->
  (exists p, In p (region_pages ulStart ulEnd ulSize) /\
             is_used (flash s) p = true /\ 0 < flash s p) ->
  (forall p, In p (region_pages ulStart ulEnd ulSize) ->
             is_used (flash s) p = true -> flash s p < ERASED_WORD - 1) ->
  exists r s' n,
    In r (region_pages ulStart ulEnd ulSize) /\
    is_used (flash s) r = true /\
    (forall p, In p (region_pages ulStart ulEnd ulSize) ->
               is_used (flash s) p = true -> flash s p <= flash s r) /\
    SoftEEPROMInit ulStart ulEnd ulSize s = Some (0, s') /\
    wf s' /\ one_active s' /\
    g_pucActivePage s' = page_after ulStart ulEnd ulSize r /\
    flash s' (g_pucActivePage s') = flash s r + 1 /\
    (0 < n)%nat /\ active_trace s s' = 1%nat :: replicate n 0%nat.
Proof.
  intros Hcfg Hfl Hact Hused (p0 & Hp0 & Hu0 & Hc0) Hbound.
  set (r1 := set_region ulStart ulEnd ulSize s).
  assert (Hcfg1 : valid_config (g_pucEEPROMStart r1) (g_pucEEPROMEnd r1)
                               (g_ulEEPROMPgSize r1)) by exact Hcfg.
  destruct (GetMostRecentlyUsedPage_spec r1 Hcfg1) as (r & Hmru & Hr).
  change (pages_of r1) with (region_pages ulStart ulEnd ulSize) in Hr.
  change (flash r1) with (flash s) in Hr.
  destruct Hr as [[_ Hall]|(Hin & Hu & Hpos & Hmax)].
  { specialize (Hall p0 Hp0 Hu0). lia. }
  assert (Hrp : is_page ulStart ulEnd ulSize r)
    by (apply In_region_pages; assumption).
  destruct (next_page_is_page _ _ _ Hcfg _ Hrp) as [Hp' Hne].
  fold (page_after ulStart ulEnd ulSize r) in Hp', Hne.
  set (p' := page_after ulStart ulEnd ulSize r) in *.
  pose proof (Hbound r Hin Hu) as Hhi.
  assert (Hc : u32 (flash s r + 1) = flash s r + 1).
  { apply u32_small. unfold ERASED_WORD in Hhi.
    change (2 ^ 32) with 4294967296. lia. }
  destruct (erase_activate_spec s ulStart ulEnd ulSize p' (flash s r + 1) Hcfg Hp')
    as (t & s1 & n & Herase & _ & Hrun & Hwf & H1 & Ha & _ & Hcnt & _ & Hn & Htr).
  { unfold ERASED_WORD in *. lia. }
  { intros q Hq _. apply (filter_length_zero _ _ Hact q Hq). }
  assert (Hr0 : valid_ptr r = true).
  { replace r with (r + 0) by lia.
    pose proof (vc_size_lo _ _ _ Hcfg).
    apply (page_word_valid _ _ _ Hcfg _ _ Hrp); [lia|lia|reflexivity]. }
  exists r, (set_initialized true s1), n.
  split; [exact Hin|]. split; [exact Hu|]. split; [exact Hmax|].
  split; [|split; [exact Hwf|split; [exact H1|split; [exact Ha|split; [|split; assumption]]]]].
  - apply init_recover_done; [assumption..|].
    rewrite (init_recover_count _ _ _ _ Hcfg). cbv zeta. rewrite Hact.
    change (u8 (Z.of_nat 0) =? 0) with true. cbv iota.
    unfold u8. change (2 ^ 8) with 256.
    destruct (Z.eqb_spec (Z.of_nat (used_count (flash s)
                (region_pages ulStart ulEnd ulSize)) mod 256) 0); [contradiction|].
    fold r1. unfold init_after_clear. unfold bind at 1. rewrite Hmru.
    unfold bind at 1. rewrite (load_eq _ _ Hr0).
    change (flash r1 r) with (flash s r). rewrite Hc.
    unfold bind at 1. rewrite next_page_eq.
    apply (Hrun true). exact Herase.
  - change (flash (set_initialized true s1)) with (flash s1).
    change (g_pucActivePage (set_initialized true s1)) with (g_pucActivePage s1).
    rewrite Ha. exact Hcnt.
Qed.

Lemma page_before_is_page st en sz p :
  valid_config st en sz -> is_page st en sz p ->
  is_page st en sz (page_before st en sz p).
Proof.
  intros Hcfg Hp. pose proof (vc_size_lo _ _ _ Hcfg) as Hsz.
  apply (is_page_index _ _ _ Hcfg) in Hp as (i & Hi & ->).
  apply (is_page_index _ _ _ Hcfg). unfold page_before.
  assert (Hen : en - st = sz * ((en - st) / sz)).
  { apply Z.div_exact; [lia|]. destruct Hcfg; assumption. }
  destruct (Z.eqb_spec (st + i * sz) st) as [E|E].
  - exists ((en - st) / sz - 1). split; [lia|]. nia.
  - exists (i - 1). split; [nia|]. lia.
Qed.

Lemma steps_of_nil s s' : hist s' = hist s -> steps_of s s' = [].
Proof. intros H. apply (steps_of_app s s' []). exact H. Qed.

Lemma active_trace_nil s s' : hist s' = hist s -> active_trace s s' = [].
Proof. intros H. unfold active_trace. rewrite (steps_of_nil s s' H). reflexivity. Qed.

Lemma the_one_active_count m ps a :
  List.NoDup ps -> In a ps ->
  (forall p, In p ps -> is_active m p = (p =? a)) ->
  active_count m ps = 1%nat.
Proof.
  intros Hnd Ha H. unfold active_count.
  rewrite (filter_length_ext _ _ _ H). apply filter_length_one; assumption.
Qed.

(** The head of the one-active branch: the active page is found and the
    page before it is classified. *)
Lemma init_one_active_head s st en sz a :
  valid_config st en sz -> In a (region_pages st en sz) ->
  (forall p, In p (region_pages st en sz) ->
             is_active (flash s) p = (p =? a)) ->
  let r := set_region st en sz s in
  let q := page_before st en sz a in
  is_page st en sz a /\ is_page st en sz q /\ q <> a /\
  valid_ptr a = true /\ valid_ptr q = true /\
  init_one_active r =
  if is_used (flash s) q then
    if flash s q =? u32 (flash s a - 1) then
      (modify (set_active a) ;;;
       pucNext <- GetNextAvailEntry ;;
       modify (set_next pucNext) ;;;
       ret 0) r
    else
      (rc <- PageErase a ;;
       if negb (rc =? 0) then ret ERR_PG_ERASE
       else
         wu' <- load q ;;
         init_activate a (u32 (wu' + 1)) false) r
  else
    (modify (set_active a) ;;;
     pucNext <- GetNextAvailEntry ;;
     modify (set_next pucNext) ;;;
     ret 0) r.
Proof.
  intros Hcfg Hin H1 r q.
  assert (Hcfg1 : valid_config (g_pucEEPROMStart r) (g_pucEEPROMEnd r)
                               (g_ulEEPROMPgSize r)) by exact Hcfg.
  pose proof (vc_size_lo _ _ _ Hcfg) as Hszlo.
  assert (Ha : is_page st en sz a) by (apply In_region_pages; assumption).
  pose proof (page_before_is_page st en sz a Hcfg Ha) as Hq. fold q in Hq.
  assert (Hq0 : valid_ptr q = true).
  { replace q with (q + 0) by lia.
    apply (page_word_valid _ _ _ Hcfg _ _ Hq); [lia|lia|reflexivity]. }
  assert (Hq4 : valid_ptr (q + 4) = true).
  { apply (page_word_valid _ _ _ Hcfg _ _ Hq); [lia|lia|reflexivity]. }
  assert (Ha0 : valid_ptr a = true).
  { replace a with (a + 0) by lia.
    apply (page_word_valid _ _ _ Hcfg _ _ Ha); [lia|lia|reflexivity]. }
  assert (Hqa : q <> a).
  { pose proof (vc_pages _ _ _ Hcfg) as Hpg.
    assert (Hspan : 2 * sz <= en - st).
    { pose proof (Z.mul_div_le (en - st) sz ltac:(lia)). nia. }
    unfold q, page_before. destruct Ha as (Ha1 & Ha2 & _).
    destruct (Z.eqb_spec a st); lia. }
  split; [exact Ha|]. split; [exact Hq|]. split; [exact Hqa|].
  split; [exact Ha0|]. split; [exact Hq0|].
  unfold init_one_active. unfold bind at 1.
  rewrite (eeprom_pages_eq r Hcfg1). unfold bind at 1.
  unfold loop_end, bind at 1, gets at 1, bind at 1, gets at 1, ret at 1.
  unfold bind at 1.
  rewrite (find_active_page_eq r _ _ Hcfg1) by auto.
  change (pages_of r) with (region_pages st en sz).
  change (flash r) with (flash s).
  rewrite (find_the_one _ _ a H1 Hin).
  unfold bind at 1, gets at 1. unfold bind at 1, gets at 1.
  unfold bind at 1, gets at 1.
  change (g_pucEEPROMStart r) with st. change (g_pucEEPROMEnd r) with en.
  change (g_ulEEPROMPgSize r) with sz.
  change (if a =? st then en - sz else a - sz) with q.
  unfold bind at 1. rewrite (PageIsUsed_eq _ _ Hq0 Hq4).
  change (flash r) with (flash s).
  destruct (is_used (flash s) q); [|reflexivity].
  unfold bind at 1. rewrite (load_eq _ _ Hq0).
  unfold bind at 1. rewrite (load_eq _ _ Ha0).
  change (flash r) with (flash s).
  destruct (_ =? _); reflexivity.
Qed.

(** Exactly one page is marked active and the page before it does not
    contradict it: the medium is left alone and the page is adopted. *)
Lemma init_one_active_keep s ulStart ulEnd ulSize a :
  valid_config ulStart ulEnd ulSize ->
  ulEnd <= ulFlashSize s ->
  In a (region_pages ulStart ulEnd ulSize) ->
  (forall p, In p (region_pages ulStart ulEnd ulSize) ->
             is_active (flash s) p = (p =? a)) ->
  (is_used (flash s) (page_before ulStart ulEnd ulSize a) = true ->
   flash s (page_before ulStart ulEnd ulSize a) = u32 (flash s a - 1)) ->
  exists s',
    SoftEEPROMInit ulStart ulEnd ulSize s = Some (0, s') /\
    flash s' = flash s /\ steps_of s s' = [] /\
    g_pucActivePage s' = a /\ one_active s' /\
    active_count (flash s') (pages_of s') = 1%nat /\
    forall j, page_filled_to (flash s) a ulSize j ->
              wf s' /\ g_pucNextAvailEntry s' = slot_addr a j.
Proof.
  intros Hcfg Hfl Hin H1 Hprev.
  destruct (init_one_active_head s ulStart ulEnd ulSize a Hcfg Hin H1)
    as (Ha & Hq & Hqa & Ha0 & Hq0 & Hhead).
  set (r := set_region ulStart ulEnd ulSize s) in *.
  set (q := page_before ulStart ulEnd ulSize a) in *.
  set (r2 := set_active a r).
  assert (Hcfg2 : valid_config (g_pucEEPROMStart r2) (g_pucEEPROMEnd r2)
                               (g_ulEEPROMPgSize r2)) by exact Hcfg.
  destruct (GetNextAvailEntry_scan r2 Hcfg2 Ha) as (j & Hj & Hscan & Hlow & Hat).
  change (g_ulEEPROMPgSize r2) with ulSize in Hj, Hat.
  change (g_pucActivePage r2) with a in Hscan, Hlow, Hat.
  change (flash r2) with (flash s) in Hlow, Hat.
  set (s' := set_initialized true (set_next (slot_addr a j) r2)).
  assert (Hkeep : (modify (set_active a) ;;;
                   pucNext <- GetNextAvailEntry ;;
                   modify (set_next pucNext) ;;;
                   ret 0) r = Some (0, set_next (slot_addr a j) r2)).
  { unfold bind at 1, modify at 1. fold r2. unfold bind at 1. rewrite Hscan.
    reflexivity. }
  assert (Hcnt : active_count (flash s) (region_pages ulStart ulEnd ulSize) = 1%nat).
  { apply (the_one_active_count _ _ a); [apply region_pages_NoDup, Hcfg|assumption..]. }
  exists s'. split; [|split; [reflexivity|split; [apply steps_of_nil; reflexivity|
    split; [reflexivity|split; [exact H1|split; [exact Hcnt|]]]]]].
  - apply init_recover_done; [assumption..|].
    rewrite (init_recover_count _ _ _ _ Hcfg). cbv zeta. rewrite Hcnt.
    change (u8 (Z.of_nat 1) =? 0) with false.
    change (u8 (Z.of_nat 1) =? 1) with true. cbv iota.
    fold r. rewrite Hhead.
    destruct (is_used (flash s) q) eqn:Hused; [|exact Hkeep].
    rewrite (Hprev eq_refl), Z.eqb_refl. exact Hkeep.
  - intros j' (Hj' & Hok & Hfree).
    assert (E : j = j').
    { destruct (Z.lt_trichotomy j j') as [Hlt|[E|Hgt]]; [|exact E|].
      - exfalso. apply (entry_ok_not_erased (flash s (slot_addr a j))).
        + apply Hok. lia.
        + apply Hat. lia.
      - exfalso. apply (Hlow j'); [lia|]. apply Hfree. lia. }
    subst j'. split; [|reflexivity].
    pose proof (vc_size_lo _ _ _ Hcfg) as Hszlo.
    pose proof (vc_size_mod4 _ _ _ Hcfg) as Hsz4.
    destruct Ha as (Ha1 & Ha2 & Ha3).
    constructor; unfold s'; cbn; try assumption; try lia; try reflexivity.
    + unfold slot_addr. lia.
    + unfold slot_addr, slots_per_page in *. zlia.
    + unfold slot_addr. replace (a + 8 + 4 * j - a) with (4 * (2 + j)) by lia.
      rewrite Z.mul_comm. apply Z.mod_mul. lia.
    + intros i Hi0 Hi. apply Hok. unfold slot_addr in Hi. lia.
    + intros i Hi HiN. apply Hfree. unfold slot_addr in Hi. lia.
Qed.

(** Exactly one page is marked active, but the page before it is marked
    used with a counter that is not one less: the active page is erased and
    activated again, with the counter after that of the used page. *)
Lemma init_one_active_discard s ulStart ulEnd ulSize a :
  valid_config ulStart ulEnd ulSize ->
  ulEnd <= ulFlashSize s ->
  In a (region_pages ulStart ulEnd ulSize) ->
  (forall p, In p (region_pages ulStart ulEnd ulSize) ->
             is_active (flash s) p = (p =? a)) ->
  is_used (flash s) (page_before ulStart ulEnd ulSize a) = true ->
  flash s (page_before ulStart ulEnd ulSize a) <> u32 (flash s a - 1) ->
  0 <= flash s (page_before ulStart ulEnd ulSize a) < ERASED_WORD - 1 ->
  exists s' n,
    SoftEEPROMInit ulStart ulEnd ulSize s = Some (0, s') /\
    wf s' /\ one_active s' /\
    g_pucActivePage s' = a /\
    flash s' a = flash s (page_before ulStart ulEnd ulSize a) + 1 /\
    (0 < n)%nat /\ active_trace s s' = 1%nat :: replicate n 0%nat.
Proof.
  intros Hcfg Hfl Hin H1 Hused Hmis Hrange.
  destruct (init_one_active_head s ulStart ulEnd ulSize a Hcfg Hin H1)
    as (Ha & Hq & Hqa & Ha0 & Hq0 & Hhead).
  set (r := set_region ulStart ulEnd ulSize s) in *.
  set (q := page_before ulStart ulEnd ulSize a) in *.
  pose proof (vc_size_lo _ _ _ Hcfg) as Hszlo.
  assert (Hc : u32 (flash s q + 1) = flash s q + 1).
  { apply u32_small. unfold ERASED_WORD in Hrange.
    change (2 ^ 32) with 4294967296. lia. }
  destruct (erase_activate_spec s ulStart ulEnd ulSize a (flash s q + 1) Hcfg Ha)
    as (t & s1 & n & Herase & Hout & Hrun & Hwf & Hone & Hact & _ & Hcnt & _ & Hn & Htr).
  { unfold ERASED_WORD in *. lia. }
  { intros p Hp Hpa. rewrite (H1 p Hp). apply Z.eqb_neq, Hpa. }
  assert (Hcount : active_count (flash s) (region_pages ulStart ulEnd ulSize) = 1%nat).
  { apply (the_one_active_count _ _ a); [apply region_pages_NoDup, Hcfg|assumption..]. }
  exists (set_initialized true s1), n.
  split; [|split; [exact Hwf|split; [exact Hone|split; [exact Hact|
    split; [exact Hcnt|split; assumption]]]]].
  apply init_recover_done; [assumption..|].
  rewrite (init_recover_count _ _ _ _ Hcfg). cbv zeta. rewrite Hcount.
  change (u8 (Z.of_nat 1) =? 0) with false.
  change (u8 (Z.of_nat 1) =? 1) with true. cbv iota.
  fold r. rewrite Hhead. rewrite Hused.
  destruct (Z.eqb_spec (flash s q) (u32 (flash s a - 1))); [contradiction|].
  unfold bind at 1. fold r in Herase. rewrite Herase. cbn [negb Z.eqb].
  unfold bind at 1. rewrite (load_eq _ _ Hq0).
  rewrite (Hout q).
  - rewrite Hc. apply (Hrun false). reflexivity.
  - pose proof (pages_disjoint _ _ _ Hcfg _ _ Hq Ha Hqa). lia.
Qed.

(** Exactly two pages are marked active: the medium is left alone. *)
Lemma init_two_active_untouched s ulStart ulEnd ulSize :
  valid_config ulStart ulEnd ulSize ->
  ulEnd <= ulFlashSize s ->
  active_count (flash s) (region_pages ulStart ulEnd ulSize) = 2%nat ->
  exists rc s',
    SoftEEPROMInit ulStart ulEnd ulSize s = Some (rc, s') /\
    flash s' = flash s /\ steps_of s s' = [] /\
    active_count (flash s') (pages_of s') = 2%nat /\
    (rc = 0 \/ rc = ERR_TWO_ACTIVE_NO_FULL) /\
    (rc = 0 ->
     In (g_pucActivePage s') (pages_of s') /\
     is_active (flash s') (g_pucActivePage s') = true /\
     is_full ulSize (flash s') (g_pucActivePage s') = true).
Proof.
  intros Hcfg Hfl Hcnt.
  set (r := set_region ulStart ulEnd ulSize s).
  assert (Hcfg1 : valid_config (g_pucEEPROMStart r) (g_pucEEPROMEnd r)
                               (g_ulEEPROMPgSize r)) by exact Hcfg.
  rewrite SoftEEPROMInit_unfold.
  destruct (Z.gtb_spec ulEnd (ulFlashSize s)); [lia|].
  rewrite !land_boundary by (destruct Hcfg; assumption).
  rewrite (init_recover_count _ _ _ _ Hcfg). cbv zeta. rewrite Hcnt.
  change (u8 (Z.of_nat 2) =? 0) with false.
  change (u8 (Z.of_nat 2) =? 1) with false.
  change (u8 (Z.of_nat 2) =? 2) with true. cbv iota.
  fold r. rewrite (init_two_active_eq r Hcfg1).
  change (pages_of r) with (region_pages ulStart ulEnd ulSize).
  change (flash r) with (flash s). change (g_ulEEPROMPgSize r) with ulSize.
  destruct (List.find _ _) as [p|] eqn:Hfind.
  - apply find_some in Hfind as [Hin Hp].
    apply andb_true_iff in Hp as [Hact Hfull].
    eexists _, _. split; [reflexivity|]. cbn.
    split; [reflexivity|]. split; [apply steps_of_nil; reflexivity|].
    split; [exact Hcnt|]. split; [left; reflexivity|]. intros _. auto.
  - eexists _, _. split; [reflexivity|]. cbn.
    split; [reflexivity|]. split; [apply steps_of_nil; reflexivity|].
    split; [exact Hcnt|]. split; [right; reflexivity|]. discriminate.
Qed.

(** The two pages marked active are the ones a reset during a page swap
    leaves: a full page of valid entries and, after it, a page that is not
    full.  The full page is adopted. *)
Lemma init_interrupted_swap s ulStart ulEnd ulSize a :
  valid_config ulStart ulEnd ulSize ->
  ulEnd <= ulFlashSize s ->
  In a (region_pages ulStart ulEnd ulSize) ->
  is_active (flash s) a = true ->
  is_active (flash s) (page_after ulStart ulEnd ulSize a) = true ->
  is_full ulSize (flash s) (page_after ulStart ulEnd ulSize a) = false ->
  (forall p, In p (region_pages ulStart ulEnd ulSize) -> p <> a ->
             p <> page_after ulStart ulEnd ulSize a ->
             is_active (flash s) p = false) ->
  page_filled_to (flash s) a ulSize (slots_per_page ulSize) ->
  exists s',
    SoftEEPROMInit ulStart ulEnd ulSize s = Some (0, s') /\
    flash s' = flash s /\ steps_of s s' = [] /\
    active_count (flash s') (pages_of s') = 2%nat /\
    wf s' /\ no_stray_active s' /\
    g_pucActivePage s' = a /\
    g_pucNextAvailEntry s' = g_pucActivePage s' + g_ulEEPROMPgSize s'.
Proof.
  intros Hcfg Hfl Hin Hact Hact' Hnot Hrest (_ & Hok & _).
  set (r := set_region ulStart ulEnd ulSize s).
  assert (Hcfg1 : valid_config (g_pucEEPROMStart r) (g_pucEEPROMEnd r)
                               (g_ulEEPROMPgSize r)) by exact Hcfg.
  pose proof (vc_size_lo _ _ _ Hcfg) as Hszlo.
  pose proof (vc_size_mod4 _ _ _ Hcfg) as Hsz4.
  pose proof (vc_slots _ _ _ Hcfg) as HN.
  unfold NUM_IDS, MAX_SOFTEEPROM_IDS in HN.
  assert (Ha : is_page ulStart ulEnd ulSize a) by (apply In_region_pages; assumption).
  destruct (next_page_is_page _ _ _ Hcfg _ Ha) as [Hp' Hne].
  fold (page_after ulStart ulEnd ulSize a) in Hp', Hne.
  set (p' := page_after ulStart ulEnd ulSize a) in *.
  assert (Hinp : In p' (region_pages ulStart ulEnd ulSize))
    by (apply In_region_pages; assumption).
  assert (Hnd : List.NoDup (region_pages ulStart ulEnd ulSize))
    by (apply region_pages_NoDup, Hcfg).
  assert (Hcnt : active_count (flash s) (region_pages ulStart ulEnd ulSize) = 2%nat).
  { rewrite (active_count_two _ a p') by auto. rewrite Hact, Hact'. reflexivity. }
  assert (Hfull : is_full ulSize (flash s) a = true).
  { unfold is_full. apply negb_true_iff, Z.eqb_neq.
    replace (a + ulSize - 4) with (slot_addr a (slots_per_page ulSize - 1))
      by (unfold slot_addr, slots_per_page; zlia).
    apply entry_ok_not_erased, Hok. lia. }
  set (s' := set_initialized true (set_next (a + ulSize) (set_active a r))).
  exists s'. split; [|split; [reflexivity|split; [apply steps_of_nil; reflexivity|
    split; [exact Hcnt|split; [|split; [|split; reflexivity]]]]]].
  - apply init_recover_done; [assumption..|].
    rewrite (init_recover_count _ _ _ _ Hcfg). cbv zeta. rewrite Hcnt.
    change (u8 (Z.of_nat 2) =? 0) with false.
    change (u8 (Z.of_nat 2) =? 1) with false.
    change (u8 (Z.of_nat 2) =? 2) with true. cbv iota.
    fold r. rewrite (init_two_active_eq r Hcfg1).
    change (pages_of r) with (region_pages ulStart ulEnd ulSize).
    change (flash r) with (flash s). change (g_ulEEPROMPgSize r) with ulSize.
    rewrite (find_the_one _ _ a); [reflexivity| |exact Hin].
    intros p Hp. destruct (Z.eqb_spec p a) as [->|Hpa].
    + rewrite Hact, Hfull. reflexivity.
    + destruct (Z.eq_dec p p') as [->|Hpp].
      * rewrite Hnot. apply andb_false_r.
      * rewrite (Hrest p Hp Hpa Hpp). reflexivity.
  - destruct Ha as (Ha1 & Ha2 & Ha3).
    constructor; unfold s'; cbn; try assumption; try lia; try reflexivity.
    + replace (a + ulSize - a) with ulSize by lia. exact Hsz4.
    + intros i Hi0 Hi. apply Hok. unfold slot_addr, slots_per_page in *. zlia.
    + intros i Hi HiN. unfold slot_addr, slots_per_page in *. zlia.
  - split; [exact Hact|]. intros p Hp Hpa Hpp. apply Hrest; assumption.
Qed.

(** More than two pages are marked active: SoftEEPROMInit gives up. *)
Lemma init_many_active s ulStart ulEnd ulSize :
  valid_config ulStart ulEnd ulSize ->
  ulEnd <= ulFlashSize s ->
  3 <= Z.of_nat (active_count (flash s) (region_pages ulStart ulEnd ulSize)) mod 256 ->
  SoftEEPROMInit ulStart ulEnd ulSize s
  = Some (ERR_ACTIVE_PG_CNT, set_region ulStart ulEnd ulSize s).
Proof.
  intros Hcfg Hfl Hcnt. rewrite SoftEEPROMInit_unfold.
  destruct (Z.gtb_spec ulEnd (ulFlashSize s)); [lia|].
  rewrite !land_boundary by (destruct Hcfg; assumption).
  rewrite (init_recover_count _ _ _ _ Hcfg). cbv zeta.
  unfold u8. change (2 ^ 8) with 256.
  destruct (Z.eqb_spec (Z.of_nat (active_count (flash s)
              (region_pages ulStart ulEnd ulSize)) mod 256) 0); [lia|].
  destruct (Z.eqb_spec (Z.of_nat (active_count (flash s)
              (region_pages ulStart ulEnd ulSize)) mod 256) 1); [lia|].
  destruct (Z.eqb_spec (Z.of_nat (active_count (flash s)
              (region_pages ulStart ulEnd ulSize)) mod 256) 2); [lia|].
  reflexivity.
Qed.

(** ** The active pages through a write and through a clear *)

Lemma one_active_no_stray s : wf s -> one_active s -> no_stray_active s.
Proof.
  intros Hwf H1.
  assert (Hin : In (g_pucActivePage s) (pages_of s)).
  { apply In_region_pages; [apply Hwf|apply wf_is_page, Hwf]. }
  split.
  - rewrite (H1 _ Hin). apply Z.eqb_refl.
  - intros p Hp Hpa _. rewrite (H1 p Hp). apply Z.eqb_neq, Hpa.
Qed.

Section ActiveTrace.
Variable s : State.
Hypothesis Hwf : wf s.
Hypothesis Hns : no_stray_active s.
Hypothesis Hgen : generation_ok s.

Let a := g_pucActivePage s.
Let p' := following_page s (g_pucActivePage s).
Let sz := g_ulEEPROMPgSize s.

Lemma trace_geometry :
  In a (pages_of s) /\ In p' (pages_of s) /\ p' <> a /\
  List.NoDup (pages_of s) /\ 1024 <= sz /\
  (forall p, In p (pages_of s) -> p <> a -> p <> p' ->
             ~ (p' <= p < p' + sz) /\ ~ (p' <= p + 4 < p' + sz) /\
             p <> a + 4 /\ p + 4 <> a + 4) /\
  (a + sz <= p' \/ p' + sz <= a) /\
  flash s a <> ERASED_WORD /\ flash s (a + 4) = ERASED_WORD /\
  u32 (flash s a + 1) <> ERASED_WORD.
Proof.
  unfold a, p', sz.
  pose proof (wf_config s Hwf) as Hcfg.
  pose proof (wf_is_page s Hwf) as Ha.
  pose proof (vc_size_lo _ _ _ Hcfg) as Hszlo.
  destruct (next_page_is_page _ _ _ Hcfg _ Ha) as [Hp' Hne].
  fold (following_page s (g_pucActivePage s)) in Hp', Hne.
  pose proof (pages_disjoint _ _ _ Hcfg _ _ Ha Hp' (not_eq_sym Hne)) as Hdisj.
  split; [apply In_region_pages; assumption|].
  split; [apply In_region_pages; assumption|].
  split; [exact Hne|].
  split; [apply region_pages_NoDup, Hcfg|].
  split; [exact Hszlo|].
  split; [|split; [exact Hdisj|]].
  - intros p Hp Hpa Hpp. apply In_region_pages in Hp; [|exact Hcfg].
    pose proof (pages_disjoint _ _ _ Hcfg _ _ Hp Hp' Hpp).
    pose proof (pages_disjoint _ _ _ Hcfg _ _ Hp Ha Hpa).
    repeat split; lia.
  - destruct Hns as [Hact _].
    unfold is_active in Hact. apply andb_true_iff in Hact as [Hact0 Hact4].
    apply negb_true_iff, Z.eqb_neq in Hact0. apply Z.eqb_eq in Hact4.
    split; [exact Hact0|]. split; [exact Hact4|].
    unfold generation_ok, ERASED_WORD in *.
    rewrite u32_small by (change (2 ^ 32) with 4294967296; lia). lia.
Qed.

(** A medium that differs from the engine's only in the page after the
    active page and in the second status word of the active page has no
    active page besides these two. *)
Lemma frame_count (m : mem) :
  (forall x, ~ (p' <= x < p' + sz) -> x <> a + 4 -> m x = flash s x) ->
  active_count m (pages_of s)
  = (Nat.b2n (is_active m a) + Nat.b2n (is_active m p'))%nat /\
  (is_active m a = false -> is_active m p' = true ->
   forall p, In p (pages_of s) -> is_active m p = (p =? p')).
Proof.
  destruct trace_geometry
    as (Hina & Hinp & Hne & Hnd & Hsz & Hother & Hdisj & Hg & Hb & Hnew).
  intros Hframe.
  assert (Hrest : forall p, In p (pages_of s) -> p <> a -> p <> p' ->
                            is_active m p = false).
  { intros p Hp Hpa Hpp. destruct (Hother p Hp Hpa Hpp) as (Ho1 & Ho2 & Ho3 & Ho4).
    rewrite (is_active_same m (flash s)) by (apply Hframe; assumption).
    destruct Hns as [_ Hstray]. apply Hstray; assumption. }
  split.
  - apply active_count_two; auto.
  - intros Hfa Hfp p Hp.
    destruct (Z.eqb_spec p p') as [->|Hpp]; [exact Hfp|].
    destruct (Z.eq_dec p a) as [->|Hpa]; [exact Hfa|].
    apply Hrest; assumption.
Qed.

Lemma current_count :
  active_count (flash s) (pages_of s)
  = (1 + Nat.b2n (is_active (flash s) p'))%nat.
Proof.
  destruct (frame_count (flash s)) as [Hc _]; [reflexivity|].
  rewrite Hc. destruct Hns as [Hact _]. fold a in Hact. rewrite Hact. reflexivity.
Qed.

Lemma swap_count_erased m :
  swap_step_ok (flash s) a p' sz m ->
  m p' = ERASED_WORD -> m (a + 4) = flash s (a + 4) ->
  active_count m (pages_of s) = 1%nat.
Proof.
  destruct trace_geometry
    as (Hina & Hinp & Hne & Hnd & Hsz & Hother & Hdisj & Hg & Hb & Hnew).
  intros (Hframe & Hp4 & Hma & _) Hp0 Ha4.
  destruct (frame_count m Hframe) as [Hc _]. rewrite Hc.
  unfold is_active. rewrite Hma, Ha4, Hb, Hp0, !Z.eqb_refl.
  destruct (Z.eqb_spec (flash s a) ERASED_WORD); [contradiction|reflexivity].
Qed.

Lemma swap_count_both m :
  swap_step_ok (flash s) a p' sz m ->
  m p' = u32 (flash s a + 1) -> m (a + 4) = flash s (a + 4) ->
  active_count m (pages_of s) = 2%nat.
Proof.
  destruct trace_geometry
    as (Hina & Hinp & Hne & Hnd & Hsz & Hother & Hdisj & Hg & Hb & Hnew).
  intros (Hframe & Hp4 & Hma & _) Hp0 Ha4.
  destruct (frame_count m Hframe) as [Hc _]. rewrite Hc.
  unfold is_active. rewrite Hma, Ha4, Hb, Hp0, Hp4, !Z.eqb_refl.
  destruct (Z.eqb_spec (flash s a) ERASED_WORD); [contradiction|].
  destruct (Z.eqb_spec (u32 (flash s a + 1)) ERASED_WORD); [contradiction|].
  reflexivity.
Qed.

Lemma swap_count_done m :
  swap_step_ok (flash s) a p' sz m ->
  m p' = u32 (flash s a + 1) -> m (a + 4) = 0 ->
  active_count m (pages_of s) = 1%nat /\
  forall p, In p (pages_of s) -> is_active m p = (p =? p').
Proof.
  destruct trace_geometry
    as (Hina & Hinp & Hne & Hnd & Hsz & Hother & Hdisj & Hg & Hb & Hnew).
  intros (Hframe & Hp4 & Hma & _) Hp0 Ha4.
  destruct (frame_count m Hframe) as [Hc Hall].
  assert (Hfa : is_active m a = false).
  { unfold is_active. rewrite Ha4. apply andb_false_r. }
  assert (Hfp : is_active m p' = true).
  { unfold is_active. rewrite Hp0, Hp4, Z.eqb_refl.
    destruct (Z.eqb_spec (u32 (flash s a + 1)) ERASED_WORD); [contradiction|].
    reflexivity. }
  split; [|exact (Hall Hfa Hfp)].
  rewrite Hc, Hfa, Hfp. reflexivity.
Qed.

Lemma clear_count_first :
  S (active_count (store (flash s) (a + 4) 0) (pages_of s))
  = active_count (flash s) (pages_of s).
Proof.
  destruct trace_geometry
    as (Hina & Hinp & Hne & Hnd & Hsz & Hother & Hdisj & Hg & Hb & Hnew).
  destruct (frame_count (store (flash s) (a + 4) 0)) as [Hc _].
  { intros x _ Hx. apply store_ne. exact Hx. }
  rewrite Hc, current_count.
  assert (Hfa : is_active (store (flash s) (a + 4) 0) a = false).
  { unfold is_active. rewrite store_eq. apply andb_false_r. }
  rewrite Hfa.
  rewrite (is_active_same (store (flash s) (a + 4) 0) (flash s) p')
    by (apply store_ne; lia).
  reflexivity.
Qed.

Lemma clear_count_erased m :
  clear_step_ok (flash s) a p' sz m -> m p' = ERASED_WORD ->
  active_count m (pages_of s) = 0%nat.
Proof.
  intros (Hframe & Ha4 & _) Hp0.
  destruct (frame_count m Hframe) as [Hc _]. rewrite Hc.
  unfold is_active. rewrite Ha4, Hp0, Z.eqb_refl, andb_false_r. reflexivity.
Qed.

Lemma clear_count_done m :
  clear_step_ok (flash s) a p' sz m ->
  m p' = u32 (flash s a + 1) -> m (p' + 4) = ERASED_WORD ->
  active_count m (pages_of s) = 1%nat /\
  forall p, In p (pages_of s) -> is_active m p = (p =? p').
Proof.
  destruct trace_geometry
    as (Hina & Hinp & Hne & Hnd & Hsz & Hother & Hdisj & Hg & Hb & Hnew).
  intros (Hframe & Ha4 & _) Hp0 Hp4.
  destruct (frame_count m Hframe) as [Hc Hall].
  assert (Hfa : is_active m a = false).
  { unfold is_active. rewrite Ha4. apply andb_false_r. }
  assert (Hfp : is_active m p' = true).
  { unfold is_active. rewrite Hp0, Hp4, Z.eqb_refl.
    destruct (Z.eqb_spec (u32 (flash s a + 1)) ERASED_WORD); [contradiction|].
    reflexivity. }
  split; [|exact (Hall Hfa Hfp)].
  rewrite Hc, Hfa, Hfp. reflexivity.
Qed.

(** A write with a valid key and value: when the active page has room the
    entry is appended and no page changes its status; when it is full the
    page after it is erased, filled, marked active, and only then is the
    full page marked used. *)
Lemma write_trace k v :
  0 <= k < NUM_IDS -> 0 <= v < 2 ^ 16 ->
  exists s',
    SoftEEPROMWrite k v s = Some (0, s') /\
    wf s' /\ no_stray_active s' /\
    (g_pucNextAvailEntry s < g_pucActivePage s + g_ulEEPROMPgSize s ->
     g_pucActivePage s' = g_pucActivePage s /\
     (forall p, In p (pages_of s) ->
                is_active (flash s') p = is_active (flash s) p) /\
     active_trace s s' = [active_count (flash s) (pages_of s)]) /\
    (g_pucActivePage s + g_ulEEPROMPgSize s <= g_pucNextAvailEntry s ->
     g_pucActivePage s' = following_page s (g_pucActivePage s) /\
     one_active s' /\
     exists n, (0 < n)%nat /\
       active_trace s s' = 1%nat :: 1%nat :: 2%nat :: replicate n 1%nat).
Proof.
  intros Hk Hv.
  pose proof (wf_config s Hwf) as Hcfg.
  destruct trace_geometry
    as (Hina & Hinp & Hne & Hnd & Hsz & Hother & Hdisj & Hg & Hb & Hnew).
  destruct (Z.lt_ge_cases (g_pucNextAvailEntry s)
                          (g_pucActivePage s + g_ulEEPROMPgSize s)) as [Hroom|Hfull].
  - exists (appended k v s).
    split; [apply SoftEEPROMWrite_append; assumption|].
    split; [apply wf_appended; assumption|].
    set (m' := store (flash s) (g_pucNextAvailEntry s) (encode k v)).
    assert (Hsame : forall p, In p (pages_of s) -> is_active m' p = is_active (flash s) p).
    { intros p Hp. pose proof (wf_next_lo s Hwf).
      assert (Hpp : is_page (g_pucEEPROMStart s) (g_pucEEPROMEnd s)
                            (g_ulEEPROMPgSize s) p) by (apply In_region_pages; assumption).
      apply is_active_same; unfold m'; apply store_ne.
      - destruct (Z.eq_dec p (g_pucActivePage s)) as [->|Hpa]; [lia|].
        pose proof (pages_disjoint _ _ _ Hcfg _ _ Hpp (wf_is_page s Hwf) Hpa). lia.
      - destruct (Z.eq_dec p (g_pucActivePage s)) as [->|Hpa]; [lia|].
        pose proof (pages_disjoint _ _ _ Hcfg _ _ Hpp (wf_is_page s Hwf) Hpa). lia. }
    split; [|split; [|intros; lia]].
    + destruct Hns as [Hact Hstray]. split.
      * change (is_active m' a = true). rewrite (Hsame a Hina). exact Hact.
      * intros p Hp Hpa Hpp. change (is_active m' p = false).
        change (pages_of (appended k v s)) with (pages_of s) in Hp.
        rewrite (Hsame p Hp). apply Hstray; assumption.
    + intros _. split; [reflexivity|]. split; [exact Hsame|].
      rewrite (active_trace_app s (appended k v s) [m']) by reflexivity.
      change (pages_of (appended k v s)) with (pages_of s).
      cbn [fmap list_fmap]. f_equal.
      unfold active_count. apply filter_length_ext, Hsame.
  - destruct (PageSwap_full s Hwf Hfull)
      as (m' & l & Hrun & Hwf2 & Hroom & _ & _ & _ & Hok & Hp & Ha4 & Hl & _).
    destruct (PageSwap_full_trace s Hwf Hfull)
      as (m1 & m4 & l0 & Hrun1 & Hm4 & Hm4a & Hl0ne & Hl0).
    assert (El : l = m1 :: m4 :: l0).
    { rewrite Hrun in Hrun1.
      assert (E : hist (swapped m' l s) = hist (swapped m1 (m1 :: m4 :: l0) s))
        by congruence.
      cbn in E. apply (app_inv_tail (hist s)). exact E. }
    assert (Em : m' = m1).
    { rewrite Hrun in Hrun1.
      assert (E : flash (swapped m' l s) = flash (swapped m1 (m1 :: m4 :: l0) s))
        by congruence.
      exact E. }
    subst m1. subst l.
    set (t := swapped m' (m' :: m4 :: l0) s) in *.
    exists (appended k v t).
    split; [apply SoftEEPROMWrite_full; assumption|].
    assert (Hwf3 : wf (appended k v t)) by (apply wf_appended; assumption).
    split; [exact Hwf3|].
    set (nx := g_pucNextAvailEntry t) in *.
    set (m'' := store m' nx (encode k v)).
    assert (Hnx : p' + 8 <= nx < p' + sz).
    { pose proof (wf_next_lo _ Hwf2) as Hlo. split; [exact Hlo|exact Hroom]. }
    assert (Hok'' : swap_step_ok (flash s) a p' sz m'').
    { destruct Hok as (Hframe & Hp4 & Hma & _). split; [|split; [|split]].
      - intros x Hx Hx'. unfold m''. rewrite store_ne by lia. apply Hframe; assumption.
      - unfold m''. rewrite store_ne by lia. exact Hp4.
      - unfold m''. rewrite store_ne by lia. exact Hma.
      - right. unfold m''. rewrite !store_ne by lia. auto. }
    destruct (swap_count_done m'' Hok'') as [Hc'' Hall''].
    { unfold m''. rewrite store_ne by lia. exact Hp. }
    { unfold m''. rewrite store_ne by lia. exact Ha4. }
    assert (H1' : one_active (appended k v t)) by exact Hall''.
    split; [apply one_active_no_stray; assumption|].
    split; [intros; lia|]. intros _.
    split; [reflexivity|]. split; [exact H1'|].
    exists (length l0). split; [destruct l0; [contradiction|simpl; lia]|].
    rewrite (active_trace_app s (appended k v t) (m'' :: m' :: m4 :: l0))
      by reflexivity.
    change (pages_of (appended k v t)) with (pages_of s).
    apply Forall_cons in Hl as [_ Hl]. apply Forall_cons in Hl as [Hok4 Hl].
    cbn [fmap list_fmap]. rewrite Hc''.
    rewrite (proj1 (swap_count_done m' Hok Hp Ha4)).
    rewrite (swap_count_both m4 Hok4 Hm4 Hm4a).
    do 3 f_equal. apply fmap_const_replicate.
    rewrite Forall_forall in Hl, Hl0. apply Forall_forall. intros m Hm.
    destruct (Hl0 m Hm) as [Hm0 Hma].
    apply swap_count_erased; [apply Hl, Hm|exact Hm0|exact Hma].
Qed.

(** SoftEEPROMClear marks the active page used first, then erases the page
    after it, and marks that page active last. *)
Lemma clear_trace :
  exists s' n,
    SoftEEPROMClear s = Some (0, s') /\
    wf s' /\ one_active s' /\
    g_pucActivePage s' = following_page s (g_pucActivePage s) /\
    (0 < n)%nat /\
    active_trace s s'
    = 1%nat :: replicate n 0%nat
        ++ [(active_count (flash s) (pages_of s) - 1)%nat].
Proof.
  destruct (SoftEEPROMClear_trace s Hwf)
    as (m' & l & Hrun & Hwf' & _ & Hl & _ & Hp & Hp4 & _ & l2 & Hshape & Hne & Hl2).
  subst l. apply Forall_cons in Hl as [Hok' Hl].
  apply Forall_app in Hl as [Hl _].
  exists (cleared m' (m' :: l2 ++ [store (flash s) (g_pucActivePage s + 4) 0]) s),
         (length l2).
  split; [exact Hrun|]. split; [exact Hwf'|].
  destruct (clear_count_done m' Hok' Hp Hp4) as [Hc' Hall'].
  split; [exact Hall'|]. split; [reflexivity|].
  split; [destruct l2; [contradiction|simpl; lia]|].
  rewrite (active_trace_app s _
             (m' :: l2 ++ [store (flash s) (g_pucActivePage s + 4) 0]))
    by reflexivity.
  change (pages_of (cleared _ _ s)) with (pages_of s).
  cbn [fmap list_fmap]. rewrite Hc'. f_equal.
  rewrite fmap_app. cbn [fmap list_fmap]. f_equal.
  - apply fmap_const_replicate.
    rewrite Forall_forall in Hl, Hl2. apply Forall_forall. intros m Hm.
    apply clear_count_erased; [apply Hl, Hm|apply Hl2, Hm].
  - f_equal. pose proof clear_count_first as Hf. fold a. lia.
Qed.

End ActiveTrace.

(** ** The example device *)

Lemma valid_configb_spec st en sz :
  valid_configb st en sz = true -> valid_config st en sz.
Proof.
  unfold valid_configb. rewrite !andb_true_iff.
  intros (((((((((H1 & H2) & H3) & H4) & H5) & H6) & H7) & H8) & H9) & H10).
  constructor; lia.
Qed.

Lemma example_config :
  valid_config EEPROM_START_ADDR EEPROM_END_ADDR EEPROM_PAGE_SIZE.
Proof. apply valid_configb_spec. reflexivity. Qed.

Lemma ushort_argsb_spec ws :
  forallb ushort_argsb ws = true -> Forall ushort_args ws.
Proof.
  intros H. apply Forall_forall. intros kv Hin. apply list_elem_of_In in Hin.
  rewrite forallb_forall in H. specialize (H kv Hin).
  unfold ushort_argsb in H. rewrite !andb_true_iff in H.
  unfold ushort_args. lia.
Qed.

Lemma booted_facts :
  boot blank = Some (0, booted) /\ wf booted /\ one_active booted /\
  generation_ok booted /\
  g_pucNextAvailEntry booted = g_pucActivePage booted + 8.
Proof.
  destruct (init_fresh_spec (power_on blank) EEPROM_START_ADDR EEPROM_END_ADDR
                            EEPROM_PAGE_SIZE example_config)
    as (s' & Hrun & Hwf & H1 & Ha & Hn & Hg & _);
    [vm_compute; discriminate|reflexivity|reflexivity|].
  assert (E : booted = s') by (unfold booted, boot; rewrite Hrun; reflexivity).
  rewrite E. split; [exact Hrun|]. split; [exact Hwf|]. split; [exact H1|].
  split; [unfold generation_ok; rewrite Hg; vm_compute; split; congruence|].
  rewrite Hn, Ha. reflexivity.
Qed.

Lemma filled_facts :
  write_all fill_run booted = Some filled /\ wf filled /\
  g_pucActivePage filled + g_ulEEPROMPgSize filled <= g_pucNextAvailEntry filled.
Proof.
  destruct booted_facts as (_ & Hwf & _).
  assert (Hty : Forall ushort_args fill_run) by (apply ushort_argsb_spec; reflexivity).
  assert (Hkeys : Forall valid_key fill_run).
  { apply Forall_forall. intros kv Hin. apply list_elem_of_In in Hin.
    unfold fill_run in Hin. apply in_map_iff in Hin as (i & <- & _).
    unfold valid_key, NUM_IDS, MAX_SOFTEEPROM_IDS. simpl. zlia. }
  destruct (write_all_succeeds fill_run booted Hwf Hty Hkeys) as (s' & Hrun).
  assert (E : filled = s') by (unfold filled; rewrite Hrun; reflexivity).
  rewrite E. split; [exact Hrun|].
  split; [apply (write_all_view fill_run booted s' Hwf Hty Hrun)|].
  rewrite <- E. vm_compute. discriminate.
Qed.

Lemma page_filled_to_full (m : mem) p sz :
  0 <= slots_per_page sz ->
  forallb (fun i => entry_okb (m (slot_addr p i))) (seqZ 0 (slots_per_page sz))
  = true ->
  page_filled_to m p sz (slots_per_page sz).
Proof.
  intros HN Hall. split; [lia|]. split; [|intros; lia].
  intros i Hi. rewrite forallb_forall in Hall.
  apply entry_okb_spec, Hall, list_elem_of_In, elem_of_seqZ. lia.
Qed.

Lemma example_pages :
  region_pages EEPROM_START_ADDR EEPROM_END_ADDR EEPROM_PAGE_SIZE
  = [0x3D000; 0x3D400; 0x3D800; 0x3DC00].
Proof. vm_compute. reflexivity. Qed.

Lemma filled_one_active : one_active filled /\ generation_ok filled.
Proof.
  split.
  - intros p Hp.
    assert (Hpages : pages_of filled = [0x3D000; 0x3D400; 0x3D800; 0x3DC00])
      by (vm_compute; reflexivity).
    rewrite Hpages in Hp. cbn [In] in Hp.
    destruct Hp as [<-|[<-|[<-|[<-|[]]]]]; vm_compute; reflexivity.
  - unfold generation_ok. vm_compute. split; [discriminate|reflexivity].
Qed.

Ltac page_cases H :=
  rewrite example_pages in H; cbn [In] in H;
  destruct H as [<-|[<-|[<-|[<-|[]]]]].

(* ===================================================================== *)
(** * The claims of the specification *)

(** C1 is [write_read_roundtrip] above; here it is applied to a run
    of four writes on the freshly initialized example device. *)
Lemma write_read_roundtrip_witness :
  wf booted /\ Forall ushort_args [(5, 1); (6, 9); (5, 2); (5, 3)] /\
  exists s',
    write_all [(5, 1); (6, 9); (5, 2); (5, 3)] booted = Some s' /\
    SoftEEPROMRead 5 s' = Some ((0, Some (3, true)), s') /\
    SoftEEPROMRead 6 s' = Some ((0, Some (9, true)), s') /\
    SoftEEPROMRead 7 s' = Some ((0, Some (0xFFFF, false)), s').
Proof.
  destruct booted_facts as (_ & Hwf & _ & _ & Hempty).
  assert (Hty : Forall ushort_args [(5, 1); (6, 9); (5, 2); (5, 3)]).
  { apply ushort_argsb_spec. reflexivity. }
  split; [exact Hwf|]. split; [exact Hty|].
  destruct (write_read_roundtrip booted [(5, 1); (6, 9); (5, 2); (5, 3)] Hwf Hty)
    as [Hsucc Hread].
  destruct Hsucc as (s' & Hrun).
  { repeat constructor; unfold valid_key, NUM_IDS, MAX_SOFTEEPROM_IDS; simpl; lia. }
  exists s'. split; [exact Hrun|].
  assert (H127 : forall k, 0 <= k < 127 -> 0 <= k < NUM_IDS) by (intros k Hk; exact Hk).
  destruct (Hread s' 5 Hrun (H127 5 ltac:(lia))) as (H5 & _).
  destruct (Hread s' 6 Hrun (H127 6 ltac:(lia))) as (H6 & _).
  destruct (Hread s' 7 Hrun (H127 7 ltac:(lia))) as (H7 & _ & H7e).
  split; [exact H5|]. split; [exact H6|].
  rewrite H7. simpl last_written. rewrite (H7e Hempty). reflexivity.
Defined.

(** C2, refuted as stated: SoftEEPROMClear marks the active page used
    before it erases and activates the next page, so the medium has no
    active page in between. *)
Lemma clear_has_no_active_page : ~ always_an_active_page.
Proof.
  intros Hclaim.
  destruct booted_facts as (_ & Hwf & H1 & Hgen & _).
  destruct (clear_actives booted Hwf H1 Hgen) as (s' & Hrun & _ & _ & _ & _ & Hex).
  specialize (Hclaim booted s' Hwf H1 Hgen Hrun).
  unfold actives_between in Hclaim. rewrite Forall_forall in Hclaim.
  apply Exists_exists in Hex as (m & Hm & Hzero).
  specialize (Hclaim m Hm). lia.
Qed.

(** C2, amended.  The number of pages marked active in every medium that
    SoftEEPROMInit, SoftEEPROMWrite and SoftEEPROMClear go through, most
    recent medium first ([active_trace]).

    SoftEEPROMInit, for arguments that pass its ASSERTs and a region
    inside the flash, by what it finds on the medium:
    - no page marked active and none marked used (here and below, used
      pages as GetUsedPageCount counts them, modulo 256): the first page
      is erased and activated; no page is active until the last step,
      which leaves one;
    - no page marked active, some marked used (a reset during
      SoftEEPROMClear), the largest counter of a used page above 0 and all
      of them below 0xFFFFFFFE: the same, for the page after the used page
      with the largest counter;
    - exactly one page marked active, and the page before it not marked
      used or with a counter one less: the medium is left as it is, with
      its one active page, which is adopted; the engine's invariant holds
      afterwards when the page holds valid entries up to its first erased
      slot and erased slots from there on;
    - exactly one page marked active, and the page before it marked used
      with another counter below 0xFFFFFFFE: the active page is erased and
      activated again; no page is active until the last step;
    - exactly two pages marked active: the medium is left as it is, with
      two active pages, and the result is 0, with a full active page
      adopted, or ERR_TWO_ACTIVE_NO_FULL;
    - the two active pages a reset during a page swap leaves (a page full
      of valid entries and, after it, a page that is not full): the full
      page is adopted, and the engine's invariant holds, with no active
      page besides this one and the page after it;
    - three or more pages marked active (counted modulo 256): the result
      is ERR_ACTIVE_PG_CNT and the medium is left as it is.

    SoftEEPROMWrite with a key below 127 and a 16-bit value, and
    SoftEEPROMClear, from a state that satisfies the engine's invariant
    [wf], in which the active page is marked active and no page besides it
    and the page after it is ([no_stray_active]; one or two active pages),
    and in which the counter of the active page is below 0xFFFFFFFE:
    - a write to a page with room is one step that changes the status of
      no page;
    - a write to a full page goes through media with one active page
      while the page after is erased and filled, then one medium with two
      (the new page is marked active), then one with one (the full page is
      marked used), and ends with one, the new page;
    - a clear first marks the active page used, which leaves one active
      page less (none, if there was one), then goes through media with no
      active page while the page after is erased, and ends with one active
      page, the page after.
    A state with exactly the engine's page marked active is such a state,
    with one active page.

    Not covered: a medium with no active page on which every used page
    has counter 0 (C5), counters of 0xFFFFFFFE and above, page counts that
    wrap the unsigned char counter of the counting loops, and states that
    violate the engine's invariant (C4, C10). *)
Theorem active_page_invariant :
  (forall s ulStart ulEnd ulSize,
      valid_config ulStart ulEnd ulSize -> ulEnd <= ulFlashSize s ->
      active_count (flash s) (region_pages ulStart ulEnd ulSize) = 0%nat ->
      Z.of_nat (used_count (flash s) (region_pages ulStart ulEnd ulSize))
        mod 256 = 0 ->
      exists s' n,
        SoftEEPROMInit ulStart ulEnd ulSize s = Some (0, s') /\
        wf s' /\ one_active s' /\ g_pucActivePage s' = ulStart /\
        (0 < n)%nat /\ active_trace s s' = 1%nat :: replicate n 0%nat) /\
  (forall s ulStart ulEnd ulSize,
      valid_config ulStart ulEnd ulSize -> ulEnd <= ulFlashSize s ->
      active_count (flash s) (region_pages ulStart ulEnd ulSize) = 0%nat ->
      Z.of_nat (used_count (flash s) (region_pages ulStart ulEnd ulSize))
        mod 256 <> 0 ->
      (exists p, In p (region_pages ulStart ulEnd ulSize) /\
                 is_used (flash s) p = true /\ 0 < flash s p) ->
      (forall p, In p (region_pages ulStart ulEnd ulSize) ->
                 is_used (flash s) p = true -> flash s p < ERASED_WORD - 1) ->
      exists r s' n,
        In r (region_pages ulStart ulEnd ulSize) /\
        is_used (flash s) r = true /\
        (forall p, In p (region_pages ulStart ulEnd ulSize) ->
                   is_used (flash s) p = true -> flash s p <= flash s r) /\
        SoftEEPROMInit ulStart ulEnd ulSize s = Some (0, s') /\
        wf s' /\ one_active s' /\
        g_pucActivePage s' = page_after ulStart ulEnd ulSize r /\
        (0 < n)%nat /\ active_trace s s' = 1%nat :: replicate n 0%nat) /\
  (forall s ulStart ulEnd ulSize a,
      valid_config ulStart ulEnd ulSize -> ulEnd <= ulFlashSize s ->
      In a (region_pages ulStart ulEnd ulSize) ->
      (forall p, In p (region_pages ulStart ulEnd ulSize) ->
                 is_active (flash s) p = (p =? a)) ->
      (is_used (flash s) (page_before ulStart ulEnd ulSize a) = true ->
       flash s (page_before ulStart ulEnd ulSize a) = u32 (flash s a - 1)) ->
      exists s',
        SoftEEPROMInit ulStart ulEnd ulSize s = Some (0, s') /\
        flash s' = flash s /\ steps_of s s' = [] /\
        g_pucActivePage s' = a /\ one_active s' /\
        active_count (flash s') (pages_of s') = 1%nat /\
        forall j, page_filled_to (flash s) a ulSize j ->
                  wf s' /\ g_pucNextAvailEntry s' = slot_addr a j) /\
  (forall s ulStart ulEnd ulSize a,
      valid_config ulStart ulEnd ulSize -> ulEnd <= ulFlashSize s ->
      In a (region_pages ulStart ulEnd ulSize) ->
      (forall p, In p (region_pages ulStart ulEnd ulSize) ->
                 is_active (flash s) p = (p =? a)) ->
      is_used (flash s) (page_before ulStart ulEnd ulSize a) = true ->
      flash s (page_before ulStart ulEnd ulSize a) <> u32 (flash s a - 1) ->
      0 <= flash s (page_before ulStart ulEnd ulSize a) < ERASED_WORD - 1 ->
      exists s' n,
        SoftEEPROMInit ulStart ulEnd ulSize s = Some (0, s') /\
        wf s' /\ one_active s' /\ g_pucActivePage s' = a /\
        (0 < n)%nat /\ active_trace s s' = 1%nat :: replicate n 0%nat) /\
  (forall s ulStart ulEnd ulSize,
      valid_config ulStart ulEnd ulSize -> ulEnd <= ulFlashSize s ->
      active_count (flash s) (region_pages ulStart ulEnd ulSize) = 2%nat ->
      exists rc s',
        SoftEEPROMInit ulStart ulEnd ulSize s = Some (rc, s') /\
        flash s' = flash s /\ steps_of s s' = [] /\
        active_count (flash s') (pages_of s') = 2%nat /\
        (rc = 0 \/ rc = ERR_TWO_ACTIVE_NO_FULL) /\
        (rc = 0 ->
         In (g_pucActivePage s') (pages_of s') /\
         is_active (flash s') (g_pucActivePage s') = true /\
         is_full ulSize (flash s') (g_pucActivePage s') = true)) /\
  (forall s ulStart ulEnd ulSize a,
      valid_config ulStart ulEnd ulSize -> ulEnd <= ulFlashSize s ->
      In a (region_pages ulStart ulEnd ulSize) ->
      is_active (flash s) a = true ->
      is_active (flash s) (page_after ulStart ulEnd ulSize a) = true ->
      is_full ulSize (flash s) (page_after ulStart ulEnd ulSize a) = false ->
      (forall p, In p (region_pages ulStart ulEnd ulSize) -> p <> a ->
                 p <> page_after ulStart ulEnd ulSize a ->
                 is_active (flash s) p = false) ->
      page_filled_to (flash s) a ulSize (slots_per_page ulSize) ->
      exists s',
        SoftEEPROMInit ulStart ulEnd ulSize s = Some (0, s') /\
        flash s' = flash s /\ steps_of s s' = [] /\
        active_count (flash s') (pages_of s') = 2%nat /\
        wf s' /\ no_stray_active s' /\
        g_pucActivePage s' = a /\
        g_pucNextAvailEntry s' = g_pucActivePage s' + g_ulEEPROMPgSize s') /\
  (forall s ulStart ulEnd ulSize,
      valid_config ulStart ulEnd ulSize -> ulEnd <= ulFlashSize s ->
      3 <= Z.of_nat (active_count (flash s) (region_pages ulStart ulEnd ulSize))
           mod 256 ->
      SoftEEPROMInit ulStart ulEnd ulSize s
      = Some (ERR_ACTIVE_PG_CNT, set_region ulStart ulEnd ulSize s)) /\
  (forall s k v,
      wf s -> no_stray_active s -> generation_ok s ->
      0 <= k < NUM_IDS -> 0 <= v < 2 ^ 16 ->
      (1 <= active_count (flash s) (pages_of s) <= 2)%nat /\
      exists s',
        SoftEEPROMWrite k v s = Some (0, s') /\
        wf s' /\ no_stray_active s' /\
        (g_pucNextAvailEntry s < g_pucActivePage s + g_ulEEPROMPgSize s ->
         g_pucActivePage s' = g_pucActivePage s /\
         (forall p, In p (pages_of s) ->
                    is_active (flash s') p = is_active (flash s) p) /\
         active_trace s s' = [active_count (flash s) (pages_of s)]) /\
        (g_pucActivePage s + g_ulEEPROMPgSize s <= g_pucNextAvailEntry s ->
         g_pucActivePage s' = following_page s (g_pucActivePage s) /\
         one_active s' /\
         exists n, (0 < n)%nat /\
           active_trace s s'
           = 1%nat :: 1%nat :: 2%nat :: replicate n 1%nat)) /\
  (forall s,
      wf s -> no_stray_active s -> generation_ok s ->
      exists s' n,
        SoftEEPROMClear s = Some (0, s') /\
        wf s' /\ one_active s' /\
        g_pucActivePage s' = following_page s (g_pucActivePage s) /\
        (0 < n)%nat /\
        active_trace s s'
        = 1%nat :: replicate n 0%nat
            ++ [(active_count (flash s) (pages_of s) - 1)%nat]) /\
  (forall s,
      wf s -> one_active s ->
      no_stray_active s /\ active_count (flash s) (pages_of s) = 1%nat).
Proof.
  repeat apply conj.
  - intros s ulStart ulEnd ulSize Hcfg Hfl Hact Hused.
    destruct (init_fresh_trace s ulStart ulEnd ulSize Hcfg Hfl Hact Hused)
      as (s' & n & Hrun & Hwf & H1 & Ha & _ & Hn & Htr).
    exists s', n. auto 10.
  - intros s ulStart ulEnd ulSize Hcfg Hfl Hact Hused Hpos Hhi.
    destruct (init_after_clear_trace s ulStart ulEnd ulSize Hcfg Hfl Hact Hused
                                     Hpos Hhi)
      as (r & s' & n & Hin & Hu & Hmax & Hrun & Hwf & H1 & Ha & _ & Hn & Htr).
    exists r, s', n. auto 12.
  - exact init_one_active_keep.
  - intros s ulStart ulEnd ulSize a Hcfg Hfl Hin H1 Hused Hmis Hrange.
    destruct (init_one_active_discard s ulStart ulEnd ulSize a Hcfg Hfl Hin H1
                                      Hused Hmis Hrange)
      as (s' & n & Hrun & Hwf & Hone & Ha & _ & Hn & Htr).
    exists s', n. auto 10.
  - exact init_two_active_untouched.
  - exact init_interrupted_swap.
  - exact init_many_active.
  - intros s k v Hwf Hns Hgen Hk Hv. split.
    + rewrite (current_count s Hwf Hns Hgen).
      destruct (is_active _ _); simpl; lia.
    + exact (write_trace s Hwf Hns Hgen k v Hk Hv).
  - exact clear_trace.
  - intros s Hwf H1. split.
    + apply one_active_no_stray; assumption.
    + apply one_active_count; assumption.
Qed.

Lemma active_page_invariant_witness :
  (* a blank medium *)
  (valid_config EEPROM_START_ADDR EEPROM_END_ADDR EEPROM_PAGE_SIZE /\
   EEPROM_END_ADDR <= ulFlashSize (power_on blank) /\
   active_count (flash (power_on blank))
     (region_pages EEPROM_START_ADDR EEPROM_END_ADDR EEPROM_PAGE_SIZE) = 0%nat /\
   Z.of_nat (used_count (flash (power_on blank))
               (region_pages EEPROM_START_ADDR EEPROM_END_ADDR
                             EEPROM_PAGE_SIZE)) mod 256 = 0 /\
   exists s' n, boot blank = Some (0, s') /\
                active_trace (power_on blank) s' = 1%nat :: replicate n 0%nat) /\
  (* a reset during a clear *)
  (active_count (flash (power_on retired_once))
     (region_pages EEPROM_START_ADDR EEPROM_END_ADDR EEPROM_PAGE_SIZE) = 0%nat /\
   used_count (flash (power_on retired_once))
     (region_pages EEPROM_START_ADDR EEPROM_END_ADDR EEPROM_PAGE_SIZE) = 1%nat /\
   is_used (flash (power_on retired_once)) EEPROM_START_ADDR = true /\
   flash (power_on retired_once) EEPROM_START_ADDR = 1 /\
   exists s' n, boot retired_once = Some (0, s') /\
                g_pucActivePage s' = EEPROM_START_ADDR + EEPROM_PAGE_SIZE /\
                active_trace (power_on retired_once) s'
                = 1%nat :: replicate n 0%nat) /\
  (* a normal restart *)
  (active_count (flash (power_on one_entry))
     (region_pages EEPROM_START_ADDR EEPROM_END_ADDR EEPROM_PAGE_SIZE) = 1%nat /\
   is_active (flash (power_on one_entry)) EEPROM_START_ADDR = true /\
   is_used (flash (power_on one_entry))
           (page_before EEPROM_START_ADDR EEPROM_END_ADDR EEPROM_PAGE_SIZE
                        EEPROM_START_ADDR) = false /\
   page_filled_to (flash (power_on one_entry)) EEPROM_START_ADDR
                  EEPROM_PAGE_SIZE 1 /\
   exists s', boot one_entry = Some (0, s') /\
              flash s' = flash (power_on one_entry) /\
              steps_of (power_on one_entry) s' = [] /\
              wf s' /\
              g_pucNextAvailEntry s' = slot_addr EEPROM_START_ADDR 1) /\
  (* an active page after a used page with a counter that does not fit *)
  (active_count (flash (power_on mismatched))
     (region_pages EEPROM_START_ADDR EEPROM_END_ADDR EEPROM_PAGE_SIZE) = 1%nat /\
   is_active (flash (power_on mismatched))
             (EEPROM_START_ADDR + EEPROM_PAGE_SIZE) = true /\
   is_used (flash (power_on mismatched))
           (page_before EEPROM_START_ADDR EEPROM_END_ADDR EEPROM_PAGE_SIZE
                        (EEPROM_START_ADDR + EEPROM_PAGE_SIZE)) = true /\
   flash (power_on mismatched)
         (page_before EEPROM_START_ADDR EEPROM_END_ADDR EEPROM_PAGE_SIZE
                      (EEPROM_START_ADDR + EEPROM_PAGE_SIZE)) = 5 /\
   flash (power_on mismatched) (EEPROM_START_ADDR + EEPROM_PAGE_SIZE) = 9 /\
   exists s' n, boot mismatched = Some (0, s') /\
                g_pucActivePage s' = EEPROM_START_ADDR + EEPROM_PAGE_SIZE /\
                active_trace (power_on mismatched) s'
                = 1%nat :: replicate n 0%nat) /\
  (* two active pages *)
  (active_count (flash (power_on torn))
     (region_pages EEPROM_START_ADDR EEPROM_END_ADDR EEPROM_PAGE_SIZE) = 2%nat /\
   exists rc s', boot torn = Some (rc, s') /\
                 flash s' = flash (power_on torn) /\
                 steps_of (power_on torn) s' = []) /\
  (* a reset during the page swap of a write, and the write repeated *)
  (active_count (flash (power_on swap_crash))
     (region_pages EEPROM_START_ADDR EEPROM_END_ADDR EEPROM_PAGE_SIZE) = 2%nat /\
   is_active (flash (power_on swap_crash)) EEPROM_START_ADDR = true /\
   is_active (flash (power_on swap_crash))
             (page_after EEPROM_START_ADDR EEPROM_END_ADDR EEPROM_PAGE_SIZE
                         EEPROM_START_ADDR) = true /\
   is_full EEPROM_PAGE_SIZE (flash (power_on swap_crash))
           (page_after EEPROM_START_ADDR EEPROM_END_ADDR EEPROM_PAGE_SIZE
                       EEPROM_START_ADDR) = false /\
   page_filled_to (flash (power_on swap_crash)) EEPROM_START_ADDR
                  EEPROM_PAGE_SIZE (slots_per_page EEPROM_PAGE_SIZE) /\
   exists s',
     boot swap_crash = Some (0, s') /\
     flash s' = flash (power_on swap_crash) /\
     wf s' /\ no_stray_active s' /\ generation_ok s' /\
     g_pucActivePage s' = EEPROM_START_ADDR /\
     exists s'' n,
       SoftEEPROMWrite 0 9 s' = Some (0, s'') /\ one_active s'' /\
       active_trace s' s'' = 1%nat :: 1%nat :: 2%nat :: replicate n 1%nat) /\
  (* three active pages *)
  (active_count (flash (power_on three_active))
     (region_pages EEPROM_START_ADDR EEPROM_END_ADDR EEPROM_PAGE_SIZE) = 3%nat /\
   boot three_active
   = Some (ERR_ACTIVE_PG_CNT,
           set_region EEPROM_START_ADDR EEPROM_END_ADDR EEPROM_PAGE_SIZE
                      (power_on three_active))) /\
  (* writes and a clear on the started engine *)
  (wf booted /\ one_active booted /\ no_stray_active booted /\
   generation_ok booted /\
   active_count (flash booted) (pages_of booted) = 1%nat /\
   (exists s', SoftEEPROMWrite 5 1 booted = Some (0, s') /\
               active_trace booted s' = [1%nat]) /\
   (exists s' n, SoftEEPROMClear booted = Some (0, s') /\
                 active_trace booted s'
                 = 1%nat :: replicate n 0%nat ++ [0%nat])) /\
  (* a write to the full page *)
  (wf filled /\ no_stray_active filled /\ generation_ok filled /\
   g_pucActivePage filled + g_ulEEPROMPgSize filled
     <= g_pucNextAvailEntry filled /\
   exists s' n, SoftEEPROMWrite 0 9 filled = Some (0, s') /\
                one_active s' /\
                active_trace filled s'
                = 1%nat :: 1%nat :: 2%nat :: replicate n 1%nat).
Proof.
  destruct active_page_invariant
    as (Hfresh & Hafter & Hkeep & Hdiscard & Htwo & Hswap & Hmany
        & Hwrite & Hclear & Hone).
  pose proof example_config as Hcfg.
  assert (Hfl : forall m, EEPROM_END_ADDR <= ulFlashSize (power_on m)).
  { intros m. cbn [ulFlashSize power_on]. vm_compute. discriminate. }
  destruct booted_facts as (_ & Hwfb & H1b & Hgenb & Hemptyb).
  destruct filled_facts as (_ & Hwff & Hfullf).
  destruct filled_one_active as (H1f & Hgenf).
  split; [|split; [|split; [|split; [|split; [|split; [|split; [|split]]]]]]].
  - split; [exact Hcfg|]. split; [apply Hfl|].
    split; [reflexivity|]. split; [reflexivity|].
    destruct (Hfresh (power_on blank) _ _ _ Hcfg (Hfl blank) eq_refl eq_refl)
      as (s' & n & Hrun & _ & _ & _ & _ & Htr).
    exists s', n. split; [exact Hrun|exact Htr].
  - split; [vm_compute; reflexivity|]. split; [vm_compute; reflexivity|].
    split; [vm_compute; reflexivity|]. split; [vm_compute; reflexivity|].
    destruct (Hafter (power_on retired_once) _ _ _ Hcfg (Hfl retired_once))
      as (r & s' & n & Hin & Hu & _ & Hrun & _ & _ & Ha & _ & Htr).
    + vm_compute. reflexivity.
    + vm_compute. discriminate.
    + exists EEPROM_START_ADDR. rewrite example_pages.
      split; [left; reflexivity|]. split; vm_compute; reflexivity.
    + intros p Hp Hu. page_cases Hp;
        first [vm_compute; reflexivity | vm_compute in Hu; discriminate].
    + exists s', n. split; [exact Hrun|]. split; [|exact Htr].
      rewrite Ha. page_cases Hin;
        first [vm_compute; reflexivity | vm_compute in Hu; discriminate].
  - assert (Hfilled : page_filled_to (flash (power_on one_entry))
                                     EEPROM_START_ADDR EEPROM_PAGE_SIZE 1).
    { split; [vm_compute; split; discriminate|]. split.
      - intros i Hi. replace i with 0 by lia. vm_compute.
        split; [discriminate|reflexivity].
      - intros i Hi. cbn [flash power_on]. unfold one_entry, slot_addr.
        unfold slots_per_page, EEPROM_PAGE_SIZE in Hi.
        change (1024 / 4 - 2) with 254 in Hi.
        unfold EEPROM_START_ADDR.
        rewrite !store_ne by lia. reflexivity. }
    split; [vm_compute; reflexivity|]. split; [vm_compute; reflexivity|].
    split; [vm_compute; reflexivity|]. split; [exact Hfilled|].
    destruct (Hkeep (power_on one_entry) _ _ _ EEPROM_START_ADDR Hcfg
                    (Hfl one_entry))
      as (s' & Hrun & Hflash & Hsteps & _ & _ & _ & Hfill).
    + rewrite example_pages. left. reflexivity.
    + intros p Hp. page_cases Hp; vm_compute; reflexivity.
    + intros Hu. vm_compute in Hu. discriminate.
    + destruct (Hfill 1 Hfilled) as [Hwf Hnext].
      exists s'. auto.
  - split; [vm_compute; reflexivity|]. split; [vm_compute; reflexivity|].
    split; [vm_compute; reflexivity|]. split; [vm_compute; reflexivity|].
    split; [vm_compute; reflexivity|].
    destruct (Hdiscard (power_on mismatched) _ _ _
                       (EEPROM_START_ADDR + EEPROM_PAGE_SIZE) Hcfg
                       (Hfl mismatched))
      as (s' & n & Hrun & _ & _ & Ha & _ & Htr).
    + rewrite example_pages. right. left. reflexivity.
    + intros p Hp. page_cases Hp; vm_compute; reflexivity.
    + vm_compute. reflexivity.
    + vm_compute. discriminate.
    + vm_compute. split; [discriminate|reflexivity].
    + exists s', n. auto.
  - split; [vm_compute; reflexivity|].
    destruct (Htwo (power_on torn) _ _ _ Hcfg (Hfl torn))
      as (rc & s' & Hrun & Hflash & Hsteps & _).
    + vm_compute. reflexivity.
    + exists rc, s'. auto.
  - assert (Hfilled : page_filled_to (flash (power_on swap_crash))
                        EEPROM_START_ADDR EEPROM_PAGE_SIZE
                        (slots_per_page EEPROM_PAGE_SIZE)).
    { apply page_filled_to_full; [vm_compute; discriminate|].
      vm_compute. reflexivity. }
    split; [vm_compute; reflexivity|]. split; [vm_compute; reflexivity|].
    split; [vm_compute; reflexivity|]. split; [vm_compute; reflexivity|].
    split; [exact Hfilled|].
    destruct (Hswap (power_on swap_crash) _ _ _ EEPROM_START_ADDR Hcfg
                    (Hfl swap_crash))
      as (s' & Hrun & Hflash & _ & _ & Hwf & Hns & Ha & Hnext).
    + rewrite example_pages. left. reflexivity.
    + vm_compute. reflexivity.
    + vm_compute. reflexivity.
    + vm_compute. reflexivity.
    + intros p Hp Hpa Hpp. page_cases Hp;
        first [ exfalso; apply Hpa; reflexivity
              | exfalso; apply Hpp; reflexivity
              | vm_compute; reflexivity ].
    + exact Hfilled.
    + assert (Hgen : generation_ok s').
      { unfold generation_ok. rewrite Ha, Hflash. vm_compute.
        split; [discriminate|reflexivity]. }
      exists s'. split; [exact Hrun|]. split; [exact Hflash|].
      split; [exact Hwf|]. split; [exact Hns|]. split; [exact Hgen|].
      split; [exact Ha|].
      destruct (Hwrite s' 0 9 Hwf Hns Hgen) as (_ & s'' & Hw & _ & _ & _ & Hfull);
        [unfold NUM_IDS, MAX_SOFTEEPROM_IDS; lia|lia|].
      destruct Hfull as (_ & H1'' & n & _ & Htr); [rewrite Hnext; lia|].
      exists s'', n. auto.
  - split; [vm_compute; reflexivity|].
    apply Hmany; [exact Hcfg|apply Hfl|]. vm_compute. discriminate.
  - destruct (Hone booted Hwfb H1b) as [Hnsb Hcntb].
    split; [exact Hwfb|]. split; [exact H1b|]. split; [exact Hnsb|].
    split; [exact Hgenb|]. split; [exact Hcntb|]. split.
    + destruct (Hwrite booted 5 1 Hwfb Hnsb Hgenb)
        as (_ & s' & Hw & _ & _ & Hroom & _);
        [unfold NUM_IDS, MAX_SOFTEEPROM_IDS; lia|lia|].
      destruct Hroom as (_ & _ & Htr).
      { rewrite Hemptyb. pose proof (vc_size_lo _ _ _ (wf_config _ Hwfb)). lia. }
      exists s'. split; [exact Hw|]. rewrite Htr, Hcntb. reflexivity.
    + destruct (Hclear booted Hwfb Hnsb Hgenb)
        as (s' & n & Hc & _ & _ & _ & _ & Htr).
      exists s', n. split; [exact Hc|]. rewrite Htr, Hcntb. reflexivity.
  - destruct (Hone filled Hwff H1f) as [Hnsf _].
    split; [exact Hwff|]. split; [exact Hnsf|]. split; [exact Hgenf|].
    split; [exact Hfullf|].
    destruct (Hwrite filled 0 9 Hwff Hnsf Hgenf)
      as (_ & s' & Hw & _ & _ & _ & Hfull);
      [unfold NUM_IDS, MAX_SOFTEEPROM_IDS; lia|lia|].
    destruct (Hfull Hfullf) as (_ & H1' & n & _ & Htr).
    exists s', n. auto.
Defined.


Lemma WrapperWrite_last_byte E b s :
  g_bEEPROMInitialized s = true ->
  SoftEEPROM_WrapperWrite E 254 1 [b] s = Some (WQuit ERR_ILLEGAL_ID, s).
Proof.
  intros Hinit. unfold SoftEEPROM_WrapperWrite.
  change ((254 + 1) / 2 >? MAX_SOFTEEPROM_IDS) with false. cbv iota.
  change (Z.to_nat 1) with 1%nat. cbn [WrapperWrite_loop].
  change (1 >? 0) with true. change (254 mod 2 =? 1) with false.
  change (1 =? 1) with true. change (254 / 2) with 127. cbn [orb]. cbv iota.
  unfold bind at 1. unfold bind at 1.
  rewrite SoftEEPROMRead_illegal; [|exact Hinit|unfold NUM_IDS, MAX_SOFTEEPROM_IDS; lia].
  cbn [snd next_byte]. unfold bind at 1. unfold ret at 1. unfold bind at 1.
  rewrite SoftEEPROMWrite_illegal; [|exact Hinit|unfold NUM_IDS, MAX_SOFTEEPROM_IDS; lia].
  reflexivity.
Qed.

Lemma WrapperRead_last_byte E s :
  g_bEEPROMInitialized s = true ->
  SoftEEPROM_WrapperRead E 254 1 s = Some ((WQuit ERR_ILLEGAL_ID, [0]), s).
Proof.
  intros Hinit. unfold SoftEEPROM_WrapperRead.
  change ((254 + 1) / 2 >? MAX_SOFTEEPROM_IDS) with false. cbv iota.
  change (Z.to_nat 1) with 1%nat. cbn [WrapperRead_loop].
  change (1 >? 0) with true. change (254 mod 2 =? 1) with false.
  change (1 >? 1) with false. change (254 / 2) with 127. cbv iota.
  unfold bind at 1. unfold bind at 1.
  rewrite SoftEEPROMRead_illegal; [|exact Hinit|unfold NUM_IDS, MAX_SOFTEEPROM_IDS; lia].
  reflexivity.
Qed.

(** A run whose return code is known yields the state that the matching
    definition names. *)
Lemma run_named {A} (c : option (A * State)) (d : State) (rc : A) :
  fst <$> c = Some rc ->
  c = Some (rc, match c with Some (_, s) => s | None => d end).
Proof.
  destruct c as [[r s]|]; simpl; intros H; [|discriminate].
  injection H as ->. reflexivity.
Qed.

(** C3, code at fault.  PageDataWrite reports success whatever the medium
    holds after programming; here a word that was already programmed to 0
    is programmed again: the medium still reads 0, not the data, and the
    function returns 0. *)
Theorem PageDataWrite_success_on_mismatch :
  (forall pulData pucPgAddr ulByteCount s,
      exists s', PageDataWrite pulData pucPgAddr ulByteCount s = Some (0, s')) /\
  (let a := EEPROM_START_ADDR + 8 in
   let s := power_on (store blank a 0) in
   exists s', PageDataWrite [encode 5 7] a 4 s = Some (0, s') /\
              flash s' a = 0 /\ flash s' a <> encode 5 7).
Proof.
  split.
  - intros d a n s. rewrite PageDataWrite_eq. eexists. reflexivity.
  - cbn zeta. rewrite PageDataWrite_word. eexists. split; [reflexivity|].
    split; [reflexivity|]. vm_compute. discriminate.
Qed.

(** C4, refuted as stated: on a full page holding a key that
    SoftEEPROMWrite never writes (here 200, beyond the bit vector
    ucIDSwapped), PageSwap has no defined result. *)
Lemma PageSwap_foreign_key_undefined :
  ~ (forall s, at_page_end s -> copies_latest s).
Proof.
  intros Hclaim.
  assert (Hst : g_pucEEPROMStart foreign_booted = EEPROM_START_ADDR)
    by (vm_compute; reflexivity).
  assert (Hen : g_pucEEPROMEnd foreign_booted = EEPROM_END_ADDR)
    by (vm_compute; reflexivity).
  assert (Hsz : g_ulEEPROMPgSize foreign_booted = EEPROM_PAGE_SIZE)
    by (vm_compute; reflexivity).
  assert (Hact : g_pucActivePage foreign_booted = EEPROM_START_ADDR)
    by (vm_compute; reflexivity).
  assert (Hnx : g_pucNextAvailEntry foreign_booted
                = EEPROM_START_ADDR + EEPROM_PAGE_SIZE)
    by (vm_compute; reflexivity).
  assert (Hini : g_bEEPROMInitialized foreign_booted = true)
    by (vm_compute; reflexivity).
  assert (Hs : at_page_end foreign_booted).
  { unfold at_page_end. rewrite Hst, Hen, Hsz, Hact, Hnx, Hini.
    split; [exact example_config|]. split; [reflexivity|].
    split; [|reflexivity]. vm_compute. repeat split; discriminate. }
  assert (Hnone : PageSwap (g_pucActivePage foreign_booted) foreign_booted = None)
    by (vm_compute; reflexivity).
  destruct (Hclaim _ Hs) as (s' & cnt & Hrun & _).
  rewrite Hnone in Hrun. discriminate.
Qed.

(** C4, amended.  When every slot of the full active page holds an entry
    with a valid key (what SoftEEPROMWrite leaves behind), PageSwap
    succeeds and writes to the first slots of the next page, for each key
    of the full page, exactly one slot: the raw word of the last-written
    slot of that key; it writes nothing else into the entry slots of the
    new page. *)
Theorem compaction_copies_latest s :
  wf s ->
  g_pucActivePage s + g_ulEEPROMPgSize s <= g_pucNextAvailEntry s ->
  copies_latest s.
Proof. exact (PageSwap_copies_latest s). Qed.

Lemma compaction_copies_latest_witness :
  wf filled /\
  g_pucActivePage filled + g_ulEEPROMPgSize filled <= g_pucNextAvailEntry filled /\
  copies_latest filled.
Proof.
  destruct filled_facts as (_ & Hwf & Hfull).
  split; [exact Hwf|]. split; [exact Hfull|].
  apply (compaction_copies_latest filled Hwf Hfull).
Defined.

(** C5, code at fault.  The first SoftEEPROMClear on a freshly initialized
    device first marks the active page used; a reset at that point leaves
    a medium with no active page and one used page, whose counter is 0.
    GetMostRecentlyUsedPage only takes a used page whose counter is above
    0, so it returns its "none" pointer 0xFFFFFFFF, which SoftEEPROMInit
    dereferences: the recovery has no defined result.  The same holds of
    the medium [crashed_in_clear], which has these two words programmed
    and nothing else. *)
Theorem init_after_first_clear_crash :
  let pages := region_pages EEPROM_START_ADDR EEPROM_END_ADDR EEPROM_PAGE_SIZE in
  let m := store (flash booted) (g_pucActivePage booted + 4) 0 in
  boot blank = Some (0, booted) /\
  SoftEEPROMClear booted = Some (0, cleared_booted) /\
  In m (steps_of booted cleared_booted) /\
  active_count m pages = 0%nat /\
  used_count m pages = 1%nat /\
  m EEPROM_START_ADDR = 0 /\
  m (EEPROM_START_ADDR + 4) = 0 /\
  boot m = None /\
  active_count crashed_in_clear pages = 0%nat /\
  used_count crashed_in_clear pages = 1%nat /\
  fst <$> GetMostRecentlyUsedPage
            (set_region EEPROM_START_ADDR EEPROM_END_ADDR EEPROM_PAGE_SIZE
                        (power_on crashed_in_clear)) = Some 0xFFFFFFFF /\
  boot crashed_in_clear = None.
Proof.
  intros pages m.
  destruct booted_facts as (Hboot & Hwf & _).
  destruct (SoftEEPROMClear_spec booted Hwf)
    as (m' & l & Hrun & _ & _ & _ & _ & _ & _ & Hfirst).
  assert (E : cleared_booted = cleared m' l booted)
    by (unfold cleared_booted; rewrite Hrun; reflexivity).
  split; [exact Hboot|]. split; [rewrite E; exact Hrun|].
  split.
  { rewrite E.
    replace (steps_of booted (cleared m' l booted)) with l
      by (symmetry; apply steps_of_app; reflexivity).
    exact Hfirst. }
  split; [vm_compute; reflexivity|]. split; [vm_compute; reflexivity|].
  split; [vm_compute; reflexivity|]. split; [vm_compute; reflexivity|].
  split; [vm_compute; reflexivity|]. split; [vm_compute; reflexivity|].
  split; [vm_compute; reflexivity|]. split; vm_compute; reflexivity.
Qed.

(** C6 is [two_active_recovery] above; here it is applied to the medium
    [torn], whose first two pages are marked active and whose first page
    has a programmed last slot: init adopts the first page as full. *)
Lemma two_active_recovery_witness :
  valid_config EEPROM_START_ADDR EEPROM_END_ADDR EEPROM_PAGE_SIZE /\
  EEPROM_END_ADDR <= ulFlashSize (power_on torn) /\
  active_count torn (region_pages EEPROM_START_ADDR EEPROM_END_ADDR
                                  EEPROM_PAGE_SIZE) = 2%nat /\
  exists rc s',
    boot torn = Some (rc, s') /\ rc = 0 /\
    flash s' = torn /\
    g_pucActivePage s' = EEPROM_START_ADDR /\
    g_pucNextAvailEntry s' = EEPROM_START_ADDR + EEPROM_PAGE_SIZE.
Proof.
  assert (Hfl : EEPROM_END_ADDR <= ulFlashSize (power_on torn))
    by (vm_compute; discriminate).
  assert (Hcnt : active_count (flash (power_on torn))
                   (region_pages EEPROM_START_ADDR EEPROM_END_ADDR
                                 EEPROM_PAGE_SIZE) = 2%nat)
    by (vm_compute; reflexivity).
  split; [exact example_config|]. split; [exact Hfl|]. split; [exact Hcnt|].
  destruct (two_active_recovery (power_on torn) EEPROM_START_ADDR EEPROM_END_ADDR
                                EEPROM_PAGE_SIZE example_config Hfl Hcnt)
    as (rc & s' & Hrun & Hflash & _ & Hiff & _ & Hok).
  change (flash (power_on torn)) with torn in Hiff, Hok, Hflash.
  assert (Hrc : rc <> ERR_TWO_ACTIVE_NO_FULL).
  { intros Hrc. pose proof (proj1 Hiff Hrc) as Hall.
    assert (X : is_full EEPROM_PAGE_SIZE torn EEPROM_START_ADDR = true)
      by (vm_compute; reflexivity).
    rewrite (Hall EEPROM_START_ADDR) in X;
      [discriminate|vm_compute; auto|vm_compute; reflexivity]. }
  destruct (Hok Hrc) as (H0 & _ & Hin & _ & Hfull & Hnext).
  assert (Ha : g_pucActivePage s' = EEPROM_START_ADDR).
  { assert (Hpages : region_pages EEPROM_START_ADDR EEPROM_END_ADDR
                                   EEPROM_PAGE_SIZE
                      = [0x3D000; 0x3D400; 0x3D800; 0x3DC00])
      by (vm_compute; reflexivity).
    rewrite Hpages in Hin. cbn [In] in Hin.
    destruct Hin as [H|[H|[H|[H|[]]]]]; rewrite <- H in Hfull |- *;
      [reflexivity|vm_compute in Hfull; discriminate..]. }
  exists rc, s'. split; [exact Hrun|]. split; [exact H0|]. split; [exact Hflash|].
  split; [exact Ha|]. rewrite Hnext, Ha. reflexivity.
Defined.

(** C7.  On an initialized engine SoftEEPROMWrite with a key outside
    0 .. NUM_IDS-1 returns ERR_ILLEGAL_ID and leaves the whole state as it
    is: the medium, its history of program and erase steps, the active
    page and the next-available pointer. *)
Theorem illegal_key_rejected s usID usData :
  g_bEEPROMInitialized s = true ->
  0 <= usID < 2 ^ 16 -> ~ (0 <= usID < NUM_IDS) ->
  SoftEEPROMWrite usID usData s = Some (ERR_ILLEGAL_ID, s).
Proof.
  intros Hinit Hty Hk. apply SoftEEPROMWrite_illegal; [exact Hinit|lia].
Qed.

Lemma illegal_key_rejected_witness :
  g_bEEPROMInitialized booted = true /\
  0 <= MAX_SOFTEEPROM_IDS < 2 ^ 16 /\
  ~ (0 <= MAX_SOFTEEPROM_IDS < NUM_IDS) /\
  SoftEEPROMWrite MAX_SOFTEEPROM_IDS 7 booted = Some (ERR_ILLEGAL_ID, booted) /\
  SoftEEPROMWrite 0xFFFF 7 booted = Some (ERR_ILLEGAL_ID, booted).
Proof.
  assert (Hinit : g_bEEPROMInitialized booted = true) by (vm_compute; reflexivity).
  assert (Hty : 0 <= MAX_SOFTEEPROM_IDS < 2 ^ 16) by (vm_compute; split; congruence).
  assert (Hk : ~ (0 <= MAX_SOFTEEPROM_IDS < NUM_IDS)) by (unfold NUM_IDS; lia).
  split; [exact Hinit|]. split; [exact Hty|]. split; [exact Hk|]. split.
  - apply (illegal_key_rejected booted MAX_SOFTEEPROM_IDS 7 Hinit Hty Hk).
  - apply (illegal_key_rejected booted 0xFFFF 7 Hinit).
    + vm_compute. split; congruence.
    + unfold NUM_IDS, MAX_SOFTEEPROM_IDS. lia.
Defined.

(** C8, refuted as stated: SoftEEPROMInit has no guard against a second
    call; after a successful init a second call runs the recovery again and
    succeeds again. *)
Lemma second_init_accepted : ~ init_only_once.
Proof.
  intros Hclaim.
  destruct booted_facts as (Hboot & _).
  destruct (Hclaim _ _ _ _ _ Hboot) as (rc & Hrc & Hrun).
  assert (Hagain : fst <$> SoftEEPROMInit EEPROM_START_ADDR EEPROM_END_ADDR
                                          EEPROM_PAGE_SIZE booted = Some 0)
    by (vm_compute; reflexivity).
  rewrite Hrun in Hagain. injection Hagain as Hrc0. exact (Hrc Hrc0).
Qed.

(** C8, amended.  SoftEEPROMInit never consults g_bEEPROMInitialized: a
    call on an initialized engine returns what it returns on the same
    engine not initialized, with the same effect on the medium and on the
    engine state (the flag itself is set on success and left alone on
    failure).  SoftEEPROMWrite, SoftEEPROMRead and SoftEEPROMClear on an
    engine that is not initialized return ERR_NOT_INIT and change nothing. *)
Theorem init_without_reentry_guard :
  (forall ulStart ulEnd ulSize b s,
      SoftEEPROMInit ulStart ulEnd ulSize (set_initialized b s) =
      match SoftEEPROMInit ulStart ulEnd ulSize s with
      | Some (rc, s') =>
          Some (rc, if rc =? 0 then s' else set_initialized b s')
      | None => None
      end) /\
  (forall s usID usData,
      g_bEEPROMInitialized s = false ->
      SoftEEPROMWrite usID usData s = Some (ERR_NOT_INIT, s) /\
      SoftEEPROMRead usID s = Some ((ERR_NOT_INIT, None), s) /\
      SoftEEPROMClear s = Some (ERR_NOT_INIT, s)).
Proof.
  split.
  - intros. apply SoftEEPROMInit_flag_blind.
  - intros s k v H. split; [|split].
    + apply SoftEEPROMWrite_not_init, H.
    + apply SoftEEPROMRead_not_init, H.
    + apply SoftEEPROMClear_not_init, H.
Qed.

Lemma init_without_reentry_guard_witness :
  g_bEEPROMInitialized (power_on blank) = false /\
  SoftEEPROMWrite 5 1 (power_on blank) = Some (ERR_NOT_INIT, power_on blank) /\
  SoftEEPROMRead 5 (power_on blank) = Some ((ERR_NOT_INIT, None), power_on blank) /\
  SoftEEPROMClear (power_on blank) = Some (ERR_NOT_INIT, power_on blank).
Proof.
  assert (H : g_bEEPROMInitialized (power_on blank) = false) by reflexivity.
  split; [exact H|].
  apply (proj2 init_without_reentry_guard (power_on blank) 5 1 H).
Defined.

(** C9, code at fault.  The wrappers reject a request only when
    (usAddress + usSize) / 2 exceeds MAX_SOFTEEPROM_IDS, so a range whose
    last byte lies in key MAX_SOFTEEPROM_IDS (address 254) passes the check:
    on every initialized engine the call reaches SoftEEPROMRead and
    SoftEEPROMWrite with the illegal key and ends in OutputErrorAndQuit with
    ERR_ILLEGAL_ID.  For the two bytes from address 253 on the freshly
    initialized example device this happens only after key 126 has been
    written: it was not found before and reads 0x01FF afterwards. *)
Theorem wrapper_range_check_off_by_one :
  forall ERR_PAGE_RANGE,
    (forall b s,
        g_bEEPROMInitialized s = true ->
        SoftEEPROM_WrapperWrite ERR_PAGE_RANGE 254 1 [b] s
          = Some (WQuit ERR_ILLEGAL_ID, s) /\
        SoftEEPROM_WrapperRead ERR_PAGE_RANGE 254 1 s
          = Some ((WQuit ERR_ILLEGAL_ID, [0]), s)) /\
    g_bEEPROMInitialized booted = true /\
    fst <$> SoftEEPROMRead 126 booted = Some (0, Some (0xFFFF, false)) /\
    fst <$> SoftEEPROM_WrapperWrite ERR_PAGE_RANGE 253 2 [1; 2] booted
      = Some (WQuit ERR_ILLEGAL_ID) /\
    match SoftEEPROM_WrapperWrite ERR_PAGE_RANGE 253 2 [1; 2] booted with
    | Some (_, s') => fst <$> SoftEEPROMRead 126 s'
    | None => None
    end = Some (0, Some (0x01FF, true)).
Proof.
  intros E. split.
  - intros b s Hinit. split.
    + apply WrapperWrite_last_byte, Hinit.
    + apply WrapperRead_last_byte, Hinit.
  - split; [vm_compute; reflexivity|]. split; [vm_compute; reflexivity|].
    split; vm_compute; reflexivity.
Qed.

(** An erased slot met by the copy loop of PageSwap: its identifier 0xFFFF
    selects byte 8191 of the bit vector. *)
Lemma PageSwap_entry_erased v s :
  valid_ptr (pucUsedEntry v) = true ->
  flash s (pucUsedEntry v) = ERASED_WORD ->
  Z.of_nat (length (ucIDSwapped v)) = NUM_VECTOR_BYTES ->
  PageSwap_entry v s = None.
Proof.
  intros Hv He Hlen. unfold PageSwap_entry. unfold bind at 1.
  rewrite (load_eq _ _ Hv), He. unfold bind at 1.
  rewrite array_get_out; [reflexivity|]. rewrite Hlen. vm_compute. discriminate.
Qed.

(** C10, code at fault.  The guard of the copy loop tests the bit vector
    before it compares the identifier, and compares it with 0xFF, not with
    the identifier 0xFFFF of an erased slot.  On the medium [torn], init
    adopts the first page as full; the next write swaps the page, meets an
    erased slot and subscripts the 16-byte vector ucIDSwapped with 8191. *)
Theorem PageSwap_erased_slot_out_of_bounds :
  boot torn = Some (0, torn_booted) /\
  g_pucActivePage torn_booted = EEPROM_START_ADDR /\
  g_pucNextAvailEntry torn_booted = EEPROM_START_ADDR + EEPROM_PAGE_SIZE /\
  flash torn_booted (slot_addr EEPROM_START_ADDR 252) = ERASED_WORD /\
  u16 (Z.shiftr ERASED_WORD 16) / 8 = 8191 /\
  NUM_VECTOR_BYTES = 16 /\
  (forall s, array_get (replicate (Z.to_nat NUM_VECTOR_BYTES) 0)
                       (u16 (Z.shiftr ERASED_WORD 16) / 8) s = None) /\
  PageSwap EEPROM_START_ADDR torn_booted = None /\
  SoftEEPROMWrite 1 5 torn_booted = None.
Proof.
  split.
  { apply (run_named (boot torn) (power_on torn) 0). vm_compute. reflexivity. }
  split; [vm_compute; reflexivity|]. split; [vm_compute; reflexivity|].
  split; [vm_compute; reflexivity|]. split; [vm_compute; reflexivity|].
  split; [reflexivity|]. split; [intros s; reflexivity|].
  split; vm_compute; reflexivity.
Qed.

(* ===================================================================== *)
(** * Further lemmas on the engine and the wrapper *)

(** ** Page counts *)
Lemma region_pages_length st en sz :
  length (region_pages st en sz) = Z.to_nat ((en - st) / sz).
Proof. unfold region_pages. rewrite length_fmap, length_seqZ. reflexivity. Qed.

Lemma filter_exclusive_length (f g : Z -> bool) ps :
  (forall p, f p && g p = false) ->
  (length (List.filter f ps) + length (List.filter g ps) <= length ps)%nat.
Proof.
  intros H. induction ps as [|p ps IH]; simpl; [lia|].
  specialize (H p). destruct (f p), (g p); simpl in *; try discriminate; lia.
Qed.

Lemma is_active_used_exclusive m p : is_active m p && is_used m p = false.
Proof.
  unfold is_active, is_used.
  destruct (m p =? ERASED_WORD), (m (p + 4) =? ERASED_WORD); reflexivity.
Qed.

(** ** Reading leaves the state alone *)
Lemma SoftEEPROMRead_loop_state n : forall k p s r s',
  SoftEEPROMRead_loop n k p s = Some (r, s') -> s' = s.
Proof.
  induction n as [|n IH]; intros k p s r s'; cbn [SoftEEPROMRead_loop].
  - unfold ret. intros H. injection H as _ <-. reflexivity.
  - unfold bind, load. destruct (valid_ptr p); [|discriminate].
    destruct (Z.shiftr (flash s p) 16 =? k).
    + unfold ret. intros H. injection H as _ <-. reflexivity.
    + apply IH.
Qed.

Lemma SoftEEPROMRead_state k s r s' :
  SoftEEPROMRead k s = Some (r, s') -> s' = s.
Proof.
  unfold SoftEEPROMRead, bind, gets, ret.
  destruct (negb (g_bEEPROMInitialized s)).
  { intros H. injection H as _ <-. reflexivity. }
  destruct (k >? NUM_IDS - 1).
  { intros H. injection H as _ <-. reflexivity. }
  destruct (SoftEEPROMRead_loop _ _ _ s) as [[o s1]|] eqn:E; [|discriminate].
  apply SoftEEPROMRead_loop_state in E. subst s1.
  intros H. injection H as _ <-. reflexivity.
Qed.

Lemma WrapperRead_loop_state fuel : forall a n d out r s res s',
  WrapperRead_loop fuel a n d out r s = Some (res, s') -> s' = s.
Proof.
  induction fuel as [|fuel IH]; intros a n d out r s res s';
    cbn [WrapperRead_loop].
  - destruct (n >? 0); [discriminate|].
    unfold ret. intros H. injection H as _ <-. reflexivity.
  - destruct (n >? 0).
    2:{ unfold ret. intros H. injection H as _ <-. reflexivity. }
    unfold bind at 1.
    destruct (SoftEEPROMRead (a / 2) s) as [[x s1]|] eqn:Er; [|discriminate].
    apply SoftEEPROMRead_state in Er. subst s1.
    destruct (a mod 2 =? 1); [apply IH|].
    destruct (n >? 1); apply IH.
Qed.

Lemma SoftEEPROM_WrapperRead_state E a n s r s' :
  SoftEEPROM_WrapperRead E a n s = Some (r, s') -> s' = s.
Proof.
  unfold SoftEEPROM_WrapperRead.
  destruct (_ >? _).
  { unfold ret. intros H. injection H as _ <-. reflexivity. }
  unfold bind.
  destruct (WrapperRead_loop _ _ _ _ _ _ s) as [[[rc out] s1]|] eqn:El;
    [|discriminate].
  apply WrapperRead_loop_state in El. subst s1.
  destruct (negb (rc =? 0)); unfold ret; intros H; injection H as _ <-;
    reflexivity.
Qed.

(** ** Writes to the active page *)
Lemma encode_add k v : 0 <= v < 2 ^ 16 -> encode k v = 65536 * k + v.
Proof.
  intros Hv. unfold encode.
  assert (Hland : Z.land (Z.shiftl k 16) v = 0).
  { apply Z.bits_inj'. intros n Hn. rewrite Z.land_spec, Z.bits_0.
    destruct (Z.lt_ge_cases n 16).
    - rewrite Z.shiftl_spec_low by lia. reflexivity.
    - destruct (Z.eq_dec v 0) as [->|Hv0]; [rewrite Z.bits_0; apply andb_false_r|].
      rewrite (Z.bits_above_log2 v n); [apply andb_false_r|lia|].
      apply Z.log2_lt_pow2; [lia|].
      apply Z.lt_le_trans with (2 ^ 16); [lia|].
      apply Z.pow_le_mono_r; lia. }
  rewrite <- Z.lxor_lor by exact Hland.
  rewrite <- Z.add_nocarry_lxor by exact Hland.
  rewrite Z.shiftl_mul_pow2 by lia. lia.
Qed.

Lemma following_page_disjoint s :
  wf s ->
  let a := g_pucActivePage s in
  let p' := following_page s a in
  let sz := g_ulEEPROMPgSize s in
  is_page (g_pucEEPROMStart s) (g_pucEEPROMEnd s) sz p' /\
  (a + sz <= p' \/ p' + sz <= a) /\ 1024 <= sz.
Proof.
  intros Hwf a p' sz.
  pose proof (wf_config s Hwf) as Hcfg.
  pose proof (wf_is_page s Hwf) as Ha.
  destruct (next_page_is_page _ _ _ Hcfg _ Ha) as [Hp' Hne].
  split; [exact Hp'|].
  split; [|exact (vc_size_lo _ _ _ Hcfg)].
  apply (pages_disjoint _ _ _ Hcfg); [exact Ha|exact Hp'|].
  intros E. apply Hne. symmetry. exact E.
Qed.

Lemma SoftEEPROMWrite_swap_spec s k v :
  wf s ->
  g_pucActivePage s + g_ulEEPROMPgSize s <= g_pucNextAvailEntry s ->
  0 <= k < NUM_IDS -> 0 <= v < 2 ^ 16 ->
  let a := g_pucActivePage s in
  let p' := following_page s a in
  exists s',
    SoftEEPROMWrite k v s = Some (0, s') /\
    wf s' /\
    g_pucActivePage s' = p' /\
    flash s' p' = u32 (flash s a + 1) /\
    flash s' (a + 4) = 0 /\
    p' + 12 <= g_pucNextAvailEntry s' <= p' + 8 + 4 * (NUM_IDS + 1) /\
    (forall x, ~ (p' <= x < p' + g_ulEEPROMPgSize s) -> x <> a + 4 ->
               flash s' x = flash s x).
Proof.
  intros Hwf Hfull Hk Hv a p'.
  destruct (PageSwap_full s Hwf Hfull)
    as (m' & l & Hswap & Hwf1 & Hroom1 & _ & _ & _ & Hstep & Hgen & Hused & _).
  pose proof (SoftEEPROMWrite_full s Hwf Hfull k v Hk Hv m' l Hswap Hwf1 Hroom1)
    as Hrun.
  pose proof (distinct_keys_length _ (page_copy_distinct s)
                                   (page_copy_ok s Hwf Hfull)) as Hlen.
  set (s1 := swapped m' l s) in *.
  assert (Hnx1 : g_pucNextAvailEntry s1
                 = slot_addr p' (Z.of_nat (length (page_copy s)))) by reflexivity.
  assert (Ha1 : g_pucActivePage s1 = p') by reflexivity.
  assert (Hsz1 : g_ulEEPROMPgSize s1 = g_ulEEPROMPgSize s) by reflexivity.
  rewrite Ha1, Hsz1 in Hroom1.
  exists (appended k v s1). split; [exact Hrun|].
  split; [apply wf_appended; assumption|].
  split; [reflexivity|].
  destruct Hstep as (Hframe & _).
  unfold appended. cbn [flash set_next set_flash g_pucNextAvailEntry].
  rewrite Hnx1. change (flash s1) with m'. unfold slot_addr in *.
  split; [rewrite store_ne by lia; exact Hgen|].
  split.
  { rewrite store_ne; [exact Hused|].
    destruct (following_page_disjoint s Hwf) as (_ & Hd & Hsz).
    fold a p' in Hd. lia. }
  split; [lia|].
  intros x Hx Hxa. rewrite store_ne by lia. apply Hframe; assumption.
Qed.

(** ** Restart with one active page *)

Lemma prev_page_is_page s p :
  valid_config (g_pucEEPROMStart s) (g_pucEEPROMEnd s) (g_ulEEPROMPgSize s) ->
  is_page (g_pucEEPROMStart s) (g_pucEEPROMEnd s) (g_ulEEPROMPgSize s) p ->
  is_page (g_pucEEPROMStart s) (g_pucEEPROMEnd s) (g_ulEEPROMPgSize s)
          (prev_page s p).
Proof.
  intros Hcfg Hp. pose proof (vc_size_lo _ _ _ Hcfg) as Hsz.
  apply (is_page_index _ _ _ Hcfg) in Hp as (i & Hi & ->).
  apply (is_page_index _ _ _ Hcfg). unfold prev_page.
  set (st := g_pucEEPROMStart s) in *. set (en := g_pucEEPROMEnd s) in *.
  set (sz := g_ulEEPROMPgSize s) in *.
  assert (Hen : en - st = sz * ((en - st) / sz)).
  { apply Z.div_exact; [lia|]. destruct Hcfg; assumption. }
  destruct (Z.eqb_spec (st + i * sz) st) as [E|E].
  - exists ((en - st) / sz - 1). split; [lia|]. nia.
  - exists (i - 1). split; [nia|]. lia.
Qed.

Lemma GetNextAvailEntry_wf s :
  wf s -> GetNextAvailEntry s = Some (g_pucNextAvailEntry s, s).
Proof.
  intros Hwf.
  destruct (GetNextAvailEntry_scan s (wf_config s Hwf) (wf_is_page s Hwf))
    as (j & Hj & Hrun & Hlow & Hat).
  rewrite Hrun. f_equal. f_equal.
  rewrite (wf_next_slot s Hwf). f_equal.
  pose proof (wf_used_le s Hwf) as Hu.
  set (u := Z.of_nat (used_slots s)) in *.
  destruct (Z.lt_trichotomy j u) as [Hlt|[E|Hgt]]; [|exact E|].
  - exfalso. apply (entry_ok_not_erased (flash s (slot_addr (g_pucActivePage s) j))).
    + apply (wf_entries s Hwf); [lia|]. rewrite (wf_next_slot s Hwf).
      fold u. unfold slot_addr. lia.
    + apply Hat. lia.
  - exfalso. apply (Hlow u); [lia|].
    apply (wf_free s Hwf); [|lia].
    rewrite (wf_next_slot s Hwf). fold u. lia.
Qed.

Lemma GetNextAvailEntry_loop_ext n : forall p s t,
  flash s = flash t ->
  GetNextAvailEntry_loop n p s =
  match GetNextAvailEntry_loop n p t with
  | Some (r, _) => Some (r, s)
  | None => None
  end.
Proof.
  induction n as [|n IH]; intros p s t Hfl; [reflexivity|].
  cbn [GetNextAvailEntry_loop]. unfold bind, load. rewrite Hfl.
  destruct (valid_ptr p); [|reflexivity].
  destruct (flash t p =? ERASED_WORD); [reflexivity|]. apply IH, Hfl.
Qed.

Lemma GetNextAvailEntry_ext s t :
  flash s = flash t ->
  g_ulEEPROMPgSize s = g_ulEEPROMPgSize t ->
  g_pucActivePage s = g_pucActivePage t ->
  GetNextAvailEntry s =
  match GetNextAvailEntry t with
  | Some (r, _) => Some (r, s)
  | None => None
  end.
Proof.
  intros Hfl Hsz Ha. unfold GetNextAvailEntry, bind, gets. cbv beta iota.
  rewrite Hsz, Ha. apply GetNextAvailEntry_loop_ext, Hfl.
Qed.

Lemma SoftEEPROMRead_ext k s t :
  flash s = flash t ->
  g_bEEPROMInitialized s = g_bEEPROMInitialized t ->
  g_pucActivePage s = g_pucActivePage t ->
  g_pucNextAvailEntry s = g_pucNextAvailEntry t ->
  fst <$> SoftEEPROMRead k s = fst <$> SoftEEPROMRead k t.
Proof.
  intros Hfl Hi Ha Hn.
  assert (Hloop : forall n p,
             fst <$> SoftEEPROMRead_loop n k p s
             = fst <$> SoftEEPROMRead_loop n k p t).
  { induction n as [|n IH]; intros p; [reflexivity|].
    cbn [SoftEEPROMRead_loop]. unfold bind, load. rewrite Hfl.
    destruct (valid_ptr p); [|reflexivity].
    destruct (_ =? k); [reflexivity|]. apply IH. }
  unfold SoftEEPROMRead, bind, gets. cbv beta iota. rewrite Hi.
  destruct (g_bEEPROMInitialized t); [|reflexivity]. cbn [negb].
  destruct (k >? NUM_IDS - 1); [reflexivity|].
  rewrite Ha, Hn.
  match goal with
  | |- context [SoftEEPROMRead_loop ?n k ?p s] =>
      specialize (Hloop n p);
      destruct (SoftEEPROMRead_loop n k p s) as [[o1 t1]|],
               (SoftEEPROMRead_loop n k p t) as [[o2 t2]|]
  end; cbn in *; congruence.
Qed.

Lemma wf_restarted s s0 :
  wf s -> flash s0 = flash s -> wf (restarted s s0).
Proof.
  intros Hwf Hfl. destruct Hwf.
  constructor; cbn; rewrite ?Hfl; try assumption; reflexivity.
Qed.

Lemma init_restart_spec s s0 :
  wf s -> one_active s -> prev_ok s ->
  flash s0 = flash s ->
  g_pucEEPROMEnd s <= ulFlashSize s0 ->
  SoftEEPROMInit (g_pucEEPROMStart s) (g_pucEEPROMEnd s) (g_ulEEPROMPgSize s) s0
  = Some (0, restarted s s0) /\
  wf (restarted s s0) /\
  forall k, fst <$> SoftEEPROMRead k (restarted s s0)
            = fst <$> SoftEEPROMRead k s.
Proof.
  intros Hwf H1 Hprev Hfl Hsize.
  pose proof (wf_config s Hwf) as Hcfg.
  pose proof (wf_is_page s Hwf) as Ha.
  pose proof (vc_size_lo _ _ _ Hcfg) as Hszlo.
  pose proof (vc_size_mod4 _ _ _ Hcfg) as Hsz4.
  set (st := g_pucEEPROMStart s) in *. set (en := g_pucEEPROMEnd s) in *.
  set (sz := g_ulEEPROMPgSize s) in *. set (a := g_pucActivePage s) in *.
  split; [|split].
  - rewrite SoftEEPROMInit_unfold.
    destruct (Z.gtb_spec en (ulFlashSize s0)); [lia|].
    rewrite !land_boundary by (destruct Hcfg; assumption).
    set (s1 := set_region st en sz s0).
    assert (Hcfg1 : valid_config (g_pucEEPROMStart s1) (g_pucEEPROMEnd s1)
                                 (g_ulEEPROMPgSize s1)) by exact Hcfg.
    assert (Hfl1 : flash s1 = flash s) by exact Hfl.
    assert (Hin : In a (pages_of s)).
    { apply In_region_pages; assumption. }
    assert (Hrun : init_recover s1 =
                   Some (0, set_next (g_pucNextAvailEntry s) (set_active a s1))).
    { unfold init_recover. unfold bind at 1.
      rewrite (GetActivePageCount_eq s1 Hcfg1).
      change (pages_of s1) with (pages_of s). rewrite Hfl1.
      rewrite (one_active_count s Hwf H1).
      change (u8 (Z.of_nat 1) =? 0) with false.
      change (u8 (Z.of_nat 1) =? 1) with true. cbv iota.
      unfold init_one_active. unfold bind at 1.
      rewrite (eeprom_pages_eq s1 Hcfg1). unfold bind at 1.
      unfold loop_end, bind at 1, gets at 1, bind at 1, gets at 1, ret at 1.
      unfold bind at 1.
      rewrite (find_active_page_eq s1 _ _ Hcfg1) by auto.
      change (pages_of s1) with (pages_of s). rewrite Hfl1.
      rewrite (find_the_one _ _ a H1 Hin).
      unfold bind at 1, gets at 1. unfold bind at 1, gets at 1.
      unfold bind at 1, gets at 1.
      change (g_pucEEPROMStart s1) with st. change (g_pucEEPROMEnd s1) with en.
      change (g_ulEEPROMPgSize s1) with sz.
      change (if a =? st then en - sz else a - sz) with (prev_page s a).
      pose proof (prev_page_is_page s a Hcfg Ha) as Hq.
      set (q := prev_page s a) in *.
      assert (Hq0 : valid_ptr q = true).
      { replace q with (q + 0) by lia.
        apply (page_word_valid _ _ _ Hcfg _ _ Hq); [lia|lia|reflexivity]. }
      assert (Hq4 : valid_ptr (q + 4) = true).
      { apply (page_word_valid _ _ _ Hcfg _ _ Hq); [lia|lia|reflexivity]. }
      assert (Ha0 : valid_ptr a = true).
      { replace a with (a + 0) by lia.
        apply (page_word_valid _ _ _ Hcfg _ _ Ha); [lia|lia|reflexivity]. }
      set (s2 := set_active a s1).
      assert (Hnext : GetNextAvailEntry s2
                      = Some (g_pucNextAvailEntry s, s2)).
      { rewrite (GetNextAvailEntry_ext s2 s) by (try reflexivity; exact Hfl).
        rewrite (GetNextAvailEntry_wf s Hwf). reflexivity. }
      unfold bind at 1. rewrite (PageIsUsed_eq _ _ Hq0 Hq4). rewrite Hfl1.
      destruct (is_used (flash s) q) eqn:Hused.
      - unfold bind at 1. rewrite (load_eq _ _ Hq0).
        unfold bind at 1. rewrite (load_eq _ _ Ha0). rewrite Hfl1.
        unfold prev_ok in Hprev. fold a q in Hprev. rewrite (Hprev Hused).
        rewrite Z.eqb_refl.
        unfold bind at 1, modify at 1. fold s2.
        unfold bind at 1. rewrite Hnext. reflexivity.
      - unfold bind at 1, modify at 1. fold s2.
        unfold bind at 1. rewrite Hnext. reflexivity. }
    rewrite Hrun. reflexivity.
  - apply wf_restarted; assumption.
  - intros k. apply SoftEEPROMRead_ext;
      [exact Hfl|symmetry; exact (wf_inited s Hwf)|reflexivity|reflexivity].
Qed.

(** ** Operations keep the engine restartable *)
Lemma prev_page_ne s p :
  valid_config (g_pucEEPROMStart s) (g_pucEEPROMEnd s) (g_ulEEPROMPgSize s) ->
  is_page (g_pucEEPROMStart s) (g_pucEEPROMEnd s) (g_ulEEPROMPgSize s) p ->
  prev_page s p <> p.
Proof.
  intros Hcfg Hp. pose proof (vc_size_lo _ _ _ Hcfg) as Hsz.
  destruct Hp as (H1 & H2 & _). unfold prev_page.
  assert (Hen : g_pucEEPROMEnd s - g_pucEEPROMStart s
                = g_ulEEPROMPgSize s
                  * ((g_pucEEPROMEnd s - g_pucEEPROMStart s) / g_ulEEPROMPgSize s)).
  { apply Z.div_exact; [lia|]. destruct Hcfg; assumption. }
  pose proof (vc_pages _ _ _ Hcfg) as Hn.
  destruct (Z.eqb_spec p (g_pucEEPROMStart s)); nia.
Qed.

Lemma prev_following s p :
  valid_config (g_pucEEPROMStart s) (g_pucEEPROMEnd s) (g_ulEEPROMPgSize s) ->
  is_page (g_pucEEPROMStart s) (g_pucEEPROMEnd s) (g_ulEEPROMPgSize s) p ->
  prev_page s (following_page s p) = p.
Proof.
  intros Hcfg Hp. pose proof (vc_size_lo _ _ _ Hcfg) as Hsz.
  apply (is_page_index _ _ _ Hcfg) in Hp as (i & Hi & ->).
  unfold prev_page, following_page.
  set (st := g_pucEEPROMStart s) in *. set (en := g_pucEEPROMEnd s) in *.
  set (sz := g_ulEEPROMPgSize s) in *.
  assert (Hen : en - st = sz * ((en - st) / sz)).
  { apply Z.div_exact; [lia|]. destruct Hcfg; assumption. }
  destruct (Z.ltb_spec (st + i * sz + sz) en) as [Hlt|Hge].
  - destruct (Z.eqb_spec (st + i * sz + sz) st); nia.
  - rewrite Z.eqb_refl. nia.
Qed.

Lemma prev_ok_after_swap (s s' : State) :
  wf s -> generation_ok s ->
  g_pucEEPROMStart s' = g_pucEEPROMStart s ->
  g_pucEEPROMEnd s' = g_pucEEPROMEnd s ->
  g_ulEEPROMPgSize s' = g_ulEEPROMPgSize s ->
  g_pucActivePage s' = following_page s (g_pucActivePage s) ->
  flash s' (g_pucActivePage s) = flash s (g_pucActivePage s) ->
  flash s' (g_pucActivePage s') = u32 (flash s (g_pucActivePage s) + 1) ->
  prev_ok s'.
Proof.
  intros Hwf Hgen Hst Hen Hsz Ha Hold Hnew. unfold prev_ok.
  assert (Hq : prev_page s' (g_pucActivePage s') = g_pucActivePage s).
  { unfold prev_page. rewrite Hst, Hen, Hsz, Ha.
    apply (prev_following s _ (wf_config s Hwf) (wf_is_page s Hwf)). }
  rewrite Hq, Hold, Hnew. intros _.
  unfold generation_ok, ERASED_WORD in Hgen.
  rewrite (u32_small (_ + 1)) by (change (2 ^ 32) with 4294967296; lia).
  replace (flash s (g_pucActivePage s) + 1 - 1) with (flash s (g_pucActivePage s))
    by lia.
  symmetry. apply u32_small. change (2 ^ 32) with 4294967296. lia.
Qed.

Lemma restartable_write s k v :
  restartable s -> generation_ok s ->
  0 <= k < NUM_IDS -> 0 <= v < 2 ^ 16 ->
  exists s', SoftEEPROMWrite k v s = Some (0, s') /\ restartable s'.
Proof.
  intros (Hwf & H1 & Hprev) Hgen Hk Hv.
  destruct (write_actives s k v Hwf H1 Hgen Hk Hv)
    as (s' & Hrun & Hwf' & H1' & _).
  exists s'. split; [exact Hrun|]. split; [exact Hwf'|]. split; [exact H1'|].
  pose proof (wf_config s Hwf) as Hcfg. pose proof (wf_is_page s Hwf) as Ha.
  destruct (Z.lt_ge_cases (g_pucNextAvailEntry s)
                          (g_pucActivePage s + g_ulEEPROMPgSize s)) as [Hroom|Hfull].
  - rewrite (SoftEEPROMWrite_append s Hwf Hroom k v Hk Hv) in Hrun.
    injection Hrun as <-.
    unfold prev_ok in *. unfold appended.
    change (prev_page (set_next _ (set_flash _ s))) with (prev_page s).
    cbn [flash set_next set_flash g_pucActivePage].
    pose proof (prev_page_is_page s _ Hcfg Ha) as Hq.
    pose proof (prev_page_ne s _ Hcfg Ha) as Hne.
    destruct (pages_disjoint _ _ _ Hcfg _ _ Hq Ha Hne) as [Hd|Hd];
      pose proof (wf_next_lo s Hwf); pose proof (vc_size_lo _ _ _ Hcfg);
      unfold is_used; rewrite !store_ne by lia; exact Hprev.
  - destruct (SoftEEPROMWrite_swap_spec s k v Hwf Hfull Hk Hv)
      as (s2 & Hrun2 & _ & Hact & Hnew & Hused & _ & Hframe).
    rewrite Hrun in Hrun2. injection Hrun2 as <-.
    destruct (PageSwap_full s Hwf Hfull) as (m' & l & Hswap & Hwf1 & Hroom1 & _).
    pose proof (SoftEEPROMWrite_full s Hwf Hfull k v Hk Hv m' l Hswap Hwf1 Hroom1)
      as Hrun3.
    rewrite Hrun in Hrun3. injection Hrun3 as E.
    apply (prev_ok_after_swap s s' Hwf Hgen); try (rewrite E; reflexivity).
    + destruct (following_page_disjoint s Hwf) as (_ & Hd & Hsz).
      apply Hframe; lia.
    + rewrite Hact. exact Hnew.
Qed.

Lemma restartable_clear s :
  restartable s -> generation_ok s ->
  exists s', SoftEEPROMClear s = Some (0, s') /\ restartable s'.
Proof.
  intros (Hwf & H1 & Hprev) Hgen.
  destruct (clear_actives s Hwf H1 Hgen) as (s' & Hrun & Hwf' & H1' & _).
  exists s'. split; [exact Hrun|]. split; [exact Hwf'|]. split; [exact H1'|].
  destruct (SoftEEPROMClear_spec s Hwf)
    as (m' & l & Hrun2 & _ & _ & Hl & Hin & Hp & _).
  rewrite Hrun in Hrun2. injection Hrun2 as E.
  rewrite Forall_forall in Hl.
  destruct (Hl m' (proj2 (list_elem_of_In _ _) Hin)) as (Hframe & _).
  apply (prev_ok_after_swap s s' Hwf Hgen); try (rewrite E; reflexivity).
  - rewrite E. change (flash (cleared m' l s)) with m'.
    destruct (following_page_disjoint s Hwf) as (_ & Hd & Hsz).
    apply Hframe; lia.
  - rewrite E. exact Hp.
Qed.

Lemma init_fresh_frame s ulStart ulEnd ulSize s' :
  valid_config ulStart ulEnd ulSize ->
  ulEnd <= ulFlashSize s ->
  active_count (flash s) (region_pages ulStart ulEnd ulSize) = 0%nat ->
  used_count (flash s) (region_pages ulStart ulEnd ulSize) = 0%nat ->
  SoftEEPROMInit ulStart ulEnd ulSize s = Some (0, s') ->
  g_pucEEPROMStart s' = ulStart /\ g_pucEEPROMEnd s' = ulEnd /\
  g_ulEEPROMPgSize s' = ulSize /\
  forall x, ~ (ulStart <= x < ulStart + ulSize) -> flash s' x = flash s x.
Proof.
  intros Hcfg Hfl Hact Hused.
  rewrite SoftEEPROMInit_unfold.
  destruct (Z.gtb_spec ulEnd (ulFlashSize s)); [lia|].
  rewrite !land_boundary by (destruct Hcfg; assumption).
  set (s1 := set_region ulStart ulEnd ulSize s).
  assert (Hcfg1 : valid_config (g_pucEEPROMStart s1) (g_pucEEPROMEnd s1)
                               (g_ulEEPROMPgSize s1)) by exact Hcfg.
  pose proof (start_is_page _ _ _ Hcfg) as Hst.
  destruct (PageErase_spec s1 ulStart Hcfg1 Hst) as (m2 & l2 & Herase & Hm2 & _).
  change (g_ulEEPROMPgSize s1) with ulSize in Hm2.
  change (flash s1) with (flash s) in Hm2.
  unfold init_recover. unfold bind at 1.
  rewrite (GetActivePageCount_eq s1 Hcfg1).
  change (pages_of s1) with (region_pages ulStart ulEnd ulSize).
  change (flash s1) with (flash s). rewrite Hact.
  change (u8 (Z.of_nat 0) =? 0) with true. cbv iota.
  unfold bind at 1. rewrite (GetUsedPageCount_eq s1 Hcfg1).
  change (pages_of s1) with (region_pages ulStart ulEnd ulSize).
  change (flash s1) with (flash s). rewrite Hused.
  change (u8 (Z.of_nat 0) =? 0) with true. cbv iota.
  unfold init_fresh. unfold bind at 1. unfold gets at 1.
  change (g_pucEEPROMStart s1) with ulStart.
  unfold init_activate. unfold bind at 1. rewrite Herase. cbn [negb Z.eqb].
  unfold bind at 1. rewrite PageDataWrite_word. cbn [negb Z.eqb].
  unfold bind, modify, ret. cbn [Z.eqb].
  intros Heq. injection Heq as <-. cbn.
  split; [reflexivity|]. split; [reflexivity|]. split; [reflexivity|].
  pose proof (vc_size_lo _ _ _ Hcfg) as Hlo.
  intros x Hx. rewrite store_ne by lia. rewrite Hm2. zb.
Qed.

Lemma restartable_fresh s ulStart ulEnd ulSize :
  valid_config ulStart ulEnd ulSize ->
  ulEnd <= ulFlashSize s ->
  active_count (flash s) (region_pages ulStart ulEnd ulSize) = 0%nat ->
  used_count (flash s) (region_pages ulStart ulEnd ulSize) = 0%nat ->
  exists s', SoftEEPROMInit ulStart ulEnd ulSize s = Some (0, s') /\
             restartable s' /\ generation_ok s'.
Proof.
  intros Hcfg Hfl Hact Hused.
  destruct (init_fresh_spec s ulStart ulEnd ulSize Hcfg Hfl Hact Hused)
    as (s' & Hrun & Hwf & H1 & Ha & Hn & Hg & _).
  destruct (init_fresh_frame s ulStart ulEnd ulSize s' Hcfg Hfl Hact Hused Hrun)
    as (Hst & Hen & Hsz & Hframe).
  exists s'. split; [exact Hrun|].
  split; [|unfold generation_ok; rewrite Hg; unfold ERASED_WORD; lia].
  split; [exact Hwf|]. split; [exact H1|].
  unfold prev_ok, prev_page. rewrite Ha, Hst, Hen, Hsz, Z.eqb_refl.
  pose proof (vc_size_lo _ _ _ Hcfg) as Hlo.
  assert (Hq : is_page ulStart ulEnd ulSize (ulEnd - ulSize)).
  { pose proof (prev_page_is_page s' ulStart) as H.
    unfold prev_page in H. rewrite Hst, Hen, Hsz, Z.eqb_refl in H.
    apply H; [exact Hcfg|apply (start_is_page _ _ _ Hcfg)]. }
  assert (Hne : ulEnd - ulSize <> ulStart).
  { pose proof (prev_page_ne s' ulStart) as H.
    unfold prev_page in H. rewrite Hst, Hen, Hsz, Z.eqb_refl in H.
    apply H; [exact Hcfg|apply (start_is_page _ _ _ Hcfg)]. }
  destruct (pages_disjoint _ _ _ Hcfg _ _ Hq (start_is_page _ _ _ Hcfg) Hne)
    as [Hd|Hd]; [destruct Hq; lia|].
  assert (Hu : is_used (flash s') (ulEnd - ulSize) = false).
  { unfold is_used. rewrite !Hframe by lia.
    apply (filter_length_zero _ _ Hused). apply In_region_pages; assumption. }
  rewrite Hu. discriminate.
Qed.

(** ** The bytes of a 16-bit word *)
Lemma lor_shiftl_add hi lo n :
  0 <= n -> 0 <= lo < 2 ^ n -> Z.lor (Z.shiftl hi n) lo = hi * 2 ^ n + lo.
Proof.
  intros Hn Hlo.
  assert (Hland : Z.land (Z.shiftl hi n) lo = 0).
  { apply Z.bits_inj'. intros i Hi. rewrite Z.land_spec, Z.bits_0.
    destruct (Z.lt_ge_cases i n).
    - rewrite Z.shiftl_spec_low by lia. reflexivity.
    - destruct (Z.eq_dec lo 0) as [->|Hv0]; [rewrite Z.bits_0; apply andb_false_r|].
      rewrite (Z.bits_above_log2 lo i); [apply andb_false_r|lia|].
      apply Z.log2_lt_pow2; [lia|].
      apply Z.lt_le_trans with (2 ^ n); [lia|].
      apply Z.pow_le_mono_r; lia. }
  rewrite <- Z.lxor_lor by exact Hland.
  rewrite <- Z.add_nocarry_lxor by exact Hland.
  rewrite Z.shiftl_mul_pow2 by lia. reflexivity.
Qed.

Lemma land_high_byte d :
  Z.land d 0xFF00 = Z.shiftl (Z.land (Z.shiftr d 8) 0xFF) 8.
Proof.
  change 0xFF00 with (Z.shiftl (Z.ones 8) 8). change 0xFF with (Z.ones 8).
  apply Z.bits_inj'. intros i Hi. rewrite Z.land_spec.
  destruct (Z.lt_ge_cases i 8).
  - rewrite !Z.shiftl_spec_low by lia. apply andb_false_r.
  - rewrite !Z.shiftl_spec by lia. rewrite Z.land_spec, Z.shiftr_spec by lia.
    replace (i - 8 + 8) with i by lia. reflexivity.
Qed.

Lemma merge_high d b :
  0 <= d < 2 ^ 16 -> is_byte b ->
  let w := u16 (Z.lor (Z.land d 0x00FF) (Z.shiftl (u16 b) 8)) in
  0 <= w < 2 ^ 16 /\
  u8 (Z.shiftr w 8) = b /\ u8 (Z.land w 0x00FF) = u8 (Z.land d 0x00FF).
Proof.
  intros Hd Hb w. unfold is_byte in Hb.
  assert (Hw : w = 256 * b + d mod 256).
  { unfold w. rewrite (u16_small b) by lia. rewrite Z.lor_comm.
    change 0x00FF with (Z.ones 8). rewrite Z.land_ones by lia.
    change (2 ^ 8) with 256.
    rewrite lor_shiftl_add by (change (2 ^ 8) with 256; zlia).
    change (2 ^ 8) with 256. unfold u16. change (2 ^ 16) with 65536. zlia. }
  rewrite Hw. change 0x00FF with (Z.ones 8).
  rewrite !Z.land_ones, Z.shiftr_div_pow2 by lia.
  unfold u8. change (2 ^ 8) with 256. change (2 ^ 16) with 65536 in *. zlia.
Qed.

Lemma merge_low d b :
  0 <= d < 2 ^ 16 -> is_byte b ->
  let w := u16 (Z.lor (Z.land d 0xFF00) (u16 b)) in
  0 <= w < 2 ^ 16 /\
  u8 (Z.land w 0x00FF) = b /\ u8 (Z.shiftr w 8) = u8 (Z.shiftr d 8).
Proof.
  intros Hd Hb w. unfold is_byte in Hb.
  assert (Hw : w = 256 * (d / 256) + b).
  { unfold w. rewrite (u16_small b) by lia. rewrite land_high_byte.
    change 0xFF with (Z.ones 8).
    rewrite Z.land_ones, Z.shiftr_div_pow2 by lia.
    rewrite lor_shiftl_add by (change (2 ^ 8) with 256; lia).
    change (2 ^ 8) with 256. unfold u16. change (2 ^ 16) with 65536 in *. zlia. }
  rewrite Hw. change 0x00FF with (Z.ones 8).
  rewrite !Z.land_ones, !Z.shiftr_div_pow2 by lia.
  unfold u8. change (2 ^ 8) with 256. change (2 ^ 16) with 65536 in *. zlia.
Qed.

Lemma pair_word b0 b1 :
  is_byte b0 -> is_byte b1 ->
  let w := u16 (Z.lor (u16 b0) (Z.shiftl (u16 b1) 8)) in
  0 <= w < 2 ^ 16 /\
  u8 (Z.land w 0x00FF) = b0 /\ u8 (Z.shiftr w 8) = b1.
Proof.
  intros H0 H1 w. unfold is_byte in *.
  assert (Hw : w = 256 * b1 + b0).
  { unfold w. rewrite (u16_small b0), (u16_small b1) by lia. rewrite Z.lor_comm.
    rewrite lor_shiftl_add by (change (2 ^ 8) with 256; lia).
    change (2 ^ 8) with 256. unfold u16. change (2 ^ 16) with 65536. zlia. }
  rewrite Hw. change 0x00FF with (Z.ones 8).
  rewrite !Z.land_ones, !Z.shiftr_div_pow2 by lia.
  unfold u8. change (2 ^ 8) with 256. change (2 ^ 16) with 65536 in *. zlia.
Qed.

Lemma word_at_range s k : 0 <= word_at s k < 2 ^ 16.
Proof.
  unfold word_at, view.
  destruct (latest_word k _) as [w|]; cbn.
  - unfold entry_value, u16. apply Z.mod_pos_bound. lia.
  - lia.
Qed.

(** ** The loops of the wrapper *)
Lemma word_at_update s s' k v :
  (forall k', view s' k' = if k' =? k then Some v else view s k') ->
  forall k', word_at s' k' = if k' =? k then v else word_at s k'.
Proof.
  intros H k'. unfold word_at. rewrite H. destruct (k' =? k); reflexivity.
Qed.

Lemma byte_at_merge s s1 addr b w :
  0 <= addr -> is_byte b ->
  w = (if addr mod 2 =? 1
       then u16 (Z.lor (Z.land (word_at s (addr / 2)) 0x00FF)
                       (Z.shiftl (u16 b) 8))
       else u16 (Z.lor (Z.land (word_at s (addr / 2)) 0xFF00) (u16 b))) ->
  (forall k', word_at s1 k' = if k' =? addr / 2 then w else word_at s k') ->
  forall x, 0 <= x -> byte_at s1 x = if x =? addr then b else byte_at s x.
Proof.
  intros Ha Hb Hw Hword x Hx.
  destruct (merge_high _ b (word_at_range s (addr / 2)) Hb) as (_ & Hh1 & Hl1).
  destruct (merge_low _ b (word_at_range s (addr / 2)) Hb) as (_ & Hl2 & Hh2).
  unfold byte_at. rewrite Hword.
  destruct (Z.eqb_spec x addr) as [->|Hne].
  - rewrite Z.eqb_refl. rewrite Hw. destruct (addr mod 2 =? 1); assumption.
  - destruct (Z.eqb_spec (x / 2) (addr / 2)) as [E|E]; [|reflexivity].
    rewrite E, Hw.
    destruct (Z.eqb_spec (addr mod 2) 1) as [Ho|Ho],
             (Z.eqb_spec (x mod 2) 1) as [Hxo|Hxo];
      try assumption; exfalso; zlia.
Qed.

Lemma byte_at_pair s s1 addr b0 b1 w :
  0 <= addr -> addr mod 2 <> 1 -> is_byte b0 -> is_byte b1 ->
  w = u16 (Z.lor (u16 b0) (Z.shiftl (u16 b1) 8)) ->
  (forall k', word_at s1 k' = if k' =? addr / 2 then w else word_at s k') ->
  forall x, 0 <= x ->
    byte_at s1 x = if x =? addr then b0
                   else if x =? addr + 1 then b1 else byte_at s x.
Proof.
  intros Ha Hev Hb0 Hb1 Hw Hword x Hx.
  destruct (pair_word b0 b1 Hb0 Hb1) as (_ & Hlo & Hhi).
  unfold byte_at. rewrite Hword.
  destruct (Z.eqb_spec x addr) as [->|Hne].
  - rewrite Z.eqb_refl, Hw.
    destruct (Z.eqb_spec (addr mod 2) 1); [contradiction|exact Hlo].
  - destruct (Z.eqb_spec x (addr + 1)) as [->|Hne1].
    + replace ((addr + 1) / 2) with (addr / 2) by zlia.
      rewrite Z.eqb_refl, Hw.
      destruct (Z.eqb_spec ((addr + 1) mod 2) 1); [exact Hhi|exfalso; zlia].
    + destruct (Z.eqb_spec (x / 2) (addr / 2)) as [E|E]; [exfalso; zlia|].
      reflexivity.
Qed.

Lemma nth_range_cons (addr n x b y : Z) (rest : list Z) :
  0 <= n ->
  (if (addr + 1 <=? x) && (x <? addr + 1 + n)
   then nth (Z.to_nat (x - (addr + 1))) rest 0
   else if x =? addr then b else y)
  = if (addr <=? x) && (x <? addr + (n + 1))
    then nth (Z.to_nat (x - addr)) (b :: rest) 0 else y.
Proof.
  intros Hn.
  destruct (Z.leb_spec (addr + 1) x), (Z.ltb_spec x (addr + 1 + n)),
           (Z.eqb_spec x addr), (Z.leb_spec addr x), (Z.ltb_spec x (addr + (n + 1)));
    cbn [andb]; try lia; try reflexivity; subst;
    first [ rewrite Z.sub_diag; reflexivity
          | replace (Z.to_nat (x - addr))
              with (S (Z.to_nat (x - (addr + 1)))) by lia; reflexivity ].
Qed.

Lemma nth_range_cons2 (addr m x b0 b1 y : Z) (rest : list Z) :
  0 <= m ->
  (if (addr + 2 <=? x) && (x <? addr + 2 + m)
   then nth (Z.to_nat (x - (addr + 2))) rest 0
   else if x =? addr then b0 else if x =? addr + 1 then b1 else y)
  = if (addr <=? x) && (x <? addr + (m + 2))
    then nth (Z.to_nat (x - addr)) (b0 :: b1 :: rest) 0 else y.
Proof.
  intros Hm.
  destruct (Z.leb_spec (addr + 2) x), (Z.ltb_spec x (addr + 2 + m)),
           (Z.eqb_spec x addr), (Z.eqb_spec x (addr + 1)),
           (Z.leb_spec addr x), (Z.ltb_spec x (addr + (m + 2)));
    cbn [andb]; try lia; try reflexivity; subst;
    first [ rewrite Z.sub_diag; reflexivity
          | replace (addr + 1 - addr) with 1 by lia; reflexivity
          | replace (Z.to_nat (x - addr))
              with (S (S (Z.to_nat (x - (addr + 2))))) by lia; reflexivity ].
Qed.

Section WrapperLoops.

Variable Inv : Z -> State -> Prop.

Hypothesis Inv_wf : forall n s, Inv n s -> wf s.

Hypothesis Inv_mono : forall n s, 0 <= n -> Inv (n + 1) s -> Inv n s.

Hypothesis Inv_write : forall n s k v,
  0 <= n -> Inv (n + 1) s -> 0 <= k < NUM_IDS -> 0 <= v < 2 ^ 16 ->
  exists s', SoftEEPROMWrite k v s = Some (0, s') /\ Inv n s' /\
             forall k', view s' k' = if k' =? k then Some v else view s k'.

Lemma WrapperWrite_loop_spec fuel : forall addr data s,
  Inv (Z.of_nat (length data)) s ->
  0 <= addr -> Forall is_byte data ->
  addr + Z.of_nat (length data) <= 254 ->
  (length data <= fuel)%nat ->
  exists s',
    WrapperWrite_loop fuel addr (Z.of_nat (length data)) data 0 s
    = Some (0, s') /\
    Inv 0 s' /\
    forall x, 0 <= x ->
      byte_at s' x =
      if (addr <=? x) && (x <? addr + Z.of_nat (length data))
      then nth (Z.to_nat (x - addr)) data 0 else byte_at s x.
Proof.
  induction fuel as [|fuel IH]; intros addr data s HI Ha Hb Hr Hf.
  - destruct data as [|b rest]; [|simpl in Hf; lia].
    exists s. split; [reflexivity|]. split; [exact HI|].
    intros x Hx. simpl length. zb.
  - destruct data as [|b rest].
    { exists s. split; [reflexivity|]. split; [exact HI|].
      intros x Hx. simpl length. zb. }
    cbn [WrapperWrite_loop].
    set (n := Z.of_nat (length rest)).
    assert (Hlen : Z.of_nat (length (b :: rest)) = n + 1)
      by (unfold n; simpl length; lia).
    rewrite Hlen in *.
    destruct (Z.gtb_spec (n + 1) 0) as [_|]; [|lia].
    inversion Hb as [|? ? Hb0 Hrest]; subst.
    assert (Hk : 0 <= addr / 2 < NUM_IDS)
      by (unfold NUM_IDS, MAX_SOFTEEPROM_IDS; zlia).
    pose proof (Inv_wf _ _ HI) as Hwf.
    assert (Hu1 : u16 (addr + 1) = addr + 1)
      by (apply u16_small; change (2 ^ 16) with 65536; lia).
    assert (Hu2 : u16 (addr + 2) = addr + 2)
      by (apply u16_small; change (2 ^ 16) with 65536; lia).
    destruct ((addr mod 2 =? 1) || (n + 1 =? 1)) eqn:Hodd.
    + (* one byte, merged into the stored word *)
      unfold bind at 1. rewrite (SoftEEPROMRead_eq s Hwf _ Hk).
      cbn [snd]. 
      pose proof (word_at_range s (addr / 2)) as Hd.
      unfold word_at in Hd.
      destruct (read_out (view s (addr / 2))) as [d fnd] eqn:Er.
      cbn [fst] in Hd.
      unfold bind at 1. cbn [next_byte]. unfold ret at 1.
      set (w := if addr mod 2 =? 1
                then u16 (Z.lor (Z.land d 0x00FF) (Z.shiftl (u16 b) 8))
                else u16 (Z.lor (Z.land d 0xFF00) (u16 b))).
      destruct (merge_high d b Hd Hb0) as (Hw1 & Hh1 & Hl1).
      destruct (merge_low d b Hd Hb0) as (Hw2 & Hl2 & Hh2).
      assert (Hw : 0 <= w < 2 ^ 16) by (unfold w; destruct (addr mod 2 =? 1); assumption).
      destruct (Inv_write n s (addr / 2) w ltac:(unfold n; lia) HI Hk Hw)
        as (s1 & Hrun & HI1 & Hview).
      unfold bind at 1. rewrite Hrun. cbn [negb Z.eqb].
      replace (u16 (n + 1 - 1)) with n
        by (replace (n + 1 - 1) with n by lia; symmetry; apply u16_small;
            change (2 ^ 16) with 65536; unfold n; lia).
      rewrite Hu1.
      destruct (IH (addr + 1) rest s1 HI1 ltac:(lia) Hrest ltac:(fold n; lia)
                   ltac:(simpl in Hf; lia))
        as (s' & Hloop & HI' & Hbytes).
      fold n in Hloop, Hbytes.
      exists s'. split; [exact Hloop|]. split; [exact HI'|].
      intros x Hx. rewrite (Hbytes x Hx).
      rewrite (byte_at_merge s s1 addr b w Ha Hb0) with (x := x);
        [apply nth_range_cons; unfold n; lia| |exact (word_at_update s s1 _ _ Hview)|exact Hx].
      unfold w, word_at. rewrite Er. reflexivity.
    + (* two bytes *)
      apply orb_false_iff in Hodd as [Hev Hn1].
      apply Z.eqb_neq in Hev. apply Z.eqb_neq in Hn1.
      destruct rest as [|b1 rest']; [unfold n in Hn1; simpl in Hn1; lia|].
      inversion Hrest as [|? ? Hb1 Hrest']; subst.
      set (m := Z.of_nat (length rest')).
      assert (Hn : n = m + 1) by (unfold n, m; simpl length; lia).
      unfold bind at 1. cbn [next_byte]. unfold ret at 1.
      unfold bind at 1. cbn [next_byte]. unfold ret at 1.
      set (w := u16 (Z.lor (u16 b) (Z.shiftl (u16 b1) 8))).
      destruct (pair_word b b1 Hb0 Hb1) as (Hw & _).
      fold w in Hw.
      destruct (Inv_write n s (addr / 2) w ltac:(unfold n; lia) HI Hk Hw)
        as (s1 & Hrun & HI1 & Hview).
      unfold bind at 1. rewrite Hrun. cbn [negb Z.eqb].
      replace (u16 (n + 1 - 2)) with m
        by (replace (n + 1 - 2) with m by lia; symmetry; apply u16_small;
            change (2 ^ 16) with 65536; unfold m; lia).
      rewrite Hu2. rewrite Hn in HI1.
      destruct (IH (addr + 2) rest' s1 (Inv_mono m s1 ltac:(unfold m; lia) HI1)
                   ltac:(lia) Hrest' ltac:(fold m; lia)
                   ltac:(simpl in Hf; lia))
        as (s' & Hloop & HI' & Hbytes).
      fold m in Hloop, Hbytes.
      exists s'. split; [exact Hloop|]. split; [exact HI'|].
      intros x Hx. rewrite (Hbytes x Hx).
      rewrite (byte_at_pair s s1 addr b b1 w Ha Hev Hb0 Hb1 eq_refl
                            (word_at_update s s1 _ _ Hview) x Hx).
      rewrite Hn. replace (m + 1 + 1) with (m + 2) by lia.
      apply nth_range_cons2. unfold m. lia.
Qed.

Lemma WrapperWrite_bytes E s addr data :
  Inv (Z.of_nat (length data)) s ->
  0 <= addr -> Forall is_byte data ->
  addr + Z.of_nat (length data) <= 254 ->
  exists s',
    SoftEEPROM_WrapperWrite E addr (Z.of_nat (length data)) data s
    = Some (WReturn 0, s') /\
    Inv 0 s' /\
    forall x, 0 <= x ->
      byte_at s' x =
      if (addr <=? x) && (x <? addr + Z.of_nat (length data))
      then nth (Z.to_nat (x - addr)) data 0 else byte_at s x.
Proof.
  intros HI Ha Hb Hr. unfold SoftEEPROM_WrapperWrite.
  destruct (Z.gtb_spec ((addr + Z.of_nat (length data)) / 2) MAX_SOFTEEPROM_IDS)
    as [Hgt|_].
  { unfold MAX_SOFTEEPROM_IDS in Hgt. exfalso. zlia. }
  destruct (WrapperWrite_loop_spec (Z.to_nat (Z.of_nat (length data)))
                                   addr data s HI Ha Hb Hr)
    as (s' & Hrun & HI' & Hbytes); [lia|].
  exists s'. unfold bind. rewrite Hrun. split; [reflexivity|].
  split; [exact HI'|exact Hbytes].
Qed.

End WrapperLoops.

Lemma bytes_from_nil s a : bytes_from s a 0 = [].
Proof. reflexivity. Qed.

Lemma bytes_from_cons s a n :
  0 < n -> bytes_from s a n = byte_at s a :: bytes_from s (a + 1) (n - 1).
Proof.
  intros Hn. unfold bytes_from. rewrite seqZ_cons by lia.
  rewrite fmap_cons. rewrite <- Z.add_1_r, <- Z.sub_1_r. reflexivity.
Qed.

Lemma WrapperRead_loop_spec s (Hwf : wf s) fuel : forall addr size d out,
  0 <= addr -> 0 <= size -> addr + size <= 254 ->
  size <= Z.of_nat fuel ->
  WrapperRead_loop fuel addr size d out 0 s
  = Some ((0, out ++ bytes_from s addr size), s).
Proof.
  induction fuel as [|fuel IH]; intros addr size d out Ha Hs Hr Hf.
  - assert (size = 0) as -> by lia. cbn. rewrite app_nil_r. reflexivity.
  - cbn [WrapperRead_loop].
    destruct (Z.gtb_spec size 0) as [Hpos|Hz].
    2:{ assert (size = 0) as -> by lia. unfold ret.
        rewrite bytes_from_nil, app_nil_r. reflexivity. }
    assert (Hk : 0 <= addr / 2 < NUM_IDS)
      by (unfold NUM_IDS, MAX_SOFTEEPROM_IDS; zlia).
    unfold bind at 1. rewrite (SoftEEPROMRead_eq s Hwf _ Hk). cbn [fst snd].
    assert (Hw : word_at s (addr / 2) = fst (read_out (view s (addr / 2))))
      by reflexivity.
    destruct (read_out (view s (addr / 2))) as [w fnd]. cbn [fst] in Hw.
    cbv beta iota zeta.
    assert (Hu : forall x, 0 <= x <= 254 -> u16 x = x)
      by (intros x Hx; apply u16_small; change (2 ^ 16) with 65536; lia).
    destruct (Z.eqb_spec (addr mod 2) 1) as [Hodd|Hev].
    + rewrite !Hu by lia. rewrite IH by lia.
      rewrite (bytes_from_cons s addr size) by lia.
      rewrite <- app_assoc. cbn [app]. unfold byte_at.
      rewrite Hodd, Hw. reflexivity.
    + destruct (Z.gtb_spec size 1) as [H2|H1].
      * rewrite !Hu by lia. rewrite IH by lia.
        rewrite (bytes_from_cons s addr size) by lia.
        rewrite (bytes_from_cons s (addr + 1) (size - 1)) by lia.
        rewrite <- app_assoc. cbn [app]. unfold byte_at.
        replace ((addr + 1) / 2) with (addr / 2) by zlia. rewrite Hw.
        destruct (Z.eqb_spec (addr mod 2) 1); [contradiction|].
        destruct (Z.eqb_spec ((addr + 1) mod 2) 1); [|exfalso; zlia].
        replace (addr + 1 + 1) with (addr + 2) by lia.
        replace (size - 1 - 1) with (size - 2) by lia. reflexivity.
      * assert (size = 1) as -> by lia. rewrite !Hu by lia.
        rewrite IH by lia. rewrite (bytes_from_cons s addr 1) by lia.
        rewrite bytes_from_nil. cbn [Z.sub Z.add Z.pos_sub Z.opp].
        rewrite bytes_from_nil, app_nil_r. unfold byte_at. rewrite Hw.
        destruct (Z.eqb_spec (addr mod 2) 1); [contradiction|]. reflexivity.
Qed.

Lemma WrapperRead_bytes E s addr size :
  wf s -> 0 <= addr -> 0 <= size -> addr + size <= 254 ->
  SoftEEPROM_WrapperRead E addr size s
  = Some ((WReturn 0, bytes_from s addr size), s).
Proof.
  intros Hwf Ha Hs Hr. unfold SoftEEPROM_WrapperRead.
  destruct (Z.gtb_spec ((addr + size) / 2) MAX_SOFTEEPROM_IDS) as [Hgt|_].
  { unfold MAX_SOFTEEPROM_IDS in Hgt. exfalso. zlia. }
  unfold bind. rewrite (WrapperRead_loop_spec s Hwf) by lia. reflexivity.
Qed.

Lemma bytes_from_ext s s' a n :
  0 <= a -> (forall x, a <= x < a + n -> byte_at s' x = byte_at s x) ->
  bytes_from s' a n = bytes_from s a n.
Proof.
  intros Ha H. unfold bytes_from. apply list_fmap_ext.
  intros i x Hx. apply lookup_seqZ in Hx as [-> Hi]. apply H. lia.
Qed.

Lemma bytes_from_data s a data :
  (forall x, a <= x < a + Z.of_nat (length data) ->
             byte_at s x = nth (Z.to_nat (x - a)) data 0) ->
  bytes_from s a (Z.of_nat (length data)) = data.
Proof.
  revert a. induction data as [|b rest IH]; intros a H; [reflexivity|].
  rewrite bytes_from_cons by (simpl length; lia).
  rewrite H by (simpl length; lia). rewrite Z.sub_diag. cbn [Z.to_nat nth].
  f_equal. replace (Z.of_nat (length (b :: rest)) - 1)
    with (Z.of_nat (length rest)) by (simpl length; lia).
  apply IH. intros x Hx. rewrite H by (simpl length; lia).
  replace (Z.to_nat (x - a)) with (S (Z.to_nat (x - (a + 1)))) by lia.
  reflexivity.
Qed.

(** ** Restart after writes *)
Lemma write_region_generation s k v s' :
  wf s -> generation_ok s ->
  0 <= k < NUM_IDS -> 0 <= v < 2 ^ 16 ->
  SoftEEPROMWrite k v s = Some (0, s') ->
  same_region s s' /\
  (flash s' (g_pucActivePage s') = flash s (g_pucActivePage s) \/
   flash s' (g_pucActivePage s') = flash s (g_pucActivePage s) + 1).
Proof.
  intros Hwf Hgen Hk Hv Hrun.
  destruct (Z.lt_ge_cases (g_pucNextAvailEntry s)
                          (g_pucActivePage s + g_ulEEPROMPgSize s)) as [Hroom|Hfull].
  - rewrite (SoftEEPROMWrite_append s Hwf Hroom k v Hk Hv) in Hrun.
    injection Hrun as <-. split; [repeat split|]. left.
    unfold appended. cbn [flash set_next set_flash g_pucActivePage].
    apply store_ne. pose proof (wf_next_lo s Hwf). lia.
  - destruct (SoftEEPROMWrite_swap_spec s k v Hwf Hfull Hk Hv)
      as (s2 & Hrun2 & _ & Hact & Hnew & _).
    rewrite Hrun in Hrun2. injection Hrun2 as <-.
    destruct (PageSwap_full s Hwf Hfull) as (m' & l & Hswap & Hwf1 & Hroom1 & _).
    pose proof (SoftEEPROMWrite_full s Hwf Hfull k v Hk Hv m' l Hswap Hwf1 Hroom1)
      as Hrun3.
    rewrite Hrun in Hrun3. injection Hrun3 as E.
    split; [rewrite E; repeat split|]. right. rewrite Hact, Hnew.
    unfold generation_ok, ERASED_WORD in Hgen.
    apply u32_small. change (2 ^ 32) with 4294967296. lia.
Qed.

Lemma durable_wf s0 n s : durable s0 n s -> wf s.
Proof. intros ((H & _) & _). exact H. Qed.

Lemma durable_mono s0 n s : 0 <= n -> durable s0 (n + 1) s -> durable s0 n s.
Proof.
  intros Hn (Hr & Hreg & H0 & H1). split; [exact Hr|]. split; [exact Hreg|].
  split; [exact H0|lia].
Qed.

Lemma durable_write s0 n s k v :
  0 <= n -> durable s0 (n + 1) s -> 0 <= k < NUM_IDS -> 0 <= v < 2 ^ 16 ->
  exists s', SoftEEPROMWrite k v s = Some (0, s') /\ durable s0 n s' /\
             forall k', view s' k' = if k' =? k then Some v else view s k'.
Proof.
  intros Hn (Hr & Hreg & H0 & H1) Hk Hv.
  assert (Hgen : generation_ok s) by (unfold generation_ok; lia).
  destruct (restartable_write s k v Hr Hgen Hk Hv) as (s' & Hrun & Hr').
  destruct Hr as (Hwf & _).
  destruct (SoftEEPROMWrite_spec s k v Hwf Hk Hv) as (s2 & Hrun2 & _ & Hview).
  rewrite Hrun in Hrun2. injection Hrun2 as <-.
  destruct (write_region_generation s k v s' Hwf Hgen Hk Hv Hrun)
    as ((R1 & R2 & R3) & Hg).
  exists s'. split; [exact Hrun|]. split; [|exact Hview].
  split; [exact Hr'|]. destruct Hreg as (Q1 & Q2 & Q3).
  split; [unfold same_region; rewrite R1, R2, R3; auto|].
  destruct Hg as [->| ->]; lia.
Qed.

Lemma view_restarted s s0 k :
  flash s0 = flash s -> view (restarted s s0) k = view s k.
Proof. intros Hfl. unfold view, used_slots. cbn. rewrite Hfl. reflexivity. Qed.

Lemma view_empty s k :
  g_pucNextAvailEntry s = g_pucActivePage s + 8 -> view s k = None.
Proof.
  intros H. unfold view, used_slots. rewrite H.
  replace (g_pucActivePage s + 8 - (g_pucActivePage s + 8)) with 0 by lia.
  reflexivity.
Qed.

(** ** The example device, continued *)
Lemma booted_restartable :
  restartable booted /\ flash booted (g_pucActivePage booted) = 0 /\
  g_pucEEPROMStart booted = EEPROM_START_ADDR /\
  g_pucEEPROMEnd booted = EEPROM_END_ADDR /\
  g_ulEEPROMPgSize booted = EEPROM_PAGE_SIZE /\
  g_pucActivePage booted = EEPROM_START_ADDR.
Proof.
  destruct booted_facts as (Hboot & _).
  destruct (init_fresh_spec (power_on blank) EEPROM_START_ADDR EEPROM_END_ADDR
                            EEPROM_PAGE_SIZE example_config)
    as (s1 & Hrun1 & _ & _ & Ha & _ & Hg & _);
    [vm_compute; discriminate|reflexivity|reflexivity|].
  destruct (restartable_fresh (power_on blank) EEPROM_START_ADDR EEPROM_END_ADDR
                              EEPROM_PAGE_SIZE example_config)
    as (s' & Hrun & Hr & _);
    [vm_compute; discriminate|reflexivity|reflexivity|].
  destruct (init_fresh_frame (power_on blank) EEPROM_START_ADDR EEPROM_END_ADDR
                             EEPROM_PAGE_SIZE s' example_config)
    as (R1 & R2 & R3 & _);
    [vm_compute; discriminate|reflexivity|reflexivity|exact Hrun|].
  unfold boot in Hboot. rewrite Hrun in Hboot, Hrun1.
  injection Hboot as <-. injection Hrun1 as <-.
  split; [exact Hr|]. split; [exact Hg|]. auto.
Qed.

Lemma write_restart_spec s k v :
  restartable s -> generation_ok s ->
  0 <= k < NUM_IDS -> 0 <= v < 2 ^ 16 ->
  exists s1,
    SoftEEPROMWrite k v s = Some (0, s1) /\
    forall s0,
      flash s0 = flash s1 -> g_pucEEPROMEnd s <= ulFlashSize s0 ->
      exists s2,
        SoftEEPROMInit (g_pucEEPROMStart s) (g_pucEEPROMEnd s)
                       (g_ulEEPROMPgSize s) s0 = Some (0, s2) /\
        SoftEEPROMRead k s2 = Some ((0, Some (v, true)), s2) /\
        forall k', 0 <= k' < NUM_IDS -> k' <> k ->
                   fst <$> SoftEEPROMRead k' s2 = fst <$> SoftEEPROMRead k' s.
Proof.
  intros Hr Hgen Hk Hv.
  destruct (restartable_write s k v Hr Hgen Hk Hv) as (s1 & Hrun & Hr1).
  destruct Hr as (Hwf & _).
  destruct (SoftEEPROMWrite_spec s k v Hwf Hk Hv) as (s1' & Hrun' & _ & Hview).
  rewrite Hrun in Hrun'. injection Hrun' as <-.
  destruct (write_region_generation s k v s1 Hwf Hgen Hk Hv Hrun)
    as ((R1 & R2 & R3) & _).
  exists s1. split; [exact Hrun|]. intros s0 Hfl Hsize.
  destruct Hr1 as (Hwf1 & H11 & Hprev1).
  destruct (init_restart_spec s1 s0 Hwf1 H11 Hprev1 Hfl)
    as (Hinit & Hwf2 & Hreads); [rewrite R2; exact Hsize|].
  rewrite R1, R2, R3 in Hinit.
  exists (restarted s1 s0). split; [exact Hinit|]. split.
  - rewrite (SoftEEPROMRead_eq _ Hwf2 k Hk).
    rewrite (view_restarted s1 s0 k Hfl), Hview, Z.eqb_refl. reflexivity.
  - intros k' Hk' Hne. rewrite Hreads.
    rewrite (SoftEEPROMRead_eq _ Hwf1 k' Hk'), (SoftEEPROMRead_eq _ Hwf k' Hk').
    rewrite Hview. destruct (Z.eqb_spec k' k); [contradiction|reflexivity].
Qed.


Lemma write_all_durable s0 ws : forall m s s',
  0 <= m ->
  durable s0 (Z.of_nat (length ws) + m) s ->
  Forall ushort_args ws -> Forall valid_key ws ->
  write_all ws s = Some s' ->
  durable s0 m s'.
Proof.
  induction ws as [|[k v] ws IH]; intros m s s' Hm Hd Hty Hkeys Hrun.
  - cbn in Hrun. injection Hrun as <-. exact Hd.
  - inversion Hty as [|? ? [Hk16 Hv16] Hty']; subst.
    inversion Hkeys as [|? ? Hk Hkeys']; subst.
    cbn [fst snd] in *. unfold valid_key in Hk. cbn [fst] in Hk.
    replace (Z.of_nat (length ((k, v) :: ws)) + m)
      with (Z.of_nat (length ws) + m + 1) in Hd by (simpl length; lia).
    destruct (durable_write s0 (Z.of_nat (length ws) + m) s k v
                ltac:(lia) Hd Hk Hv16)
      as (s1 & Hw & Hd1 & _).
    cbn [write_all] in Hrun. rewrite Hw in Hrun.
    exact (IH m s1 s' Hm Hd1 Hty' Hkeys' Hrun).
Qed.

Lemma filled_restartable :
  restartable filled /\ generation_ok filled /\
  g_pucEEPROMEnd filled <= ulFlashSize (power_on (flash filled)) /\
  flash filled (g_pucActivePage filled) + 1000 < ERASED_WORD - 1.
Proof.
  destruct booted_restartable as (Hr & Hg & _ & Hen & _).
  destruct filled_facts as (Hrun & _).
  assert (Hty : Forall ushort_args fill_run) by (apply ushort_argsb_spec; reflexivity).
  assert (Hkeys : Forall valid_key fill_run).
  { apply Forall_forall. intros kv Hin. apply list_elem_of_In in Hin.
    unfold fill_run in Hin. apply in_map_iff in Hin as (i & <- & _).
    unfold valid_key, NUM_IDS, MAX_SOFTEEPROM_IDS. simpl. zlia. }
  assert (Hd : durable booted (Z.of_nat (length fill_run) + 1000) booted).
  { split; [exact Hr|]. split; [repeat split|]. rewrite Hg.
    split; [lia|]. vm_compute. reflexivity. }
  destruct (write_all_durable booted fill_run 1000 booted filled ltac:(lia)
              Hd Hty Hkeys Hrun) as (Hr' & (_ & R2 & _) & H0 & H1).
  split; [exact Hr'|]. split; [unfold generation_ok; lia|].
  split; [|exact H1]. rewrite R2, Hen. vm_compute. discriminate.
Qed.

Lemma flash_power_on (m : mem) : flash (power_on m) = m.
Proof. reflexivity. Qed.

(* ===================================================================== *)
(** * Further properties of the code *)

(** X1.  PageErase on a page of the region succeeds: afterwards every word
    of the page reads 0xFFFFFFFF (so the read-back of the two status words
    passes), every word outside the page is as before, and the engine's
    pointers and flag are untouched. *)
Theorem PageErase_erases_page s p :
  valid_config (g_pucEEPROMStart s) (g_pucEEPROMEnd s) (g_ulEEPROMPgSize s) ->
  is_page (g_pucEEPROMStart s) (g_pucEEPROMEnd s) (g_ulEEPROMPgSize s) p ->
  exists s',
    PageErase p s = Some (0, s') /\
    (forall x, p <= x < p + g_ulEEPROMPgSize s -> flash s' x = ERASED_WORD) /\
    (forall x, ~ (p <= x < p + g_ulEEPROMPgSize s) -> flash s' x = flash s x) /\
    g_pucActivePage s' = g_pucActivePage s /\
    g_pucNextAvailEntry s' = g_pucNextAvailEntry s /\
    g_bEEPROMInitialized s' = g_bEEPROMInitialized s.
Proof.
  intros Hcfg Hp.
  destruct (PageErase_spec s p Hcfg Hp) as (m' & l & Hrun & Hm' & _).
  exists (with_medium m' l s). split; [exact Hrun|].
  split; [|split; [|auto]].
  - intros x Hx. cbn [flash with_medium]. rewrite Hm'. zb.
  - intros x Hx. cbn [flash with_medium]. rewrite Hm'. zb.
Qed.

Lemma PageErase_erases_page_witness :
  valid_config (g_pucEEPROMStart booted) (g_pucEEPROMEnd booted)
               (g_ulEEPROMPgSize booted) /\
  is_page (g_pucEEPROMStart booted) (g_pucEEPROMEnd booted)
          (g_ulEEPROMPgSize booted) (g_pucActivePage booted) /\
  exists s',
    PageErase (g_pucActivePage booted) booted = Some (0, s') /\
    flash s' (g_pucActivePage booted) = ERASED_WORD.
Proof.
  destruct booted_facts as (_ & Hwf & _).
  pose proof (wf_config booted Hwf) as Hcfg.
  pose proof (wf_is_page booted Hwf) as Ha.
  split; [exact Hcfg|]. split; [exact Ha|].
  destruct (PageErase_erases_page booted _ Hcfg Ha) as (s' & Hrun & Hin & _).
  exists s'. split; [exact Hrun|]. apply Hin.
  pose proof (vc_size_lo _ _ _ Hcfg). lia.
Defined.

(** X2.  GetActivePageCount and GetUsedPageCount leave the state alone
    and return the number of pages of the region that are marked active,
    respectively used, reduced modulo 256 by their unsigned char counter.
    No page is both, so the two numbers add up to at most the number of
    pages; with fewer than 256 pages the counts are exact. *)
Theorem page_counts s :
  valid_config (g_pucEEPROMStart s) (g_pucEEPROMEnd s) (g_ulEEPROMPgSize s) ->
  let n := (g_pucEEPROMEnd s - g_pucEEPROMStart s) / g_ulEEPROMPgSize s in
  let na := Z.of_nat (active_count (flash s) (pages_of s)) in
  let nu := Z.of_nat (used_count (flash s) (pages_of s)) in
  GetActivePageCount s = Some (na mod 256, s) /\
  GetUsedPageCount s = Some (nu mod 256, s) /\
  na + nu <= n /\
  (n < 256 ->
   GetActivePageCount s = Some (na, s) /\ GetUsedPageCount s = Some (nu, s)).
Proof.
  intros Hcfg n na nu.
  pose proof (GetActivePageCount_eq s Hcfg) as Ha.
  pose proof (GetUsedPageCount_eq s Hcfg) as Hu.
  assert (Hsum : na + nu <= n).
  { pose proof (filter_exclusive_length (is_active (flash s)) (is_used (flash s))
                  (pages_of s) (is_active_used_exclusive (flash s))) as H.
    unfold pages_of in H at 3. rewrite region_pages_length in H.
    unfold na, nu, active_count, used_count, n.
    destruct Hcfg. lia. }
  split; [exact Ha|]. split; [exact Hu|]. split; [exact Hsum|].
  intros Hn. rewrite Ha, Hu. unfold u8. fold na nu.
  assert (0 <= na) by (unfold na; lia). assert (0 <= nu) by (unfold nu; lia).
  clear Ha Hu. clearbody n na nu.
  rewrite !Z.mod_small by (change (2 ^ 8) with 256; lia). auto.
Qed.

Lemma page_counts_witness :
  valid_config (g_pucEEPROMStart booted) (g_pucEEPROMEnd booted)
               (g_ulEEPROMPgSize booted) /\
  GetActivePageCount booted
  = Some (Z.of_nat (active_count (flash booted) (pages_of booted)) mod 256,
          booted) /\
  GetActivePageCount booted = Some (1, booted).
Proof.
  destruct booted_facts as (_ & Hwf & H1 & _).
  pose proof (wf_config booted Hwf) as Hcfg.
  split; [exact Hcfg|].
  destruct (page_counts booted Hcfg) as (Ha & _ & _ & _).
  split; [exact Ha|]. rewrite Ha, (one_active_count booted Hwf H1). reflexivity.
Defined.

(** X3.  GetNextAvailEntry leaves the state alone and returns the address
    of the first entry slot of the active page that reads 0xFFFFFFFF, or
    the address just past the page when no slot does. *)
Theorem GetNextAvailEntry_first_erased s :
  valid_config (g_pucEEPROMStart s) (g_pucEEPROMEnd s) (g_ulEEPROMPgSize s) ->
  is_page (g_pucEEPROMStart s) (g_pucEEPROMEnd s) (g_ulEEPROMPgSize s)
          (g_pucActivePage s) ->
  exists j,
    0 <= j <= slots_per_page (g_ulEEPROMPgSize s) /\
    GetNextAvailEntry s = Some (slot_addr (g_pucActivePage s) j, s) /\
    (forall i, 0 <= i < j ->
               flash s (slot_addr (g_pucActivePage s) i) <> ERASED_WORD) /\
    (j < slots_per_page (g_ulEEPROMPgSize s) ->
     flash s (slot_addr (g_pucActivePage s) j) = ERASED_WORD).
Proof. exact (GetNextAvailEntry_scan s). Qed.

Lemma GetNextAvailEntry_first_erased_witness :
  valid_config (g_pucEEPROMStart filled) (g_pucEEPROMEnd filled)
               (g_ulEEPROMPgSize filled) /\
  is_page (g_pucEEPROMStart filled) (g_pucEEPROMEnd filled)
          (g_ulEEPROMPgSize filled) (g_pucActivePage filled) /\
  GetNextAvailEntry filled = Some (g_pucNextAvailEntry filled, filled) /\
  exists j,
    0 <= j <= slots_per_page (g_ulEEPROMPgSize filled) /\
    GetNextAvailEntry filled
    = Some (slot_addr (g_pucActivePage filled) j, filled).
Proof.
  destruct filled_facts as (_ & Hwf & _).
  pose proof (wf_config filled Hwf) as Hcfg.
  pose proof (wf_is_page filled Hwf) as Ha.
  split; [exact Hcfg|]. split; [exact Ha|].
  split; [exact (GetNextAvailEntry_wf filled Hwf)|].
  destruct (GetNextAvailEntry_first_erased filled Hcfg Ha) as (j & Hj & Hrun & _).
  exists j. split; [exact Hj|exact Hrun].
Defined.

(** X4.  GetMostRecentlyUsedPage leaves the state alone.  It returns a
    used page whose counter is above 0 and is the largest counter of a
    used page, or, when no used page has a counter above 0, its initial
    value 0xFFFFFFFF. *)
Theorem GetMostRecentlyUsedPage_max s :
  valid_config (g_pucEEPROMStart s) (g_pucEEPROMEnd s) (g_ulEEPROMPgSize s) ->
  exists r,
    GetMostRecentlyUsedPage s = Some (r, s) /\
    ((r = 0xFFFFFFFF /\
      forall p, In p (pages_of s) -> is_used (flash s) p = true ->
                flash s p <= 0) \/
     (In r (pages_of s) /\ is_used (flash s) r = true /\ 0 < flash s r /\
      forall p, In p (pages_of s) -> is_used (flash s) p = true ->
                flash s p <= flash s r)).
Proof. exact (GetMostRecentlyUsedPage_spec s). Qed.

Lemma GetMostRecentlyUsedPage_max_witness :
  valid_config (g_pucEEPROMStart booted) (g_pucEEPROMEnd booted)
               (g_ulEEPROMPgSize booted) /\
  exists r, GetMostRecentlyUsedPage booted = Some (r, booted).
Proof.
  destruct booted_facts as (_ & Hwf & _).
  pose proof (wf_config booted Hwf) as Hcfg.
  split; [exact Hcfg|].
  destruct (GetMostRecentlyUsedPage_max booted Hcfg) as (r & Hrun & _).
  exists r. exact Hrun.
Defined.

(** X5.  SoftEEPROMInit rejects a region that ends beyond the flash with
    ERR_RANGE before it touches anything.  With three or more pages marked
    active (as counted modulo 256) it returns ERR_ACTIVE_PG_CNT: the region
    globals are overwritten by then, the medium, the active page, the
    next-available pointer and the initialized flag are not. *)
Theorem init_rejects :
  (forall s ulStart ulEnd ulSize,
      ulFlashSize s < ulEnd ->
      SoftEEPROMInit ulStart ulEnd ulSize s = Some (ERR_RANGE, s)) /\
  (forall s ulStart ulEnd ulSize,
      valid_config ulStart ulEnd ulSize ->
      ulEnd <= ulFlashSize s ->
      3 <= Z.of_nat (active_count (flash s)
                       (region_pages ulStart ulEnd ulSize)) mod 256 ->
      SoftEEPROMInit ulStart ulEnd ulSize s
      = Some (ERR_ACTIVE_PG_CNT, set_region ulStart ulEnd ulSize s)).
Proof.
  split.
  - intros s st en sz H. rewrite SoftEEPROMInit_unfold.
    destruct (Z.gtb_spec en (ulFlashSize s)); [reflexivity|lia].
  - intros s st en sz Hcfg Hfl Hcnt. rewrite SoftEEPROMInit_unfold.
    destruct (Z.gtb_spec en (ulFlashSize s)); [lia|].
    rewrite !land_boundary by (destruct Hcfg; assumption).
    set (s1 := set_region st en sz s).
    assert (Hcfg1 : valid_config (g_pucEEPROMStart s1) (g_pucEEPROMEnd s1)
                                 (g_ulEEPROMPgSize s1)) by exact Hcfg.
    unfold init_recover, bind. rewrite (GetActivePageCount_eq s1 Hcfg1).
    change (pages_of s1) with (region_pages st en sz).
    change (flash s1) with (flash s). unfold u8. change (2 ^ 8) with 256.
    set (n := Z.of_nat _ mod 256) in *.
    destruct (Z.eqb_spec n 0); [lia|].
    destruct (Z.eqb_spec n 1); [lia|].
    destruct (Z.eqb_spec n 2); [lia|]. reflexivity.
Qed.

Lemma init_rejects_witness :
  ulFlashSize (power_on blank) < 0x50000 /\
  SoftEEPROMInit 0x3D000 0x50000 0x400 (power_on blank)
  = Some (ERR_RANGE, power_on blank) /\
  valid_config EEPROM_START_ADDR EEPROM_END_ADDR EEPROM_PAGE_SIZE /\
  EEPROM_END_ADDR <= ulFlashSize (power_on three_active) /\
  3 <= Z.of_nat (active_count (flash (power_on three_active))
                   (region_pages EEPROM_START_ADDR EEPROM_END_ADDR
                                 EEPROM_PAGE_SIZE)) mod 256 /\
  boot three_active
  = Some (ERR_ACTIVE_PG_CNT,
          set_region EEPROM_START_ADDR EEPROM_END_ADDR EEPROM_PAGE_SIZE
                     (power_on three_active)).
Proof.
  destruct init_rejects as (Hrange & Hcount).
  assert (H1 : ulFlashSize (power_on blank) < 0x50000) by reflexivity.
  assert (H2 : EEPROM_END_ADDR <= ulFlashSize (power_on three_active))
    by (vm_compute; discriminate).
  assert (H3 : 3 <= Z.of_nat (active_count (flash (power_on three_active))
                        (region_pages EEPROM_START_ADDR EEPROM_END_ADDR
                                      EEPROM_PAGE_SIZE)) mod 256)
    by (vm_compute; discriminate).
  split; [exact H1|]. split; [exact (Hrange _ _ _ _ H1)|].
  split; [exact example_config|]. split; [exact H2|]. split; [exact H3|].
  exact (Hcount _ _ _ _ example_config H2 H3).
Defined.

(** X6.  Restart.  When the engine state [s] satisfies the engine
    invariant, its medium has exactly its active page marked active, and
    the page before the active one is not used or carries the preceding
    counter value, then SoftEEPROMInit with the same region, run from any
    state [s0] holding the same medium, succeeds without changing the
    medium and recovers the active page and g_pucNextAvailEntry of [s]:
    every SoftEEPROMRead answers as it did before the restart. *)
Theorem init_restores_engine s s0 :
  wf s -> one_active s -> prev_ok s ->
  flash s0 = flash s ->
  g_pucEEPROMEnd s <= ulFlashSize s0 ->
  SoftEEPROMInit (g_pucEEPROMStart s) (g_pucEEPROMEnd s) (g_ulEEPROMPgSize s) s0
  = Some (0, restarted s s0) /\
  wf (restarted s s0) /\
  forall k, fst <$> SoftEEPROMRead k (restarted s s0)
            = fst <$> SoftEEPROMRead k s.
Proof. exact (init_restart_spec s s0). Qed.

Lemma init_restores_engine_witness :
  wf filled /\ one_active filled /\ prev_ok filled /\
  flash (power_on (flash filled)) = flash filled /\
  g_pucEEPROMEnd filled <= ulFlashSize (power_on (flash filled)) /\
  SoftEEPROMInit (g_pucEEPROMStart filled) (g_pucEEPROMEnd filled)
                 (g_ulEEPROMPgSize filled) (power_on (flash filled))
  = Some (0, restarted filled (power_on (flash filled))).
Proof.
  destruct filled_restartable as ((Hwf & H1 & Hprev) & _ & Hsize & _).
  split; [exact Hwf|]. split; [exact H1|]. split; [exact Hprev|].
  split; [exact (flash_power_on (flash filled))|]. split; [exact Hsize|].
  exact (proj1 (init_restores_engine filled (power_on (flash filled))
                  Hwf H1 Hprev (flash_power_on (flash filled)) Hsize)).
Defined.

(** X7.  The condition of X6 is an invariant of the engine.  SoftEEPROMInit
    on a medium without active and used pages establishes it;
    SoftEEPROMWrite with a valid key and SoftEEPROMClear succeed and keep
    it, as long as the counter of the active page is below 0xFFFFFFFE. *)
Theorem restartable_invariant :
  (forall s ulStart ulEnd ulSize,
      valid_config ulStart ulEnd ulSize ->
      ulEnd <= ulFlashSize s ->
      active_count (flash s) (region_pages ulStart ulEnd ulSize) = 0%nat ->
      used_count (flash s) (region_pages ulStart ulEnd ulSize) = 0%nat ->
      exists s', SoftEEPROMInit ulStart ulEnd ulSize s = Some (0, s') /\
                 restartable s' /\ generation_ok s') /\
  (forall s k v,
      restartable s -> generation_ok s ->
      0 <= k < NUM_IDS -> 0 <= v < 2 ^ 16 ->
      exists s', SoftEEPROMWrite k v s = Some (0, s') /\ restartable s') /\
  (forall s,
      restartable s -> generation_ok s ->
      exists s', SoftEEPROMClear s = Some (0, s') /\ restartable s').
Proof.
  split; [exact restartable_fresh|]. split; [exact restartable_write|].
  exact restartable_clear.
Qed.

Lemma restartable_invariant_witness :
  (valid_config EEPROM_START_ADDR EEPROM_END_ADDR EEPROM_PAGE_SIZE /\
   EEPROM_END_ADDR <= ulFlashSize (power_on blank) /\
   active_count blank (region_pages EEPROM_START_ADDR EEPROM_END_ADDR
                                    EEPROM_PAGE_SIZE) = 0%nat /\
   used_count blank (region_pages EEPROM_START_ADDR EEPROM_END_ADDR
                                  EEPROM_PAGE_SIZE) = 0%nat /\
   exists s', boot blank = Some (0, s') /\ restartable s') /\
  (restartable filled /\ generation_ok filled /\
   (exists s', SoftEEPROMWrite 5 1 filled = Some (0, s') /\ restartable s') /\
   (exists s', SoftEEPROMClear filled = Some (0, s') /\ restartable s')).
Proof.
  destruct restartable_invariant as (Hinit & Hwrite & Hclear).
  destruct filled_restartable as (Hr & Hgen & _ & _).
  split.
  - split; [exact example_config|]. split; [vm_compute; discriminate|].
    split; [reflexivity|]. split; [reflexivity|].
    destruct (Hinit (power_on blank) EEPROM_START_ADDR EEPROM_END_ADDR
                    EEPROM_PAGE_SIZE example_config)
      as (s' & Hrun & Hr' & _);
      [vm_compute; discriminate|reflexivity|reflexivity|].
    exists s'. split; [exact Hrun|exact Hr'].
  - split; [exact Hr|]. split; [exact Hgen|]. split.
    + destruct (Hwrite filled 5 1 Hr Hgen) as (s' & Hrun & Hr');
        [unfold NUM_IDS, MAX_SOFTEEPROM_IDS; lia|lia|].
      exists s'. split; [exact Hrun|exact Hr'].
    + destruct (Hclear filled Hr Hgen) as (s' & Hrun & Hr').
      exists s'. split; [exact Hrun|exact Hr'].
Defined.

(** X8.  A value written with SoftEEPROMWrite survives a restart: after the
    write, SoftEEPROMInit with the same region on the medium the write left
    succeeds, SoftEEPROMRead of the key returns the value as found, and the
    other keys read as they did before the write. *)
Theorem write_survives_restart s k v :
  restartable s -> generation_ok s ->
  0 <= k < NUM_IDS -> 0 <= v < 2 ^ 16 ->
  exists s1,
    SoftEEPROMWrite k v s = Some (0, s1) /\
    forall s0,
      flash s0 = flash s1 -> g_pucEEPROMEnd s <= ulFlashSize s0 ->
      exists s2,
        SoftEEPROMInit (g_pucEEPROMStart s) (g_pucEEPROMEnd s)
                       (g_ulEEPROMPgSize s) s0 = Some (0, s2) /\
        SoftEEPROMRead k s2 = Some ((0, Some (v, true)), s2) /\
        forall k', 0 <= k' < NUM_IDS -> k' <> k ->
                   fst <$> SoftEEPROMRead k' s2 = fst <$> SoftEEPROMRead k' s.
Proof. exact (write_restart_spec s k v). Qed.

Lemma write_survives_restart_witness :
  restartable filled /\ generation_ok filled /\
  0 <= 5 < NUM_IDS /\ 0 <= 0xBEEF < 2 ^ 16 /\
  exists s1,
    SoftEEPROMWrite 5 0xBEEF filled = Some (0, s1) /\
    exists s2,
      SoftEEPROMInit (g_pucEEPROMStart filled) (g_pucEEPROMEnd filled)
                     (g_ulEEPROMPgSize filled) (power_on (flash s1))
      = Some (0, s2) /\
      SoftEEPROMRead 5 s2 = Some ((0, Some (0xBEEF, true)), s2).
Proof.
  destruct filled_restartable as (Hr & Hgen & Hsize & _).
  assert (Hk : 0 <= 5 < NUM_IDS) by (unfold NUM_IDS, MAX_SOFTEEPROM_IDS; lia).
  assert (Hv : 0 <= 0xBEEF < 2 ^ 16) by lia.
  split; [exact Hr|]. split; [exact Hgen|]. split; [exact Hk|].
  split; [exact Hv|].
  destruct (write_survives_restart filled 5 0xBEEF Hr Hgen Hk Hv)
    as (s1 & Hrun & Hrestart).
  exists s1. split; [exact Hrun|].
  destruct (Hrestart (power_on (flash s1)) eq_refl Hsize)
    as (s2 & Hinit & Hread & _).
  exists s2. split; [exact Hinit|exact Hread].
Defined.

(** X9.  Recovery after an interrupted clear, where it works: with no
    page marked active and a used page whose counter is above 0,
    SoftEEPROMInit takes a used page [r] with the largest counter, erases
    the page after it, activates that page with the counter of [r] plus 1
    and an empty entry area, and touches nothing outside that page; every
    key reads as not found. *)
Theorem init_after_interrupted_clear s ulStart ulEnd ulSize :
  valid_config ulStart ulEnd ulSize ->
  ulEnd <= ulFlashSize s ->
  active_count (flash s) (region_pages ulStart ulEnd ulSize) = 0%nat ->
  Z.of_nat (used_count (flash s) (region_pages ulStart ulEnd ulSize)) mod 256 <> 0 ->
  (exists p, In p (region_pages ulStart ulEnd ulSize) /\
             is_used (flash s) p = true /\ 0 < flash s p) ->
  exists r s',
    In r (region_pages ulStart ulEnd ulSize) /\
    is_used (flash s) r = true /\
    (forall p, In p (region_pages ulStart ulEnd ulSize) ->
               is_used (flash s) p = true -> flash s p <= flash s r) /\
    SoftEEPROMInit ulStart ulEnd ulSize s = Some (0, s') /\
    wf s' /\
    g_pucActivePage s' = (if r + ulSize <? ulEnd then r + ulSize else ulStart) /\
    g_pucNextAvailEntry s' = g_pucActivePage s' + 8 /\
    flash s' (g_pucActivePage s') = u32 (flash s r + 1) /\
    (forall x, ~ (g_pucActivePage s' <= x < g_pucActivePage s' + ulSize) ->
               flash s' x = flash s x) /\
    (forall k, 0 <= k < NUM_IDS ->
               SoftEEPROMRead k s' = Some ((0, Some (0xFFFF, false)), s')).
Proof.
  intros Hcfg Hfl Hact Hused (p0 & Hp0 & Hu0 & Hc0).
  pose proof (vc_size_lo _ _ _ Hcfg) as Hszlo.
  pose proof (vc_size_mod4 _ _ _ Hcfg) as Hsz4.
  set (s1 := set_region ulStart ulEnd ulSize s).
  assert (Hcfg1 : valid_config (g_pucEEPROMStart s1) (g_pucEEPROMEnd s1)
                               (g_ulEEPROMPgSize s1)) by exact Hcfg.
  destruct (GetMostRecentlyUsedPage_spec s1 Hcfg1) as (r & Hmru & Hr).
  change (pages_of s1) with (region_pages ulStart ulEnd ulSize) in Hr.
  change (flash s1) with (flash s) in Hr.
  destruct Hr as [[_ Hall]|(Hin & Hu & Hpos & Hmax)].
  { specialize (Hall p0 Hp0 Hu0). lia. }
  assert (Hrp : is_page ulStart ulEnd ulSize r)
    by (apply In_region_pages; assumption).
  destruct (next_page_is_page _ _ _ Hcfg _ Hrp) as [Hp' Hne].
  set (p' := if r + ulSize <? ulEnd then r + ulSize else ulStart) in *.
  destruct (PageErase_spec s1 p' Hcfg1 Hp') as (m2 & l2 & Herase & Hm2 & _).
  change (g_ulEEPROMPgSize s1) with ulSize in Hm2.
  change (flash s1) with (flash s) in Hm2.
  set (c := u32 (flash s r + 1)).
  set (m3 := store m2 p' c).
  set (s' := set_initialized true
               (set_next (p' + 8)
                  (set_active p' (set_flash m3 (with_medium m2 l2 s1))))).
  assert (Hr0 : valid_ptr r = true).
  { replace r with (r + 0) by lia.
    apply (page_word_valid _ _ _ Hcfg _ _ Hrp); [lia|lia|reflexivity]. }
  assert (Hm2in : forall x, p' <= x < p' + ulSize -> m2 x = ERASED_WORD).
  { intros x Hx. rewrite Hm2. zb. }
  assert (Hm2out : forall x, ~ (p' <= x < p' + ulSize) -> m2 x = flash s x).
  { intros x Hx. rewrite Hm2. zb. }
  assert (Hc : 0 <= c < 2 ^ 32) by (unfold c, u32; apply Z.mod_pos_bound; lia).
  assert (Hrun : SoftEEPROMInit ulStart ulEnd ulSize s = Some (0, s')).
  { rewrite SoftEEPROMInit_unfold.
    destruct (Z.gtb_spec ulEnd (ulFlashSize s)); [lia|].
    rewrite !land_boundary by (destruct Hcfg; assumption). fold s1.
    assert (Hrec : init_recover s1 =
                   Some (0, set_next (p' + 8)
                              (set_active p' (set_flash m3 (with_medium m2 l2 s1))))).
    { unfold init_recover. unfold bind at 1.
      rewrite (GetActivePageCount_eq s1 Hcfg1).
      change (pages_of s1) with (region_pages ulStart ulEnd ulSize).
      change (flash s1) with (flash s). rewrite Hact.
      change (u8 (Z.of_nat 0) =? 0) with true. cbv iota.
      unfold bind at 1. rewrite (GetUsedPageCount_eq s1 Hcfg1).
      change (pages_of s1) with (region_pages ulStart ulEnd ulSize).
      change (flash s1) with (flash s). unfold u8. change (2 ^ 8) with 256.
      destruct (Z.eqb_spec (Z.of_nat (used_count (flash s)
                  (region_pages ulStart ulEnd ulSize)) mod 256) 0); [contradiction|].
      unfold init_after_clear. unfold bind at 1. rewrite Hmru.
      unfold bind at 1. rewrite (load_eq _ _ Hr0).
      change (flash s1 r) with (flash s r). fold c.
      unfold bind at 1. rewrite next_page_eq.
      change (g_ulEEPROMPgSize s1) with ulSize.
      change (g_pucEEPROMEnd s1) with ulEnd.
      change (g_pucEEPROMStart s1) with ulStart. fold p'.
      unfold init_activate. unfold bind at 1. rewrite Herase. cbn [negb Z.eqb].
      unfold bind at 1. rewrite PageDataWrite_word. cbn [negb Z.eqb].
      change (flash (with_medium m2 l2 s1)) with m2.
      rewrite (Hm2in p') by lia. rewrite land_erased by exact Hc.
      fold m3. reflexivity. }
    rewrite Hrec. reflexivity. }
  assert (Hwf : wf s').
  { destruct Hp' as (Hs1 & Hs2 & Hs3).
    constructor; unfold s'; cbn; try assumption; try lia; try reflexivity.
    + rewrite Z.add_simpl_l. reflexivity.
    + intros i Hi0 Hi. unfold slot_addr in Hi. lia.
    + intros i Hi HiN. unfold m3. rewrite store_ne by (unfold slot_addr in *; lia).
      apply Hm2in. unfold slot_addr, slots_per_page in *. zlia. }
  exists r, s'. split; [exact Hin|]. split; [exact Hu|]. split; [exact Hmax|].
  split; [exact Hrun|]. split; [exact Hwf|]. split; [reflexivity|].
  split; [reflexivity|]. split; [apply store_eq|]. split.
  - intros x Hx. change (g_pucActivePage s') with p' in Hx.
    change (flash s' x) with (m3 x). unfold m3.
    rewrite store_ne by lia. apply Hm2out, Hx.
  - intros k Hk. rewrite (SoftEEPROMRead_eq s' Hwf k Hk).
    rewrite (view_empty s' k) by reflexivity. reflexivity.
Qed.

Lemma init_after_interrupted_clear_witness :
  valid_config EEPROM_START_ADDR EEPROM_END_ADDR EEPROM_PAGE_SIZE /\
  EEPROM_END_ADDR <= ulFlashSize (power_on retired_once) /\
  active_count (flash (power_on retired_once))
    (region_pages EEPROM_START_ADDR EEPROM_END_ADDR EEPROM_PAGE_SIZE) = 0%nat /\
  Z.of_nat (used_count (flash (power_on retired_once))
              (region_pages EEPROM_START_ADDR EEPROM_END_ADDR EEPROM_PAGE_SIZE))
    mod 256 <> 0 /\
  (exists p, In p (region_pages EEPROM_START_ADDR EEPROM_END_ADDR
                                EEPROM_PAGE_SIZE) /\
             is_used (flash (power_on retired_once)) p = true /\
             0 < flash (power_on retired_once) p) /\
  exists s', boot retired_once = Some (0, s') /\
             flash s' (g_pucActivePage s') = 2.
Proof.
  assert (H1 : EEPROM_END_ADDR <= ulFlashSize (power_on retired_once))
    by (vm_compute; discriminate).
  assert (H2 : active_count (flash (power_on retired_once))
                 (region_pages EEPROM_START_ADDR EEPROM_END_ADDR
                               EEPROM_PAGE_SIZE) = 0%nat)
    by (vm_compute; reflexivity).
  assert (H3 : Z.of_nat (used_count (flash (power_on retired_once))
                 (region_pages EEPROM_START_ADDR EEPROM_END_ADDR
                               EEPROM_PAGE_SIZE)) mod 256 <> 0)
    by (vm_compute; discriminate).
  assert (H4 : exists p, In p (region_pages EEPROM_START_ADDR EEPROM_END_ADDR
                                            EEPROM_PAGE_SIZE) /\
                         is_used (flash (power_on retired_once)) p = true /\
                         0 < flash (power_on retired_once) p).
  { exists EEPROM_START_ADDR. split; [vm_compute; auto|].
    split; vm_compute; reflexivity. }
  split; [exact example_config|]. split; [exact H1|]. split; [exact H2|].
  split; [exact H3|]. split; [exact H4|].
  destruct (init_after_interrupted_clear (power_on retired_once)
              EEPROM_START_ADDR EEPROM_END_ADDR EEPROM_PAGE_SIZE
              example_config H1 H2 H3 H4)
    as (r & s' & Hin & Hu & Hmax & Hrun & _ & _ & _ & Hgen & _).
  exists s'. split; [exact Hrun|]. rewrite Hgen.
  assert (Hr : r = EEPROM_START_ADDR).
  { assert (Hpages : region_pages EEPROM_START_ADDR EEPROM_END_ADDR
                                  EEPROM_PAGE_SIZE
                     = [0x3D000; 0x3D400; 0x3D800; 0x3DC00])
      by (vm_compute; reflexivity).
    rewrite Hpages in Hin. cbn [In] in Hin.
    destruct Hin as [H|[H|[H|[H|[]]]]]; rewrite <- H in Hu |- *;
      [reflexivity|vm_compute in Hu; discriminate..]. }
  rewrite Hr. vm_compute. reflexivity.
Defined.

(** X10.  Recovery with one active page whose predecessor is used but
    does not carry the preceding counter value: SoftEEPROMInit does not
    keep the active page.  It erases it, activates it again with the
    counter of the used page plus 1 and an empty entry area; whatever the
    page held is gone, and every key reads as not found. *)
Theorem init_discards_mismatched_page s ulStart ulEnd ulSize a :
  valid_config ulStart ulEnd ulSize ->
  ulEnd <= ulFlashSize s ->
  In a (region_pages ulStart ulEnd ulSize) ->
  (forall p, In p (region_pages ulStart ulEnd ulSize) ->
             is_active (flash s) p = (p =? a)) ->
  let q := if a =? ulStart then ulEnd - ulSize else a - ulSize in
  is_used (flash s) q = true ->
  flash s q <> u32 (flash s a - 1) ->
  exists s',
    SoftEEPROMInit ulStart ulEnd ulSize s = Some (0, s') /\
    wf s' /\
    g_pucActivePage s' = a /\
    g_pucNextAvailEntry s' = a + 8 /\
    flash s' a = u32 (flash s q + 1) /\
    (forall x, a < x < a + ulSize -> flash s' x = ERASED_WORD) /\
    (forall x, ~ (a <= x < a + ulSize) -> flash s' x = flash s x) /\
    (forall k, 0 <= k < NUM_IDS ->
               SoftEEPROMRead k s' = Some ((0, Some (0xFFFF, false)), s')).
Proof.
  intros Hcfg Hfl Hin H1 q Hused Hmis.
  pose proof (vc_size_lo _ _ _ Hcfg) as Hszlo.
  pose proof (vc_size_mod4 _ _ _ Hcfg) as Hsz4.
  set (s1 := set_region ulStart ulEnd ulSize s).
  assert (Hcfg1 : valid_config (g_pucEEPROMStart s1) (g_pucEEPROMEnd s1)
                               (g_ulEEPROMPgSize s1)) by exact Hcfg.
  assert (Ha : is_page ulStart ulEnd ulSize a)
    by (apply In_region_pages; assumption).
  pose proof (prev_page_is_page s1 a Hcfg1 Ha) as Hq.
  pose proof (prev_page_ne s1 a Hcfg1 Ha) as Hqa.
  change (prev_page s1 a) with q in Hq, Hqa.
  change (g_pucEEPROMStart s1) with ulStart in Hq.
  change (g_pucEEPROMEnd s1) with ulEnd in Hq.
  change (g_ulEEPROMPgSize s1) with ulSize in Hq.
  pose proof (pages_disjoint _ _ _ Hcfg _ _ Hq Ha Hqa) as Hdis.
  destruct (PageErase_spec s1 a Hcfg1 Ha) as (m2 & l2 & Herase & Hm2 & _).
  change (g_ulEEPROMPgSize s1) with ulSize in Hm2.
  change (flash s1) with (flash s) in Hm2.
  set (c := u32 (flash s q + 1)).
  set (m3 := store m2 a c).
  set (s' := set_initialized true
               (set_next (a + 8)
                  (set_active a (set_flash m3 (with_medium m2 l2 s1))))).
  assert (Hq0 : valid_ptr q = true).
  { replace q with (q + 0) by lia.
    apply (page_word_valid _ _ _ Hcfg _ _ Hq); [lia|lia|reflexivity]. }
  assert (Hq4 : valid_ptr (q + 4) = true).
  { apply (page_word_valid _ _ _ Hcfg _ _ Hq); [lia|lia|reflexivity]. }
  assert (Ha0 : valid_ptr a = true).
  { replace a with (a + 0) by lia.
    apply (page_word_valid _ _ _ Hcfg _ _ Ha); [lia|lia|reflexivity]. }
  assert (Hm2in : forall x, a <= x < a + ulSize -> m2 x = ERASED_WORD).
  { intros x Hx. rewrite Hm2. zb. }
  assert (Hm2out : forall x, ~ (a <= x < a + ulSize) -> m2 x = flash s x).
  { intros x Hx. rewrite Hm2. zb. }
  assert (Hc : 0 <= c < 2 ^ 32) by (unfold c, u32; apply Z.mod_pos_bound; lia).
  assert (Hrun : SoftEEPROMInit ulStart ulEnd ulSize s = Some (0, s')).
  { rewrite SoftEEPROMInit_unfold.
    destruct (Z.gtb_spec ulEnd (ulFlashSize s)); [lia|].
    rewrite !land_boundary by (destruct Hcfg; assumption). fold s1.
    assert (Hrec : init_recover s1 =
                   Some (0, set_next (a + 8)
                              (set_active a (set_flash m3 (with_medium m2 l2 s1))))).
    { unfold init_recover. unfold bind at 1.
      rewrite (GetActivePageCount_eq s1 Hcfg1).
      change (pages_of s1) with (region_pages ulStart ulEnd ulSize).
      change (flash s1) with (flash s).
      unfold active_count. rewrite (filter_length_ext _ _ _ H1).
      rewrite filter_length_one;
        [|apply region_pages_NoDup, Hcfg|exact Hin].
      change (u8 (Z.of_nat 1) =? 0) with false.
      change (u8 (Z.of_nat 1) =? 1) with true. cbv iota.
      unfold init_one_active. unfold bind at 1.
      rewrite (eeprom_pages_eq s1 Hcfg1). unfold bind at 1.
      unfold loop_end, bind at 1, gets at 1, bind at 1, gets at 1, ret at 1.
      unfold bind at 1.
      rewrite (find_active_page_eq s1 _ _ Hcfg1) by auto.
      change (pages_of s1) with (region_pages ulStart ulEnd ulSize).
      change (flash s1) with (flash s).
      rewrite (find_the_one _ _ a H1 Hin).
      unfold bind at 1, gets at 1. unfold bind at 1, gets at 1.
      unfold bind at 1, gets at 1.
      change (g_pucEEPROMStart s1) with ulStart.
      change (g_pucEEPROMEnd s1) with ulEnd.
      change (g_ulEEPROMPgSize s1) with ulSize. fold q.
      unfold bind at 1. rewrite (PageIsUsed_eq _ _ Hq0 Hq4).
      change (flash s1) with (flash s). rewrite Hused.
      unfold bind at 1. rewrite (load_eq _ _ Hq0).
      unfold bind at 1. rewrite (load_eq _ _ Ha0).
      change (flash s1) with (flash s).
      destruct (Z.eqb_spec (flash s q) (u32 (flash s a - 1))); [contradiction|].
      unfold bind at 1. rewrite Herase. cbn [negb Z.eqb].
      unfold bind at 1. rewrite (load_eq _ _ Hq0).
      change (flash (with_medium m2 l2 s1)) with m2.
      rewrite (Hm2out q) by lia. fold c.
      unfold init_activate. unfold bind at 1. unfold ret at 1. cbn [negb Z.eqb].
      unfold bind at 1. rewrite PageDataWrite_word. cbn [negb Z.eqb].
      change (flash (with_medium m2 l2 s1)) with m2.
      rewrite (Hm2in a) by lia. rewrite land_erased by exact Hc.
      fold m3. reflexivity. }
    rewrite Hrec. reflexivity. }
  assert (Hwf : wf s').
  { destruct Ha as (Hs1 & Hs2 & Hs3).
    constructor; unfold s'; cbn; try assumption; try lia; try reflexivity.
    + rewrite Z.add_simpl_l. reflexivity.
    + intros i Hi0 Hi. unfold slot_addr in Hi. lia.
    + intros i Hi HiN. unfold m3. rewrite store_ne by (unfold slot_addr in *; lia).
      apply Hm2in. unfold slot_addr, slots_per_page in *. zlia. }
  exists s'. split; [exact Hrun|]. split; [exact Hwf|]. split; [reflexivity|].
  split; [reflexivity|]. split; [apply store_eq|]. split; [|split].
  - intros x Hx. change (flash s' x) with (m3 x). unfold m3.
    rewrite store_ne by lia. apply Hm2in. lia.
  - intros x Hx. change (flash s' x) with (m3 x). unfold m3.
    rewrite store_ne by lia. apply Hm2out, Hx.
  - intros k Hk. rewrite (SoftEEPROMRead_eq s' Hwf k Hk).
    rewrite (view_empty s' k) by reflexivity. reflexivity.
Qed.

Lemma init_discards_mismatched_page_witness :
  valid_config EEPROM_START_ADDR EEPROM_END_ADDR EEPROM_PAGE_SIZE /\
  EEPROM_END_ADDR <= ulFlashSize (power_on mismatched) /\
  In 0x3D400 (region_pages EEPROM_START_ADDR EEPROM_END_ADDR EEPROM_PAGE_SIZE) /\
  is_used mismatched 0x3D000 = true /\
  mismatched 0x3D000 <> u32 (mismatched 0x3D400 - 1) /\
  exists s', boot mismatched = Some (0, s') /\
             g_pucActivePage s' = 0x3D400 /\ flash s' 0x3D400 = 6.
Proof.
  assert (H1 : EEPROM_END_ADDR <= ulFlashSize (power_on mismatched))
    by (vm_compute; discriminate).
  assert (H2 : In 0x3D400 (region_pages EEPROM_START_ADDR EEPROM_END_ADDR
                                        EEPROM_PAGE_SIZE))
    by (vm_compute; auto).
  assert (H3 : forall p, In p (region_pages EEPROM_START_ADDR EEPROM_END_ADDR
                                            EEPROM_PAGE_SIZE) ->
                         is_active (flash (power_on mismatched)) p
                         = (p =? 0x3D400)).
  { assert (Hpages : region_pages EEPROM_START_ADDR EEPROM_END_ADDR
                                  EEPROM_PAGE_SIZE
                     = [0x3D000; 0x3D400; 0x3D800; 0x3DC00])
      by (vm_compute; reflexivity).
    rewrite Hpages. cbn [In].
    intros p [H|[H|[H|[H|[]]]]]; rewrite <- H; vm_compute; reflexivity. }
  assert (H4 : is_used mismatched 0x3D000 = true) by (vm_compute; reflexivity).
  assert (H5 : mismatched 0x3D000 <> u32 (mismatched 0x3D400 - 1))
    by (vm_compute; discriminate).
  split; [exact example_config|]. split; [exact H1|]. split; [exact H2|].
  split; [exact H4|]. split; [exact H5|].
  destruct (init_discards_mismatched_page (power_on mismatched)
              EEPROM_START_ADDR EEPROM_END_ADDR EEPROM_PAGE_SIZE 0x3D400
              example_config H1 H2 H3 H4 H5)
    as (s' & Hrun & _ & Ha & _ & Hgen & _).
  exists s'. split; [exact Hrun|]. split; [exact Ha|exact Hgen].
Defined.

(** X11.  Reading never changes the state: whenever SoftEEPROMRead or
    SoftEEPROM_WrapperRead returns, with or without an error, the medium
    and the engine's globals are what they were. *)
Theorem reads_leave_state :
  (forall k s, match SoftEEPROMRead k s with
               | Some (_, s') => s' = s
               | None => True
               end) /\
  (forall ERR_PAGE_RANGE a n s,
      match SoftEEPROM_WrapperRead ERR_PAGE_RANGE a n s with
      | Some (_, s') => s' = s
      | None => True
      end).
Proof.
  split.
  - intros k s. destruct (SoftEEPROMRead k s) as [[r s']|] eqn:E; [|exact I].
    exact (SoftEEPROMRead_state k s r s' E).
  - intros E a n s.
    destruct (SoftEEPROM_WrapperRead E a n s) as [[r s']|] eqn:Er; [|exact I].
    exact (SoftEEPROM_WrapperRead_state E a n s r s' Er).
Qed.

(** X12.  SoftEEPROMClear on an engine state satisfying the invariant
    succeeds: the page after the active one is erased and becomes the
    active page, with the old counter plus 1 and an empty entry area; the
    old page is marked used and otherwise kept, nothing else changes; every
    key reads as not found. *)
Theorem clear_starts_empty_page s :
  wf s ->
  let a := g_pucActivePage s in
  let p' := following_page s a in
  exists s',
    SoftEEPROMClear s = Some (0, s') /\
    wf s' /\
    g_pucActivePage s' = p' /\
    g_pucNextAvailEntry s' = p' + 8 /\
    flash s' p' = u32 (flash s a + 1) /\
    flash s' (a + 4) = 0 /\
    (forall x, ~ (p' <= x < p' + g_ulEEPROMPgSize s) -> x <> a + 4 ->
               flash s' x = flash s x) /\
    (forall k, 0 <= k < NUM_IDS ->
               SoftEEPROMRead k s' = Some ((0, Some (0xFFFF, false)), s')).
Proof.
  intros Hwf a p'.
  destruct (SoftEEPROMClear_spec s Hwf)
    as (m' & l & Hrun & Hwf' & Hview & Hl & Hin & Hp & Hp4 & _).
  exists (cleared m' l s). split; [exact Hrun|]. split; [exact Hwf'|].
  split; [reflexivity|]. split; [reflexivity|].
  rewrite Forall_forall in Hl.
  destruct (Hl m' (proj2 (list_elem_of_In _ _) Hin)) as (Hframe & Hused & _).
  split; [exact Hp|]. split; [exact Hused|]. split; [exact Hframe|].
  intros k Hk. rewrite (SoftEEPROMRead_eq _ Hwf' k Hk), Hview. reflexivity.
Qed.

Lemma clear_starts_empty_page_witness :
  wf filled /\
  exists s',
    SoftEEPROMClear filled = Some (0, s') /\
    SoftEEPROMRead 0 s' = Some ((0, Some (0xFFFF, false)), s').
Proof.
  destruct filled_facts as (_ & Hwf & _).
  split; [exact Hwf|].
  destruct (clear_starts_empty_page filled Hwf)
    as (s' & Hrun & _ & _ & _ & _ & _ & _ & Hread).
  exists s'. split; [exact Hrun|]. apply Hread.
  unfold NUM_IDS, MAX_SOFTEEPROM_IDS. lia.
Defined.

(** X13.  SoftEEPROMWrite with a valid key on a page with room appends
    one word: the slot at g_pucNextAvailEntry receives 65536 * usID +
    usData, no other word of the medium changes, the medium is programmed
    once and not erased, and g_pucNextAvailEntry advances by 4. *)
Theorem write_appends_one_word s k v :
  wf s ->
  g_pucNextAvailEntry s < g_pucActivePage s + g_ulEEPROMPgSize s ->
  0 <= k < NUM_IDS -> 0 <= v < 2 ^ 16 ->
  exists s',
    SoftEEPROMWrite k v s = Some (0, s') /\
    (forall x, flash s' x = if x =? g_pucNextAvailEntry s
                            then 65536 * k + v else flash s x) /\
    steps_of s s' = [flash s'] /\
    g_pucNextAvailEntry s' = g_pucNextAvailEntry s + 4 /\
    g_pucActivePage s' = g_pucActivePage s.
Proof.
  intros Hwf Hroom Hk Hv.
  exists (appended k v s).
  split; [apply SoftEEPROMWrite_append; assumption|].
  split.
  - intros x. cbn. unfold store.
    destruct (x =? g_pucNextAvailEntry s); [|reflexivity].
    apply encode_add; lia.
  - split; [apply steps_of_app; reflexivity|]. split; reflexivity.
Qed.

Lemma write_appends_one_word_witness :
  wf booted /\
  g_pucNextAvailEntry booted < g_pucActivePage booted + g_ulEEPROMPgSize booted /\
  0 <= 5 < NUM_IDS /\ 0 <= 7 < 2 ^ 16 /\
  exists s',
    SoftEEPROMWrite 5 7 booted = Some (0, s') /\
    flash s' (g_pucNextAvailEntry booted) = 65536 * 5 + 7.
Proof.
  destruct booted_facts as (_ & Hwf & _ & _ & Hnext).
  destruct booted_restartable as (_ & _ & _ & _ & Hsz & _).
  assert (Hroom : g_pucNextAvailEntry booted
                  < g_pucActivePage booted + g_ulEEPROMPgSize booted)
    by (rewrite Hnext, Hsz; unfold EEPROM_PAGE_SIZE; lia).
  assert (Hk : 0 <= 5 < NUM_IDS) by (unfold NUM_IDS, MAX_SOFTEEPROM_IDS; lia).
  assert (Hv : 0 <= 7 < 2 ^ 16) by lia.
  split; [exact Hwf|]. split; [exact Hroom|]. split; [exact Hk|].
  split; [exact Hv|].
  destruct (write_appends_one_word booted 5 7 Hwf Hroom Hk Hv)
    as (s' & Hrun & Hflash & _).
  exists s'. split; [exact Hrun|]. rewrite Hflash, Z.eqb_refl. reflexivity.
Defined.

(** X14.  SoftEEPROMWrite with a valid key on a full page swaps the page
    first: the page after the active one becomes the active page with the
    old counter plus 1, the old page is marked used, and nothing outside
    the new page and that status word changes.  The new page then holds
    at most NUM_IDS copied entries and the new one, so it is not full. *)
Theorem write_on_full_page_swaps s k v :
  wf s ->
  g_pucActivePage s + g_ulEEPROMPgSize s <= g_pucNextAvailEntry s ->
  0 <= k < NUM_IDS -> 0 <= v < 2 ^ 16 ->
  let a := g_pucActivePage s in
  let p' := following_page s a in
  exists s',
    SoftEEPROMWrite k v s = Some (0, s') /\
    wf s' /\
    g_pucActivePage s' = p' /\
    flash s' p' = u32 (flash s a + 1) /\
    flash s' (a + 4) = 0 /\
    p' + 12 <= g_pucNextAvailEntry s' <= p' + 8 + 4 * (NUM_IDS + 1) /\
    (forall x, ~ (p' <= x < p' + g_ulEEPROMPgSize s) -> x <> a + 4 ->
               flash s' x = flash s x).
Proof. exact (SoftEEPROMWrite_swap_spec s k v). Qed.

Lemma write_on_full_page_swaps_witness :
  wf filled /\
  g_pucActivePage filled + g_ulEEPROMPgSize filled <= g_pucNextAvailEntry filled /\
  0 <= 5 < NUM_IDS /\ 0 <= 7 < 2 ^ 16 /\
  exists s',
    SoftEEPROMWrite 5 7 filled = Some (0, s') /\
    g_pucActivePage s' = following_page filled (g_pucActivePage filled).
Proof.
  destruct filled_facts as (_ & Hwf & Hfull).
  assert (Hk : 0 <= 5 < NUM_IDS) by (unfold NUM_IDS, MAX_SOFTEEPROM_IDS; lia).
  assert (Hv : 0 <= 7 < 2 ^ 16) by lia.
  split; [exact Hwf|]. split; [exact Hfull|]. split; [exact Hk|].
  split; [exact Hv|].
  destruct (write_on_full_page_swaps filled 5 7 Hwf Hfull Hk Hv)
    as (s' & Hrun & _ & Ha & _).
  exists s'. split; [exact Hrun|exact Ha].
Defined.

(** X15.  The wrapper as a byte store.  For bytes [data] and a byte range
    below address 254, SoftEEPROM_WrapperWrite returns 0, and
    SoftEEPROM_WrapperRead of the same range then returns 0 and exactly
    [data], whatever the alignment of the range (a first odd or a last
    single byte is merged into the word stored for its key); reading a
    range that does not meet the written one returns what it returned
    before the write. *)
Theorem wrapper_write_then_read E s addr data :
  wf s -> 0 <= addr -> Forall is_byte data ->
  addr + Z.of_nat (length data) <= 254 ->
  exists s',
    SoftEEPROM_WrapperWrite E addr (Z.of_nat (length data)) data s
    = Some (WReturn 0, s') /\
    wf s' /\
    SoftEEPROM_WrapperRead E addr (Z.of_nat (length data)) s'
    = Some ((WReturn 0, data), s') /\
    forall a n, 0 <= a -> 0 <= n -> a + n <= 254 ->
      a + n <= addr \/ addr + Z.of_nat (length data) <= a ->
      fst <$> SoftEEPROM_WrapperRead E a n s'
      = fst <$> SoftEEPROM_WrapperRead E a n s.
Proof.
  intros Hwf Ha Hb Hr.
  destruct (WrapperWrite_bytes (fun _ t => wf t)
              (fun _ t H => H) (fun _ t _ H => H)
              (fun _ t k v _ H Hk Hv => SoftEEPROMWrite_spec t k v H Hk Hv)
              E s addr data Hwf Ha Hb Hr)
    as (s' & Hrun & Hwf' & Hbytes).
  exists s'. split; [exact Hrun|]. split; [exact Hwf'|]. split.
  - rewrite (WrapperRead_bytes E s' _ _ Hwf') by lia.
    rewrite bytes_from_data; [reflexivity|].
    intros x Hx. rewrite Hbytes by lia.
    replace ((addr <=? x) && (x <? addr + Z.of_nat (length data))) with true
      by zb. reflexivity.
  - intros a n Ha0 Hn Han Hdis.
    rewrite (WrapperRead_bytes E s' _ _ Hwf'), (WrapperRead_bytes E s _ _ Hwf)
      by lia.
    cbn. do 2 f_equal. apply bytes_from_ext; [exact Ha0|].
    intros x Hx. rewrite Hbytes by lia.
    replace ((addr <=? x) && (x <? addr + Z.of_nat (length data))) with false
      by zb. reflexivity.
Qed.

Lemma wrapper_write_then_read_witness :
  wf booted /\ 0 <= 5 /\ Forall is_byte [0xC0; 0xA8; 0x00; 0x10; 0x7F] /\
  5 + Z.of_nat (length [0xC0; 0xA8; 0x00; 0x10; 0x7F]) <= 254 /\
  exists s',
    SoftEEPROM_WrapperWrite 0 5 5 [0xC0; 0xA8; 0x00; 0x10; 0x7F] booted
    = Some (WReturn 0, s') /\
    SoftEEPROM_WrapperRead 0 5 5 s'
    = Some ((WReturn 0, [0xC0; 0xA8; 0x00; 0x10; 0x7F]), s').
Proof.
  destruct booted_facts as (_ & Hwf & _).
  assert (Hb : Forall is_byte [0xC0; 0xA8; 0x00; 0x10; 0x7F])
    by (repeat constructor; unfold is_byte; lia).
  assert (Hr : 5 + Z.of_nat (length [0xC0; 0xA8; 0x00; 0x10; 0x7F]) <= 254)
    by (simpl; lia).
  split; [exact Hwf|]. split; [lia|]. split; [exact Hb|]. split; [exact Hr|].
  destruct (wrapper_write_then_read 0 booted 5 [0xC0; 0xA8; 0x00; 0x10; 0x7F]
              Hwf ltac:(lia) Hb Hr)
    as (s' & Hrun & _ & Hread & _).
  exists s'. split; [exact Hrun|exact Hread].
Defined.

(** X16.  Storage that was never written reads as 0xFF: on an engine whose
    active page has no entries (after a first start or a clear),
    SoftEEPROM_WrapperRead of a range below address 254 returns 0 and
    bytes that are all 0xFF, which is what enet_lwip.c tests to fall back
    to its default addresses. *)
Theorem unwritten_storage_reads_FF E s a n :
  wf s -> g_pucNextAvailEntry s = g_pucActivePage s + 8 ->
  0 <= a -> 0 <= n -> a + n <= 254 ->
  SoftEEPROM_WrapperRead E a n s
  = Some ((WReturn 0, replicate (Z.to_nat n) 0xFF), s).
Proof.
  intros Hwf Hempty Ha Hn Han.
  rewrite (WrapperRead_bytes E s _ _ Hwf) by lia. do 3 f_equal.
  assert (Hb : forall x, byte_at s x = 0xFF).
  { intros x. unfold byte_at, word_at. rewrite (view_empty s _ Hempty). cbn [read_out fst].
    destruct (x mod 2 =? 1); reflexivity. }
  unfold bytes_from, seqZ. rewrite <- list_fmap_compose.
  generalize (Z.to_nat n). intros m. generalize 0%nat.
  induction m as [|m IH]; intros i; [reflexivity|].
  cbn [seq fmap list_fmap replicate]. f_equal; [apply Hb|apply IH].
Qed.

Lemma unwritten_storage_reads_FF_witness :
  wf booted /\ g_pucNextAvailEntry booted = g_pucActivePage booted + 8 /\
  0 <= 0 /\ 0 <= 6 /\ 0 + 6 <= 254 /\
  SoftEEPROM_WrapperRead 0 0 6 booted
  = Some ((WReturn 0, [0xFF; 0xFF; 0xFF; 0xFF; 0xFF; 0xFF]), booted).
Proof.
  destruct booted_facts as (_ & Hwf & _ & _ & Hnext).
  split; [exact Hwf|]. split; [exact Hnext|].
  split; [lia|]. split; [lia|]. split; [lia|].
  exact (unwritten_storage_reads_FF 0 booted 0 6 Hwf Hnext
           ltac:(lia) ltac:(lia) ltac:(lia)).
Defined.

(** X17.  Settings survive a reset, as command.c and enet_lwip.c use the
    wrapper: after SoftEEPROM_WrapperWrite has stored [data], a restart
    (SoftEEPROMInit with the same region on the medium the write left)
    succeeds and SoftEEPROM_WrapperRead of the same range returns [data].
    The engine must be restartable before the write, and the counter of
    its active page must leave room for the page changes the write can
    cause. *)
Theorem settings_survive_reset E s addr data :
  restartable s ->
  0 <= flash s (g_pucActivePage s) ->
  flash s (g_pucActivePage s) + Z.of_nat (length data) < ERASED_WORD - 1 ->
  0 <= addr -> Forall is_byte data ->
  addr + Z.of_nat (length data) <= 254 ->
  exists s1,
    SoftEEPROM_WrapperWrite E addr (Z.of_nat (length data)) data s
    = Some (WReturn 0, s1) /\
    forall s0,
      flash s0 = flash s1 -> g_pucEEPROMEnd s <= ulFlashSize s0 ->
      exists s2,
        SoftEEPROMInit (g_pucEEPROMStart s) (g_pucEEPROMEnd s)
                       (g_ulEEPROMPgSize s) s0 = Some (0, s2) /\
        SoftEEPROM_WrapperRead E addr (Z.of_nat (length data)) s2
        = Some ((WReturn 0, data), s2).
Proof.
  intros Hr H0 H1 Ha Hb Hrange.
  assert (HI : durable s (Z.of_nat (length data)) s).
  { split; [exact Hr|]. split; [repeat split|]. split; assumption. }
  destruct (WrapperWrite_bytes (durable s) (durable_wf s) (durable_mono s)
              (durable_write s) E s addr data HI Ha Hb Hrange)
    as (s1 & Hrun & (Hr1 & (R1 & R2 & R3) & _) & Hbytes).
  exists s1. split; [exact Hrun|].
  intros s0 Hfl Hsize.
  destruct Hr1 as (Hwf1 & H11 & Hprev1).
  destruct (init_restart_spec s1 s0 Hwf1 H11 Hprev1 Hfl)
    as (Hinit & Hwf2 & _); [rewrite R2; exact Hsize|].
  rewrite R1, R2, R3 in Hinit.
  exists (restarted s1 s0). split; [exact Hinit|].
  rewrite (WrapperRead_bytes E _ _ _ Hwf2) by lia.
  do 3 f_equal.
  rewrite (bytes_from_ext s1) ; [|exact Ha|].
  - apply bytes_from_data. intros x Hx. rewrite Hbytes by lia.
    replace ((addr <=? x) && (x <? addr + Z.of_nat (length data))) with true
      by zb. reflexivity.
  - intros x Hx. unfold byte_at, word_at.
    rewrite !(view_restarted s1 s0 _ Hfl). reflexivity.
Qed.

Lemma settings_survive_reset_witness :
  restartable filled /\
  0 <= flash filled (g_pucActivePage filled) /\
  flash filled (g_pucActivePage filled)
  + Z.of_nat (length [0xAC; 0xDE; 0x48; 0x33; 0x56; 0x12]) < ERASED_WORD - 1 /\
  Forall is_byte [0xAC; 0xDE; 0x48; 0x33; 0x56; 0x12] /\
  exists s1,
    SoftEEPROM_WrapperWrite 0 0 6 [0xAC; 0xDE; 0x48; 0x33; 0x56; 0x12] filled
    = Some (WReturn 0, s1) /\
    exists s2,
      SoftEEPROMInit (g_pucEEPROMStart filled) (g_pucEEPROMEnd filled)
                     (g_ulEEPROMPgSize filled) (power_on (flash s1))
      = Some (0, s2) /\
      SoftEEPROM_WrapperRead 0 0 6 s2
      = Some ((WReturn 0, [0xAC; 0xDE; 0x48; 0x33; 0x56; 0x12]), s2).
Proof.
  destruct filled_restartable as (Hr & Hgen & Hsize & Hroom).
  assert (H0 : 0 <= flash filled (g_pucActivePage filled))
    by (unfold generation_ok in Hgen; lia).
  assert (H1 : flash filled (g_pucActivePage filled)
               + Z.of_nat (length [0xAC; 0xDE; 0x48; 0x33; 0x56; 0x12])
               < ERASED_WORD - 1).
  { simpl length. lia. }
  assert (Hb : Forall is_byte [0xAC; 0xDE; 0x48; 0x33; 0x56; 0x12])
    by (repeat constructor; unfold is_byte; lia).
  split; [exact Hr|]. split; [exact H0|]. split; [exact H1|].
  split; [exact Hb|].
  destruct (settings_survive_reset 0 filled 0
              [0xAC; 0xDE; 0x48; 0x33; 0x56; 0x12] Hr H0 H1 ltac:(lia) Hb
              ltac:(simpl; lia))
    as (s1 & Hrun & Hrestart).
  exists s1. split; [exact Hrun|].
  destruct (Hrestart (power_on (flash s1)) eq_refl Hsize) as (s2 & Hinit & Hread).
  exists s2. split; [exact Hinit|exact Hread].
Defined.
